(* ===== verification/_CoqProject ===== *)
-Q . S2P
Prelude.v
RustStr.v
NetworkPolicy.v
Crypto.v
Rating.v
Reconciliation.v
Ledger.v
Writer.v
LedgerInvariant.v
PostgresPlan.v
PostgresTables.v
ExactCache.v
Selection.v
RateLimit.v
ModelMapping.v
CandidateGeneration.v
Stream.v
ProviderErrors.v
GatewayErrors.v
Reservation.v
VirtualKeyLimits.v
GatewayAttempts.v
GatewayTrace.v
LoginLimit.v
Access.v
Credentials.v
PaymentProvider.v
PaymentTables.v
PaymentExecution.v
PaymentAccounting.v
