(* ===== verification/Prelude.v ===== *)
(** * Verification of an API gateway: billing, routing, streams, access, payments

    ** The program

    The repository is an API gateway for language model providers, written in
    Rust. A request comes in through [apps/gateway]; its model name is resolved
    and turned into route candidates ([crates/routing]: [candidate_generation],
    [model_mapping]), the limits of the virtual key ([apps/gateway/src/db.rs])
    and of the provider key ([rate_limit], [crates/db]) are reserved, a channel
    is selected ([selection]) and called, with a fallback to the next channel
    when the classified error permits it ([errors], [crates/adapters]). Streamed
    answers go through the decoder of [crates/stream], which also decides
    whether the stream completed. The reported token usage is priced and written
    to the ledger ([crates/billing-ledger]: [rating], [exact_cache],
    [pre_authorize], [ledger], [writer_contract], [postgres_execution]);
    [reconciliation] later compares requests and ledger. Operators work through
    [apps/control-plane], behind a login with a failure limit and roles; webhooks
    of a payment provider ([payment_provider], [admin.rs]) add credit to the
    wallets from which the gateway authorizes requests.

    This library models those parts as executable Rocq functions and proves what
    they promise. Definitions keep the names of the sources; a function that
    returns [Result] returns [result] with the error type of the source, code
    that mutates [self] returns the new state, loops are folds or fixpoints, SQL
    statements are functions on tables with the constraints of the schema,
    asynchronous handlers are sequences of effects whose outcomes the
    environment chooses.

    ** The files

    - [Prelude]: [Result] and its operators, iterator combinators, machine
      integers (Z with bounds, checked, saturating and wrapping operations),
      tactics ([inv_ok], [bool_to_prop], [width_lia], [decide_refl]), the hint
      database [rust], and lemmas on lists shared by all components.
    - [RustStr]: the part of [str], [u8] and formatting the sources use: byte
      lists, splitting, Unicode trimming, decimal parsing and printing, lossy
      UTF-8 decoding, ASCII case, string order.
    - [Crypto]: hexadecimal text, the comparison in constant time and HMAC over
      SHA-256, which is the class [Sha256] with the length of its digests.
    - [Rating] (billing-ledger/src/rating.rs): [FixedDecimal], its parser and
      printer, pricing rules from JSON, [rate_usage], usage extraction. The
      [serde_json] values are the class [SerdeJson] with its laws.
    - [Reconciliation] (reconciliation.rs): the report over request rows. The
      local variables of the loop are the record [ReconcileState], one iteration
      is [reconcile_row], the [BTreeMap] is a sorted association list.
    - [Ledger] (ledger.rs): entries, drafts and the planners of reserve, settle,
      refund and adjustment. The text of a uuid is the class [UuidDisplay]; its
      laws ([UuidDisplayLaws]) say that it is injective and made of hexadecimal
      digits and dashes.
    - [Writer] (writer_contract.rs): the consistent writer. Its state is
      [InMemoryConsistentLedgerWriter]; [plan_consistent_ledger_write] checks
      wallet, grants and budgets, [execute_consistent_ledger_write] applies.
    - [LedgerInvariant]: the writer as a step relation ([writer_step]) and the
      invariants of its runs.
    - [PostgresPlan] (postgres_execution.rs): the statement plan of a ledger
      write, its validation and the executor over any connection.
      [PostgresTables]: the tables, the eight statements and the executor in one
      transaction.
    - [ExactCache] (exact_cache.rs, pre_authorize.rs): cache decision, pricing of
      hits and misses, pre-authorization.
    - [Selection] (selection.rs): filters, order, weighted draw, trace affinity,
      decision snapshot.
    - [RateLimit] (rate_limit.rs): availability, token estimate, reservation
      plans, and reservations and releases as a step relation. [Reservation]
      (crates/db/src/rate_limit_reservation.rs, repository.rs): the window
      document of a provider key and the statements that change it; the jsonb
      functions are the class [Jsonb] with its laws.
    - [VirtualKeyLimits] (apps/gateway/src/db.rs): the three acquire statements
      and the release on the row of a virtual key.
    - [ModelMapping] (model_mapping.rs) and [CandidateGeneration]
      (candidate_generation.rs): from model associations and a caller profile to
      candidates. The [regex] crate is a parameter.
    - [Stream] (stream/src/lib.rs): SSE parser and decoder, terminal events, end
      reasons.
    - [ProviderErrors] (routing/src/errors.rs, crates/adapters) and
      [GatewayErrors] (apps/gateway/src/errors.rs): the errors of the adapters,
      their classification, what is logged and what is answered.
    - [GatewayAttempts] (apps/gateway/src/main.rs): [chat_completions] without
      streaming, as a program of effects; [GatewayTrace]: its traces, the request
      log they write and their run on the tables of [Reservation].
    - [LoginLimit] (auth/src/login_rate_limit.rs, control-plane
      auth_login_rate_limit.rs, auth.rs): the failure window, the stores in memory
      and in Redis with its scripts and protocol, the login handler.
    - [Access] (auth/src/rbac.rs, control-plane rbac.rs, auth_repo.rs): roles,
      permissions of paths, the middleware, the capability table.
    - [PaymentProvider] (payment_provider.rs): webhook signatures and the
      normalisation of events. [PaymentTables] (db/migrations 0001 and 0013, the
      balance query of the gateway), [PaymentExecution] (control-plane admin.rs:
      [receive_payment_provider_webhook] and all it calls) and
      [PaymentAccounting]: the tables, the handler and its effect on accounts
      and balances.
    - [NetworkPolicy] (config/src/lib.rs, apps/gateway/src/db.rs, main.rs): the
      address parser of the standard library, the allow lists of trusted proxies, of
      keys and of profiles, and the check of provider endpoints. The [url] crate and
      DNS, whose answers may change with time, are classes.
    - [Credentials] (auth/src/keys.rs, sessions.rs, passwords.rs,
      provider_keys.rs): virtual keys, session tokens, password hashes and the
      encryption of provider keys. AES-GCM, the [hmac] and [hex] crates are
      classes; that a ciphertext opens exactly to what was sealed is the law of
      AES-GCM used.

    ** What the theorems show

    - Money: texts and amounts correspond exactly ([fd_parse_grammar],
      [fixed_decimal_roundtrip]); prices are rounded half up and add up without
      silent overflow ([div_round_half_up_correct], [rate_usage_correct],
      [rate_usage_never_overflows]); pricing and usage read from JSON are well
      formed and conserve tokens; cached requests cost what the price list says.
    - Ledger safety: refunds never exceed the debit; every reachable writer state
      satisfies the ledger invariant; balances change by exactly the planned
      amount and a write is only planned when it is covered; an applied request
      can be repeated without effect; requests with different meaning have
      different idempotency keys; a write that is not applied changes nothing.
    - The database refines the memory: a committed statement plan leaves the
      tables as the writer in memory leaves its state
      ([postgres_refines_in_memory]) and a failed one leaves them unchanged
      ([postgres_executor_atomic]), with every open transaction closed; a reserve
      planned from a stale window commits and can overdraw ([stale_reserve_commits]).
    - Reconciliation: the report is a function of the rows, with counters,
      discrepancies and totals given by their definition.
    - Routing: the selected route is usable, of the best priority and drawn in
      proportion to its weight; the choice does not depend on the order of the
      candidates; generated routes respect the profile of the caller; limits are
      never exceeded by any sequence of reservations and releases, the statements
      on provider keys refine the planner and those on virtual keys a log of the
      admitted requests.
    - Requests: whatever the upstreams, the database, the limits and the other
      requests do, a request that failed holds in the end only what could not be
      released because the release itself failed, slots are given back once, and the
      request log tells what happened ([request_lifecycle], [request_log_faithful],
      [request_runs_on_database], in which the other requests reserve and release
      on the same keys).
    - Streams: decoding does not depend on how the body is cut into chunks,
      [push] hands out the events of exactly the blocks that are complete
      ([push_decodes_blocks]) and printed events come back; the JSON scans
      agree with a definition on tokens; only a completion event is recorded as
      completed.
    - Errors: classifications agree with the retry and fallback rules, and the
      summaries are faithful to what the upstream answered; where the status that
      is logged and the one the client gets differ is said.
    - Access: the middleware admits exactly the sessions and wallet tokens that
      the rules name, and enforces the published capability table; failed logins
      are bounded per window, and the store in Redis answers as the one in memory
      while its clock does not gain on the callers'.
    - Payments: a webhook is accepted exactly when its signature is the HMAC of
      the time stamp and the lossily decoded body, within five minutes, or of the
      body alone; amounts are exact;
      each captured event has one grant and one ledger entry, whatever fails in
      between; what captures and refunds do to the balance is computed.
    - Credentials and endpoints: session tokens have exactly the documented
      format; a password matches a stored hash exactly when the PBKDF2 blocks are
      equal; an endpoint is accepted exactly when it is a plain https address whose host is
      public and all the addresses found by the check are outside the internal
      ranges; the allow lists admit exactly the clients their entries name.
    - Defects shown on the way, among others: the least [i128] is printed but not
      parsed, the nil uuid hides a refund, applying a plan is not atomic when the
      ids run out, a settle without reserve is tied to the default scale,
      pre-authorization skips balances at another scale, leading empty data lines
      are lost, the event limit depends on chunking, large association priorities
      collapse, provider key reservations of successful requests are never
      released, the balance assertion refuses refunds while the balance is
      negative, some administration writes ask for no permission, a captured
      payment counts twice on the balance and a refund does not lower it.
      Provider endpoints may resolve to IPv4-mapped internal addresses.

    ** Bounds and fuel

    Integers carry their width: [i128] units, [u128] ids, [u64] tokens and seeds,
    [i64] limits, [u32] weights, [i32] priorities, [u16] command and statement
    numbers. Unchecked Rust arithmetic is modelled as wrapping, which the theorems
    then exclude by bounds. Vectors of candidates are assumed to be shorter than
    2^32, so that sums of [u32] weights fit a [u64]. Amounts of the payment tables
    are numeric(20, 8), below 10^20 units; numbers of Redis scripts are below
    10^14, where Lua's doubles are exact. Fuel appears where a loop is not
    structural: trimming and lossy decoding (the length of the text, one byte at
    least is consumed per round), decimal printing (the binary logarithm plus
    one), the decode loop (the length of the buffer, [drain_events_fuel] shows
    that more changes nothing), the JSON scans (the length of the input plus one;
    the correctness theorems hold for the whole run), the look-up in nested window
    documents (128, the depth [serde_json] admits) and the reader of Redis answers
    (the length of the input, proved to be enough). Handlers of webhooks and
    logins run one after the other; statements within them may fail, or succeed
    and lose their answer, at any point. The accounts of payments are those of the
    captures the webhooks write; the local demo of the administration interface
    writes captures of another form.

    ** Not modelled

    Serialization derived by macros, error messages, logging and metrics; constant
    fields of JSON answers. Of the gateway: the authentication of keys, their address
    allow lists apart, the other endpoints, the stream relay and the JSON translation of the provider adapters.
    Of the control plane: the administration handlers other than the payment
    webhook and the login, which are single SQL statements around validation of
    forms. Of the payment providers: the client request plans and the evidence
    reports, which describe calls that the code does not make. The worker, log
    export and tracing are input and output around external services. The
    administration front end and the scripts are not Rust code of the services.

    ** This file

    The shared vocabulary: results, iterators, machine integers, tactics, hints
    and list lemmas. *)

From stdpp Require Export prelude strings sorting.
From Stdlib Require Export ZArith Lia.

#[global] Open Scope Z_scope.

Declare Scope rust_scope.
Delimit Scope rust_scope with rust.
#[global] Open Scope rust_scope.

(** ** Result *)

Inductive result (E A : Type) : Type :=
| Ok (a : A)
| Err (e : E).
Arguments Ok {E A} a.
Arguments Err {E A} e.

#[export] Instance result_ret E : MRet (result E) := λ A a, Ok a.

#[export] Instance result_bind E : MBind (result E) := λ A B f m,
  match m with
  | Ok a => f a
  | Err e => Err e
  end.

#[export] Instance result_fmap E : FMap (result E) := λ A B f m,
  match m with
  | Ok a => Ok (f a)
  | Err e => Err e
  end.

#[export] Instance result_eq_dec {E A} `{EqDecision E, EqDecision A} :
  EqDecision (result E A).
Proof. solve_decision. Defined.

(** [Result::map_err]. *)
Definition map_err {E F A : Type} (f : E → F) (m : result E A) : result F A :=
  match m with
  | Ok a => Ok a
  | Err e => Err (f e)
  end.

(** [Option::ok_or]. *)
Definition ok_or {E A : Type} (o : option A) (e : E) : result E A :=
  match o with
  | Some a => Ok a
  | None => Err e
  end.

(** [Option<Result<..>>::transpose]. *)
Definition transpose {E A : Type} (o : option (result E A)) : result E (option A) :=
  match o with
  | None => Ok None
  | Some (Ok a) => Ok (Some a)
  | Some (Err e) => Err e
  end.

(** [Option::is_some] and [Result::is_ok]. *)
Definition is_some {A : Type} (o : option A) : bool := match o with Some _ => true | None => false end.

Definition is_ok {E A : Type} (m : result E A) : bool :=
  match m with Ok _ => true | Err _ => false end.

(** An early return: [if c { return Err(e) }]. *)
Notation "'fail_if' c 'with' e ;; k" := (if c : bool then Err e else k)
  (at level 100, c at level 99, e at level 99, k at level 200, right associativity,
   format "'[v' 'fail_if'  c  'with'  e ;; '/' k ']'") : rust_scope.

(** ** Iterators *)

(** [Iterator::try_fold]. *)
Fixpoint try_fold {E A B : Type} (f : B → A → result E B) (acc : B) (l : list A) : result E B :=
  match l with
  | [] => Ok acc
  | x :: l' => acc' ← f acc x; try_fold f acc' l'
  end.

(** [Iterator::map(f).collect::<Result<Vec<_>, _>>()]. *)
Fixpoint try_map {E A B : Type} (f : A → result E B) (l : list A) : result E (list B) :=
  match l with
  | [] => Ok []
  | x :: l' => y ← f x; ys ← try_map f l'; Ok (y :: ys)
  end.

(** [slice::sort_by] with a total order given as a boolean: a stable insertion
    sort, the reference behaviour of Rust's stable sort. *)
Fixpoint insert_by {A : Type} (le : A → A → bool) (x : A) (l : list A) : list A :=
  match l with
  | [] => [x]
  | y :: l' => if le x y then x :: y :: l' else y :: insert_by le x l'
  end.

Fixpoint sort_by {A : Type} (le : A → A → bool) (l : list A) : list A :=
  match l with
  | [] => []
  | x :: l' => insert_by le x (sort_by le l')
  end.

(** ** Servers *)

(** How a command over the network may end: with an answer, with the answer lost
    after the server has executed it, or without reaching the server. *)
Inductive Connection : Type := Answered | AnswerLost | NotReached.

#[export] Instance connection_eq_dec : EqDecision Connection.
Proof. solve_decision. Defined.

(** ** Machine integers *)

Definition i128_min : Z := - 2 ^ 127.
Definition i128_max : Z := 2 ^ 127 - 1.
Definition u128_max : Z := 2 ^ 128 - 1.
Definition i64_min : Z := - 2 ^ 63.
Definition i64_max : Z := 2 ^ 63 - 1.
Definition u64_max : Z := 2 ^ 64 - 1.
Definition i32_min : Z := - 2 ^ 31.
Definition i32_max : Z := 2 ^ 31 - 1.
Definition u32_max : Z := 2 ^ 32 - 1.
Definition u16_max : Z := 2 ^ 16 - 1.
Definition u8_max : Z := 2 ^ 8 - 1.

Abbreviation in_i128 z := (i128_min <= z <= i128_max).
Abbreviation in_u128 z := (0 <= z <= u128_max).
Abbreviation in_i64 z := (i64_min <= z <= i64_max).
Abbreviation in_u64 z := (0 <= z <= u64_max).
Abbreviation in_i32 z := (i32_min <= z <= i32_max).
Abbreviation in_u32 z := (0 <= z <= u32_max).

(** A checked operation of the width [lo..hi]: [None] when the exact value does
    not fit. *)
Definition checked (lo hi z : Z) : option Z :=
  if (lo <=? z) && (z <=? hi) then Some z else None.

Definition checked_i128 (z : Z) : option Z := checked i128_min i128_max z.
Definition checked_u128 (z : Z) : option Z := checked 0 u128_max z.
Definition checked_u64 (z : Z) : option Z := checked 0 u64_max z.

(** [u64::saturating_add] and [u64::saturating_sub]. *)
Definition saturating_add_u64 (a b : Z) : Z := Z.min u64_max (a + b).
Definition saturating_sub_u64 (a b : Z) : Z := Z.max 0 (a - b).

(** [i64::saturating_sub]. *)
Definition saturating_sub_i64 (a b : Z) : Z := Z.max i64_min (Z.min i64_max (a - b)).

(** Wrapping arithmetic in a release build. *)
Definition wrap_u64 (z : Z) : Z := z mod 2 ^ 64.
Definition wrap_u16 (z : Z) : Z := z mod 2 ^ 16.
Definition wrap_i64 (z : Z) : Z := (z + 2 ^ 63) mod 2 ^ 64 - 2 ^ 63.

(** ** Tactics and hint databases *)

Create HintDb rust discriminated.

Ltac unfold_widths :=
  unfold i128_min, i128_max, u128_max, i64_min, i64_max, u64_max,
    i32_min, i32_max, u32_max, u16_max, u8_max in *.

(** Linear arithmetic after replacing the named width bounds by their values. *)
Ltac width_lia := unfold_widths; lia.

Lemma bind_Ok {E A B} (m : result E A) (f : A → result E B) b :
  m ≫= f = Ok b ↔ ∃ a, m = Ok a ∧ f a = Ok b.
Proof. destruct m; cbn; naive_solver. Qed.

Lemma bind_Err {E A B} (m : result E A) (f : A → result E B) e :
  m ≫= f = Err e ↔ m = Err e ∨ ∃ a, m = Ok a ∧ f a = Err e.
Proof. destruct m; cbn; naive_solver. Qed.

Lemma map_err_Ok {E F A} (f : E → F) (m : result E A) a :
  map_err f m = Ok a ↔ m = Ok a.
Proof. destruct m; cbn; naive_solver. Qed.

Lemma map_err_Err {E F A} (f : E → F) (m : result E A) e :
  map_err f m = Err e ↔ ∃ e', m = Err e' ∧ f e' = e.
Proof. destruct m; cbn; naive_solver. Qed.

Lemma ok_or_Ok {E A} (o : option A) (e : E) a : ok_or o e = Ok a ↔ o = Some a.
Proof. destruct o; cbn; naive_solver. Qed.

Lemma ok_or_Err {E A} (o : option A) (e e' : E) : ok_or o e = Err e' ↔ o = None ∧ e = e'.
Proof. destruct o; cbn; naive_solver. Qed.

Lemma fail_if_Ok {E A} (c : bool) (e : E) (k : result E A) a :
  (fail_if c with e ;; k) = Ok a ↔ c = false ∧ k = Ok a.
Proof. destruct c; naive_solver. Qed.

Lemma checked_Some lo hi z r : checked lo hi z = Some r ↔ r = z ∧ lo <= z <= hi.
Proof.
  unfold checked. destruct (lo <=? z) eqn:?, (z <=? hi) eqn:?; cbn;
    split; intros; simplify_eq; try lia; naive_solver lia.
Qed.

Lemma checked_None lo hi z : checked lo hi z = None ↔ ¬ (lo <= z <= hi).
Proof.
  unfold checked. destruct (lo <=? z) eqn:?, (z <=? hi) eqn:?; cbn;
    split; intros; simplify_eq; try lia; naive_solver lia.
Qed.

Lemma checked_in lo hi z : lo <= z <= hi → checked lo hi z = Some z.
Proof. intros. by apply checked_Some. Qed.

(** Peel one layer of the error monad off a hypothesis that says a computation
    succeeded. *)
Ltac step_ok :=
  match goal with
  | H : _ ≫= _ = Ok _ |- _ =>
      let a := fresh "a" in let Ha := fresh "H" a in
      apply bind_Ok in H as (a & Ha & H)
  | H : map_err _ _ = Ok _ |- _ => apply map_err_Ok in H
  | H : ok_or _ _ = Ok _ |- _ => apply ok_or_Ok in H
  | H : checked_i128 _ = Some _ |- _ => apply checked_Some in H as [-> H]
  | H : checked_u128 _ = Some _ |- _ => apply checked_Some in H as [-> H]
  | H : checked_u64 _ = Some _ |- _ => apply checked_Some in H as [-> H]
  | H : (if ?c then Err _ else _) = Ok _ |- _ => apply fail_if_Ok in H as [? H]
  | H : (if ?c then Ok _ else Err _) = Ok _ |- _ => destruct c eqn:?; [|discriminate H]
  | H : Ok _ = Ok _ |- _ => injection H as H; subst
  | H : Err _ = Ok _ |- _ => discriminate H
  | H : Ok _ = Err _ |- _ => discriminate H
  end.

Ltac inv_ok := repeat step_ok.

(** Turn boolean tests in hypotheses into the propositions they decide. *)
Ltac bool_to_prop :=
  repeat match goal with
  | H : _ && _ = true |- _ => apply andb_true_iff in H as [? ?]
  | H : _ || _ = false |- _ => apply orb_false_iff in H as [? ?]
  | H : negb _ = true |- _ => apply negb_true_iff in H
  | H : negb _ = false |- _ => apply negb_false_iff in H
  | H : bool_decide _ = true |- _ => apply bool_decide_eq_true in H
  | H : bool_decide _ = false |- _ => apply bool_decide_eq_false in H
  | H : (_ <? _)%Z = true |- _ => apply Z.ltb_lt in H
  | H : (_ <? _)%Z = false |- _ => apply Z.ltb_ge in H
  | H : (_ <=? _)%Z = true |- _ => apply Z.leb_le in H
  | H : (_ <=? _)%Z = false |- _ => apply Z.leb_gt in H
  | H : (_ =? _)%Z = true |- _ => apply Z.eqb_eq in H
  | H : (_ =? _)%Z = false |- _ => apply Z.eqb_neq in H
  end.

(** Evaluate the tests [x == x]. *)
Ltac decide_refl :=
  repeat match goal with
  | |- context [bool_decide (?x = ?x)] => rewrite (bool_decide_true (x = x)) by reflexivity
  end.

(** ** Lemmas on the iterator combinators *)

Section lists.
Context {A B E : Type}.
Implicit Types (l : list A) (f : A → bool).

Lemma elem_of_filter_b f l x : x ∈ List.filter f l ↔ f x = true ∧ x ∈ l.
Proof. rewrite !list_elem_of_In, filter_In. tauto. Qed.

Lemma find_Some_elem f l x : List.find f l = Some x → x ∈ l ∧ f x = true.
Proof. intros H%find_some. by rewrite list_elem_of_In. Qed.

Lemma find_None_iff f l : List.find f l = None ↔ ∀ x, x ∈ l → f x = false.
Proof.
  setoid_rewrite list_elem_of_In. split; [apply find_none|].
  induction l as [|y l IH]; intros H; cbn in *; [done|].
  rewrite (H y) by auto. auto.
Qed.

Lemma find_Some_split f l x :
  List.find f l = Some x → ∃ l1 l2, l = l1 ++ x :: l2 ∧ f x = true ∧ ∀ y, y ∈ l1 → f y = false.
Proof.
  induction l as [|y l IH]; cbn; [done|]. destruct (f y) eqn:Hy.
  - intros [= ->]. exists [], l. split_and!; [done|done|]. by intros ? ?%elem_of_nil.
  - intros (l1 & l2 & -> & ? & ?)%IH. exists (y :: l1), l2.
    split_and!; [done|done|]. intros z [->|?]%elem_of_cons; auto.
Qed.

Lemma find_is_Some f l : is_Some (List.find f l) ↔ ∃ x, x ∈ l ∧ f x = true.
Proof.
  split.
  - intros [x ?%find_Some_elem]. eauto.
  - intros (x & Hx & Hf). destruct (List.find f l) eqn:Hn; [eauto|].
    apply find_None_iff with (x := x) in Hn; [congruence|done].
Qed.

Lemma find_app f l1 l2 :
  List.find f (l1 ++ l2) = match List.find f l1 with Some x => Some x | None => List.find f l2 end.
Proof. induction l1 as [|x l1 IH]; cbn; [done|]. by destruct (f x). Qed.

Lemma find_ext f (g : A → bool) l : (∀ x, x ∈ l → f x = g x) → List.find f l = List.find g l.
Proof.
  induction l as [|x l IH]; intros H; cbn; [done|].
  rewrite (H x) by set_solver. rewrite IH; [done|set_solver].
Qed.

Lemma filter_ext_elem f (g : A → bool) l :
  (∀ x, x ∈ l → f x = g x) → List.filter f l = List.filter g l.
Proof. intros H. apply List.filter_ext_in. intros x. rewrite <-list_elem_of_In. auto. Qed.

Lemma filter_none f l : (∀ x, x ∈ l → f x = false) → List.filter f l = [].
Proof.
  induction l as [|x l IH]; intros H; [done|]. cbn. rewrite (H x) by apply list_elem_of_here.
  apply IH. intros y Hy. by apply H, list_elem_of_further.
Qed.

Lemma filter_fmap_length (g : A → B) (p : B → bool) (q : A → bool) l :
  (∀ x, x ∈ l → p (g x) = q x) → length (List.filter p (g <$> l)) = length (List.filter q l).
Proof.
  induction l as [|x l IH]; intros H; [done|]. rewrite fmap_cons. cbn.
  rewrite (H x) by set_solver. destruct (q x); cbn; rewrite IH; set_solver.
Qed.

Lemma filter_split f l :
  length l = (length (List.filter f l) + length (List.filter (λ x, negb (f x)) l))%nat.
Proof. induction l as [|x l IH]; cbn; [done|]. destruct (f x); cbn; lia. Qed.

Lemma length_filter_sub f (g : A → bool) l :
  (length (List.filter f (List.filter g l)) <= length (List.filter f l))%nat.
Proof. induction l as [|x l IH]; cbn; [done|]. destruct (g x); cbn; destruct (f x); cbn; lia. Qed.

Lemma filter_comm f (g : A → bool) l : List.filter f (List.filter g l) = List.filter g (List.filter f l).
Proof. induction l as [|x l IH]; cbn; [done|]. destruct (g x) eqn:Hg, (f x) eqn:Hf; cbn; rewrite ?Hg, ?Hf, IH; done. Qed.

Lemma NoDup_fmap_eq (g : A → B) l x y : NoDup (g <$> l) → x ∈ l → y ∈ l → g x = g y → x = y.
Proof.
  induction l as [|z l IH]; intros Hnd Hx Hy Heq; [by apply elem_of_nil in Hx|].
  apply NoDup_cons in Hnd as [Hz Hnd]. apply elem_of_cons in Hx as [->|Hx], Hy as [->|Hy]; auto; destruct Hz.
  - rewrite Heq. by apply list_elem_of_fmap_2.
  - rewrite <-Heq. by apply list_elem_of_fmap_2.
Qed.

Lemma existsb_elem f l : List.existsb f l = true ↔ ∃ x, x ∈ l ∧ f x = true.
Proof. setoid_rewrite list_elem_of_In. apply existsb_exists. Qed.

Lemma existsb_elem_false f l : List.existsb f l = false ↔ ∀ x, x ∈ l → f x = false.
Proof.
  rewrite <-not_true_iff_false, existsb_elem. split.
  - intros H x ?. apply not_true_iff_false. eauto.
  - intros H (x & ?%H & ?). congruence.
Qed.

Lemma forallb_elem f l : List.forallb f l = true ↔ ∀ x, x ∈ l → f x = true.
Proof. setoid_rewrite list_elem_of_In. apply forallb_forall. Qed.

Lemma try_fold_app (g : B → A → result E B) acc l1 l2 :
  try_fold g acc (l1 ++ l2) = acc' ← try_fold g acc l1; try_fold g acc' l2.
Proof.
  revert acc. induction l1 as [|x l1 IH]; intros acc; cbn; [done|].
  destruct (g acc x); cbn; auto.
Qed.

(** An invariant of the elements consumed so far. *)
Lemma try_fold_inv (f : B → A → result E B) (P : list A → B → Prop) init l acc :
  P [] init → (∀ pre x b b', P pre b → f b x = Ok b' → P (pre ++ [x]) b') →
  try_fold f init l = Ok acc → P l acc.
Proof.
  intros Hinit Hstep.
  enough (∀ l pre b acc, P pre b → try_fold f b l = Ok acc → P (pre ++ l) acc) as H
    by (intros; by apply (H l [] init)).
  clear l acc Hinit. induction l as [|x l IH]; intros pre b acc Hp H; cbn in H.
  - injection H as <-. by rewrite app_nil_r.
  - apply bind_Ok in H as (b' & Hb & H). replace (pre ++ x :: l) with ((pre ++ [x]) ++ l) by (by rewrite <- app_assoc).
    eauto.
Qed.

Lemma try_map_app (f : A → result E B) l1 l2 :
  try_map f (l1 ++ l2) = bs1 ← try_map f l1; bs2 ← try_map f l2; Ok (bs1 ++ bs2).
Proof.
  induction l1 as [|x l1 IH]; cbn; [by destruct (try_map f l2)|].
  destruct (f x); [|done]. cbn. rewrite IH. destruct (try_map f l1); [|done]. cbn.
  by destruct (try_map f l2).
Qed.

Lemma try_map_Ok (g : A → result E B) l ys :
  try_map g l = Ok ys ↔ Forall2 (λ x y, g x = Ok y) l ys.
Proof.
  revert ys. induction l as [|x l IH]; intros ys; cbn.
  - split; [intros [= <-]; constructor | by intros ->%Forall2_nil_inv_l].
  - setoid_rewrite bind_Ok. setoid_rewrite bind_Ok. setoid_rewrite IH.
    split.
    + intros (y & Hy & ys' & Hys & [= <-]). by constructor.
    + intros (y & ys' & ? & ? & ->)%Forall2_cons_inv_l. eauto.
Qed.

Lemma try_map_total (g : A → result E B) (h : A → B) l :
  (∀ x, x ∈ l → g x = Ok (h x)) → try_map g l = Ok (h <$> l).
Proof.
  induction l as [|x l IH]; intros H; cbn; [done|].
  rewrite H by set_solver. cbn. rewrite IH by set_solver. done.
Qed.
End lists.

(** ** Stable sorting *)

Section sort.
Context {A : Type} (le : A → A → bool).

Lemma insert_by_perm x l : insert_by le x l ≡ₚ x :: l.
Proof.
  induction l as [|y l IH]; cbn; [done|]. destruct (le x y); [done|].
  rewrite IH. apply Permutation_swap.
Qed.

Lemma sort_by_perm l : sort_by le l ≡ₚ l.
Proof. induction l as [|x l IH]; cbn; [done|]. by rewrite insert_by_perm, IH. Qed.

Lemma elem_of_sort_by x l : x ∈ sort_by le l ↔ x ∈ l.
Proof. by rewrite sort_by_perm. Qed.

Lemma insert_by_sorted x l :
  (∀ a b, le a b = false → le b a = true) →
  Sorted (λ a b, le a b = true) l → Sorted (λ a b, le a b = true) (insert_by le x l).
Proof.
  intros Htot. induction 1 as [|y l Hs IH Hhd]; cbn; [repeat constructor|].
  destruct (le x y) eqn:Hxy; [by repeat constructor|].
  constructor; [done|]. destruct Hhd as [|z l Hyz]; cbn.
  - constructor. auto.
  - destruct (le x z); constructor; auto.
Qed.

Lemma sort_by_sorted l :
  (∀ a b, le a b = false → le b a = true) → Sorted (λ a b, le a b = true) (sort_by le l).
Proof. intros Htot. induction l; cbn; [constructor|]. by apply insert_by_sorted. Qed.
End sort.

#[export] Hint Resolve list_elem_of_here list_elem_of_further : rust.
