(* ===== verification/RustStr.v ===== *)
(** The part of Rust's [str], [u8] and integer formatting that the sources
    use. A [&str] or [String] is the [string] of its UTF-8 bytes; the
    operations work on the byte list. [str::chars().all(p)] for an ASCII-only
    predicate [p] is the bytewise test, since every byte of a non-ASCII
    character is at least 128 and fails [p]. *)

From S2P Require Export Prelude.
From Stdlib Require Export Ascii.
From Stdlib Require String.

#[global] Open Scope Z_scope.

Abbreviation bytes := (list ascii).

Definition as_bytes (s : string) : bytes := String.list_ascii_of_string s.
Definition from_bytes (l : bytes) : string := String.string_of_list_ascii l.

(** The value of a [u8]. *)
Definition byte_val (c : ascii) : Z := Z.of_N (N_of_ascii c).

(** ** Character classes of [u8] and [char] *)

Definition byte_between (lo hi : Z) (c : ascii) : bool :=
  (lo <=? byte_val c) && (byte_val c <=? hi).

Definition is_ascii_digit (c : ascii) : bool := byte_between 48 57 c.
Definition is_ascii_uppercase (c : ascii) : bool := byte_between 65 90 c.
Definition is_ascii_lowercase (c : ascii) : bool := byte_between 97 122 c.
Definition is_ascii_hexdigit (c : ascii) : bool :=
  is_ascii_digit c || byte_between 65 70 c || byte_between 97 102 c.

(** [u8::is_ascii_whitespace]: space, tab, line feed, form feed, carriage
    return (not vertical tab). *)
Definition is_ascii_whitespace (c : ascii) : bool :=
  let b := byte_val c in
  (b =? 32) || (b =? 9) || (b =? 10) || (b =? 12) || (b =? 13).

(** ** Slices *)

Fixpoint starts_with (p l : bytes) : bool :=
  match p, l with
  | [], _ => true
  | a :: p', b :: l' => bool_decide (a = b) && starts_with p' l'
  | _, [] => false
  end.

(** [slice::strip_prefix]. *)
Definition strip_prefix (p l : bytes) : option bytes :=
  if starts_with p l then Some (drop (length p) l) else None.

(** [slice::strip_suffix]. *)
Definition strip_suffix (p l : bytes) : option bytes :=
  if starts_with (rev p) (rev l) then Some (take (length l - length p) l) else None.

(** [str::split(c)] and [slice::split(|b| *b == c)]: always at least one part. *)
Fixpoint split_on (c : ascii) (l : bytes) : list bytes :=
  match l with
  | [] => [[]]
  | b :: l' =>
      if bool_decide (b = c) then [] :: split_on c l'
      else match split_on c l' with
           | [] => [[b]]
           | p :: ps => (b :: p) :: ps
           end
  end.

(** The text before the first separator and the text after it. *)
Fixpoint split_once (c : ascii) (l : bytes) : option (bytes * bytes) :=
  match l with
  | [] => None
  | b :: l' =>
      if bool_decide (b = c) then Some ([], l')
      else '(before, after) ← split_once c l'; Some (b :: before, after)
  end.

(** [trim_end_matches] of one ASCII character. *)
Fixpoint drop_leading (c : ascii) (l : bytes) : bytes :=
  match l with
  | b :: l' => if bool_decide (b = c) then drop_leading c l' else l
  | [] => []
  end.

Definition trim_end_matches (c : ascii) (s : string) : string := from_bytes (rev (drop_leading c (rev (as_bytes s)))).

(** [str::contains] of a string pattern. *)
Fixpoint contains (p l : bytes) : bool :=
  starts_with p l || match l with [] => false | _ :: l' => contains p l' end.

(** ** [str::trim]: removal of Unicode White_Space at both ends *)

(** The number of bytes of the leading white-space character, 0 if the first
    character is not one. The multi-byte ones are U+0085, U+00A0, U+1680,
    U+2000 to U+200A, U+2028, U+2029, U+202F, U+205F and U+3000. *)
Definition ws3 (b1 b2 b3 : Z) : bool :=
  ((b1 =? 225) && (b2 =? 154) && (b3 =? 128))
  || ((b1 =? 226) && (b2 =? 128)
      && (((128 <=? b3) && (b3 <=? 138)) || (b3 =? 168) || (b3 =? 169) || (b3 =? 175)))
  || ((b1 =? 226) && (b2 =? 129) && (b3 =? 159))
  || ((b1 =? 227) && (b2 =? 128) && (b3 =? 128)).

Definition ws2 (b1 b2 : Z) : bool := (b1 =? 194) && ((b2 =? 133) || (b2 =? 160)).

Definition ws1 (b : Z) : bool := ((9 <=? b) && (b <=? 13)) || (b =? 32).

Definition ws_head (l : bytes) : nat :=
  match l with
  | [] => 0
  | a :: l1 =>
      if ws1 (byte_val a) then 1
      else match l1 with
           | [] => 0
           | b :: l2 =>
               if ws2 (byte_val a) (byte_val b) then 2
               else match l2 with
                    | [] => 0
                    | c :: _ => if ws3 (byte_val a) (byte_val b) (byte_val c) then 3 else 0
                    end
           end
  end.

(** The same at the end of a slice, read on its reverse. *)
Definition ws_last (r : bytes) : nat :=
  match r with
  | [] => 0
  | a :: l1 =>
      if ws1 (byte_val a) then 1
      else match l1 with
           | [] => 0
           | b :: l2 =>
               if ws2 (byte_val b) (byte_val a) then 2
               else match l2 with
                    | [] => 0
                    | c :: _ => if ws3 (byte_val c) (byte_val b) (byte_val a) then 3 else 0
                    end
           end
  end.

Fixpoint trim_with (ws : bytes → nat) (fuel : nat) (l : bytes) : bytes :=
  match fuel with
  | O => l
  | S fuel' => match ws l with
               | O => l
               | k => trim_with ws fuel' (drop k l)
               end
  end.

Definition trim_start (l : bytes) : bytes := trim_with ws_head (length l) l.
Definition trim_end (l : bytes) : bytes := rev (trim_with ws_last (length l) (rev l)).
Definition trim (l : bytes) : bytes := trim_end (trim_start l).

(** The same on strings. *)
Definition str_trim (s : string) : string := from_bytes (trim (as_bytes s)).

(** [str::strip_prefix], [str::ends_with] and [str::len]. *)
Definition str_strip_prefix (p s : string) : option string := from_bytes <$> strip_prefix (as_bytes p) (as_bytes s).
Definition str_ends_with (s p : string) : bool :=
  match strip_suffix (as_bytes p) (as_bytes s) with Some _ => true | None => false end.
Definition str_len (s : string) : nat := length (as_bytes s).

(** [str::to_ascii_lowercase] and [str::to_ascii_uppercase]. *)
Definition byte_to_lowercase (c : ascii) : ascii :=
  if is_ascii_uppercase c then ascii_of_N (N_of_ascii c + 32) else c.
Definition byte_to_uppercase (c : ascii) : ascii :=
  if is_ascii_lowercase c then ascii_of_N (N_of_ascii c - 32) else c.
Definition to_ascii_lowercase (s : string) : string := from_bytes (byte_to_lowercase <$> as_bytes s).
Definition to_ascii_uppercase (s : string) : string := from_bytes (byte_to_uppercase <$> as_bytes s).

(** [str::eq_ignore_ascii_case] and [str::contains]. *)
Definition eq_ignore_ascii_case (s t : string) : bool :=
  bool_decide (to_ascii_lowercase s = to_ascii_lowercase t).
Definition str_contains (s needle : string) : bool := contains (as_bytes needle) (as_bytes s).

(** ** [str::parse::<i128>] *)

Definition digit_val (c : ascii) : Z := byte_val c - 48.

(** The digit loop of [i128::from_str]: checked multiplication by ten, then a
    checked addition (or, after a minus sign, subtraction) of the digit. *)
Fixpoint parse_digits (negative : bool) (acc : Z) (l : bytes) : option Z :=
  match l with
  | [] => Some acc
  | c :: l' =>
      if is_ascii_digit c then
        m ← checked_i128 (acc * 10);
        a ← checked_i128 (if negative then m - digit_val c else m + digit_val c);
        parse_digits negative a l'
      else None
  end.

Definition parse_i128 (l : bytes) : option Z :=
  match l with
  | [] => None
  | c :: l' =>
      if bool_decide (c = "-"%char) then
        match l' with [] => None | _ => parse_digits true 0 l' end
      else if bool_decide (c = "+"%char) then
        match l' with [] => None | _ => parse_digits false 0 l' end
      else parse_digits false 0 l
  end.

(** [str::parse] of an unsigned type with the greatest value [max]: a minus sign
    is no digit. *)
Definition parse_unsigned (max : Z) (s : string) : option Z :=
  let digits :=
    match as_bytes s with
    | c :: l => if bool_decide (c = "+"%char) then l else c :: l
    | [] => []
    end in
  match digits with
  | [] => None
  | _ => parse_digits false 0 digits ≫= checked 0 max
  end.

(** [str::parse::<i64>]. *)
Definition parse_i64 (s : string) : option Z := parse_i128 (as_bytes s) ≫= checked i64_min i64_max.

(** ** Decimal formatting of integers *)

Definition digit_char (d : Z) : ascii := ascii_of_N (Z.to_N (48 + d)).

Fixpoint dec_digits_aux (fuel : nat) (n : Z) (acc : bytes) : bytes :=
  match fuel with
  | O => acc
  | S fuel' =>
      let acc' := digit_char (n mod 10) :: acc in
      if n <? 10 then acc' else dec_digits_aux fuel' (n / 10) acc'
  end.

(** [{}] of an unsigned integer. *)
Definition display_u128 (n : Z) : bytes := dec_digits_aux (S (Z.to_nat (Z.log2 n))) n [].

(** [{}] of a signed integer. *)
Definition display_i128 (n : Z) : bytes :=
  if n <? 0 then "-"%char :: display_u128 (- n) else display_u128 n.

(** [{:0width$}] of an unsigned integer. *)
Definition display_zero_padded (width : nat) (n : Z) : bytes :=
  let d := display_u128 n in replicate (width - length d) "0"%char ++ d.

(** ** [String::from_utf8_lossy]

    The length of the first UTF-8 unit of a slice and whether it is a character;
    an invalid unit is the maximal prefix of a character that was found. *)

Definition utf8_char_width (b : Z) : Z :=
  if b <? 128 then 1
  else if (194 <=? b) && (b <=? 223) then 2
  else if (224 <=? b) && (b <=? 239) then 3
  else if (240 <=? b) && (b <=? 244) then 4
  else 0.

(** [safe_get]: 0 beyond the end. *)
Definition safe_get (l : bytes) (i : nat) : Z := default 0 (byte_val <$> l !! i).

Definition is_continuation (b : Z) : bool := (128 <=? b) && (b <=? 191).

(** The second byte of a three- or four-byte character. *)
Definition second_byte_ok (b1 b2 : Z) : bool :=
  if b1 =? 224 then (160 <=? b2) && (b2 <=? 191)
  else if b1 =? 237 then (128 <=? b2) && (b2 <=? 159)
  else if b1 =? 240 then (144 <=? b2) && (b2 <=? 191)
  else if b1 =? 244 then (128 <=? b2) && (b2 <=? 143)
  else is_continuation b2.

Definition utf8_unit (l : bytes) : nat * bool :=
  let b := safe_get l 0 in
  let w := utf8_char_width b in
  if w =? 1 then (1%nat, true)
  else if w =? 2 then (if is_continuation (safe_get l 1) then (2%nat, true) else (1%nat, false))
  else if w =? 3 then
    if negb (second_byte_ok b (safe_get l 1)) then (1%nat, false)
    else if negb (is_continuation (safe_get l 2)) then (2%nat, false)
    else (3%nat, true)
  else if w =? 4 then
    if negb (second_byte_ok b (safe_get l 1)) then (1%nat, false)
    else if negb (is_continuation (safe_get l 2)) then (2%nat, false)
    else if negb (is_continuation (safe_get l 3)) then (3%nat, false)
    else (4%nat, true)
  else (1%nat, false).

(** U+FFFD. *)
Definition replacement_character : bytes := ["239"%char; "191"%char; "189"%char].

Fixpoint utf8_lossy (fuel : nat) (l : bytes) : bytes :=
  match fuel, l with
  | O, _ | _, [] => []
  | S fuel, _ =>
      let '(n, valid) := utf8_unit l in
      (if valid then take n l else replacement_character) ++ utf8_lossy fuel (drop n l)
  end.

Definition from_utf8_lossy (l : bytes) : bytes := utf8_lossy (length l) l.

(** [str::chars], as the bytes of each character; a [str] is valid UTF-8. *)
Fixpoint chars_from (fuel : nat) (l : bytes) : list bytes :=
  match fuel, l with
  | O, _ | _, [] => []
  | S fuel, _ => let n := (utf8_unit l).1 in take n l :: chars_from fuel (drop n l)
  end.

Definition chars (s : string) : list bytes := let l := as_bytes s in chars_from (length l) l.

(** [str::from_utf8]. *)
Fixpoint utf8_valid (fuel : nat) (l : bytes) : bool :=
  match fuel, l with
  | O, _ | _, [] => true
  | S fuel, _ => let '(n, valid) := utf8_unit l in valid && utf8_valid fuel (drop n l)
  end.

Definition is_utf8 (l : bytes) : bool := utf8_valid (length l) l.

Definition from_utf8 (l : bytes) : option string := if is_utf8 l then Some (from_bytes l) else None.

(** [str::split_whitespace]: the words between white space, [word] being the one
    that is read. *)
Fixpoint split_words (fuel : nat) (word l : bytes) : list bytes :=
  let flush := match word with [] => [] | _ => [word] end in
  match fuel, l with
  | O, _ | _, [] => flush
  | S fuel, c :: l' =>
      match ws_head l with
      | O => split_words fuel (word ++ [c]) l'
      | n => flush ++ split_words fuel [] (drop n l)
      end
  end.

Definition split_whitespace (s : string) : list string :=
  from_bytes <$> split_words (length (as_bytes s)) [] (as_bytes s).

(** ** Lemmas *)

(** The number a digit string denotes, continuing from [acc]. *)
Definition dec_val_from (acc : Z) (l : bytes) : Z :=
  fold_left (λ a c, a * 10 + digit_val c) l acc.
Abbreviation dec_val l := (dec_val_from 0 l).

Definition all_digits (l : bytes) : Prop := Forall (λ c, is_ascii_digit c = true) l.

Lemma as_from_bytes l : as_bytes (from_bytes l) = l.
Proof. apply String.list_ascii_of_string_of_list_ascii. Qed.

Lemma from_as_bytes s : from_bytes (as_bytes s) = s.
Proof. apply String.string_of_list_ascii_of_string. Qed.

Lemma as_bytes_app s t : as_bytes (s +:+ t) = as_bytes s ++ as_bytes t.
Proof. unfold as_bytes. induction s as [|c s IH]; simpl; [done|]. f_equal. exact IH. Qed.

Lemma byte_val_range c : 0 <= byte_val c < 256.
Proof. unfold byte_val. pose proof (N_ascii_bounded c). lia. Qed.

Lemma digit_val_range c : is_ascii_digit c = true → 0 <= digit_val c <= 9.
Proof. unfold is_ascii_digit, byte_between, digit_val. lia. Qed.

Lemma digit_char_val d : 0 <= d <= 9 → digit_val (digit_char d) = d.
Proof.
  intros. unfold digit_val, byte_val, digit_char.
  rewrite N_ascii_embedding by lia. lia.
Qed.

Lemma digit_char_digit d : 0 <= d <= 9 → is_ascii_digit (digit_char d) = true.
Proof.
  intros Hd. pose proof (digit_char_val d Hd). unfold is_ascii_digit, byte_between, digit_val in *. lia.
Qed.

Lemma dec_val_from_app acc l1 l2 :
  dec_val_from acc (l1 ++ l2) = dec_val_from (dec_val_from acc l1) l2.
Proof. apply fold_left_app. Qed.

Lemma dec_val_from_shift acc l :
  dec_val_from acc l = acc * 10 ^ Z.of_nat (length l) + dec_val l.
Proof.
  revert acc. induction l as [|c l IH]; intros acc; cbn [dec_val_from fold_left length].
  - lia.
  - fold (dec_val_from (acc * 10 + digit_val c) l). fold (dec_val_from (0 * 10 + digit_val c) l).
    rewrite IH, (IH (0 * 10 + digit_val c)).
    rewrite Nat2Z.inj_succ, Z.pow_succ_r by lia. ring.
Qed.

Lemma dec_val_from_nonneg acc l : all_digits l → 0 <= acc → acc <= dec_val_from acc l.
Proof.
  intros Hl. revert acc. induction Hl as [|c l Hc Hl IH]; intros acc Hacc; cbn; [lia|].
  fold (dec_val_from (acc * 10 + digit_val c) l).
  pose proof (digit_val_range c Hc). specialize (IH (acc * 10 + digit_val c)). lia.
Qed.

Lemma dec_val_bound l : all_digits l → 0 <= dec_val l < 10 ^ Z.of_nat (length l).
Proof.
  induction 1 as [|c l Hc Hl IH]; [cbn; lia|].
  change (dec_val (c :: l)) with (dec_val_from (0 * 10 + digit_val c) l).
  rewrite dec_val_from_shift. cbn [length].
  rewrite Nat2Z.inj_succ, Z.pow_succ_r by lia.
  pose proof (digit_val_range c Hc). nia.
Qed.

Lemma parse_digits_spec acc l :
  all_digits l → 0 <= acc <= i128_max →
  parse_digits false acc l =
    if dec_val_from acc l <=? i128_max then Some (dec_val_from acc l) else None.
Proof.
  intros Hl. revert acc. induction Hl as [|c l Hc Hl IH]; intros acc Hacc; cbn [parse_digits].
  - cbn. destruct (Z.leb_spec acc i128_max); [done|lia].
  - rewrite Hc. pose proof (digit_val_range c Hc).
    change (dec_val_from acc (c :: l)) with (dec_val_from (acc * 10 + digit_val c) l).
    pose proof (dec_val_from_nonneg (acc * 10 + digit_val c) l Hl ltac:(lia)).
    unfold checked_i128. destruct (decide (acc * 10 <= i128_max)).
    + rewrite checked_in by width_lia. cbn.
      destruct (decide (acc * 10 + digit_val c <= i128_max)).
      * rewrite checked_in by width_lia. cbn. apply IH. lia.
      * rewrite (proj2 (checked_None _ _ _)) by width_lia. cbn.
        destruct (Z.leb_spec (dec_val_from (acc * 10 + digit_val c) l) i128_max); [lia|done].
    + rewrite (proj2 (checked_None _ _ _)) by width_lia. cbn.
      destruct (Z.leb_spec (dec_val_from (acc * 10 + digit_val c) l) i128_max); [lia|done].
Qed.

Lemma parse_i128_digits l :
  all_digits l → l ≠ [] →
  parse_i128 l = if dec_val l <=? i128_max then Some (dec_val l) else None.
Proof.
  intros Hl Hne. unfold parse_i128. destruct l as [|c l]; [done|].
  assert (is_ascii_digit c = true) as Hc by (by inversion Hl).
  rewrite !bool_decide_false by (intros ->; discriminate).
  apply parse_digits_spec; [done|width_lia].
Qed.

Lemma dec_digits_aux_spec fuel n acc :
  0 <= n < 2 ^ Z.of_nat fuel → (1 ≤ fuel)%nat → all_digits acc →
  let r := dec_digits_aux fuel n acc in
  all_digits r ∧ r ≠ [] ∧ dec_val r = dec_val_from n acc ∧
  ∀ k, (1 ≤ k)%nat → n < 10 ^ Z.of_nat k → (length r ≤ k + length acc)%nat.
Proof.
  revert n acc. induction fuel as [|fuel IH]; intros n acc Hn Hf Hacc; [lia|].
  cbn [dec_digits_aux].
  pose proof (Z.mod_pos_bound n 10 ltac:(lia)) as Hm.
  assert (all_digits (digit_char (n mod 10) :: acc)) as Hacc'.
  { constructor; [apply digit_char_digit; lia|done]. }
  destruct (Z.ltb_spec n 10) as [Hlt|Hge].
  - cbn zeta. split_and!; [done|done| |cbn; lia].
    cbn [dec_val_from fold_left]. rewrite digit_char_val by lia.
    rewrite Z.mod_small by lia. done.
  - assert (0 <= n / 10 < 2 ^ Z.of_nat fuel) as Hq.
    { rewrite Nat2Z.inj_succ, Z.pow_succ_r in Hn by lia.
      split; [apply Z.div_pos; lia|apply Z.div_lt_upper_bound; lia]. }
    assert (1 ≤ fuel)%nat as Hf'.
    { destruct fuel; [cbn in Hn; lia|lia]. }
    destruct (IH _ _ Hq Hf' Hacc') as (Hd & Hne & Hv & Hlen). split_and!; [done|done| |].
    + rewrite Hv.
      change (dec_val_from (n / 10 * 10 + digit_val (digit_char (n mod 10))) acc = dec_val_from n acc).
      rewrite digit_char_val by lia. f_equal. pose proof (Z.div_mod n 10 ltac:(lia)). lia.
    + intros k Hk Hnk. destruct k as [|[|k]]; [lia|cbn in Hnk; lia|].
      specialize (Hlen (S k) ltac:(lia)). cbn [length] in Hlen.
      rewrite Nat2Z.inj_succ, Z.pow_succ_r in Hnk by lia.
      assert (n / 10 < 10 ^ Z.of_nat (S k)) by (apply Z.div_lt_upper_bound; lia).
      specialize (Hlen H). lia.
Qed.

Lemma display_u128_spec n :
  0 <= n →
  all_digits (display_u128 n) ∧ display_u128 n ≠ [] ∧ dec_val (display_u128 n) = n ∧
  ∀ k, (1 ≤ k)%nat → n < 10 ^ Z.of_nat k → (length (display_u128 n) ≤ k)%nat.
Proof.
  intros Hn. unfold display_u128.
  destruct (dec_digits_aux_spec (S (Z.to_nat (Z.log2 n))) n []) as (H1 & H2 & H3 & H4).
  - split; [done|]. rewrite Nat2Z.inj_succ, Z2Nat.id by apply Z.log2_nonneg.
    destruct (decide (n = 0)) as [->|]; [done|]. apply Z.log2_spec. lia.
  - lia.
  - constructor.
  - split_and!; auto. intros k Hk Hnk. specialize (H4 k Hk Hnk). cbn [length] in H4. lia.
Qed.

Lemma parse_i64_display n : 0 <= n <= i64_max → parse_i64 (from_bytes (display_u128 n)) = Some n.
Proof.
  intros Hn. unfold parse_i64. destruct (display_u128_spec n) as (Hd & Hne & Hv & _); [lia|].
  rewrite as_from_bytes, parse_i128_digits, Hv by done. rewrite (proj2 (Z.leb_le _ _)) by width_lia. cbn [mbind option_bind].
  apply checked_in. width_lia.
Qed.

Lemma from_utf8_lossy_ascii l : Forall (λ c, byte_val c < 128) l → from_utf8_lossy l = l.
Proof.
  unfold from_utf8_lossy. induction 1 as [|c l Hc Hl IH]; [done|]. cbn [length utf8_lossy].
  unfold utf8_unit. replace (safe_get (c :: l) 0) with (byte_val c) by done.
  replace (utf8_char_width (byte_val c)) with 1 by (unfold utf8_char_width; by rewrite (proj2 (Z.ltb_lt _ _))).
  cbn. by rewrite drop_0, IH, take_0.
Qed.

Lemma dec_val_replicate_zero k l : dec_val (replicate k "0"%char ++ l) = dec_val l.
Proof. induction k as [|k IH]; cbn; [done|]. exact IH. Qed.

Lemma all_digits_app l1 l2 : all_digits (l1 ++ l2) ↔ all_digits l1 ∧ all_digits l2.
Proof. apply Forall_app. Qed.

Lemma all_digits_replicate k : all_digits (replicate k "0"%char).
Proof. by apply Forall_replicate. Qed.

Lemma display_zero_padded_spec width n :
  0 <= n < 10 ^ Z.of_nat width → (1 ≤ width)%nat →
  all_digits (display_zero_padded width n) ∧
  length (display_zero_padded width n) = width ∧ dec_val (display_zero_padded width n) = n.
Proof.
  intros Hn Hw. destruct (display_u128_spec n ltac:(lia)) as (Hd & Hne & Hv & Hlen).
  specialize (Hlen width Hw ltac:(lia)). unfold display_zero_padded. split_and!.
  - apply all_digits_app. split; [apply all_digits_replicate|done].
  - rewrite length_app, length_replicate. lia.
  - by rewrite dec_val_replicate_zero.
Qed.

(** Trimming does nothing to a string whose ends are ASCII and not white space. *)
Definition solid (c : ascii) : Prop := byte_val c < 128 ∧ ws1 (byte_val c) = false.

Lemma ws_head_solid c l : solid c → ws_head (c :: l) = 0%nat.
Proof.
  intros [H1 H2]. cbn. rewrite H2. destruct l as [|b l]; [done|].
  replace (ws2 _ _) with false by (unfold ws2; lia).
  destruct l as [|d l]; [done|]. replace (ws3 _ _ _) with false by (unfold ws3; lia). done.
Qed.

Lemma ws_last_solid c l : solid c → ws_last (c :: l) = 0%nat.
Proof.
  intros [H1 H2]. cbn. rewrite H2. destruct l as [|b l]; [done|].
  replace (ws2 _ _) with false by (unfold ws2; lia).
  destruct l as [|d l]; [done|]. replace (ws3 _ _ _) with false by (unfold ws3; lia). done.
Qed.

Lemma trim_solid l c d :
  head l = Some c → last l = Some d → solid c → solid d → trim l = l.
Proof.
  intros Hc Hd Sc Sd.
  assert (trim_start l = l) as Hs.
  { destruct l as [|x l]; [done|]. injection Hc as ->.
    unfold trim_start. cbn [length trim_with]. by rewrite ws_head_solid. }
  unfold trim. rewrite Hs. apply last_Some in Hd as [l' ->].
  unfold trim_end. rewrite rev_app_distr, length_app, Nat.add_1_r.
  cbn [rev app trim_with]. rewrite ws_last_solid by done. cbn [rev].
  by rewrite rev_involutive.
Qed.

Lemma trim_solid_all l : Forall solid l → trim l = l.
Proof.
  intros Hall. destruct l as [|c l]; [done|]. destruct (last (c :: l)) as [d|] eqn:Hlast; [|by apply last_None in Hlast].
  apply (trim_solid _ c d); [done..| |].
  - by inversion_clear Hall.
  - rewrite Forall_forall in Hall. by apply Hall, last_Some_elem_of.
Qed.

(** A solid first byte survives trimming. *)
Lemma ws_last_app c r : solid c → (ws_last (r ++ [c]) <= length r)%nat.
Proof.
  intros [H1 H2]. destruct r as [|x [|y [|z r]]]; cbn.
  - by rewrite H2.
  - destruct (ws1 (byte_val x)); [lia|]. replace (ws2 _ _) with false by (unfold ws2; lia). lia.
  - destruct (ws1 (byte_val x)); [lia|]. destruct (ws2 _ _); [lia|].
    replace (ws3 _ _ _) with false by (unfold ws3; lia). lia.
  - destruct (ws1 (byte_val x)); [lia|]. destruct (ws2 _ _); [lia|]. destruct (ws3 _ _ _); lia.
Qed.

Lemma trim_with_last_app c fuel r : solid c → ∃ r', trim_with ws_last fuel (r ++ [c]) = r' ++ [c].
Proof.
  intros Hc. revert r. induction fuel as [|fuel IH]; intros r; cbn [trim_with]; [by exists r|].
  pose proof (ws_last_app c r Hc) as Hle. destruct (ws_last (r ++ [c])) as [|k]; [by exists r|].
  rewrite drop_app_le by done. apply IH.
Qed.

Lemma trim_solid_head c l : solid c → trim (c :: l) ≠ [].
Proof.
  intros Hc. unfold trim, trim_start. cbn [length trim_with]. rewrite ws_head_solid by done.
  unfold trim_end. cbn [rev]. destruct (trim_with_last_app c (length (c :: l)) (rev l) Hc) as (r' & ->).
  by rewrite rev_app_distr.
Qed.

Lemma digit_solid c : is_ascii_digit c = true → solid c.
Proof. unfold solid, ws1, is_ascii_digit, byte_between. lia. Qed.

(** Splitting at a byte that does not occur, and at its first occurrence. *)
Lemma split_on_none c l : c ∉ l → split_on c l = [l].
Proof.
  induction l as [|b l IH]; intros Hn; cbn; [done|].
  rewrite bool_decide_false by set_solver. rewrite IH by set_solver. done.
Qed.

Lemma split_on_app c l1 l2 : c ∉ l1 → split_on c (l1 ++ c :: l2) = l1 :: split_on c l2.
Proof.
  induction l1 as [|b l1 IH]; intros Hn; cbn.
  - by rewrite bool_decide_true.
  - rewrite bool_decide_false by set_solver. rewrite IH by set_solver. done.
Qed.

Lemma split_on_cases c l :
  (c ∉ l) ∧ split_on c l = [l] ∨ ∃ p rest, l = p ++ c :: rest ∧ (c ∉ p) ∧ split_on c l = p :: split_on c rest.
Proof.
  destruct (decide (c ∈ l)) as [Hin|Hnot]; [|left; split; [done|by apply split_on_none]].
  right. apply list_elem_of_split_l in Hin as (p & rest & -> & Hp).
  exists p, rest. split; [done|]. split; [done|]. by apply split_on_app.
Qed.

Lemma split_on_ind c (P : bytes → list bytes → Prop) :
  (∀ l, c ∉ l → P l [l]) →
  (∀ p rest, c ∉ p → P rest (split_on c rest) → P (p ++ c :: rest) (p :: split_on c rest)) →
  ∀ l, P l (split_on c l).
Proof.
  intros H1 H2 l. induction l as [l IH] using (induction_ltof1 _ length).
  destruct (split_on_cases c l) as [[Hn ->]|(p & rest & -> & Hp & ->)]; [by apply H1|].
  apply H2; [done|]. apply IH. unfold ltof. rewrite length_app. cbn. lia.
Qed.

Lemma split_on_no_sep c l : Forall (λ part, c ∉ part) (split_on c l).
Proof. apply split_on_ind; auto. Qed.

Lemma split_on_not_nil c l : split_on c l ≠ [].
Proof. by apply (split_on_ind c (λ _ parts, parts ≠ [])). Qed.

Lemma split_once_app c l l' : c ∉ l → split_once c (l ++ c :: l') = Some (l, l').
Proof.
  induction l as [|b l IH]; intros Hc; cbn; [by rewrite bool_decide_true|].
  apply not_elem_of_cons in Hc as [Hne Hc]. rewrite bool_decide_false by done. by rewrite IH.
Qed.

Lemma digits_no_dot l : all_digits l → "."%char ∉ l.
Proof. intros Hl Hin. unfold all_digits in Hl. rewrite Forall_forall in Hl. by specialize (Hl _ Hin). Qed.

Lemma starts_with_iff p l : starts_with p l = true ↔ ∃ k, l = p ++ k.
Proof.
  revert l. induction p as [|a p IH]; intros l; cbn; [naive_solver|].
  destruct l as [|b l]; [naive_solver|].
  rewrite andb_true_iff, bool_decide_eq_true, IH. naive_solver.
Qed.

Lemma strip_suffix_app l suffix : strip_suffix suffix (l ++ suffix) = Some l.
Proof.
  unfold strip_suffix. rewrite rev_app_distr, (proj2 (starts_with_iff _ _)) by eauto.
  by rewrite length_app, Nat.add_sub, take_app_length.
Qed.

Lemma strip_suffix_Some suffix l k : strip_suffix suffix l = Some k → l = k ++ suffix.
Proof.
  unfold strip_suffix. destruct (starts_with _ _) eqn:H; [|done]. intros [= <-].
  apply starts_with_iff in H as [k Hk]. apply (f_equal (@rev _)) in Hk. rewrite rev_involutive, rev_app_distr, rev_involutive in Hk.
  rewrite Hk, length_app, Nat.add_sub. by rewrite take_app_length.
Qed.

Lemma strip_prefix_Some p l k : strip_prefix p l = Some k ↔ l = p ++ k.
Proof.
  unfold strip_prefix. destruct (starts_with p l) eqn:H.
  - apply starts_with_iff in H as [k' ->]. rewrite drop_app_length. naive_solver.
  - split; [done|]. intros ->. rewrite (proj2 (starts_with_iff _ _)) in H by eauto. done.
Qed.

Lemma strip_prefix_None p l : strip_prefix p l = None ↔ ∀ k, l ≠ p ++ k.
Proof.
  split.
  - intros H k ->. by rewrite (proj2 (strip_prefix_Some _ _ k)) in H.
  - intros H. destruct (strip_prefix p l) eqn:E; [|done].
    apply strip_prefix_Some in E. by apply H in E.
Qed.

Lemma str_strip_prefix_Some p s rest : str_strip_prefix p s = Some rest ↔ s = p +:+ rest.
Proof.
  unfold str_strip_prefix. rewrite fmap_Some. split.
  - intros (l & Hl%strip_prefix_Some & ->). rewrite <- (from_as_bytes s), Hl, <- (from_as_bytes (p +:+ _)).
    by rewrite as_bytes_app, as_from_bytes.
  - intros ->. exists (as_bytes rest). rewrite strip_prefix_Some, as_bytes_app, from_as_bytes. done.
Qed.

Lemma str_len_app s t : str_len (s +:+ t) = (str_len s + str_len t)%nat.
Proof. unfold str_len. by rewrite as_bytes_app, length_app. Qed.

Lemma str_len_zero s : str_len s = 0%nat ↔ s = "".
Proof.
  unfold str_len. split; [|by intros ->]. intros H%nil_length_inv.
  by rewrite <- (from_as_bytes s), H.
Qed.

Lemma from_bytes_len l : str_len (from_bytes l) = length l.
Proof. unfold str_len. by rewrite as_from_bytes. Qed.

(** The lexicographic order of [str]. *)
Lemma string_compare_trans a b c :
  String.compare a b ≠ Gt → String.compare b c ≠ Gt → String.compare a c ≠ Gt.
Proof.
  revert b c. induction a as [|x a IH]; intros [|y b] [|z c]; cbn; try done.
  destruct (Ascii.compare x y) eqn:Hxy, (Ascii.compare y z) eqn:Hyz, (Ascii.compare x z) eqn:Hxz; try done;
    unfold Ascii.compare in *;
    rewrite ?N.compare_eq_iff, ?N.compare_lt_iff, ?N.compare_gt_iff in *; try lia; eauto.
Qed.

Lemma string_compare_lt_trans a b c :
  String.compare a b = Lt → String.compare b c = Lt → String.compare a c = Lt.
Proof.
  intros H1 H2. pose proof (string_compare_trans a b c) as H. rewrite H1, H2 in H.
  destruct (String.compare a c) eqn:E; [|done|by destruct H].
  apply String.compare_eq_iff in E as ->. rewrite String.compare_antisym, H1 in H2. done.
Qed.

(** ** ASCII text *)

Lemma utf8_unit_ascii c l : byte_val c < 128 → utf8_unit (c :: l) = (1%nat, true).
Proof.
  intros Hc. unfold utf8_unit. replace (safe_get (c :: l) 0) with (byte_val c) by done.
  replace (utf8_char_width (byte_val c)) with 1 by (unfold utf8_char_width; by rewrite (proj2 (Z.ltb_lt _ _))). done.
Qed.

Lemma chars_ascii l : Forall (λ c, byte_val c < 128) l → chars (from_bytes l) = (λ c, [c]) <$> l.
Proof.
  intros Hl. unfold chars. rewrite as_from_bytes. induction Hl as [|c l Hc Hl IH]; [done|].
  cbn [length chars_from]. rewrite utf8_unit_ascii by done. cbn [fst take drop]. rewrite take_0, drop_0, IH. done.
Qed.

Lemma concat_singletons {A} (l : list A) : concat ((λ x, [x]) <$> l) = l.
Proof. induction l as [|x l IH]; [done|]. cbn. by rewrite IH. Qed.

Lemma hexdigit_solid c : is_ascii_hexdigit c = true → solid c.
Proof. unfold solid, ws1, is_ascii_hexdigit, is_ascii_digit, byte_between. lia. Qed.

Lemma parse_unsigned_display max n :
  0 <= n <= max → max <= i128_max → parse_unsigned max (from_bytes (display_u128 n)) = Some n.
Proof.
  intros Hn Hmax. destruct (display_u128_spec n) as (Hd & Hne & Hv & _); [lia|].
  unfold parse_unsigned. rewrite as_from_bytes.
  pose proof (parse_i128_digits _ Hd Hne) as Hparse. rewrite Hv, (proj2 (Z.leb_le _ _)) in Hparse by lia.
  destruct (display_u128 n) as [|c l]; [done|]. inversion Hd as [|?? Hc Hl]; subst.
  assert (c ≠ "+"%char ∧ c ≠ "-"%char) as [Hplus Hminus] by (split; intros ->; by vm_compute in Hc).
  rewrite bool_decide_false by done. unfold parse_i128 in Hparse. rewrite !bool_decide_false in Hparse by done.
  rewrite Hparse. cbn. by apply checked_in.
Qed.

Lemma eq_ignore_ascii_case_iff s t : eq_ignore_ascii_case s t = true ↔ to_ascii_lowercase s = to_ascii_lowercase t.
Proof. unfold eq_ignore_ascii_case. by rewrite bool_decide_eq_true. Qed.

Lemma str_ends_with_iff s p : str_ends_with s p = true ↔ ∃ front, as_bytes s = front ++ as_bytes p.
Proof.
  unfold str_ends_with. split.
  - destruct (strip_suffix _ _) as [front|] eqn:Hstrip; [|done]. apply strip_suffix_Some in Hstrip. eauto.
  - intros [front ->]. by rewrite strip_suffix_app.
Qed.

(** ** JSON values

    A [serde_json::Value]; numbers are kept as their text, which nothing here
    reads, and an object as its fields, whose names differ. *)

#[warnings="-register-all"]
Inductive JsonBody : Type :=
| BodyNull
| BodyBool (b : bool)
| BodyNumber (text : string)
| BodyString (s : string)
| BodyArray (values : list JsonBody)
| BodyObject (fields : list (string * JsonBody)).

(** [Value::as_str] and [Map::get]. *)
Definition body_as_str (value : JsonBody) : option string :=
  match value with BodyString s => Some s | _ => None end.

Definition body_get (key : string) (fields : list (string * JsonBody)) : option JsonBody :=
  snd <$> List.find (λ field, bool_decide (field.1 = key)) fields.
