(* ===== verification/NetworkPolicy.v ===== *)
(** Internet addresses and the rules on them: the parser of [std::net], the
    allow lists of crates/config/src/lib.rs (trusted proxies) and of
    apps/gateway/src/db.rs (virtual keys), and the policy that keeps the calls
    to providers away from internal addresses (config/src/lib.rs,
    apps/gateway/src/main.rs). *)

From Stdlib Require Import Btauto.
From S2P Require Export RustStr.

#[local] Open Scope string_scope.
#[local] Open Scope list_scope.
#[local] Open Scope Z_scope.

(** ** [std::net::IpAddr] *)

(** The octets of an address, four or sixteen of them. *)
Inductive IpAddr : Type := V4 (octets : list Z) | V6 (octets : list Z).

#[export] Instance IpAddr_eq_dec : EqDecision IpAddr.
Proof. solve_decision. Defined.

(** *** The parser of [core::net], on the bytes that are left *)

(** [char::to_digit]. *)
Definition to_digit (radix : Z) (c : ascii) : option Z :=
  let digit :=
    if is_ascii_digit c then byte_val c - 48
    else if is_ascii_lowercase c then byte_val c - 87
    else if is_ascii_uppercase c then byte_val c - 55
    else radix in
  if digit <? radix then Some digit else None.

Definition read_given_char (c : ascii) (l : bytes) : option bytes :=
  match l with
  | b :: l' => if bool_decide (b = c) then Some l' else None
  | [] => None
  end.

(** The loop over the digits: the number, how many digits it has, the rest. *)
Fixpoint read_digits (radix : Z) (max_digits count : nat) (acc : Z) (l : bytes) : option (Z * nat * bytes) :=
  match l with
  | c :: l' =>
      match to_digit radix c with
      | Some digit =>
          if (max_digits <? S count)%nat then None
          else read_digits radix max_digits (S count) (acc * radix + digit) l'
      | None => Some (acc, count, l)
      end
  | [] => Some (acc, count, l)
  end.

Definition read_number (radix max : Z) (max_digits : nat) (allow_zero_prefix : bool) (l : bytes) : option (Z * bytes) :=
  '(result, digit_count, rest) ← read_digits radix max_digits 0 0 l;
  if (digit_count =? 0)%nat then None
  else if negb allow_zero_prefix && starts_with (as_bytes "0") l && (1 <? digit_count)%nat then None
  else number ← checked 0 max result; Some (number, rest).

Definition read_separator {A : Type} (separator : ascii) (index : nat) (inner : bytes → option (A * bytes)) (l : bytes)
    : option (A * bytes) :=
  l ← (if (0 <? index)%nat then read_given_char separator l else Some l);
  inner l.

(** The octets from [index] on, [count] of them. *)
Fixpoint read_octets (count index : nat) (l : bytes) : option (list Z * bytes) :=
  match count with
  | O => Some ([], l)
  | S count' =>
      '(octet, l) ← read_separator "."%char index (read_number 10 255 3 false) l;
      '(octets, l) ← read_octets count' (S index) l;
      Some (octet :: octets, l)
  end.

Definition read_ipv4_addr (l : bytes) : option (list Z * bytes) := read_octets 4 0 l.

(** A trailing IPv4 address, as two groups; there must be two groups left. *)
Definition embedded_ipv4 (limit index : nat) (l : bytes) : option (Z * Z * bytes) :=
  if (index <? limit - 1)%nat then
    match read_separator ":"%char index read_ipv4_addr l with
    | Some ([one; two; three; four], rest) => Some (one * 256 + two, three * 256 + four, rest)
    | _ => None
    end
  else None.

(** [read_groups] into a slice of [limit] groups, from [index] on: the groups it
    read, whether they end in an embedded IPv4 address, and the rest. *)
Fixpoint read_groups (limit index left : nat) (l : bytes) : list Z * bool * bytes :=
  match left with
  | O => ([], false, l)
  | S left' =>
      match embedded_ipv4 limit index l with
      | Some (group, next, rest) => ([group; next], true, rest)
      | None =>
          match read_separator ":"%char index (read_number 16 65535 4 true) l with
          | Some (group, rest) =>
              let '(groups, ipv4, rest) := read_groups limit (S index) left' rest in (group :: groups, ipv4, rest)
          | None => ([], false, l)
          end
      end
  end.

Definition group_octets (groups : list Z) : list Z := List.flat_map (λ group, [group / 256; group mod 256]) groups.

Definition read_ipv6_addr (l : bytes) : option (list Z * bytes) :=
  let '(head, head_ipv4, l) := read_groups 8 0 8 l in
  if (length head =? 8)%nat then Some (group_octets head, l)
  else if head_ipv4 then None
  else
    l ← read_given_char ":"%char l;
    l ← read_given_char ":"%char l;
    let limit := (8 - (length head + 1))%nat in
    let '(tail, _, l) := read_groups limit 0 limit l in
    Some (group_octets (head ++ replicate (8 - length head - length tail) 0 ++ tail), l).

Definition read_ip_addr (l : bytes) : option (IpAddr * bytes) :=
  match read_ipv4_addr l with
  | Some (octets, rest) => Some (V4 octets, rest)
  | None => '(octets, rest) ← read_ipv6_addr l; Some (V6 octets, rest)
  end.

(** [str::parse::<IpAddr>]. *)
Definition parse_ip (s : string) : option IpAddr :=
  '(ip, rest) ← read_ip_addr (as_bytes s);
  match rest with [] => Some ip | _ => None end.

(** *** Ranges, as [std::net] names them *)

Definition segment0 (octets : list Z) : Z := nth 0 octets 0 * 256 + nth 1 octets 0.

Definition is_loopback (ip : IpAddr) : bool :=
  match ip with
  | V4 octets => nth 0 octets 0 =? 127
  | V6 octets => bool_decide (octets = replicate 15 0 ++ [1])
  end.

Definition is_unspecified (ip : IpAddr) : bool :=
  match ip with
  | V4 octets => bool_decide (octets = replicate 4 0)
  | V6 octets => bool_decide (octets = replicate 16 0)
  end.

Definition is_multicast (ip : IpAddr) : bool :=
  match ip with
  | V4 octets => (224 <=? nth 0 octets 0) && (nth 0 octets 0 <=? 239)
  | V6 octets => Z.land (segment0 octets) 65280 =? 65280
  end.

Definition is_private (octets : list Z) : bool :=
  let first := nth 0 octets 0 in
  let second := nth 1 octets 0 in
  (first =? 10) || (first =? 172) && (16 <=? second) && (second <=? 31) || (first =? 192) && (second =? 168).

Definition is_link_local (octets : list Z) : bool := (nth 0 octets 0 =? 169) && (nth 1 octets 0 =? 254).

Definition is_unique_local (octets : list Z) : bool := Z.land (segment0 octets) 65024 =? 64512.

(** ** Allow lists *)

(** [u8::MAX << (8 - remaining_bits)]. *)
Definition prefix_mask (remaining_bits : Z) : Z := Z.land (Z.shiftl 255 (8 - remaining_bits)) 255.

(** *** crates/config/src/lib.rs *)

Definition config_prefix_matches (network client : list Z) (prefix_len : Z) : bool :=
  let full_bytes := Z.to_nat (prefix_len / 8) in
  if negb (bool_decide (take full_bytes network = take full_bytes client)) then false
  else
    let remaining_bits := prefix_len mod 8 in
    if remaining_bits =? 0 then true
    else
      let mask := prefix_mask remaining_bits in
      Z.land (nth full_bytes network 0) mask =? Z.land (nth full_bytes client 0) mask.

Inductive IpAllowlistEntry : Type := Single (ip : IpAddr) | Cidr (network : IpAddr) (prefix_len : Z).

Definition config_cidr_matches (network : IpAddr) (prefix_len : Z) (client_ip : IpAddr) : bool :=
  match network, client_ip with
  | V4 network, V4 client => config_prefix_matches network client prefix_len
  | V6 network, V6 client => config_prefix_matches network client prefix_len
  | _, _ => false
  end.

Definition entry_matches (entry : IpAllowlistEntry) (client_ip : IpAddr) : bool :=
  match entry with
  | Single allowed_ip => bool_decide (allowed_ip = client_ip)
  | Cidr network prefix_len => config_cidr_matches network prefix_len client_ip
  end.

Definition valid_prefix_len (network : IpAddr) (prefix_len : Z) : bool :=
  match network with V4 _ => prefix_len <=? 32 | V6 _ => prefix_len <=? 128 end.

Definition parse_ip_allowlist_entry (entry : string) : option IpAllowlistEntry :=
  let entry := str_trim entry in
  if bool_decide (entry = "") then None
  else
    match split_once "/"%char (as_bytes entry) with
    | Some (network, prefix_len) =>
        network ← parse_ip (str_trim (from_bytes network));
        prefix_len ← parse_unsigned u8_max (str_trim (from_bytes prefix_len));
        if valid_prefix_len network prefix_len then Some (Cidr network prefix_len) else None
    | None => Single <$> parse_ip entry
    end.

Definition ip_allowlist_contains (entries : list string) (client_ip : IpAddr) : bool :=
  List.existsb (λ entry,
    match parse_ip_allowlist_entry entry with Some entry => entry_matches entry client_ip | None => false end) entries.

(** The check of the configuration. *)
Definition require_ip_allowlist_entries (entries : list string) : bool :=
  List.forallb (λ entry, is_some (parse_ip_allowlist_entry entry)) entries.

(** *** apps/gateway/src/db.rs *)

Definition prefix_matches (network client : list Z) (prefix_len max_prefix_len : Z) : bool :=
  if max_prefix_len <? prefix_len then false
  else
    let full_bytes := Z.to_nat (prefix_len / 8) in
    if negb (bool_decide (take full_bytes network = take full_bytes client)) then false
    else
      let remaining_bits := prefix_len mod 8 in
      if remaining_bits =? 0 then true
      else
        let mask := prefix_mask remaining_bits in
        Z.land (nth full_bytes network 0) mask =? Z.land (nth full_bytes client 0) mask.

Definition cidr_matches (network prefix_len : string) (client_ip : IpAddr) : bool :=
  match parse_ip network, parse_unsigned u8_max prefix_len with
  | Some network_ip, Some prefix_len =>
      match network_ip, client_ip with
      | V4 network, V4 client => prefix_matches network client prefix_len 32
      | V6 network, V6 client => prefix_matches network client prefix_len 128
      | _, _ => false
      end
  | _, _ => false
  end.

Definition ip_allowlist_entry_matches (entry : string) (client_ip : IpAddr) : bool :=
  let entry := str_trim entry in
  if bool_decide (entry = "") then false
  else
    match split_once "/"%char (as_bytes entry) with
    | Some (network, prefix_len) =>
        cidr_matches (str_trim (from_bytes network)) (str_trim (from_bytes prefix_len)) client_ip
    | None => bool_decide (parse_ip entry = Some client_ip)
    end.

(** [GatewayApiError::api_key_ip_forbidden]. *)
Inductive IpForbidden : Type := ApiKeyIpForbidden.

Definition ip_allowlist_allows (allowlist : JsonBody) (client_ip : IpAddr) : bool :=
  match allowlist with
  | BodyArray [] => true
  | BodyArray entries => List.existsb (λ entry, ip_allowlist_entry_matches entry client_ip) (omap body_as_str entries)
  | _ => false
  end.

Definition is_empty_json_array (value : JsonBody) : bool :=
  match value with BodyArray [] => true | _ => false end.

Definition enforce_ip_allowlist (allowlist : JsonBody) (client_ip : IpAddr) : result IpForbidden () :=
  if ip_allowlist_allows allowlist client_ip then Ok () else Err ApiKeyIpForbidden.

Inductive ProfileIpAllowlistPolicy : Type := NotConfigured | Configured (allowlist : JsonBody) | Malformed.

(** [Option::or_else]. *)
Definition or_else {A : Type} (first second : option A) : option A :=
  match first with Some _ => first | None => second end.

Definition is_profile_ip_allowlist_policy (policy : list (string * JsonBody)) : bool :=
  match or_else (body_get "type" policy) (body_get "kind" policy) ≫= body_as_str with
  | Some policy_type =>
      eq_ignore_ascii_case policy_type "profile_ip_allowlist" || eq_ignore_ascii_case policy_type "ip_allowlist"
  | None => false
  end.

Fixpoint first_ip_allowlist_policy (overrides : list JsonBody) : ProfileIpAllowlistPolicy :=
  match overrides with
  | [] => NotConfigured
  | BodyObject policy :: overrides =>
      if is_profile_ip_allowlist_policy policy then
        match or_else (body_get "ip_allowlist" policy) (body_get "entries" policy) with
        | Some allowlist => Configured allowlist
        | None => Malformed
        end
      else first_ip_allowlist_policy overrides
  | _ :: overrides => first_ip_allowlist_policy overrides
  end.

Definition profile_ip_allowlist_policy (request_overrides : JsonBody) : ProfileIpAllowlistPolicy :=
  match request_overrides with
  | BodyArray overrides => first_ip_allowlist_policy overrides
  | _ => NotConfigured
  end.

Definition enforce_profile_ip_allowlist (request_overrides : JsonBody) (client_ip : IpAddr) : result IpForbidden () :=
  match profile_ip_allowlist_policy request_overrides with
  | NotConfigured => Ok ()
  | Configured allowlist => enforce_ip_allowlist allowlist client_ip
  | Malformed => Err ApiKeyIpForbidden
  end.

Definition enforce_auth_ip_allowlists (key_allowlist : JsonBody)
    (profile_allowlist profile_request_overrides : option JsonBody) (client_ip : IpAddr) : result IpForbidden () :=
  _ ← enforce_ip_allowlist key_allowlist client_ip;
  _ ← (match profile_allowlist with
       | Some profile_allowlist =>
           if negb (is_empty_json_array profile_allowlist) then enforce_ip_allowlist profile_allowlist client_ip
           else Ok ()
       | None => Ok ()
       end);
  match profile_request_overrides with
  | Some profile_request_overrides => enforce_profile_ip_allowlist profile_request_overrides client_ip
  | None => Ok ()
  end.

(** ** Endpoints of providers *)

Definition is_ipv6_unicast_link_local (octets : list Z) : bool := Z.land (segment0 octets) 65472 =? 65152.

Definition forbidden_provider_ip (ip : IpAddr) : bool :=
  match ip with
  | V4 octets =>
      is_loopback ip || is_private octets || is_link_local octets || is_unspecified ip || is_multicast ip
      || bool_decide (octets = [255; 255; 255; 255]) || bool_decide (octets = [169; 254; 169; 254])
  | V6 octets =>
      is_loopback ip || is_unspecified ip || is_multicast ip || is_unique_local octets
      || is_ipv6_unicast_link_local octets
  end.

Definition provider_endpoint_resolved_ip_allowed (ip : IpAddr) : bool := negb (forbidden_provider_ip ip).

Definition forbidden_provider_host (host : string) : bool :=
  let normalized := to_ascii_lowercase (trim_end_matches "."%char (str_trim host)) in
  if bool_decide (normalized = "localhost") || str_ends_with normalized ".localhost" then true
  else match parse_ip normalized with Some ip => forbidden_provider_ip ip | None => false end.

(** The parts of a [Url] that are read. *)
Record Url : Type := mkUrl {
  url_scheme : string;
  url_username : string;
  url_password : option string;
  url_host_str : option string;
  url_port_or_known_default : option Z;
  url_query : option string;
  url_fragment : option string;
}.

(** [Url::parse] of the url crate. *)
Class UrlParse : Type := url_parse : string → option Url.

(** [tokio::net::lookup_host] of a host and a port: the addresses, or an error. The
    answer depends on the time of the query. *)
Class LookupHost : Type := lookup_host : Z → string → Z → option (list IpAddr).

Inductive ProviderEndpointValidationError : Type :=
  InvalidUrl | UnsupportedScheme | InsecureScheme | UserInfo | MissingHost | ForbiddenHost | QueryOrFragment.

(** [OpenAiAdapterError::InvalidUpstreamBaseUrl], with what its text tells. *)
Inductive InvalidUpstreamBaseUrl : Type :=
| EndpointRejected (error : ProviderEndpointValidationError)
| UrlUnreadable
| HostRequired
| PortUndetermined
| DnsFailed
| DnsForbidden.

Section endpoints.
Context {U : UrlParse} {L : LookupHost}.

Definition validate_provider_endpoint (endpoint : string) (allow_unsafe_local_endpoints : bool)
    : result ProviderEndpointValidationError string :=
  let trimmed := trim_end_matches "/"%char (str_trim endpoint) in
  url ← ok_or (url_parse trimmed) InvalidUrl;
  fail_if negb (bool_decide (url_scheme url ∈ ["http"; "https"])) with UnsupportedScheme ;;
  fail_if negb (bool_decide (url_scheme url = "https")) && negb allow_unsafe_local_endpoints with InsecureScheme ;;
  fail_if negb (bool_decide (url_username url = "")) || is_some (url_password url) with UserInfo ;;
  host ← ok_or (url_host_str url) MissingHost;
  fail_if negb allow_unsafe_local_endpoints && forbidden_provider_host host with ForbiddenHost ;;
  fail_if is_some (url_query url) || is_some (url_fragment url) with QueryOrFragment ;;
  Ok trimmed.

Definition resolved_provider_endpoint_ips_allowed (ips : list IpAddr) : bool :=
  negb (bool_decide (ips = [])) && List.forallb provider_endpoint_resolved_ip_allowed ips.

Definition validate_provider_endpoint_dns (now : Z) (endpoint : string) : result InvalidUpstreamBaseUrl () :=
  url ← ok_or (url_parse endpoint) UrlUnreadable;
  host ← ok_or (url_host_str url) HostRequired;
  if is_some (parse_ip host) then Ok ()
  else
    port ← ok_or (url_port_or_known_default url) PortUndetermined;
    resolved_ips ← ok_or (lookup_host now host port) DnsFailed;
    if resolved_provider_endpoint_ips_allowed resolved_ips then Ok () else Err DnsForbidden.

Definition validate_provider_endpoint_for_runtime (now : Z) (endpoint : string) (allow_unsafe_local_endpoints : bool)
    : result InvalidUpstreamBaseUrl string :=
  endpoint ← map_err EndpointRejected (validate_provider_endpoint endpoint allow_unsafe_local_endpoints);
  _ ← (if negb allow_unsafe_local_endpoints then validate_provider_endpoint_dns now endpoint else Ok ());
  Ok endpoint.

End endpoints.

(** ** Addresses that are read are well formed *)

Definition octet (n : Z) : Prop := 0 <= n < 256.

Definition ip_octets (ip : IpAddr) : list Z := match ip with V4 octets | V6 octets => octets end.

(** The number of octets of its kind of address. *)
Definition ip_len (ip : IpAddr) : nat := match ip with V4 _ => 4 | V6 _ => 16 end.

Definition ip_wf (ip : IpAddr) : Prop := length (ip_octets ip) = ip_len ip ∧ Forall octet (ip_octets ip).

Lemma read_number_Some radix max max_digits zeros l n rest :
  read_number radix max max_digits zeros l = Some (n, rest) → 0 <= n <= max.
Proof.
  unfold read_number. destruct (read_digits _ _ _ _ _) as [[[result count] rest']|]; [|done]. cbn.
  destruct (count =? 0)%nat; [done|]. destruct (negb zeros && _ && _); [done|].
  destruct (checked 0 max result) as [m|] eqn:Hm; [|done]. intros [= <- <-]. by apply checked_Some in Hm as [-> ?].
Qed.

Lemma read_separator_Some {A} sep index (inner : bytes → option (A * bytes)) l r :
  read_separator sep index inner l = Some r → ∃ l', inner l' = Some r.
Proof. unfold read_separator. destruct (if (0 <? index)%nat then _ else _) as [l'|]; [|done]. cbn. eauto. Qed.

Lemma read_octets_Some count index l octets rest :
  read_octets count index l = Some (octets, rest) → length octets = count ∧ Forall octet octets.
Proof.
  revert index l octets rest. induction count as [|count IH]; intros index l octets rest; cbn [read_octets];
    [by intros [= <- <-]|].
  destruct (read_separator "."%char index (read_number 10 255 3 false) l) as [[o l1]|] eqn:Ho; [|done]. cbn.
  destruct (read_octets count _ l1) as [[os l2]|] eqn:Hos; [|done]. cbn. intros [= <- <-].
  apply read_separator_Some in Ho as [l0 Ho%read_number_Some]. apply IH in Hos as [<- ?].
  split; [done|]. constructor; [unfold octet; lia|done].
Qed.

Definition group (n : Z) : Prop := 0 <= n < 65536.

Lemma embedded_ipv4_Some limit index l g h rest :
  embedded_ipv4 limit index l = Some (g, h, rest) → (index < limit - 1)%nat ∧ group g ∧ group h.
Proof.
  unfold embedded_ipv4. destruct (Nat.ltb_spec index (limit - 1)); [|done].
  destruct (read_separator ":"%char index read_ipv4_addr l) as [[os l1]|] eqn:Hos; [|done].
  apply read_separator_Some in Hos as [l0 [Hlen Hall]%read_octets_Some].
  destruct os as [|a [|b [|c [|d [|]]]]]; try done. intros [= <- <- <-].
  rewrite !Forall_cons in Hall. unfold octet, group in *. lia.
Qed.

Lemma read_groups_wf limit index left l groups ipv4 rest :
  (index + left = limit)%nat → read_groups limit index left l = (groups, ipv4, rest) →
  (length groups <= left)%nat ∧ Forall group groups.
Proof.
  revert index l groups ipv4 rest. induction left as [|left IH]; intros index l groups ipv4 rest Hlimit; cbn [read_groups].
  { intros [= <- <- <-]. split; [done|constructor]. }
  destruct (embedded_ipv4 limit index l) as [[[g h] l1]|] eqn:Hv4.
  { intros [= <- <- <-]. apply embedded_ipv4_Some in Hv4 as (? & ? & ?). split; [cbn; lia|]. by rewrite !Forall_cons. }
  destruct (read_separator ":"%char index (read_number 16 65535 4 true) l) as [[g l1]|] eqn:Hgroup.
  - destruct (read_groups limit (S index) left l1) as [[gs v4] l2] eqn:Hgs. intros [= <- <- <-].
    apply IH in Hgs as [??]; [|lia]. apply read_separator_Some in Hgroup as [l0 ?%read_number_Some].
    split; cbn; [lia|]. constructor; [unfold group; lia|done].
  - intros [= <- <- <-]. split; [cbn; lia|constructor].
Qed.

Lemma group_octets_wf groups : Forall group groups →
  length (group_octets groups) = (2 * length groups)%nat ∧ Forall octet (group_octets groups).
Proof.
  induction 1 as [|g gs Hg _ [Hlen Hall]]; [by split; [|constructor]|]. cbn. split; [unfold group_octets in Hlen; lia|].
  unfold group in Hg. rewrite !Forall_cons. unfold octet at 1 2.
  split_and!; [..|exact Hall]; Z.to_euclidean_division_equations; lia.
Qed.

Lemma parse_ip_wf s ip : parse_ip s = Some ip → ip_wf ip.
Proof.
  unfold parse_ip, read_ip_addr. destruct (read_ipv4_addr _) as [[os rest]|] eqn:Hv4; cbn.
  { destruct rest; [|done]. intros [= <-]. by apply read_octets_Some in Hv4. }
  unfold read_ipv6_addr. destruct (read_groups 8 0 8 _) as [[head v4] l1] eqn:Hhead.
  apply read_groups_wf in Hhead as [Hlen Hall]; [|done]. destruct (Nat.eqb_spec (length head) 8) as [Heq|Hne]; cbn.
  { destruct l1; [|done]. intros [= <-]. apply group_octets_wf in Hall as [Hl Ho]. split; [|done]. cbn. lia. }
  destruct v4; [done|]. destruct (read_given_char _ l1) as [l2|]; [|done]. cbn.
  destruct (read_given_char _ l2) as [l3|]; [|done]. cbn.
  destruct (read_groups _ 0 _ l3) as [[tail v4] l4] eqn:Htail. apply read_groups_wf in Htail as [Htl Hta]; [|done].
  destruct l4; [|done]. cbn. intros [= <-].
  assert (Forall group (head ++ replicate (8 - length head - length tail) 0 ++ tail)) as Hgroups.
  { rewrite !Forall_app. split_and!; [done| |done]. apply Forall_replicate. unfold group. lia. }
  destruct (group_octets_wf _ Hgroups) as [Hl Ho]. split; [|done]. cbn.
  rewrite !length_app, length_replicate in Hl. lia.
Qed.

(** ** Ranges of addresses *)

(** The address as a number, most significant octet first. *)
Definition be_value (octets : list Z) : Z := foldl (λ acc o, acc * 256 + o) 0 octets.

Lemma be_value_app a b : be_value (a ++ b) = be_value a * 256 ^ Z.of_nat (length b) + be_value b.
Proof.
  unfold be_value. rewrite foldl_app. generalize (foldl (λ acc o, acc * 256 + o) 0 a) as x.
  induction b as [|o b IH] using rev_ind; intros x; [cbn; lia|].
  rewrite !foldl_app, length_app, IH. cbn [foldl length]. rewrite Nat2Z.inj_add, Z.pow_add_r by lia. lia.
Qed.

Lemma be_value_range l : Forall octet l → 0 <= be_value l < 256 ^ Z.of_nat (length l).
Proof.
  induction l as [|o l IH] using rev_ind; [done|]. rewrite Forall_app, Forall_singleton. intros [Hl Ho].
  specialize (IH Hl). rewrite be_value_app, length_app. cbn [length]. rewrite Nat2Z.inj_add, Z.pow_add_r by lia.
  unfold octet in Ho. unfold be_value at 2 4. cbn [foldl Z.of_nat]. change (256 ^ Z.of_nat 1) with 256. nia.
Qed.

Lemma be_value_inj a b :
  Forall octet a → Forall octet b → length a = length b → be_value a = be_value b → a = b.
Proof.
  revert b. induction a as [|x a IH] using rev_ind; intros b Ha Hb Hlen Heq.
  { by destruct b. }
  destruct (exists_last (l := b)) as (b' & y & ->). { intros ->. rewrite length_app in Hlen. cbn in Hlen. lia. }
  rewrite !length_app in Hlen. cbn [length] in Hlen. rewrite Forall_app, Forall_singleton in Ha, Hb.
  rewrite !be_value_app in Heq. unfold be_value in Heq at 2 4. cbn [foldl length] in Heq.
  change (256 ^ Z.of_nat 1) with 256 in Heq. destruct Ha as [Ha Hx], Hb as [Hb Hy]. unfold octet in Hx, Hy.
  assert (x = y) as -> by lia. f_equal. apply IH; [done..|lia|lia].
Qed.

(** The bits of an octet that the mask keeps. *)
Lemma land_prefix_mask o r : octet o → 0 < r < 8 → Z.land o (prefix_mask r) = o / 2 ^ (8 - r) * 2 ^ (8 - r).
Proof.
  intros Ho Hr.
  assert (∀ r, r ∈ [1; 2; 3; 4; 5; 6; 7] →
    Forall (λ o, Z.land o (prefix_mask r) = o / 2 ^ (8 - r) * 2 ^ (8 - r)) (Z.of_nat <$> seq 0 256)) as Hall.
  { intros r' Hr'. apply (bool_decide_unpack _). revert r' Hr'. apply Forall_forall. by repeat constructor. }
  assert (r ∈ [1; 2; 3; 4; 5; 6; 7]) as Hin by (rewrite !elem_of_cons; lia).
  specialize (Hall r Hin). rewrite Forall_forall in Hall. apply Hall. apply list_elem_of_fmap.
  exists (Z.to_nat o). unfold octet in Ho. split; [lia|]. apply elem_of_seq. lia.
Qed.

(** Dropping the last [8 * length] bits, and [8 - r] bits of an octet more. *)
Lemma be_value_split front o back r :
  Forall octet back → 0 <= r <= 8 →
  be_value (front ++ o :: back) / 2 ^ (8 * Z.of_nat (length back) + (8 - r)) = (be_value front * 256 + o) / 2 ^ (8 - r).
Proof.
  intros Hback Hr. change (o :: back) with ([o] ++ back). rewrite (assoc_L (++)), be_value_app, (be_value_app front [o]).
  unfold be_value at 2. cbn [foldl length]. change (256 ^ Z.of_nat 1) with 256. rewrite Z.pow_add_r by lia.
  rewrite <-Z.div_div by (apply Z.pow_nonzero || apply Z.pow_pos_nonneg; lia). f_equal.
  replace (2 ^ (8 * Z.of_nat (length back))) with (256 ^ Z.of_nat (length back)) by (rewrite Z.pow_mul_r by lia; done).
  apply be_value_range in Hback. rewrite Z.div_add_l by lia. rewrite (Z.div_small (be_value back)) by lia. lia.
Qed.

Lemma be_value_front front back :
  Forall octet back → be_value (front ++ back) / 2 ^ (8 * Z.of_nat (length back)) = be_value front.
Proof.
  intros Hback%be_value_range. rewrite be_value_app, Z.pow_mul_r by lia. change (2 ^ 8) with 256.
  rewrite Z.div_add_l, Z.div_small by lia. lia.
Qed.

(** The first [k] octets of an address, and [r] bits more. *)
Lemma prefix_value l k :
  Forall octet l → (k <= length l)%nat → be_value l / 2 ^ (8 * Z.of_nat (length l) - (8 * Z.of_nat k + 0)) = be_value (take k l).
Proof.
  intros Hl Hk. rewrite <-(be_value_front (take k l) (drop k l)) by (by apply Forall_drop).
  rewrite take_drop, length_drop. do 2 f_equal. lia.
Qed.

Lemma prefix_value_bits l k o r :
  Forall octet l → l !! k = Some o → 0 < r < 8 →
  be_value l / 2 ^ (8 * Z.of_nat (length l) - (8 * Z.of_nat k + r)) = be_value (take k l) * 2 ^ r + o / 2 ^ (8 - r).
Proof.
  intros Hl Ho Hr. pose proof (lookup_lt_Some _ _ _ Ho) as Hk.
  transitivity ((be_value (take k l) * 256 + o) / 2 ^ (8 - r)).
  - rewrite <-(be_value_split (take k l) o (drop (S k) l)) by (by apply Forall_drop || lia).
    rewrite take_drop_middle, length_drop by done. do 2 f_equal. lia.
  - replace 256 with (2 ^ r * 2 ^ (8 - r)) by (rewrite <-Z.pow_add_r by lia; by replace (r + (8 - r)) with 8 by lia).
    by rewrite Z.mul_assoc, Z.div_add_l by (apply Z.pow_nonzero; lia).
Qed.

Lemma prefix_bytes_iff network client k :
  Forall octet network → Forall octet client → length network = length client →
  take k network = take k client ↔ be_value (take k network) = be_value (take k client).
Proof.
  intros Hn Hc Hlen. split; [by intros ->|]. apply be_value_inj; [by apply Forall_take..|]. rewrite !length_take. lia.
Qed.

Lemma octet_bits o r : octet o → 0 < r < 8 → 0 <= o / 2 ^ (8 - r) < 2 ^ r.
Proof.
  unfold octet. intros Ho Hr. split; [apply Z.div_pos; lia|]. apply Z.div_lt_upper_bound; [lia|].
  rewrite <-Z.pow_add_r by lia. replace (8 - r + r) with 8 by lia. lia.
Qed.

Lemma prefix_matches_eq network client prefix_len max_prefix_len :
  prefix_matches network client prefix_len max_prefix_len
  = if max_prefix_len <? prefix_len then false else config_prefix_matches network client prefix_len.
Proof. done. Qed.

Lemma config_prefix_matches_iff network client prefix_len :
  Forall octet network → Forall octet client → length network = length client →
  0 <= prefix_len <= 8 * Z.of_nat (length network) →
  config_prefix_matches network client prefix_len = true ↔
  be_value network / 2 ^ (8 * Z.of_nat (length network) - prefix_len)
  = be_value client / 2 ^ (8 * Z.of_nat (length network) - prefix_len).
Proof.
  intros Hn Hc Hlen Hp. unfold config_prefix_matches.
  pose proof (Z.div_mod prefix_len 8 ltac:(done)) as Hdiv. pose proof (Z.mod_pos_bound prefix_len 8 ltac:(done)) as Hmod.
  set (r := prefix_len mod 8) in *. set (k := Z.to_nat (prefix_len / 8)).
  assert (prefix_len = 8 * Z.of_nat k + r) as Heq by (unfold k; lia). clear Hdiv. clearbody r k. subst prefix_len.
  pose proof (prefix_bytes_iff network client k Hn Hc Hlen) as Hbytes. rewrite Hlen at 2. destruct (Z.eqb_spec r 0) as [->|Hr].
  - rewrite !prefix_value, <-Hbytes by (done || lia). case_bool_decide; cbn; naive_solver.
  - destruct (lookup_lt_is_Some_2 network k) as [n Hnk]; [lia|].
    destruct (lookup_lt_is_Some_2 client k) as [c Hck]; [lia|].
    rewrite (nth_lookup_Some _ _ _ _ Hnk), (nth_lookup_Some _ _ _ _ Hck).
    pose proof (Forall_lookup_1 _ _ _ _ Hn Hnk) as Hno. pose proof (Forall_lookup_1 _ _ _ _ Hc Hck) as Hco.
    rewrite !land_prefix_mask, (prefix_value_bits _ _ _ _ Hn Hnk), (prefix_value_bits _ _ _ _ Hc Hck) by (done || lia).
    pose proof (octet_bits n r Hno ltac:(lia)). pose proof (octet_bits c r Hco ltac:(lia)).
    pose proof (Z.pow_pos_nonneg 2 (8 - r) ltac:(lia) ltac:(lia)). case_bool_decide as Htake; cbn.
    + apply Hbytes in Htake. rewrite Z.eqb_eq, Htake, Z.mul_cancel_r by lia. lia.
    + split; [done|]. intros Heq. exfalso. apply Htake, Hbytes. nia.
Qed.

(** ** Allow lists *)

(** The client is in the range of the first [prefix_len] bits of the network. *)
Definition in_range (network : IpAddr) (prefix_len : Z) (client : IpAddr) : Prop :=
  let host_bits := 8 * Z.of_nat (ip_len network) - prefix_len in
  ip_len client = ip_len network ∧ 0 <= host_bits ∧
  be_value (ip_octets network) / 2 ^ host_bits = be_value (ip_octets client) / 2 ^ host_bits.

(** What an entry of an allow list means: an address, or a range of them. *)
Definition entry_allows (entry : string) (client : IpAddr) : Prop :=
  match split_once "/"%char (as_bytes (str_trim entry)) with
  | None => parse_ip (str_trim entry) = Some client
  | Some (network, prefix_len) =>
      ∃ ip n, parse_ip (str_trim (from_bytes network)) = Some ip ∧
        parse_unsigned u8_max (str_trim (from_bytes prefix_len)) = Some n ∧ in_range ip n client
  end.

Lemma parse_unsigned_range max s n : parse_unsigned max s = Some n → 0 <= n <= max.
Proof.
  unfold parse_unsigned. destruct (match as_bytes s with [] => [] | _ => _ end); [done|].
  destruct (parse_digits _ _ _) as [m|]; [|done]. cbn. by intros [-> ?]%checked_Some.
Qed.

Lemma range_matches network n client :
  ip_wf network → ip_wf client → 0 <= n →
  (valid_prefix_len network n = true ∧ config_cidr_matches network n client = true) ↔ in_range network n client.
Proof.
  intros [Hln Hn] [Hlc Hc] Hpos. unfold in_range.
  destruct network as [network|network], client as [client|client]; cbn in *; try (split; [by intros []|by intros []]).
  all: rewrite Z.leb_le; split.
  all: try (intros [Hmax Hmatch]; apply config_prefix_matches_iff in Hmatch; [|done|done|congruence|lia];
            rewrite Hln in Hmatch; split_and!; [done|lia|exact Hmatch]).
  all: intros (_ & Hmax & Heq); split; [lia|]; apply config_prefix_matches_iff; [done|done|congruence|lia|].
  all: rewrite Hln; exact Heq.
Qed.

Lemma gateway_entry_iff entry client :
  ip_wf client → ip_allowlist_entry_matches entry client = true ↔ entry_allows entry client.
Proof.
  intros Hwf. unfold ip_allowlist_entry_matches, entry_allows. case_bool_decide as Hempty.
  { rewrite Hempty. by vm_compute. }
  destruct (split_once _ _) as [[network len]|]; [|by rewrite bool_decide_eq_true]. unfold cidr_matches.
  destruct (parse_ip _) as [ip|] eqn:Hip; [|naive_solver]. destruct (parse_unsigned _ _) as [n|] eqn:Hn; [|naive_solver].
  apply parse_ip_wf in Hip. apply parse_unsigned_range in Hn as [Hpos _].
  assert (match ip, client with
          | V4 network, V4 client => prefix_matches network client n 32
          | V6 network, V6 client => prefix_matches network client n 128
          | _, _ => false
          end = true ↔ valid_prefix_len ip n = true ∧ config_cidr_matches ip n client = true) as ->.
  { destruct ip, client; cbn; try naive_solver. all: rewrite prefix_matches_eq, Z.leb_le.
    all: case_match; [|naive_solver lia]. all: split; [done|lia]. }
  rewrite range_matches by done. naive_solver.
Qed.

Lemma config_entry_iff entry client :
  ip_wf client →
  match parse_ip_allowlist_entry entry with Some entry => entry_matches entry client | None => false end = true
  ↔ entry_allows entry client.
Proof.
  intros Hwf. unfold parse_ip_allowlist_entry, entry_allows. case_bool_decide as Hempty.
  { rewrite Hempty. by vm_compute. }
  destruct (split_once _ _) as [[network len]|].
  - destruct (parse_ip _) as [ip|] eqn:Hip; [|naive_solver]. cbn.
    destruct (parse_unsigned _ _) as [n|] eqn:Hn; [|naive_solver]. cbn.
    apply parse_ip_wf in Hip. apply parse_unsigned_range in Hn as [Hpos _].
    transitivity (in_range ip n client); [|naive_solver]. rewrite <-range_matches by done.
    destruct (valid_prefix_len ip n); cbn; naive_solver.
  - destruct (parse_ip _) as [ip|]; cbn; [|done]. rewrite bool_decide_eq_true. naive_solver.
Qed.

Lemma contains_iff entries client :
  ip_wf client → ip_allowlist_contains entries client = true ↔ ∃ entry, entry ∈ entries ∧ entry_allows entry client.
Proof.
  intros Hwf. unfold ip_allowlist_contains. rewrite List.existsb_exists. setoid_rewrite config_entry_iff; [|done].
  by setoid_rewrite list_elem_of_In.
Qed.

(** The lists of the gateway, as JSON: an empty one admits everybody. *)
Definition list_admits (allowlist : JsonBody) (client : IpAddr) : Prop :=
  ∃ entries, allowlist = BodyArray entries ∧
    (entries = [] ∨ ∃ entry, BodyString entry ∈ entries ∧ entry_allows entry client).

Lemma elem_of_strings entry (entries : list JsonBody) : entry ∈ omap body_as_str entries ↔ BodyString entry ∈ entries.
Proof.
  rewrite list_elem_of_omap. split.
  - intros (value & Hin & Hstr). destruct value; simplify_eq/=. done.
  - intros Hin. by exists (BodyString entry).
Qed.

Lemma allows_iff allowlist client : ip_wf client → ip_allowlist_allows allowlist client = true ↔ list_admits allowlist client.
Proof.
  intros Hwf. unfold list_admits. destruct allowlist as [| | | |entries|]; cbn; try (split; [done|naive_solver]).
  destruct entries as [|first entries]; [split; [by exists []; auto|done]|]. rewrite List.existsb_exists.
  setoid_rewrite gateway_entry_iff; [|done]. setoid_rewrite <-list_elem_of_In. setoid_rewrite elem_of_strings. split.
  - intros (entry & Hin & Hallows). exists (first :: entries). eauto.
  - intros (entries' & [= <-] & [?|(entry & Hin & Hallows)]); [done|eauto].
Qed.

(** A policy among the overrides of a profile that names an allow list. *)
Definition allowlist_policy (policy : list (string * JsonBody)) : Prop :=
  ∃ kind, or_else (body_get "type" policy) (body_get "kind" policy) = Some (BodyString kind) ∧
    (to_ascii_lowercase kind = "profile_ip_allowlist" ∨ to_ascii_lowercase kind = "ip_allowlist").

(** The first such policy, if there is one, admits the client. *)
Definition overrides_admit (overrides : JsonBody) (client : IpAddr) : Prop :=
  ∀ before policy after,
    overrides = BodyArray (before ++ BodyObject policy :: after) → allowlist_policy policy →
    (∀ earlier, BodyObject earlier ∈ before → ¬ allowlist_policy earlier) →
    ∃ allowlist, or_else (body_get "ip_allowlist" policy) (body_get "entries" policy) = Some allowlist ∧
      list_admits allowlist client.

Lemma policy_iff policy : is_profile_ip_allowlist_policy policy = true ↔ allowlist_policy policy.
Proof.
  unfold is_profile_ip_allowlist_policy, allowlist_policy. destruct (or_else _ _) as [value|]; cbn; [|naive_solver].
  destruct value as [| | |kind| |]; cbn; try naive_solver.
  rewrite orb_true_iff, !eq_ignore_ascii_case_iff. naive_solver.
Qed.

Definition policy_found (overrides : list JsonBody) (answer : ProfileIpAllowlistPolicy) : Prop :=
  match answer with
  | NotConfigured => ∀ policy, BodyObject policy ∈ overrides → ¬ allowlist_policy policy
  | _ =>
      ∃ before policy after, overrides = before ++ BodyObject policy :: after ∧ allowlist_policy policy ∧
        (∀ earlier, BodyObject earlier ∈ before → ¬ allowlist_policy earlier) ∧
        or_else (body_get "ip_allowlist" policy) (body_get "entries" policy)
        = match answer with Configured allowlist => Some allowlist | _ => None end
  end.

Lemma policy_found_later value overrides answer :
  (∀ policy, value = BodyObject policy → ¬ allowlist_policy policy) →
  policy_found overrides answer → policy_found (value :: overrides) answer.
Proof.
  intros Hnot Hfound. assert (∀ before, (∀ earlier, BodyObject earlier ∈ before → ¬ allowlist_policy earlier) →
    ∀ earlier, BodyObject earlier ∈ value :: before → ¬ allowlist_policy earlier) as Hmore.
  { intros before Hbefore earlier [Heq|Hin]%elem_of_cons; [by apply Hnot|by apply Hbefore]. }
  destruct answer; [exact (Hmore overrides Hfound)|..]; destruct Hfound as (before & policy & after & -> & Hpolicy & Hbefore & Hlist);
    exists (value :: before), policy, after; (split_and!; [done|done|by apply Hmore|done]).
Qed.

Lemma first_policy_cases overrides : policy_found overrides (first_ip_allowlist_policy overrides).
Proof.
  induction overrides as [|value overrides IH]; [by intros policy ?%elem_of_nil|].
  destruct value as [| | | | |policy]; cbn [first_ip_allowlist_policy]; try by apply policy_found_later.
  destruct (is_profile_ip_allowlist_policy policy) eqn:Hpolicy.
  - apply policy_iff in Hpolicy. destruct (or_else (body_get "ip_allowlist" policy) _) eqn:Hlist;
      exists [], policy, overrides; split_and!; try done; by intros earlier ?%elem_of_nil.
  - apply policy_found_later; [|done]. intros other [= <-]. by rewrite <-policy_iff, Hpolicy.
Qed.

Lemma first_policy_unique before policy after before' policy' after' :
  before ++ BodyObject policy :: after = before' ++ BodyObject policy' :: after' →
  allowlist_policy policy → (∀ earlier, BodyObject earlier ∈ before → ¬ allowlist_policy earlier) →
  allowlist_policy policy' → (∀ earlier, BodyObject earlier ∈ before' → ¬ allowlist_policy earlier) → policy = policy'.
Proof.
  intros Heq Hpolicy Hbefore Hpolicy' Hbefore'. revert before' Heq Hbefore'.
  induction before as [|value before IH]; intros [|value' before'] Heq Hbefore'; cbn in Heq; simplify_eq.
  - done.
  - destruct (Hbefore' policy); [by left|done].
  - destruct (Hbefore policy'); [by left|done].
  - eapply IH; [|done|]; intros earlier Hin; [apply Hbefore|apply Hbefore']; by right.
Qed.

Lemma overrides_iff overrides client :
  ip_wf client → enforce_profile_ip_allowlist overrides client = Ok () ↔ overrides_admit overrides client.
Proof.
  intros Hwf. unfold enforce_profile_ip_allowlist, profile_ip_allowlist_policy, overrides_admit.
  destruct overrides as [| | | |values|]; try (split; [intros _ ? ? ? [=]|done]).
  pose proof (first_policy_cases values) as Hcases. destruct (first_ip_allowlist_policy values) as [|allowlist|].
  - split; [|done]. intros _ before policy after [= ->] Hpolicy _. exfalso. apply (Hcases policy); [|done].
    apply elem_of_app. right. by left.
  - destruct Hcases as (before & policy & after & -> & Hpolicy & Hbefore & Hlist). unfold enforce_ip_allowlist.
    assert (enforce_ip_allowlist allowlist client = Ok () ↔ list_admits allowlist client) as Henforce.
    { unfold enforce_ip_allowlist. rewrite <-allows_iff by done. by destruct (ip_allowlist_allows _ _). }
    fold (enforce_ip_allowlist allowlist client). rewrite Henforce. split.
    + intros Hadmits before' policy' after' [= Heq] Hpolicy' Hbefore'.
      pose proof (first_policy_unique _ _ _ _ _ _ Heq Hpolicy Hbefore Hpolicy' Hbefore') as <-. eauto.
    + intros Hall. destruct (Hall before policy after eq_refl Hpolicy Hbefore) as (found & Hfound & Hadmits).
      congruence.
  - destruct Hcases as (before & policy & after & -> & Hpolicy & Hbefore & Hlist). split; [done|]. intros Hall.
    destruct (Hall before policy after eq_refl Hpolicy Hbefore) as (found & Hfound & _). congruence.
Qed.

(** C16: Allow lists of addresses. An entry admits a client when it is its address,
    or a network and a prefix length such that the numbers of the two addresses
    agree in that many leading bits; an entry that cannot be read admits nobody.
    The list of trusted proxies in the configuration contains exactly the clients
    that one of its entries admits. A virtual key may be used from an address
    exactly when the list of the key, the list of its profile, if it has one, and
    the list that the first allow list policy among the overrides of the profile
    names, if there is such a policy, all admit it, where an empty JSON array
    admits everybody, another array the clients that one of its texts admits, and
    what is no array nobody. So the two implementations agree on every list that
    is not empty. *)
Theorem allow_lists_agree client :
  ip_wf client →
  (∀ entries, ip_allowlist_contains entries client = true ↔ ∃ entry, entry ∈ entries ∧ entry_allows entry client) ∧
  (∀ key_allowlist profile_allowlist request_overrides,
     enforce_auth_ip_allowlists key_allowlist profile_allowlist request_overrides client = Ok () ↔
     list_admits key_allowlist client ∧
     (∀ allowlist, profile_allowlist = Some allowlist → list_admits allowlist client) ∧
     (∀ overrides, request_overrides = Some overrides → overrides_admit overrides client)) ∧
  (∀ entries, entries ≠ [] →
     ip_allowlist_allows (BodyArray (BodyString <$> entries)) client = ip_allowlist_contains entries client).
Proof.
  intros Hwf. split_and!; [intros entries; by apply contains_iff| |].
  - intros key profile overrides. unfold enforce_auth_ip_allowlists, enforce_ip_allowlist.
    rewrite <-(allows_iff key client Hwf). destruct (ip_allowlist_allows key client); cbn [mbind result_bind]; [|naive_solver].
    assert ((∀ allowlist, profile = Some allowlist → list_admits allowlist client) ↔
      match profile with Some allowlist => negb (is_empty_json_array allowlist) && negb (ip_allowlist_allows allowlist client) = false
      | None => True end) as ->.
    { destruct profile as [allowlist|]; [|naive_solver]. transitivity (list_admits allowlist client); [naive_solver|].
      rewrite <-allows_iff by done. destruct allowlist as [| | | |[|]|]; cbn; try (by rewrite negb_false_iff); done. }
    assert ((∀ value, overrides = Some value → overrides_admit value client) ↔
      match overrides with Some value => enforce_profile_ip_allowlist value client | None => Ok () end = Ok ()) as ->.
    { destruct overrides as [value|]; [|naive_solver]. rewrite overrides_iff by done. naive_solver. }
    destruct profile as [allowlist|]; cbn [mbind result_bind]; [|naive_solver].
    destruct (is_empty_json_array allowlist), (ip_allowlist_allows allowlist client); cbn; naive_solver.
  - intros entries Hne. apply eq_true_iff_eq. rewrite allows_iff, contains_iff by done. unfold list_admits. split.
    + intros (values & [= <-] & [?%fmap_nil_inv|(entry & Hin & Hallows)]); [done|].
      apply list_elem_of_fmap in Hin as (found & [= ->] & Hin). eauto.
    + intros (entry & Hin & Hallows). eexists. split; [done|]. right. exists entry. split; [|done].
      by apply list_elem_of_fmap_2.
Qed.

(** ** Internal addresses *)

Definition INTERNAL_RANGES : list string :=
  ["127.0.0.0/8"; "10.0.0.0/8"; "172.16.0.0/12"; "192.168.0.0/16"; "169.254.0.0/16"; "0.0.0.0"; "224.0.0.0/4";
   "255.255.255.255"; "::1"; "::"; "ff00::/8"; "fc00::/7"; "fe80::/10"].

(** A boolean property of small numbers, by evaluation. *)
Lemma small_numbers (P : Z → bool) (bound n : Z) :
  0 <= n < bound → List.forallb P (Z.of_nat <$> seq 0 (Z.to_nat bound)) = true → P n = true.
Proof.
  intros Hn Hall. rewrite List.forallb_forall in Hall. apply Hall. apply list_elem_of_In, list_elem_of_fmap.
  exists (Z.to_nat n). split; [lia|]. apply elem_of_seq. lia.
Qed.

(** The mask of a segment is applied octet by octet. *)
Lemma segment_testbit a b n : octet b → 0 <= n →
  Z.testbit (a * 256 + b) n = if n <? 8 then Z.testbit b n else Z.testbit a (n - 8).
Proof.
  intros Hb Hn. unfold octet in Hb. change 256 with (2 ^ 8). destruct (Z.ltb_spec n 8).
  - rewrite <-(Z.mod_pow2_bits_low (a * 2 ^ 8 + b) 8) by lia. by rewrite Z.add_comm, Z.mod_add, Z.mod_small by lia.
  - replace n with (n - 8 + 8) at 1 by lia. rewrite <-Z.div_pow2_bits by lia.
    by rewrite Z.div_add_l, Z.div_small, Z.add_0_r by lia.
Qed.

Lemma land_octet b d : octet d → octet (Z.land b d).
Proof.
  unfold octet. intros Hd. rewrite <-(Z.mod_small d (2 ^ 8)), <-Z.land_ones, Z.land_assoc, Z.land_ones by lia.
  apply Z.mod_pos_bound. lia.
Qed.

Lemma land_segments a b c d : octet b → octet d →
  Z.land (a * 256 + b) (c * 256 + d) = Z.land a c * 256 + Z.land b d.
Proof.
  intros Hb Hd. pose proof (land_octet b d Hd) as Hland. apply Z.bits_inj'. intros n Hn. rewrite Z.land_spec, !segment_testbit by done.
  by destruct (n <? 8); rewrite Z.land_spec.
Qed.

(** The ranges by the first two octets, as [std::net] and as the prefixes test
    them. *)
Lemma segment_ranges a b : octet a → octet b →
  (Z.land (a * 256 + b) 65280 =? 65280) = (255 =? a) ∧
  (Z.land (a * 256 + b) 65024 =? 64512) = (Z.land 252 254 =? Z.land a 254) ∧
  (Z.land (a * 256 + b) 65472 =? 65152) = (254 =? a) && (Z.land 128 192 =? Z.land b 192).
Proof.
  intros Ha Hb. change 65280 with (255 * 256 + 0) at 1. change 65024 with (254 * 256 + 0).
  change 65472 with (255 * 256 + 192). rewrite !land_segments by (done || (unfold octet; lia)).
  assert (Z.land a 255 = a) as -> by (change 255 with (Z.ones 8); rewrite Z.land_ones, Z.mod_small by (unfold octet in Ha; lia); done).
  rewrite !Z.land_0_r.
  change (Z.land 252 254) with 252. change (Z.land 128 192) with 128.
  pose proof (land_octet b 192 ltac:(unfold octet; lia)) as Hland. unfold octet in Hb, Hland.
  apply and_assoc. split; [split|]; apply eq_true_iff_eq; rewrite ?andb_true_iff, !Z.eqb_eq; lia.
Qed.

Lemma octet_ranges a : octet a →
  (16 <=? a) && (a <=? 31) = (Z.land 16 240 =? Z.land a 240) ∧
  (224 <=? a) && (a <=? 239) = (Z.land 224 240 =? Z.land a 240).
Proof.
  intros Ha. pose proof (small_numbers (λ a,
    Bool.eqb ((16 <=? a) && (a <=? 31)) (Z.land 16 240 =? Z.land a 240)
    && Bool.eqb ((224 <=? a) && (a <=? 239)) (Z.land 224 240 =? Z.land a 240)) 256 a Ha ltac:(by vm_compute)) as Hall.
  by rewrite !andb_true_iff, !Bool.eqb_true_iff in Hall.
Qed.

Definition internal_entries : list IpAllowlistEntry :=
  Eval vm_compute in omap parse_ip_allowlist_entry INTERNAL_RANGES.

Lemma ip_allowlist_contains_parsed entries ip :
  ip_allowlist_contains entries ip = List.existsb (λ entry, entry_matches entry ip) (omap parse_ip_allowlist_entry entries).
Proof.
  unfold ip_allowlist_contains. induction entries as [|entry entries IH]; [done|]. cbn. rewrite IH.
  by destruct (parse_ip_allowlist_entry entry).
Qed.

Lemma internal_ranges_contain ip :
  ip_allowlist_contains INTERNAL_RANGES ip = List.existsb (λ entry, entry_matches entry ip) internal_entries.
Proof. rewrite ip_allowlist_contains_parsed. by replace (omap _ _) with internal_entries by (by vm_compute). Qed.

(** The prefix lengths that occur in them. *)
Lemma prefix_in_octet n c ns cs r : 0 < r < 8 →
  config_prefix_matches (n :: ns) (c :: cs) r = (Z.land n (prefix_mask r) =? Z.land c (prefix_mask r)).
Proof.
  intros Hr. unfold config_prefix_matches. rewrite Z.div_small, Z.mod_small by lia. cbn -[Z.land Z.eqb].
  destruct (Z.eqb_spec r 0); [lia|done].
Qed.

Lemma prefix_after_octet n c ns cs p : 8 <= p →
  config_prefix_matches (n :: ns) (c :: cs) p = (n =? c) && config_prefix_matches ns cs (p - 8).
Proof.
  intros Hp. unfold config_prefix_matches. replace ((p - 8) mod 8) with (p mod 8)
    by (replace p with (p - 8 + 1 * 8) at 1 by lia; by rewrite Z.mod_add).
  replace (Z.to_nat (p / 8)) with (S (Z.to_nat ((p - 8) / 8)))
    by (replace p with (p - 8 + 1 * 8) at 2 by lia; rewrite Z.div_add by done;
        pose proof (Z.div_pos (p - 8) 8 ltac:(lia) ltac:(lia)); lia).
  cbn [take nth]. set (rest := take _ ns). set (rest' := take _ cs).
  destruct (Z.eqb_spec n c) as [->|Hne]; [|by rewrite bool_decide_false by congruence].
  replace (bool_decide (c :: rest = c :: rest')) with (bool_decide (rest = rest'))
    by (apply bool_decide_ext; split; congruence).
  done.
Qed.

Ltac evaluate_prefixes :=
  repeat match goal with
  | |- context [config_prefix_matches ?ns ?cs 0] => change (config_prefix_matches ns cs 0) with true
  | |- context [config_prefix_matches (?n :: ?ns) (?c :: ?cs) ?p] =>
      first [ rewrite (prefix_in_octet n c ns cs p) by lia;
              let mask := eval vm_compute in (prefix_mask p) in change (prefix_mask p) with mask
            | rewrite (prefix_after_octet n c ns cs p) by lia;
              let rest := eval vm_compute in (p - 8) in change (p - 8) with rest ]
  end.

Lemma same_ip_V4 os os' : bool_decide (V4 os = V4 os') = bool_decide (os' = os).
Proof. apply bool_decide_ext. naive_solver. Qed.

Lemma same_ip_V6 os os' : bool_decide (V6 os = V6 os') = bool_decide (os' = os).
Proof. apply bool_decide_ext. naive_solver. Qed.

Lemma forbidden_provider_ip_eq ip :
  ip_wf ip → forbidden_provider_ip ip = ip_allowlist_contains INTERNAL_RANGES ip.
Proof.
  intros [Hlen Hall]. rewrite internal_ranges_contain.
  destruct ip as [os|os]; cbn in Hlen, Hall.
  - destruct os as [|a [|b [|c [|d [|]]]]]; try done. rewrite !Forall_cons in Hall. destruct Hall as (Ha & Hb & _).
    destruct (octet_ranges a Ha) as [_ Hmulti], (octet_ranges b Hb) as [Hpriv _].
    unfold forbidden_provider_ip, is_private, is_multicast, is_link_local, is_loopback, is_unspecified.
    cbn [nth replicate]. rewrite <-!andb_assoc, Hmulti, Hpriv.
    cbn [List.existsb internal_entries entry_matches config_cidr_matches].
    evaluate_prefixes. rewrite !same_ip_V4.
    replace (bool_decide ([a; b; c; d] = [169; 254; 169; 254]))
      with (bool_decide ([a; b; c; d] = [169; 254; 169; 254]) && ((a =? 169) && (b =? 254)))
      by (case_bool_decide as Heq; [by injection Heq as -> -> -> ->|done]).
    rewrite !(Z.eqb_sym a), !(Z.eqb_sym b). rewrite !(bool_decide_false (V6 _ = V4 _)) by done. btauto.
  - destruct os as [|a [|b os]]; try done. rewrite !Forall_cons in Hall. destruct Hall as (Ha & Hb & _).
    destruct (segment_ranges a b Ha Hb) as (Hmulti & Hunique & Hlink).
    unfold forbidden_provider_ip, is_multicast, is_unique_local, is_ipv6_unicast_link_local, is_loopback, is_unspecified,
      segment0.
    cbn [nth]. rewrite Hmulti, Hunique, Hlink. cbn [List.existsb internal_entries entry_matches config_cidr_matches].
    evaluate_prefixes. rewrite !same_ip_V6. rewrite !(bool_decide_false (V4 _ = V6 _)) by done.
    cbn [replicate app]. btauto.
Qed.

(** ** Reading an address does not depend on how its text is normalised *)

Definition ip_char (c : ascii) : Prop := is_ascii_hexdigit c = true ∨ c = ":"%char ∨ c = "."%char.

(** Text that was read: no other characters, and no dot at the end. *)
Definition ip_text (l : bytes) : Prop := Forall ip_char l ∧ last l ≠ Some "."%char.

Lemma ip_text_app l1 l2 : ip_text l1 → ip_text l2 → ip_text (l1 ++ l2).
Proof.
  intros [H1 Hlast1] [H2 Hlast2]. split; [by apply Forall_app|]. rewrite last_app. by destruct (last l2).
Qed.

Lemma ip_text_hex l : Forall (λ c, is_ascii_hexdigit c = true) l → ip_text l.
Proof.
  intros Hl. split; [by eapply Forall_impl; [exact Hl|left]|]. intros Hlast%last_Some_elem_of.
  rewrite Forall_forall in Hl. by specialize (Hl _ Hlast).
Qed.

Lemma to_digit_hex radix c d : radix <= 16 → to_digit radix c = Some d → is_ascii_hexdigit c = true.
Proof.
  unfold to_digit, is_ascii_hexdigit, is_ascii_lowercase, is_ascii_uppercase, is_ascii_digit, byte_between. intros Hr Hd.
  repeat case_match; bool_to_prop; try done; lia.
Qed.

Lemma read_digits_text radix max_digits count acc l n k rest :
  radix <= 16 → read_digits radix max_digits count acc l = Some (n, k, rest) →
  ∃ used, l = used ++ rest ∧ Forall (λ c, is_ascii_hexdigit c = true) used ∧ k = (count + length used)%nat.
Proof.
  intros Hr. revert count acc. induction l as [|c l IH]; intros count acc; cbn.
  { intros [= <- <- <-]. exists []. split_and!; [done|constructor|cbn; lia]. }
  destruct (to_digit radix c) as [d|] eqn:Hd.
  - destruct (max_digits <=? count)%nat; [done|]. intros (used & -> & Hused & ->)%IH.
    exists (c :: used). split_and!; [done|constructor; [by eapply to_digit_hex|done]|cbn; lia].
  - intros [= <- <- <-]. exists []. split_and!; [done|constructor|cbn; lia].
Qed.

(** A reader that consumes some text. *)
Definition reads_text {A : Type} (reader : bytes → option (A * bytes)) : Prop :=
  ∀ l a rest, reader l = Some (a, rest) → ∃ used, l = used ++ rest ∧ ip_text used ∧ used ≠ [].

Lemma read_number_text radix max max_digits zeros : radix <= 16 → reads_text (read_number radix max max_digits zeros).
Proof.
  intros Hr l n rest. unfold read_number. destruct (read_digits _ _ _ _ _) as [[[v k] rest']|] eqn:Hd; [|done]. cbn.
  apply read_digits_text in Hd as (used & -> & Hused & ->); [|done].
  destruct (Nat.eqb_spec (0 + length used) 0) as [|Hne]; [done|]. destruct (negb zeros && _ && _); [done|].
  destruct (checked 0 max v); [|done]. intros [= <- <-]. exists used. split_and!; [done|by apply ip_text_hex|].
  by intros ->.
Qed.

Lemma read_separator_text {A} sep index (inner : bytes → option (A * bytes)) :
  ip_char sep → reads_text inner → reads_text (read_separator sep index inner).
Proof.
  intros Hsep Hinner l a rest. unfold read_separator. destruct (0 <? index)%nat; cbn; [|apply Hinner].
  destruct l as [|c l]; [done|]. cbn. case_bool_decide as Hc; [|done]. subst c. cbn.
  intros (used & -> & [Hall Hlast] & Hne)%Hinner. exists (sep :: used). split_and!; [done| |done].
  split; [by constructor|]. by destruct used.
Qed.

Lemma read_octets_text count index l octets rest :
  read_octets count index l = Some (octets, rest) →
  ∃ used, l = used ++ rest ∧ ip_text used ∧ (count ≠ 0%nat → used ≠ []).
Proof.
  revert index l octets rest. induction count as [|count IH]; intros index l octets rest; cbn [read_octets].
  { intros [= <- <-]. exists []. split_and!; [done|split; [constructor|done]|done]. }
  destruct (read_separator "."%char index (read_number 10 255 3 false) l) as [[o l1]|] eqn:Ho; [|done].
  apply read_separator_text in Ho as (used & -> & Hused & Hne); [|by right; right|by apply read_number_text]. cbn.
  destruct (read_octets count (S index) l1) as [[os l2]|] eqn:Hos; [|done]. cbn. intros [= <- <-].
  apply IH in Hos as (used' & -> & Hused' & _). exists (used ++ used'). rewrite (assoc_L (++)).
  split_and!; [done|by apply ip_text_app|]. by destruct used.
Qed.

Lemma read_ipv4_text : reads_text read_ipv4_addr.
Proof. intros l a rest (used & ? & ? & Hne)%read_octets_text. exists used. split_and!; [done..|]. by apply Hne. Qed.

Lemma read_groups_text limit index left l groups ipv4 rest :
  read_groups limit index left l = (groups, ipv4, rest) → ∃ used, l = used ++ rest ∧ ip_text used.
Proof.
  assert (ip_text []) as Hnil by (split; [constructor|done]). assert (ip_char ":"%char) as Hcolon by (by right; left).
  revert index l groups ipv4 rest. induction left as [|left IH]; intros index l groups ipv4 rest; cbn [read_groups].
  { intros [= <- <- <-]. by exists []. }
  destruct (embedded_ipv4 limit index l) as [[[g h] l1]|] eqn:Hv4.
  - intros [= <- <- <-]. unfold embedded_ipv4 in Hv4. destruct (index <? limit - 1)%nat; [|done].
    destruct (read_separator ":"%char index read_ipv4_addr l) as [[os l2]|] eqn:Hos; [|done].
    apply read_separator_text in Hos as (used & -> & ? & _); [|done|apply read_ipv4_text].
    destruct os as [|? [|? [|? [|? [|]]]]]; try done. injection Hv4 as <- <- <-. by exists used.
  - destruct (read_separator ":"%char index (read_number 16 65535 4 true) l) as [[g l1]|] eqn:Hgroup.
    + destruct (read_groups limit (S index) left l1) as [[gs v4] l2] eqn:Hgs. intros [= <- <- <-].
      apply IH in Hgs as (used' & -> & ?).
      apply read_separator_text in Hgroup as (used & -> & ? & _); [|done|by apply read_number_text].
      exists (used ++ used'). rewrite (assoc_L (++)). split; [done|by apply ip_text_app].
    + intros [= <- <- <-]. by exists [].
Qed.

Lemma read_given_char_Some c l rest : read_given_char c l = Some rest ↔ l = c :: rest.
Proof. destruct l; cbn; [naive_solver|]. case_bool_decide; naive_solver. Qed.

Lemma parse_ip_text s ip : parse_ip s = Some ip → ip_text (as_bytes s).
Proof.
  unfold parse_ip, read_ip_addr. destruct (read_ipv4_addr _) as [[os rest]|] eqn:Hv4; cbn.
  { destruct rest; [|done]. intros _. apply read_ipv4_text in Hv4 as (used & -> & ? & _). by rewrite app_nil_r. }
  unfold read_ipv6_addr. destruct (read_groups 8 0 8 _) as [[head v4] l1] eqn:Hhead.
  apply read_groups_text in Hhead as (used & -> & Hused). destruct (length head =? 8)%nat; cbn.
  { destruct l1; [|done]. by rewrite app_nil_r. }
  destruct v4; [done|]. destruct (read_given_char _ l1) as [l2|] eqn:H2; [|done]. cbn.
  destruct (read_given_char _ l2) as [l3|] eqn:H3; [|done]. apply read_given_char_Some in H2 as ->, H3 as ->. cbn.
  destruct (read_groups _ 0 _ l3) as [[tail v4] l4] eqn:Htail. apply read_groups_text in Htail as (used' & -> & Hused').
  destruct l4; [|done]. intros _. rewrite app_nil_r. apply ip_text_app; [done|].
  apply (ip_text_app [":"; ":"]%char); [|done]. split; [by repeat constructor; right; left|done].
Qed.

(** *** Case *)

Lemma to_digit_lower radix c : to_digit radix (byte_to_lowercase c) = to_digit radix c.
Proof. destruct c as [[] [] [] [] [] [] [] []]; vm_compute; reflexivity. Qed.

(** A reader that does not look at the case of letters. *)
Definition lower (l : bytes) : bytes := byte_to_lowercase <$> l.

Definition caseless {A : Type} (reader : bytes → option (A * bytes)) : Prop :=
  ∀ l, reader (lower l) = (λ r, (r.1, lower r.2)) <$> reader l.

Lemma lower_same c d : d ∈ [":"; "."; "0"]%char → bool_decide (byte_to_lowercase c = d) = bool_decide (c = d).
Proof.
  rewrite !elem_of_cons. intros Hd. apply bool_decide_ext.
  destruct Hd as [->|[->|[->|[]%elem_of_nil]]]; destruct c as [[] [] [] [] [] [] [] []]; split; intros Heq; try done.
Qed.

Lemma read_given_char_lower c l :
  c ∈ [":"; "."]%char → read_given_char c (lower l) = lower <$> read_given_char c l.
Proof.
  intros Hc. destruct l as [|b l]; [done|]. cbn. rewrite lower_same by set_solver. by case_bool_decide.
Qed.

Lemma read_digits_lower radix max_digits count acc l :
  read_digits radix max_digits count acc (lower l)
  = (λ r, (r.1, lower r.2)) <$> read_digits radix max_digits count acc l.
Proof.
  revert count acc. induction l as [|c l IH]; intros count acc; [done|]. cbn. rewrite to_digit_lower.
  destruct (to_digit radix c); [|done]. destruct (max_digits <=? count)%nat; [done|]. apply IH.
Qed.

Lemma leading_zero_lower l : starts_with (as_bytes "0") (lower l) = starts_with (as_bytes "0") l.
Proof.
  destruct l as [|c l]; [done|]. cbn. f_equal. transitivity (bool_decide (byte_to_lowercase c = "0"%char));
    [by apply bool_decide_ext|]. rewrite lower_same by set_solver. by apply bool_decide_ext.
Qed.

Lemma read_number_caseless radix max max_digits zeros : caseless (read_number radix max max_digits zeros).
Proof.
  intros l. unfold read_number. rewrite read_digits_lower, leading_zero_lower.
  destruct (read_digits _ _ _ _ l) as [[[n k] rest]|]; [|done]. cbn.
  destruct (k =? 0)%nat; [done|]. destruct (negb zeros && _ && _); [done|]. by destruct (checked 0 max n).
Qed.

Lemma read_separator_caseless {A} sep index (inner : bytes → option (A * bytes)) :
  sep ∈ [":"; "."]%char → caseless inner → caseless (read_separator sep index inner).
Proof.
  intros Hsep Hinner l. unfold read_separator. destruct (0 <? index)%nat; [|apply Hinner].
  rewrite read_given_char_lower by done. destruct (read_given_char sep l); [apply Hinner|done].
Qed.

Lemma read_octets_caseless count index : caseless (read_octets count index).
Proof.
  revert index. induction count as [|count IH]; intros index l; [done|]. cbn [read_octets].
  rewrite (read_separator_caseless "."%char _ _ ltac:(set_solver) (read_number_caseless 10 255 3 false)).
  destruct (read_separator "."%char index _ l) as [[o l1]|]; [|done]. cbn. rewrite IH.
  by destruct (read_octets count (S index) l1) as [[os l2]|].
Qed.

Lemma read_groups_caseless limit index left l :
  read_groups limit index left (lower l)
  = let '(groups, ipv4, rest) := read_groups limit index left l in (groups, ipv4, lower rest).
Proof.
  revert index l. induction left as [|left IH]; intros index l; [done|]. cbn [read_groups].
  assert (embedded_ipv4 limit index (lower l) = (λ r, (r.1, lower r.2)) <$> embedded_ipv4 limit index l) as ->.
  { unfold embedded_ipv4. destruct (index <? limit - 1)%nat; [|done].
    rewrite (read_separator_caseless ":"%char _ read_ipv4_addr ltac:(set_solver) (read_octets_caseless 4 0)).
    by destruct (read_separator ":"%char index read_ipv4_addr l) as [[[|? [|? [|? [|? [|]]]]] ?]|]. }
  destruct (embedded_ipv4 limit index l) as [[[g h] rest]|]; [done|]. cbn [fmap option_fmap option_map].
  rewrite (read_separator_caseless ":"%char _ _ ltac:(set_solver) (read_number_caseless 16 65535 4 true)).
  destruct (read_separator ":"%char index _ l) as [[g rest]|]; [|done]. cbn. rewrite IH.
  by destruct (read_groups limit (S index) left rest) as [[??]?].
Qed.

Lemma parse_ip_lower s : parse_ip (to_ascii_lowercase s) = parse_ip s.
Proof.
  unfold parse_ip, to_ascii_lowercase. rewrite as_from_bytes. fold (lower (as_bytes s)). unfold read_ip_addr.
  rewrite (read_octets_caseless 4 0 : ∀ l, read_ipv4_addr (lower l) = _).
  destruct (read_octets 4 0 (as_bytes s)) as [[os rest]|] eqn:Hv4;
    change (read_ipv4_addr (as_bytes s)) with (read_octets 4 0 (as_bytes s)); rewrite Hv4; [by destruct rest|].
  cbn [fmap option_fmap option_map]. unfold read_ipv6_addr. rewrite read_groups_caseless.
  destruct (read_groups 8 0 8 (as_bytes s)) as [[head v4] l1]. destruct (length head =? 8)%nat; [by destruct l1|].
  destruct v4; [done|]. rewrite read_given_char_lower by set_solver. destruct (read_given_char _ l1) as [l2|]; [|done].
  cbn [fmap option_fmap option_map mbind option_bind]. rewrite read_given_char_lower by set_solver.
  destruct (read_given_char _ l2) as [l3|]; [|done]. cbn [fmap option_fmap option_map mbind option_bind].
  rewrite read_groups_caseless. destruct (read_groups _ 0 _ l3) as [[tail v4] l4]. by destruct l4.
Qed.

Lemma trim_end_matches_none c s : last (as_bytes s) ≠ Some c → trim_end_matches c s = s.
Proof.
  intros Hlast. unfold trim_end_matches. rewrite <-(from_as_bytes s) at 2. f_equal.
  rewrite <-(rev_involutive (as_bytes s)) at 2. f_equal.
  destruct (as_bytes s) as [|b l _] using rev_ind; [done|]. rewrite rev_app_distr. cbn.
  rewrite last_snoc in Hlast. by rewrite bool_decide_false by congruence.
Qed.

Lemma ip_char_solid c : ip_char c → solid c.
Proof.
  intros [Hhex|[->| ->]]; [by apply hexdigit_solid|by vm_compute..].
Qed.

(** A host that is an address is tested as that address. *)
Lemma forbidden_address host ip :
  parse_ip host = Some ip → forbidden_provider_host host = false → forbidden_provider_ip ip = false.
Proof.
  intros Hip. destruct (parse_ip_text host ip Hip) as [Hall Hlast]. unfold forbidden_provider_host.
  assert (str_trim host = host) as ->.
  { unfold str_trim. rewrite trim_solid_all, from_as_bytes; [done|]. eapply Forall_impl; [exact Hall|apply ip_char_solid]. }
  rewrite trim_end_matches_none by done. rewrite parse_ip_lower, Hip. by destruct (_ || _).
Qed.

(** ** Endpoints of providers *)

(** The addresses that a lookup returns are addresses. *)
Class LookupHostLaws (L : LookupHost) : Prop :=
  lookup_host_wf now host port ips : lookup_host now host port = Some ips → Forall ip_wf ips.

Section endpoint_proofs.
Context {U : UrlParse} {L : LookupHost} {LL : LookupHostLaws L}.

(** An address outside of the internal ranges. *)
Definition external (ip : IpAddr) : Prop := ip_allowlist_contains INTERNAL_RANGES ip = false.

(** The addresses of a host, asked for at a time: the one that it is, or those it
    resolves to. *)
Definition addresses_at (now : Z) (host : string) (port : option Z) : option (list IpAddr) :=
  match parse_ip host with
  | Some ip => Some [ip]
  | None => port ← port; lookup_host now host port
  end.

(** A host that is no name of this machine and no internal address, whatever its
    case, white space around it and dots behind it. *)
Definition public_host (host : string) : Prop :=
  let name := to_ascii_lowercase (trim_end_matches "."%char (str_trim host)) in
  name ≠ "localhost" ∧ (∀ domain, as_bytes name ≠ domain ++ as_bytes ".localhost") ∧
  ∀ ip, parse_ip name = Some ip → external ip.

Lemma forbidden_host_iff host : forbidden_provider_host host = false ↔ public_host host.
Proof.
  unfold forbidden_provider_host, public_host. cbn zeta. set (name := to_ascii_lowercase _).
  assert (str_ends_with name ".localhost" = false ↔ ∀ domain, as_bytes name ≠ domain ++ as_bytes ".localhost") as Hends.
  { rewrite <-not_true_iff_false, str_ends_with_iff. naive_solver. }
  case_bool_decide as Hname; cbn [orb]; [naive_solver|].
  destruct (str_ends_with name ".localhost"); [naive_solver|]. unfold external.
  destruct (parse_ip name) as [ip|] eqn:Hip; [|naive_solver].
  rewrite forbidden_provider_ip_eq by (by eapply parse_ip_wf). naive_solver.
Qed.

Lemma resolved_allowed_iff ips :
  Forall ip_wf ips → resolved_provider_endpoint_ips_allowed ips = true ↔ ips ≠ [] ∧ Forall external ips.
Proof.
  intros Hwf. unfold resolved_provider_endpoint_ips_allowed, provider_endpoint_resolved_ip_allowed.
  rewrite andb_true_iff, negb_true_iff, bool_decide_eq_false, List.forallb_forall, Forall_forall.
  rewrite Forall_forall in Hwf. setoid_rewrite negb_true_iff. setoid_rewrite <-list_elem_of_In. unfold external.
  split; intros [Hne Hall]; (split; [done|]); intros ip Hip.
  - rewrite <-forbidden_provider_ip_eq by auto. auto.
  - rewrite forbidden_provider_ip_eq by auto. auto.
Qed.

Lemma validate_provider_endpoint_strict endpoint accepted :
  let trimmed := trim_end_matches "/"%char (str_trim endpoint) in
  validate_provider_endpoint endpoint false = Ok accepted ↔
  accepted = trimmed ∧
  ∃ url host, url_parse trimmed = Some url ∧ url_scheme url = "https" ∧ url_username url = "" ∧
    url_password url = None ∧ url_query url = None ∧ url_fragment url = None ∧ url_host_str url = Some host ∧
    forbidden_provider_host host = false.
Proof.
  cbn zeta. unfold validate_provider_endpoint. set (trimmed := trim_end_matches _ _). split.
  - intros Hok. inv_ok.
    rewrite andb_true_r in *. cbn [negb andb] in *. bool_to_prop. split; [done|]. eexists _, _.
    split_and!; try done; match goal with |- ?field = None => by destruct field end.
  - intros (-> & url & host & -> & Hscheme & Huser & Hpassword & Hquery & Hfragment & Hhost & Hallowed). cbn.
    rewrite Hscheme, Huser, Hpassword, Hquery, Hfragment, Hhost. cbn. by rewrite Hallowed.
Qed.

Lemma external_address host ip :
  parse_ip host = Some ip → forbidden_provider_host host = false → external ip.
Proof.
  intros Hip Hhost. unfold external. rewrite <-forbidden_provider_ip_eq by (by eapply parse_ip_wf).
  by eapply forbidden_address.
Qed.

(** C15: In the strict policy the check of an endpoint before a call accepts it
    exactly when it is an https address without user, password, query and
    fragment; its host, whatever its case and the dots behind it, is not localhost,
    does not end in .localhost and is no internal address; and the host is an
    address outside of the internal ranges, or the check's own DNS query finds
    addresses, all of them outside of these ranges (loopback, private, link local,
    unspecified, multicast and broadcast, unique local), where ranges are read as
    the allow lists read them. The call that follows resolves the name again, at
    another time, of which nothing is said. *)
Theorem provider_endpoint_exact now endpoint accepted :
  let trimmed := trim_end_matches "/"%char (str_trim endpoint) in
  validate_provider_endpoint_for_runtime now endpoint false = Ok accepted ↔
  accepted = trimmed ∧
  ∃ url host ips, url_parse trimmed = Some url ∧ url_scheme url = "https" ∧ url_username url = "" ∧
    url_password url = None ∧ url_query url = None ∧ url_fragment url = None ∧ url_host_str url = Some host ∧
    public_host host ∧ addresses_at now host (url_port_or_known_default url) = Some ips ∧
    ips ≠ [] ∧ Forall external ips.
Proof.
  cbn zeta. unfold validate_provider_endpoint_for_runtime. cbn [negb]. split.
  - intros Hok. inv_ok. rename Ha into Hvalid. apply validate_provider_endpoint_strict in Hvalid
      as (-> & url & host & Hurl & Hscheme & Huser & Hpassword & Hquery & Hfragment & Hhost & Hallowed).
    pose proof (proj1 (forbidden_host_iff host) Hallowed) as Hpublic.
    split; [done|]. unfold validate_provider_endpoint_dns, addresses_at in *. rewrite Hurl in *. cbn in *. rewrite Hhost in *.
    cbn in *. destruct (parse_ip host) as [ip|] eqn:Hip; cbn in *.
    + exists url, host, [ip]. rewrite Hip. split_and!; try done. constructor; [|constructor]. by eapply external_address.
    + inv_ok. exists url, host, a1. rewrite Hip. rename Ha1 into Hlookup.
      apply resolved_allowed_iff in Heqb as [??]; [|by eapply lookup_host_wf].
      split_and!; try done. by rewrite Ha.
  - intros (-> & url & host & ips & Hurl & Hscheme & Huser & Hpassword & Hquery & Hfragment & Hhost & Hallowed & Hdest & Hne
      & Hexternal). apply forbidden_host_iff in Hallowed.
    rewrite (proj2 (validate_provider_endpoint_strict endpoint (trim_end_matches "/"%char (str_trim endpoint))))
      by (split; [done|]; exists url, host; by split_and!).
    cbn. unfold validate_provider_endpoint_dns, addresses_at in *. rewrite Hurl. cbn. rewrite Hhost. cbn.
    destruct (parse_ip host) as [ip|]; [done|]. cbn. destruct (url_port_or_known_default url) as [port|]; [|done].
    cbn in *. rewrite Hdest. cbn. by rewrite (proj2 (resolved_allowed_iff ips (lookup_host_wf _ _ _ _ Hdest))).
Qed.

(** An IPv4 address written as an IPv6 address is not tested as what it is. *)
Lemma mapped_addresses_allowed a b c d :
  provider_endpoint_resolved_ip_allowed (V6 (replicate 10 0 ++ [255; 255; a; b; c; d])) = true.
Proof. done. Qed.

End endpoint_proofs.

(** ** Examples *)

Lemma ip_wf_check ip :
  (length (ip_octets ip) =? ip_len ip)%nat && List.forallb (λ o, (0 <=? o) && (o <? 256)) (ip_octets ip) = true → ip_wf ip.
Proof.
  rewrite andb_true_iff, Nat.eqb_eq, List.forallb_forall. intros [Hlen Hall]. split; [done|].
  apply Forall_forall. intros o Ho%list_elem_of_In. specialize (Hall o Ho). unfold octet. lia.
Qed.

Lemma allow_lists_agree_witness :
  entry_allows "10.20.0.0/14" (V4 [10; 23; 0; 1]) ∧
  enforce_auth_ip_allowlists (BodyArray []) (Some (BodyArray [BodyNull; BodyString "10.20.0.0/14"]))
    (Some (BodyArray [BodyObject [("kind", BodyString "IP_allowlist")]])) (V4 [10; 23; 0; 1]) = Err ApiKeyIpForbidden ∧
  ¬ overrides_admit (BodyArray [BodyObject [("kind", BodyString "IP_allowlist")]]) (V4 [10; 23; 0; 1]).
Proof.
  destruct (allow_lists_agree (V4 [10; 23; 0; 1]) (ip_wf_check (V4 [10; 23; 0; 1]) eq_refl)) as (Hcontains & Henforce & _).
  split_and!; [|by vm_compute|].
  - destruct (proj1 (Hcontains ["10.20.0.0/14"]) ltac:(by vm_compute)) as (entry & ->%list_elem_of_singleton & Hallows).
    exact Hallows.
  - intros Hadmit. pose proof (proj2 (Henforce (BodyArray []) None
      (Some (BodyArray [BodyObject [("kind", BodyString "IP_allowlist")]])))) as Hok.
    enough (enforce_auth_ip_allowlists (BodyArray []) None
      (Some (BodyArray [BodyObject [("kind", BodyString "IP_allowlist")]])) (V4 [10; 23; 0; 1]) = Ok ()) as Hwrong
      by (by vm_compute in Hwrong).
    apply Hok. split_and!; [exists []; auto|done|]. intros overrides [= <-]. exact Hadmit.
Defined.

(** One url, whose host resolves to an external and then to an internal address. *)
Definition sample_url_parse : UrlParse := λ text,
  if bool_decide (text = "https://api.example.com/v1")
  then Some (mkUrl "https" "" None (Some "api.example.com") (Some 443) None None) else None.

Definition sample_lookup (ips : list IpAddr) : LookupHost := λ _ host _,
  if bool_decide (host = "api.example.com") then Some ips else None.

Lemma sample_lookup_laws ips : Forall ip_wf ips → LookupHostLaws (sample_lookup ips).
Proof. intros Hips now host port ips'. unfold lookup_host, sample_lookup. case_bool_decide; [|done]. by intros [= <-]. Qed.

Lemma provider_endpoint_exact_witness :
  @validate_provider_endpoint_for_runtime sample_url_parse (sample_lookup [V4 [203; 0; 113; 10]])
    0 " https://api.example.com/v1/ " false = Ok "https://api.example.com/v1" ∧
  @validate_provider_endpoint_for_runtime sample_url_parse (sample_lookup [V4 [203; 0; 113; 10]; V4 [169; 254; 169; 254]])
    0 " https://api.example.com/v1/ " false ≠ Ok "https://api.example.com/v1".
Proof.
  pose proof (ip_wf_check (V4 [203; 0; 113; 10]) eq_refl) as H1.
  pose proof (ip_wf_check (V4 [169; 254; 169; 254]) eq_refl) as H2.
  split.
  - apply (@provider_endpoint_exact sample_url_parse _ (sample_lookup_laws [V4 [203; 0; 113; 10]] ltac:(by constructor))).
    split; [by vm_compute|]. eexists _, "api.example.com", [V4 [203; 0; 113; 10]].
    split_and!; [by vm_compute|done|done|done|done|done|done|apply forbidden_host_iff; by vm_compute|by vm_compute|done|].
    constructor; [by vm_compute|constructor].
  - intros Hok.
    apply (@provider_endpoint_exact sample_url_parse _ (sample_lookup_laws [V4 [203; 0; 113; 10]; V4 [169; 254; 169; 254]]
      ltac:(by repeat constructor))) in Hok as (_ & url & host & ips & Hurl & _ & _ & _ & _ & _ & Hhost & _ & Hips & _ & Hall).
    vm_compute in Hurl. injection Hurl as <-. vm_compute in Hhost. injection Hhost as <-.
    vm_compute in Hips. injection Hips as <-. rewrite !Forall_cons in Hall. destruct Hall as (_ & Hbad & _).
    by vm_compute in Hbad.
Defined.
