(* ===== verification/Crypto.v ===== *)
(** The hashing helpers that the billing and authentication crates share:
    hexadecimal text, [sha256_hex], the HMAC of
    crates/billing-ledger/src/payment_provider.rs and its comparison of
    signatures. SHA-256 itself is a parameter. *)

From S2P Require Export RustStr.

#[local] Open Scope string_scope.
#[local] Open Scope list_scope.
#[local] Open Scope Z_scope.

(** ** Definitions *)

(** [Sha256::digest] of the sha2 crate, and what its type says of it. *)
Class Sha256 : Type := sha256_digest : bytes → bytes.

Class Sha256Laws (H : Sha256) : Prop := sha256_length value : length (sha256_digest value) = 32%nat.

(** A byte from its value, modulo 256. *)
Definition byte_of (n : Z) : ascii := ascii_of_N (Z.to_N (n mod 256)).

Definition byte_xor (a b : ascii) : ascii := byte_of (Z.lxor (byte_val a) (byte_val b)).

(** [HEX[n]]. *)
Definition hex_digit (n : Z) : ascii := default "0"%char (as_bytes "0123456789abcdef" !! Z.to_nat n).

Definition hex_encode (value : bytes) : string :=
  from_bytes (value ≫= λ byte,
    [hex_digit (Z.shiftr (byte_val byte) 4); hex_digit (Z.land (byte_val byte) 15)]).

Definition constant_time_str_eq (left right : string) : bool :=
  let left := as_bytes left in
  let right := as_bytes right in
  if negb (length left =? length right)%nat then false
  else foldl (λ acc pair, Z.lor acc (byte_val (byte_xor pair.1 pair.2))) 0 (zip left right) =? 0.

Section hash.
Context {H : Sha256}.

Definition sha256_hex (value : bytes) : string := hex_encode (sha256_digest value).

Definition SHA256_BLOCK_LEN : nat := 64.

(** [array[..l.len()].copy_from_slice(l)]. *)
Definition copy_prefix (array l : bytes) : bytes := l ++ drop (length l) array.

Definition normalized_key (key : bytes) : bytes :=
  let zeros := replicate SHA256_BLOCK_LEN (byte_of 0) in
  if (SHA256_BLOCK_LEN <? length key)%nat then copy_prefix zeros (sha256_digest key) else copy_prefix zeros key.

(** One step of the loop over the two pads; the index is within the arrays. *)
Definition xor_pads (key : bytes) (pads : bytes * bytes) (index : nat) : bytes * bytes :=
  let at_index (array : bytes) := default (byte_of 0) (array !! index) in
  let xor_at pad := <[index := byte_xor (at_index pad) (at_index key)]> pad in
  (xor_at pads.1, xor_at pads.2).

Definition hmac_sha256_hex (key data : bytes) : string :=
  let key := normalized_key key in
  let '(inner_pad, outer_pad) :=
    foldl (xor_pads key)
      (replicate SHA256_BLOCK_LEN (byte_of 54), replicate SHA256_BLOCK_LEN (byte_of 92)) (seq 0 SHA256_BLOCK_LEN) in
  let inner_hash := sha256_digest (inner_pad ++ data) in
  hex_encode (sha256_digest (outer_pad ++ inner_hash)).

(** HMAC as RFC 2104 defines it. *)
Definition hmac_sha256 (key data : bytes) : bytes :=
  let key := if (SHA256_BLOCK_LEN <? length key)%nat then sha256_digest key else key in
  let block := key ++ replicate (SHA256_BLOCK_LEN - length key) (byte_of 0) in
  let pad n := byte_xor n <$> block in
  sha256_digest (pad (byte_of 92) ++ sha256_digest (pad (byte_of 54) ++ data)).

End hash.

(** ** Bytes and hexadecimal text *)

Lemma byte_val_of n : byte_val (byte_of n) = n mod 256.
Proof.
  unfold byte_val, byte_of. rewrite N_ascii_embedding, Z2N.id; [done|..]; pose proof (Z.mod_pos_bound n 256); lia.
Qed.

Lemma byte_of_val c : byte_of (byte_val c) = c.
Proof.
  unfold byte_of. rewrite Z.mod_small by apply byte_val_range. unfold byte_val.
  by rewrite N2Z.id, ascii_N_embedding.
Qed.

Lemma byte_testbit_high c n : 8 <= n → Z.testbit (byte_val c) n = false.
Proof.
  intros Hn. rewrite <-(byte_of_val c), byte_val_of. change 256 with (2 ^ 8). apply Z.mod_pow2_bits_high. lia.
Qed.

Lemma byte_val_xor a b : byte_val (byte_xor a b) = Z.lxor (byte_val a) (byte_val b).
Proof.
  unfold byte_xor. rewrite byte_val_of. change 256 with (2 ^ 8). apply Z.bits_inj'. intros n Hn.
  destruct (decide (n < 8)); [apply Z.mod_pow2_bits_low; lia|].
  rewrite Z.mod_pow2_bits_high, Z.lxor_spec, !byte_testbit_high by lia. done.
Qed.

Lemma byte_xor_eq a b : byte_val (byte_xor a b) = 0 ↔ a = b.
Proof.
  rewrite byte_val_xor, Z.lxor_eq_0_iff. split; [|by intros ->].
  intros Heq. by rewrite <-(byte_of_val a), Heq, byte_of_val.
Qed.

Lemma nibble_ind (P : Z → Prop) n : Forall P (Z.of_nat <$> seq 0 16) → 0 <= n < 16 → P n.
Proof.
  intros HP Hn. rewrite Forall_forall in HP. apply HP, list_elem_of_fmap.
  exists (Z.to_nat n). rewrite elem_of_seq. lia.
Qed.

Lemma hex_digit_inj m n : 0 <= m < 16 → 0 <= n < 16 → hex_digit m = hex_digit n → m = n.
Proof.
  set (value c := Z.of_nat (default 0%nat (fst <$> list_find (λ d, d = c) (as_bytes "0123456789abcdef")))).
  assert (∀ k, 0 <= k < 16 → value (hex_digit k) = k) as Hvalue by (intros k; apply (nibble_ind (λ k, value (hex_digit k) = k)); repeat constructor).
  intros Hm Hn Heq. by rewrite <-(Hvalue m Hm), Heq, Hvalue.
Qed.

(** The two halves of a byte. *)
Lemma nibbles c :
  let high := Z.shiftr (byte_val c) 4 in
  let low := Z.land (byte_val c) 15 in
  0 <= high < 16 ∧ 0 <= low < 16 ∧ byte_val c = 16 * high + low.
Proof.
  pose proof (byte_val_range c). cbn zeta. rewrite Z.shiftr_div_pow2 by done.
  change 15 with (Z.ones 4). rewrite Z.land_ones by done. change (2 ^ 4) with 16.
  Z.to_euclidean_division_equations. lia.
Qed.

Lemma hex_encode_inj a b : hex_encode a = hex_encode b → a = b.
Proof.
  intros Heq%(f_equal as_bytes). unfold hex_encode in Heq. rewrite !as_from_bytes in Heq. revert b Heq.
  induction a as [|x a IH]; intros [|y b]; cbn; [done..|].
  intros [= Hhigh Hlow Hrest]. pose proof (nibbles x) as (? & ? & Hx). pose proof (nibbles y) as (? & ? & Hy).
  apply hex_digit_inj in Hhigh, Hlow; [|done..].
  assert (byte_val x = byte_val y) as Hxy by (rewrite Hx, Hy, Hhigh, Hlow; done).
  f_equal; [by rewrite <-(byte_of_val x), Hxy, byte_of_val|]. by apply IH.
Qed.

Lemma hex_digit_hexdigit n :
  0 <= n < 16 → is_ascii_hexdigit (hex_digit n) = true ∧ byte_to_lowercase (hex_digit n) = hex_digit n.
Proof.
  apply (nibble_ind (λ n, is_ascii_hexdigit (hex_digit n) = true ∧ byte_to_lowercase (hex_digit n) = hex_digit n)).
  repeat constructor.
Qed.

Lemma hex_encode_spec l :
  length (as_bytes (hex_encode l)) = (2 * length l)%nat ∧
  Forall (λ c, is_ascii_hexdigit c = true ∧ byte_to_lowercase c = c) (as_bytes (hex_encode l)).
Proof.
  unfold hex_encode. rewrite as_from_bytes. induction l as [|x l [IHlen IHall]]; [by split|].
  cbn [mbind list_bind]. rewrite length_app, IHlen. split; [cbn; lia|]. pose proof (nibbles x) as (? & ? & _).
  apply Forall_app. split; [|done]. repeat constructor; by apply hex_digit_hexdigit.
Qed.

(** ** The comparison and the HMAC *)

Lemma constant_time_str_eq_iff left right : constant_time_str_eq left right = true ↔ left = right.
Proof.
  unfold constant_time_str_eq. set (f := λ acc pair, _).
  assert (∀ l r acc, length l = length r → 0 <= acc →
    (foldl f acc (zip l r) =? 0) = true ↔ acc = 0 ∧ l = r) as Hfold.
  { intros l. induction l as [|x l IH]; intros [|y r] acc Hlen Hacc; try discriminate; cbn [zip zip_with foldl].
    - rewrite Z.eqb_eq. naive_solver.
    - injection Hlen as Hlen. pose proof (byte_val_range (byte_xor x y)). rewrite IH; [|done|].
      + unfold f. cbn [fst snd]. rewrite Z.lor_eq_0_iff, byte_xor_eq. naive_solver.
      + unfold f. apply Z.lor_nonneg. cbn [fst snd]. lia. }
  destruct (Nat.eqb_spec (length (as_bytes left)) (length (as_bytes right))) as [Hlen|Hlen]; cbn [negb].
  - rewrite Hfold by done. split; [|by intros ->]. intros [_ Heq]. by rewrite <-(from_as_bytes left), Heq, from_as_bytes.
  - split; [done|]. by intros ->.
Qed.

Section hmac.
Context {H : Sha256} {Laws : Sha256Laws H}.

Lemma normalized_key_eq key :
  normalized_key key
  = (if (SHA256_BLOCK_LEN <? length key)%nat then sha256_digest key else key)
    ++ replicate (SHA256_BLOCK_LEN - length (if (SHA256_BLOCK_LEN <? length key)%nat then sha256_digest key else key))
         (byte_of 0).
Proof. unfold normalized_key, copy_prefix. destruct (_ <? _)%nat; by rewrite drop_replicate. Qed.

Lemma normalized_key_length key : length (normalized_key key) = SHA256_BLOCK_LEN.
Proof.
  rewrite normalized_key_eq, length_app, length_replicate. unfold SHA256_BLOCK_LEN.
  destruct (Nat.ltb_spec 64 (length key)); [rewrite sha256_length|]; lia.
Qed.

(** The loop over the indices combines the pads with the key byte by byte. *)
Lemma xor_loop n key pads :
  (n <= length key)%nat → length pads.1 = length key → length pads.2 = length key →
  foldl (xor_pads key) pads (seq 0 n)
  = (zip_with byte_xor (take n pads.1) (take n key) ++ drop n pads.1,
     zip_with byte_xor (take n pads.2) (take n key) ++ drop n pads.2).
Proof.
  intros Hn H1 H2. induction n as [|n IH]; [by destruct pads|].
  rewrite seq_S, foldl_app, IH by lia. cbn [foldl Nat.add]. unfold xor_pads. cbn [fst snd].
  destruct (lookup_lt_is_Some_2 key n) as [k Hk]; [lia|].
  assert (∀ pad, length pad = length key →
    <[n := byte_xor (default (byte_of 0) ((zip_with byte_xor (take n pad) (take n key) ++ drop n pad) !! n))
             (default (byte_of 0) (key !! n))]>
      (zip_with byte_xor (take n pad) (take n key) ++ drop n pad)
    = zip_with byte_xor (take (S n) pad) (take (S n) key) ++ drop (S n) pad) as Hpad; [|by rewrite !Hpad].
  intros pad Hlen. destruct (lookup_lt_is_Some_2 pad n) as [p Hp]; [lia|].
  assert (length (zip_with byte_xor (take n pad) (take n key)) = n) as Hzip
    by (rewrite length_zip_with, !length_take; lia).
  rewrite (drop_S _ _ _ Hp), (take_S_r _ _ _ Hp), (take_S_r _ _ _ Hk), zip_with_app by (rewrite !length_take; lia).
  rewrite lookup_app_r, Hzip, Nat.sub_diag, Hk by lia. cbn [lookup list_lookup default].
  rewrite insert_app_r_alt by lia. rewrite Hzip, Nat.sub_diag, <-app_assoc. done.
Qed.

(** The HMAC of the source is the one of RFC 2104. *)
Lemma hmac_sha256_hex_eq key data : hmac_sha256_hex key data = hex_encode (hmac_sha256 key data).
Proof.
  unfold hmac_sha256_hex, hmac_sha256. pose proof (normalized_key_length key) as Hlen.
  rewrite xor_loop by (cbn [fst snd]; rewrite ?length_replicate, Hlen; done). cbn [fst snd].
  rewrite !take_ge, !drop_ge, !app_nil_r by (rewrite ?length_replicate, ?Hlen; done).
  rewrite !zip_with_replicate_l by (rewrite Hlen; done). by rewrite <-normalized_key_eq.
Qed.

End hmac.

(** A function with the type of the hash, used to evaluate the definitions: the
    last 32 bytes of the input. *)
Definition tail_hash : Sha256 := λ value,
  let padded := replicate 32 (byte_of 0) ++ value in drop (length padded - 32) padded.

Lemma tail_hash_laws : Sha256Laws tail_hash.
Proof. intros value. unfold sha256_digest, tail_hash. rewrite length_drop, length_app, length_replicate. lia. Qed.
