(* ===== verification/Rating.v ===== *)
(** crates/billing-ledger/src/rating.rs: fixed-point money, its decimal text
    form, the extraction of token usage from a provider's response, and the
    pricing of a request. *)

From S2P Require Export RustStr.

#[local] Open Scope string_scope.
#[local] Open Scope list_scope.
#[local] Open Scope Z_scope.

(** ** Errors *)

Inductive RatingError : Type :=
| RE_InvalidPricingJson (message : string)
| RE_InvalidScale (actual : Z)
| RE_InvalidCurrency (currency : string)
| RE_InvalidMoneyType (field : string)
| RE_InvalidDecimal (field value : string)
| RE_TooManyFractionalDigits (field value : string) (sc : Z)
| RE_NegativeMoney (field : string)
| RE_ScaleMismatch (left right : Z)
| RE_ArithmeticOverflow
| RE_InvalidUsageJson (message : string)
| RE_InvalidUsageField (field : string)
| RE_UsageCategoryExceedsTotal (category total : string).

#[export] Instance RatingError_eq_dec : EqDecision RatingError.
Proof. solve_decision. Defined.

Definition DEFAULT_CURRENCY : string := "USD".
Definition DEFAULT_MONEY_SCALE : Z := 8.
Definition MAX_MONEY_SCALE : Z := 18.
Definition TOKENS_PER_MILLION : Z := 1000000.

(** ** Fixed-point money *)

(** [units] is an [i128], [scale] a [u32]: the amount is units * 10^-scale. *)
Record FixedDecimal : Type := mkFixedDecimal { units : Z; scale : Z }.

#[export] Instance FixedDecimal_eq_dec : EqDecision FixedDecimal.
Proof. solve_decision. Defined.

(** The derived [PartialOrd]: lexicographic on the fields in order. *)
Definition fd_compare (a b : FixedDecimal) : comparison :=
  match units a ?= units b with
  | Eq => scale a ?= scale b
  | c => c
  end.

Definition fd_gtb (a b : FixedDecimal) : bool :=
  match fd_compare a b with Gt => true | _ => false end.
Definition fd_geb (a b : FixedDecimal) : bool :=
  match fd_compare a b with Lt => false | _ => true end.

Definition validate_scale (sc : Z) : result RatingError () :=
  if sc <=? MAX_MONEY_SCALE then Ok () else Err (RE_InvalidScale sc).

Definition from_units (u sc : Z) : result RatingError FixedDecimal :=
  _ ← validate_scale sc; Ok (mkFixedDecimal u sc).

Definition fd_zero (sc : Z) : result RatingError FixedDecimal := from_units 0 sc.

Definition is_zero (a : FixedDecimal) : bool := units a =? 0.

Definition fd_checked_add (a b : FixedDecimal) : result RatingError FixedDecimal :=
  fail_if negb (scale a =? scale b) with RE_ScaleMismatch (scale a) (scale b) ;;
  u ← ok_or (checked_i128 (units a + units b)) RE_ArithmeticOverflow;
  Ok (mkFixedDecimal u (scale a)).

(** The loop of [pow10]: one checked [u128] multiplication per round. *)
Fixpoint pow10_loop (rounds : nat) (value : Z) : option Z :=
  match rounds with
  | O => Some value
  | S rounds' => value' ← checked_u128 (value * 10); pow10_loop rounds' value'
  end.

Definition pow10 (sc : Z) : option Z := pow10_loop (Z.to_nat sc) 1.

(** [Display]: [None] is [fmt::Error]. *)
Definition fd_fmt (a : FixedDecimal) : option string :=
  if scale a =? 0 then Some (from_bytes (display_i128 (units a)))
  else
    let negative := units a <? 0 in
    let magnitude := Z.abs (units a) in
    factor ← pow10 (scale a);
    let major := magnitude / factor in
    let minor := magnitude mod factor in
    Some (from_bytes ((if negative then ["-"%char] else []) ++
                      display_u128 major ++ ["."%char] ++
                      display_zero_padded (Z.to_nat (scale a)) minor)).

(** [to_string]; it panics on [fmt::Error], which a valid scale rules out
    ([fd_fmt_some]). *)
Definition fd_to_string (a : FixedDecimal) : string := default "" (fd_fmt a).

(** ** Parsing *)

(** The sign of a decimal and what follows it. *)
Definition strip_sign (value : bytes) : bool * bytes :=
  match strip_prefix ["-"%char] value with
  | Some unsigned => (true, unsigned)
  | None => match strip_prefix ["+"%char] value with
            | Some unsigned => (false, unsigned)
            | None => (false, value)
            end
  end.

Definition parse_decimal_string (field value : string) (sc : Z) : result RatingError FixedDecimal :=
  _ ← validate_scale sc;
  let value := trim (as_bytes value) in
  let invalid := RE_InvalidDecimal field (from_bytes value) in
  fail_if bool_decide (value = []) with invalid ;;
  let '(negative, unsigned) := strip_sign value in
  fail_if bool_decide (unsigned = []) with invalid ;;
  let parts := split_on "."%char unsigned in
  let whole := default [] (parts !! 0%nat) in
  let fraction := parts !! 1%nat in
  fail_if bool_decide (is_Some (parts !! 2%nat))
       || bool_decide (whole = [])
       || negb (List.forallb is_ascii_digit whole)
       || negb (List.forallb is_ascii_digit (default [] fraction))
  with invalid ;;
  let fraction := default [] fraction in
  fail_if sc <? Z.of_nat (length fraction)
  with RE_TooManyFractionalDigits field (from_bytes value) sc ;;
  factor ← ok_or (pow10 sc) RE_ArithmeticOverflow;
  whole_value ← ok_or (parse_i128 whole) invalid;
  factor ← ok_or (checked_i128 factor) RE_ArithmeticOverflow;
  whole_units ← ok_or (checked_i128 (whole_value * factor)) RE_ArithmeticOverflow;
  let fraction_digits :=
    fraction ++ replicate (Z.to_nat sc - length fraction) "0"%char in
  fraction_units ←
    (if bool_decide (fraction_digits = []) then Ok 0
     else ok_or (parse_i128 fraction_digits) invalid);
  u ← ok_or (checked_i128 (whole_units + fraction_units)) RE_ArithmeticOverflow;
  u ← (if negative : bool then ok_or (checked_i128 (- u)) RE_ArithmeticOverflow else Ok u);
  from_units u sc.

Definition fd_parse (value : string) (sc : Z) : result RatingError FixedDecimal :=
  parse_decimal_string "decimal" value sc.

Definition reject_negative (field : string) (money : FixedDecimal) : result RatingError () :=
  if units money <? 0 then Err (RE_NegativeMoney field) else Ok ().

Definition validate_currency (currency : string) : result RatingError () :=
  match as_bytes currency with
  | [] => Err (RE_InvalidCurrency currency)
  | first :: rest =>
      if is_ascii_uppercase first
         && (3 <=? length (as_bytes currency))%nat
         && (length (as_bytes currency) <=? 32)%nat
         && List.forallb (λ c, is_ascii_uppercase c || is_ascii_digit c || bool_decide (c = "_"%char)) rest
      then Ok () else Err (RE_InvalidCurrency currency)
  end.

(** ** Token usage *)

Record TokenUsage : Type := mkTokenUsage { tu_input_tokens : Z; tu_output_tokens : Z }.

Record ExtendedTokenUsage : Type := mkExtendedTokenUsage {
  input_tokens : Z;
  output_tokens : Z;
  cache_tokens : option Z;
  reasoning_tokens : option Z;
}.

Definition etu_new (input output : Z) : ExtendedTokenUsage :=
  mkExtendedTokenUsage input output None None.

Definition with_cache_tokens (u : ExtendedTokenUsage) (tokens : Z) : ExtendedTokenUsage :=
  mkExtendedTokenUsage (input_tokens u) (output_tokens u) (Some tokens) (reasoning_tokens u).

Definition with_reasoning_tokens (u : ExtendedTokenUsage) (tokens : Z) : ExtendedTokenUsage :=
  mkExtendedTokenUsage (input_tokens u) (output_tokens u) (cache_tokens u) (Some tokens).

(** [From<TokenUsage> for ExtendedTokenUsage]. *)
Definition etu_from (u : TokenUsage) : ExtendedTokenUsage :=
  etu_new (tu_input_tokens u) (tu_output_tokens u).

(** ** Pricing *)

Record PricingRules : Type := mkPricingRules {
  pr_currency : string;
  pr_scale : Z;
  input_token_rate_per_million : FixedDecimal;
  output_token_rate_per_million : FixedDecimal;
  cache_token_rate_per_million : FixedDecimal;
  reasoning_token_rate_per_million : FixedDecimal;
  pr_fixed_request_cost : FixedDecimal;
}.

Record RatingResult : Type := mkRatingResult {
  rr_input_tokens : Z;
  rr_output_tokens : Z;
  rr_cache_tokens : option Z;
  rr_reasoning_tokens : option Z;
  input_cost : FixedDecimal;
  output_cost : FixedDecimal;
  cache_cost : option FixedDecimal;
  reasoning_cost : option FixedDecimal;
  rr_fixed_request_cost : FixedDecimal;
  total_cost : FixedDecimal;
  rr_currency : string;
  rr_scale : Z;
}.

(** [/] and [%] on [i128] truncate; both operands are non-negative here. *)
Definition div_round_half_up (numerator denominator : Z) : result RatingError Z :=
  fail_if (denominator <=? 0) || (numerator <? 0) with RE_ArithmeticOverflow ;;
  let quotient := Z.quot numerator denominator in
  let remainder := Z.rem numerator denominator in
  doubled ← ok_or (checked_i128 (remainder * 2)) RE_ArithmeticOverflow;
  if denominator <=? doubled
  then ok_or (checked_i128 (quotient + 1)) RE_ArithmeticOverflow
  else Ok quotient.

Definition rate_tokens (tokens : Z) (rate_per_million : FixedDecimal) : result RatingError FixedDecimal :=
  fail_if units rate_per_million <? 0 with RE_NegativeMoney "rate_per_million" ;;
  numerator ← ok_or (checked_i128 (tokens * units rate_per_million)) RE_ArithmeticOverflow;
  u ← div_round_half_up numerator TOKENS_PER_MILLION;
  from_units u (scale rate_per_million).

Definition rate_usage (pricing : PricingRules) (usage : ExtendedTokenUsage) : result RatingError RatingResult :=
  in_cost ← rate_tokens (input_tokens usage) (input_token_rate_per_million pricing);
  out_cost ← rate_tokens (output_tokens usage) (output_token_rate_per_million pricing);
  c_cost ← transpose ((λ tokens, rate_tokens tokens (cache_token_rate_per_million pricing))
                        <$> cache_tokens usage);
  r_cost ← transpose ((λ tokens, rate_tokens tokens (reasoning_token_rate_per_million pricing))
                        <$> reasoning_tokens usage);
  total ← fd_checked_add in_cost out_cost;
  zero ← fd_zero (pr_scale pricing);
  total ← fd_checked_add total (default zero c_cost);
  zero ← fd_zero (pr_scale pricing);
  total ← fd_checked_add total (default zero r_cost);
  total ← fd_checked_add total (pr_fixed_request_cost pricing);
  Ok {|
    rr_input_tokens := input_tokens usage;
    rr_output_tokens := output_tokens usage;
    rr_cache_tokens := cache_tokens usage;
    rr_reasoning_tokens := reasoning_tokens usage;
    input_cost := in_cost;
    output_cost := out_cost;
    cache_cost := c_cost;
    reasoning_cost := r_cost;
    rr_fixed_request_cost := pr_fixed_request_cost pricing;
    total_cost := total;
    rr_currency := pr_currency pricing;
    rr_scale := pr_scale pricing;
  |}.

(** ** JSON

    The [serde_json] crate is not part of the repository: its [Value] type and
    the functions the source calls on it are an interface. [value_view]
    renders the constructors the source matches on. *)

Inductive ValueView (Number : Type) : Type :=
| VNull
| VString (s : string)
| VNumber (n : Number)
| VOther.
Arguments VNull {Number}.
Arguments VString {Number} s.
Arguments VNumber {Number} n.
Arguments VOther {Number}.

Class SerdeJson : Type := {
  Value : Type;
  Number : Type;
  value_view : Value → ValueView Number;
  value_get : Value → string → option Value;
  value_is_object : Value → bool;
  value_is_null : Value → bool;
  value_as_u64 : Value → option Z;
  number_as_i64 : Number → option Z;
  number_as_u64 : Number → option Z;
  json_from_str : string → result string Value;
}.

(** What the documentation of [serde_json] promises of them: the integer views
    return values of their width. *)
Class SerdeJsonLaws (J : SerdeJson) : Prop := {
  value_as_u64_range v n : value_as_u64 v = Some n → in_u64 n;
  number_as_i64_range m n : number_as_i64 m = Some n → in_i64 n;
  number_as_u64_range m n : number_as_u64 m = Some n → in_u64 n;
}.

Section json.
Context {J : SerdeJson}.

Definition runtime_usage_fields_present (value : Value) : bool :=
  value_is_object value
  && List.existsb (λ field, bool_decide (is_Some (value_get value field)))
       ["prompt_tokens"; "input_tokens"; "promptTokenCount"; "completion_tokens";
        "output_tokens"; "candidatesTokenCount"; "total_tokens"; "totalTokenCount"].

Definition filter_object (o : option Value) : option Value :=
  match o with
  | Some v => if value_is_object v then Some v else None
  | None => None
  end.

Definition runtime_usage_object (value : Value) : option Value :=
  match filter_object (value_get value "usage") with
  | Some usage => Some usage
  | None => match filter_object (value_get value "usageMetadata") with
            | Some usage => Some usage
            | None => if runtime_usage_fields_present value then Some value else None
            end
  end.

Fixpoint value_at_path (value : Value) (path : list string) : option Value :=
  match path with
  | [] => Some value
  | segment :: path' => current ← value_get value segment; value_at_path current path'
  end.

Definition usage_u64_at_path (value : Value) (path : list string) (field : string)
    : result RatingError (option Z) :=
  match value_at_path value path with
  | None => Ok None
  | Some value =>
      if value_is_null value then Ok None
      else ok_or (Some <$> value_as_u64 value) (RE_InvalidUsageField field)
  end.

Fixpoint first_present_usage_u64 (value : Value) (candidates : list (string * list string))
    : result RatingError (option Z) :=
  match candidates with
  | [] => Ok None
  | (field, path) :: candidates' =>
      tokens ← usage_u64_at_path value path field;
      match tokens with
      | Some tokens => Ok (Some tokens)
      | None => first_present_usage_u64 value candidates'
      end
  end.

Definition derive_output_tokens_from_total (usage : Value) (input_total : Z)
    : option (result RatingError Z) :=
  match first_present_usage_u64 usage
          [("total_tokens", ["total_tokens"]); ("totalTokenCount", ["totalTokenCount"])] with
  | Ok (Some total_tokens) =>
      Some (ok_or (checked_u64 (total_tokens - input_total))
                  (RE_UsageCategoryExceedsTotal "input_tokens" "total_tokens"))
  | Ok None => None
  | Err error => Some (Err error)
  end.

Definition subtract_category (total : Z) (category_value : option Z) (category total_field : string)
    : result RatingError Z :=
  match category_value with
  | Some category_value =>
      ok_or (checked_u64 (total - category_value)) (RE_UsageCategoryExceedsTotal category total_field)
  | None => Ok total
  end.

Definition input_total_candidates : list (string * list string) :=
  [("prompt_tokens", ["prompt_tokens"]); ("input_tokens", ["input_tokens"]);
   ("promptTokenCount", ["promptTokenCount"])].

Definition output_total_candidates : list (string * list string) :=
  [("completion_tokens", ["completion_tokens"]); ("output_tokens", ["output_tokens"]);
   ("candidatesTokenCount", ["candidatesTokenCount"])].

Definition cache_candidates : list (string * list string) :=
  [("prompt_tokens_details.cached_tokens", ["prompt_tokens_details"; "cached_tokens"]);
   ("input_tokens_details.cached_tokens", ["input_tokens_details"; "cached_tokens"]);
   ("cached_tokens", ["cached_tokens"]);
   ("cachedContentTokenCount", ["cachedContentTokenCount"]);
   ("cache_read_input_tokens", ["cache_read_input_tokens"])].

Definition reasoning_candidates : list (string * list string) :=
  [("completion_tokens_details.reasoning_tokens", ["completion_tokens_details"; "reasoning_tokens"]);
   ("output_tokens_details.reasoning_tokens", ["output_tokens_details"; "reasoning_tokens"]);
   ("reasoning_tokens", ["reasoning_tokens"]);
   ("thoughtsTokenCount", ["thoughtsTokenCount"]);
   ("thinking_tokens", ["thinking_tokens"])].

Definition extract_runtime_token_usage_from_value (value : Value)
    : result RatingError (option ExtendedTokenUsage) :=
  match runtime_usage_object value with
  | None => Ok None
  | Some usage =>
      input_total ← first_present_usage_u64 usage input_total_candidates;
      match input_total with
      | None => Ok None
      | Some input_total =>
          output_total ← first_present_usage_u64 usage output_total_candidates;
          output_total ← match output_total with
                         | Some output_total => Ok (Some output_total)
                         | None => transpose (derive_output_tokens_from_total usage input_total)
                         end;
          match output_total with
          | None => Ok None
          | Some output_total =>
              cached ← first_present_usage_u64 usage cache_candidates;
              reasoned ← first_present_usage_u64 usage reasoning_candidates;
              input ← subtract_category input_total cached "cache_tokens" "input_tokens";
              output ← subtract_category output_total reasoned "reasoning_tokens" "output_tokens";
              let usage := etu_new input output in
              let usage := match cached with Some t => with_cache_tokens usage t | None => usage end in
              let usage := match reasoned with Some t => with_reasoning_tokens usage t | None => usage end in
              Ok (Some usage)
          end
      end
  end.

Definition extract_runtime_token_usage_from_json_str (runtime_usage_json : string)
    : result RatingError (option ExtendedTokenUsage) :=
  value ← map_err RE_InvalidUsageJson (json_from_str runtime_usage_json);
  extract_runtime_token_usage_from_value value.

(** The deserialized shape of the pricing JSON. [serde]'s derived
    deserializer, which fills it from a [Value], is an argument of the
    functions that call it. *)
Record PricingRulesWire : Type := mkPricingRulesWire {
  w_currency : option string;
  w_scale : option Z;
  w_input_token_rate_per_1m : option Value;
  w_output_token_rate_per_1m : option Value;
  w_cache_token_rate_per_1m : option Value;
  w_reasoning_token_rate_per_1m : option Value;
  w_fixed_request_cost : option Value;
}.

Definition parse_optional_money_field (field : string) (value : option Value) (sc : Z)
    : result RatingError FixedDecimal :=
  match value_view <$> value with
  | None | Some VNull => fd_zero sc
  | Some (VString s) =>
      money ← parse_decimal_string field s sc;
      _ ← reject_negative field money;
      Ok money
  | Some (VNumber number) =>
      u ← match number_as_i64 number with
          | Some u => Ok u
          | None => match number_as_u64 number with
                    | Some u => Ok u
                    | None => Err (RE_InvalidMoneyType field)
                    end
          end;
      money ← from_units u sc;
      _ ← reject_negative field money;
      Ok money
  | Some VOther => Err (RE_InvalidMoneyType field)
  end.

Definition pricing_from_json_value (from_value : Value → result string PricingRulesWire) (value : Value)
    : result RatingError PricingRules :=
  wire ← map_err RE_InvalidPricingJson (from_value value);
  let sc := default DEFAULT_MONEY_SCALE (w_scale wire) in
  _ ← validate_scale sc;
  let currency := default DEFAULT_CURRENCY (w_currency wire) in
  _ ← validate_currency currency;
  input_rate ← parse_optional_money_field "input_token_rate_per_1m" (w_input_token_rate_per_1m wire) sc;
  output_rate ← parse_optional_money_field "output_token_rate_per_1m" (w_output_token_rate_per_1m wire) sc;
  cache_rate ← parse_optional_money_field "cache_token_rate_per_1m" (w_cache_token_rate_per_1m wire) sc;
  reasoning_rate ← parse_optional_money_field "reasoning_token_rate_per_1m" (w_reasoning_token_rate_per_1m wire) sc;
  fixed ← parse_optional_money_field "fixed_request_cost" (w_fixed_request_cost wire) sc;
  Ok {|
    pr_currency := currency;
    pr_scale := sc;
    input_token_rate_per_million := input_rate;
    output_token_rate_per_million := output_rate;
    cache_token_rate_per_million := cache_rate;
    reasoning_token_rate_per_million := reasoning_rate;
    pr_fixed_request_cost := fixed;
  |}.

Definition pricing_from_json_str (from_value : Value → result string PricingRulesWire) (pricing_json : string)
    : result RatingError PricingRules :=
  value ← map_err RE_InvalidPricingJson (json_from_str pricing_json);
  pricing_from_json_value from_value value.

Definition rate_usage_from_json (from_value : Value → result string PricingRulesWire)
    (pricing_json : string) (usage : ExtendedTokenUsage) : result RatingError RatingResult :=
  pricing ← pricing_from_json_str from_value pricing_json;
  rate_usage pricing usage.

Definition rate_runtime_usage_from_json (from_value : Value → result string PricingRulesWire)
    (pricing_json runtime_usage_json : string) : result RatingError (option RatingResult) :=
  usage ← extract_runtime_token_usage_from_json_str runtime_usage_json;
  match usage with
  | None => Ok None
  | Some usage => Some <$> rate_usage_from_json from_value pricing_json usage
  end.
End json.

(** ** Arithmetic of amounts *)

(** The values the type can hold: an [i128] and a validated scale. *)
Definition fd_wf (a : FixedDecimal) : Prop := in_i128 (units a) ∧ 0 <= scale a <= MAX_MONEY_SCALE.

#[export] Hint Unfold fd_wf : rust.

Lemma validate_scale_Ok sc : validate_scale sc = Ok () ↔ sc <= MAX_MONEY_SCALE.
Proof. unfold validate_scale. destruct (Z.leb_spec sc MAX_MONEY_SCALE); naive_solver lia. Qed.

Lemma from_units_Ok u sc a :
  from_units u sc = Ok a ↔ sc <= MAX_MONEY_SCALE ∧ a = mkFixedDecimal u sc.
Proof.
  unfold from_units. rewrite bind_Ok. setoid_rewrite <-validate_scale_Ok.
  split; [intros ([] & ? & [= <-]); auto|intros [? ->]; eauto].
Qed.

Lemma from_units_ok u sc : sc <= MAX_MONEY_SCALE → from_units u sc = Ok (mkFixedDecimal u sc).
Proof. intros. by apply from_units_Ok. Qed.

Lemma fd_checked_add_Ok a b c :
  fd_checked_add a b = Ok c ↔
  scale a = scale b ∧ in_i128 (units a + units b) ∧ c = mkFixedDecimal (units a + units b) (scale a).
Proof.
  unfold fd_checked_add. split.
  - intros H. inv_ok. bool_to_prop. auto.
  - intros (Hs & Hr & ->). rewrite Hs, Z.eqb_refl. cbn.
    unfold checked_i128. rewrite checked_in by done. done.
Qed.

Lemma fd_geb_same_scale a b : scale a = scale b → fd_geb a b = (units b <=? units a).
Proof.
  intros Hs. unfold fd_geb, fd_compare. rewrite Hs, Z.compare_refl.
  destruct (Z.compare_spec (units a) (units b)); destruct (Z.leb_spec (units b) (units a)); lia.
Qed.

Lemma fd_gtb_same_scale a b : scale a = scale b → fd_gtb a b = (units b <? units a).
Proof.
  intros Hs. unfold fd_gtb, fd_compare. rewrite Hs, Z.compare_refl.
  destruct (Z.compare_spec (units a) (units b)); destruct (Z.ltb_spec (units b) (units a)); lia.
Qed.

Lemma pow10_loop_spec rounds value :
  0 <= value → value * 10 ^ Z.of_nat rounds <= u128_max →
  pow10_loop rounds value = Some (value * 10 ^ Z.of_nat rounds).
Proof.
  revert value. induction rounds as [|rounds IH]; intros value Hv Hb; cbn [pow10_loop].
  - f_equal. lia.
  - rewrite Nat2Z.inj_succ, Z.pow_succ_r in * by lia.
    assert (1 <= 10 ^ Z.of_nat rounds) by (pose proof (Z.pow_pos_nonneg 10 (Z.of_nat rounds)); lia).
    unfold checked_u128. rewrite checked_in by nia. cbn.
    rewrite IH by nia. f_equal. ring.
Qed.

Lemma pow10_spec sc : 0 <= sc <= MAX_MONEY_SCALE → pow10 sc = Some (10 ^ sc).
Proof.
  unfold MAX_MONEY_SCALE. intros Hsc. unfold pow10.
  assert (10 ^ sc <= 10 ^ 18) by (apply Z.pow_le_mono_r; lia).
  rewrite pow10_loop_spec; rewrite ?Z2Nat.id by lia; [f_equal; lia|lia|width_lia].
Qed.

Lemma pow10_range sc : 0 <= sc <= MAX_MONEY_SCALE → 1 <= 10 ^ sc <= 10 ^ 18.
Proof.
  unfold MAX_MONEY_SCALE. intros. split; [pose proof (Z.pow_pos_nonneg 10 sc); lia|].
  apply Z.pow_le_mono_r; lia.
Qed.

Lemma fd_fmt_some a : fd_wf a → is_Some (fd_fmt a).
Proof.
  intros [_ Hs]. unfold fd_fmt. destruct (scale a =? 0); [eauto|].
  rewrite pow10_spec by done. cbn. eauto.
Qed.

(** ** Decimal text *)

(** The reference grammar: an optional sign, at least one digit and optionally
    a dot with at most [sc] digits after it. [decimal_denotes text sc u] says
    that [text] writes the amount of [u] units at scale [sc]. *)
Inductive decimal_sign : Type := NoSign | PlusSign | MinusSign.

#[export] Instance decimal_sign_eq_dec : EqDecision decimal_sign.
Proof. solve_decision. Defined.

Definition sign_text (s : decimal_sign) : bytes :=
  match s with NoSign => [] | PlusSign => ["+"%char] | MinusSign => ["-"%char] end.

Definition fraction_text (f : option bytes) : bytes :=
  match f with None => [] | Some f => "."%char :: f end.

Definition decimal_magnitude (whole : bytes) (fraction : option bytes) (sc : Z) : Z :=
  dec_val whole * 10 ^ sc +
  dec_val (default [] fraction) * 10 ^ (sc - Z.of_nat (length (default [] fraction))).

Definition decimal_denotes (text : bytes) (sc u : Z) : Prop :=
  ∃ s whole fraction,
    text = sign_text s ++ whole ++ fraction_text fraction ∧
    whole ≠ [] ∧ all_digits whole ∧ all_digits (default [] fraction) ∧
    Z.of_nat (length (default [] fraction)) <= sc ∧
    decimal_magnitude whole fraction sc <= i128_max ∧
    u = match s with MinusSign => - decimal_magnitude whole fraction sc
                   | _ => decimal_magnitude whole fraction sc end.

Lemma forallb_digits l : List.forallb is_ascii_digit l = true ↔ all_digits l.
Proof. unfold all_digits. rewrite forallb_elem, Forall_forall. done. Qed.

Lemma split_on_join c l :
  match split_on c l with
  | [] => False
  | p :: ps => l = p ++ concat (map (cons c) ps)
  end.
Proof.
  induction l as [|b l IH]; cbn; [done|].
  destruct (split_on c l) as [|p ps] eqn:E; [done|].
  by case_bool_decide; subst.
Qed.

Lemma split_fraction whole fraction :
  all_digits whole → all_digits (default [] fraction) →
  split_on "."%char (whole ++ fraction_text fraction) =
    whole :: match fraction with None => [] | Some f => [f] end.
Proof.
  intros Hw Hf. destruct fraction as [f|]; cbn.
  - rewrite split_on_app by by apply digits_no_dot.
    by rewrite split_on_none by by apply digits_no_dot.
  - rewrite app_nil_r. by rewrite split_on_none by by apply digits_no_dot.
Qed.

Lemma dec_val_pad l k :
  dec_val (l ++ replicate k "0"%char) = dec_val l * 10 ^ Z.of_nat k.
Proof.
  rewrite dec_val_from_app, dec_val_from_shift, length_replicate.
  rewrite <-(app_nil_r (replicate k _)), dec_val_replicate_zero. cbn. lia.
Qed.

Lemma strip_sign_text s c l :
  is_ascii_digit c = true →
  strip_sign (sign_text s ++ c :: l) = (bool_decide (s = MinusSign), c :: l).
Proof.
  intros Hc. unfold strip_sign. destruct s; cbn.
  - assert (strip_prefix ["-"%char] (c :: l) = None) as ->.
    { apply strip_prefix_None. intros k [= -> ->]. discriminate. }
    assert (strip_prefix ["+"%char] (c :: l) = None) as ->; [|done].
    apply strip_prefix_None. intros k [= -> ->]. discriminate.
  - done.
  - done.
Qed.

Lemma strip_sign_inv value negative unsigned :
  strip_sign value = (negative, unsigned) →
  ∃ s, value = sign_text s ++ unsigned ∧ negative = bool_decide (s = MinusSign).
Proof.
  unfold strip_sign. destruct (strip_prefix ["-"%char] value) eqn:E1.
  - intros [= <- <-]. apply strip_prefix_Some in E1 as ->. by exists MinusSign.
  - destruct (strip_prefix ["+"%char] value) eqn:E2; intros [= <- <-].
    + apply strip_prefix_Some in E2 as ->. by exists PlusSign.
    + by exists NoSign.
Qed.

(** The checked conversion of the digits to units succeeds exactly when the
    magnitude fits. *)
Lemma digits_to_units whole fraction sc :
  all_digits whole → whole ≠ [] → all_digits fraction →
  0 <= sc <= MAX_MONEY_SCALE → Z.of_nat (length fraction) <= sc →
  let digits := fraction ++ replicate (Z.to_nat sc - length fraction) "0"%char in
  dec_val digits = dec_val fraction * 10 ^ (sc - Z.of_nat (length fraction)) ∧
  0 <= dec_val whole ∧ 0 <= dec_val digits < 10 ^ sc ∧
  parse_i128 whole = (if dec_val whole <=? i128_max then Some (dec_val whole) else None) ∧
  ∀ invalid : RatingError,
    (if bool_decide (digits = []) then Ok 0 else ok_or (parse_i128 digits) invalid) = Ok (dec_val digits).
Proof.
  intros Hw Hne Hf Hsc Hlen digits.
  assert (all_digits digits) as Hd by (apply all_digits_app; split; [done|apply all_digits_replicate]).
  assert (Z.of_nat (length digits) = sc) as Hl.
  { unfold digits. rewrite length_app, length_replicate. lia. }
  pose proof (dec_val_bound _ Hd) as Hb. rewrite Hl in Hb.
  pose proof (pow10_range sc Hsc). split_and!; [|pose proof (dec_val_bound _ Hw); lia|lia|lia| |].
  - unfold digits. rewrite dec_val_pad. do 2 f_equal. lia.
  - by apply parse_i128_digits.
  - intros invalid. case_bool_decide as Hn; [by rewrite Hn|]. rewrite parse_i128_digits by done.
    destruct (Z.leb_spec (dec_val digits) i128_max); [done|]. width_lia.
Qed.

Lemma parse_decimal_string_complete field s sc u :
  0 <= sc <= MAX_MONEY_SCALE → decimal_denotes (trim (as_bytes s)) sc u →
  parse_decimal_string field s sc = Ok (mkFixedDecimal u sc).
Proof.
  intros Hsc (sg & whole & fraction & Htext & Hne & Hw & Hf & Hlen & Hmax & ->).
  destruct (digits_to_units whole (default [] fraction) sc Hw Hne Hf Hsc Hlen)
    as (Hdv & Hw0 & Hdr & Hpw & Hpd).
  pose proof (pow10_range sc Hsc) as Hp.
  unfold decimal_magnitude in *. rewrite <-Hdv in *.
  assert (0 <= dec_val whole * 10 ^ sc) by nia.
  unfold parse_decimal_string. rewrite (proj2 (validate_scale_Ok sc)) by lia. cbn [mbind result_bind].
  destruct whole as [|c whole]; [done|].
  assert (is_ascii_digit c = true) as Hc by (by inversion Hw).
  rewrite Htext, <-app_comm_cons, strip_sign_text by done.
  rewrite app_comm_cons, split_fraction by done.
  rewrite bool_decide_false by (destruct sg; discriminate).
  rewrite bool_decide_false by (destruct sg; discriminate).
  change ((?x :: ?l) !! 0%nat) with (Some x). cbn [default from_option id].
  change ((?x :: ?l) !! 1%nat) with (l !! 0%nat). change ((?x :: ?l) !! 2%nat) with (l !! 1%nat).
  assert (match fraction with Some f => [f] | None => [] end !! 0%nat = fraction) as ->
    by by destruct fraction.
  assert (match fraction with Some f => [f] | None => [] end !! 1%nat = None) as ->
    by by destruct fraction.
  rewrite (proj2 (forallb_digits _) Hw), (proj2 (forallb_digits _) Hf).
  rewrite bool_decide_false by (intros [? ?]; discriminate).
  rewrite bool_decide_false by discriminate. cbn [orb negb].
  rewrite (proj2 (Z.ltb_ge _ _)) by lia.
  rewrite pow10_spec by done. cbn [ok_or mbind result_bind].
  rewrite Hpw, (proj2 (Z.leb_le _ _)) by nia. cbn [ok_or mbind result_bind].
  unfold checked_i128. rewrite (checked_in _ _ (10 ^ sc)) by width_lia. cbn [ok_or mbind result_bind].
  rewrite (checked_in _ _ (_ * _)) by width_lia. cbn [ok_or mbind result_bind].
  rewrite Hpd. cbn [mbind result_bind]. rewrite checked_in by width_lia. cbn [ok_or mbind result_bind].
  destruct sg; [rewrite bool_decide_false by done..|rewrite bool_decide_true by done];
    cbn [mbind result_bind]; rewrite ?checked_in by width_lia; by apply from_units_ok; lia.
Qed.

Lemma parse_decimal_string_sound field s sc a :
  0 <= sc → parse_decimal_string field s sc = Ok a →
  sc <= MAX_MONEY_SCALE ∧ scale a = sc ∧ decimal_denotes (trim (as_bytes s)) sc (units a).
Proof.
  intros Hsc0. unfold parse_decimal_string. intros H. step_ok.
  destruct a0. apply validate_scale_Ok in Ha0 as Hsc.
  step_ok. destruct (strip_sign _) as [negative unsigned] eqn:Hsign.
  apply strip_sign_inv in Hsign as (sg & Htext & ->).
  pose proof (split_on_join "."%char unsigned) as Hjoin.
  destruct (split_on "."%char unsigned) as [|whole ps]; [done|].
  do 2 step_ok. bool_to_prop.
  change ((?x :: ?l) !! 0%nat) with (Some x) in *. cbn [default from_option id] in *.
  change ((?x :: ?l) !! 1%nat) with (l !! 0%nat) in *. change ((?x :: ?l) !! 2%nat) with (l !! 1%nat) in *.
  assert (concat (map (cons "."%char) ps) = fraction_text (ps !! 0%nat)) as Hps.
  { destruct ps as [|f [|g ps]]; [done|cbn; by rewrite app_nil_r|]. exfalso.
    match goal with H : ¬ is_Some _ |- _ => apply H; by eexists end. }
  rewrite Hps in Hjoin. step_ok. bool_to_prop.
  repeat match goal with H : List.forallb _ _ = true |- _ => apply forallb_digits in H end.
  match goal with H : _ ≠ [] |- _ => rename H into Hne end.
  assert (whole ≠ []) as Hwne by done.
  assert (all_digits whole) as Hw by done.
  assert (all_digits (default [] (ps !! 0%nat))) as Hf by done.
  destruct (digits_to_units whole (default [] (ps !! 0%nat)) sc) as (Hdv & Hw0 & Hdr & Hpw & Hpd);
    try done; [].
  rewrite pow10_spec in H by done. cbn [ok_or mbind result_bind] in H.
  rewrite Hpw in H. destruct (Z.leb_spec (dec_val whole) i128_max); [|done].
  cbn [ok_or mbind result_bind] in H. rewrite Hpd in H.
  inv_ok. apply from_units_Ok in H as [_ ->].
  split_and!; [done|done|]. exists sg, whole, (ps !! 0%nat).
  unfold decimal_magnitude. rewrite <-Hdv.
  destruct (bool_decide (sg = MinusSign)) eqn:Hm in Ha5; bool_to_prop; inv_ok;
    split_and!; try (done || lia); destruct sg; cbn; (done || lia).
Qed.

Lemma parse_decimal_iff field s sc a :
  0 <= sc →
  parse_decimal_string field s sc = Ok a ↔
  sc <= MAX_MONEY_SCALE ∧ scale a = sc ∧ decimal_denotes (trim (as_bytes s)) sc (units a).
Proof.
  intros Hsc. split; [by apply parse_decimal_string_sound|].
  intros (? & <- & ?). destruct a. by apply parse_decimal_string_complete.
Qed.

Lemma signed_digits_solid s c l d :
  is_ascii_digit c = true → is_ascii_digit d = true → last (c :: l) = Some d →
  trim (sign_text s ++ c :: l) = sign_text s ++ c :: l.
Proof.
  intros Hc Hd Hlast.
  apply (trim_solid _ (default c (head (sign_text s))) d).
  - by destruct s.
  - by rewrite last_app, Hlast.
  - destruct s; cbn; [by apply digit_solid|by repeat split..].
  - by apply digit_solid.
Qed.

Lemma display_u128_digits n :
  0 <= n → ∃ c l d, display_u128 n = c :: l ∧ is_ascii_digit c = true ∧
    last (c :: l) = Some d ∧ is_ascii_digit d = true.
Proof.
  intros Hn. destruct (display_u128_spec n Hn) as (Hd & Hne & _ & _).
  destruct (display_u128 n) as [|c l]; [done|]. destruct (last (c :: l)) as [d|] eqn:El.
  - exists c, l, d. unfold all_digits in Hd. rewrite Forall_forall in Hd.
    split_and!; [done| |done|]; apply Hd; [set_solver|]. by apply last_Some_elem_of.
  - by apply last_None in El.
Qed.

(** The sign [Display] writes. *)
Definition sign_of (u : Z) : decimal_sign := if u <? 0 then MinusSign else NoSign.

Lemma sign_of_abs u : u = match sign_of u with MinusSign => - Z.abs u | _ => Z.abs u end.
Proof. unfold sign_of. destruct (Z.ltb_spec u 0); lia. Qed.

(** The text [Display] writes, as an instance of the grammar: without and with a
    fraction. *)
Lemma integral_denotes a :
  fd_wf a → units a ≠ i128_min → scale a = 0 →
  decimal_denotes (trim (display_i128 (units a))) (scale a) (units a).
Proof.
  intros [Hr Hs] Hmin H0. pose proof (sign_of_abs (units a)) as Hsg.
  assert (display_i128 (units a) = sign_text (sign_of (units a)) ++ display_u128 (Z.abs (units a))) as ->.
  { unfold display_i128, sign_of. destruct (Z.ltb_spec (units a) 0).
    - by rewrite Z.abs_neq by lia.
    - by rewrite Z.abs_eq by lia. }
  destruct (display_u128_digits (Z.abs (units a))) as (c & l & d & E & Hc & El & Hd); [lia|].
  destruct (display_u128_spec (Z.abs (units a))) as (Had & Hne & Hv & _); [lia|].
  rewrite E, (signed_digits_solid _ _ _ d) by done. rewrite <-E.
  exists (sign_of (units a)), (display_u128 (Z.abs (units a))), None.
  unfold decimal_magnitude. cbn [fraction_text default length]. rewrite app_nil_r, H0, Hv.
  change (dec_val ([] : bytes)) with 0. rewrite Z.pow_0_r, Z.mul_1_r, Z.mul_0_l, Z.add_0_r.
  split_and!; [done|done|done|constructor|done|width_lia|done].
Qed.

Lemma fractional_denotes a :
  fd_wf a → units a ≠ i128_min → scale a ≠ 0 →
  decimal_denotes
    (trim ((if units a <? 0 then ["-"%char] else []) ++ display_u128 (Z.abs (units a) / 10 ^ scale a) ++ ["."%char] ++
           display_zero_padded (Z.to_nat (scale a)) (Z.abs (units a) mod 10 ^ scale a)))
    (scale a) (units a).
Proof.
  intros [Hr Hs] Hmin H0. pose proof (sign_of_abs (units a)) as Hsg.
  pose proof (pow10_range (scale a) Hs) as Hp.
  pose proof (Z.mod_pos_bound (Z.abs (units a)) (10 ^ scale a) ltac:(lia)) as Hm.
  assert (0 <= Z.abs (units a) / 10 ^ scale a) as Hq by (apply Z.div_pos; lia).
  destruct (display_u128_digits _ Hq) as (c & l & d & E & Hc & _ & _).
  destruct (display_u128_spec _ Hq) as (Had & Hne & Hv & _).
  destruct (display_zero_padded_spec (Z.to_nat (scale a)) (Z.abs (units a) mod 10 ^ scale a))
    as (Hpd & Hpl & Hpv); [rewrite Z2Nat.id by lia; done|lia|].
  set (major := display_u128 _) in *. set (minor := display_zero_padded _ _) in *.
  assert ((if units a <? 0 then ["-"%char] else []) = sign_text (sign_of (units a))) as ->.
  { unfold sign_of. by destruct (units a <? 0). }
  destruct (last minor) as [e|] eqn:Ee; [|apply last_None in Ee; rewrite Ee in Hpl; cbn in Hpl; lia].
  assert (is_ascii_digit e = true) as He.
  { unfold all_digits in Hpd. rewrite Forall_forall in Hpd. by apply Hpd, last_Some_elem_of. }
  rewrite E, <-app_comm_cons, (signed_digits_solid _ _ _ e); [|done|done|].
  2: { rewrite app_comm_cons, !last_app. cbn [last]. by rewrite Ee. }
  rewrite app_comm_cons, <-E.
  exists (sign_of (units a)), major, (Some minor). unfold decimal_magnitude.
  cbn [fraction_text default from_option id]. rewrite Hv, Hpv, Hpl, Z2Nat.id, Z.sub_diag by lia.
  pose proof (Z.div_mod (Z.abs (units a)) (10 ^ scale a) ltac:(lia)).
  rewrite Z.pow_0_r, Z.mul_1_r.
  replace (Z.abs (units a) / 10 ^ scale a * 10 ^ scale a + Z.abs (units a) mod 10 ^ scale a)
    with (Z.abs (units a)) by lia.
  split_and!; [done|done|done|done|lia|width_lia|done].
Qed.

Lemma fd_to_string_denotes a :
  fd_wf a → units a ≠ i128_min →
  decimal_denotes (trim (as_bytes (fd_to_string a))) (scale a) (units a).
Proof.
  intros Hwf Hmin. unfold fd_to_string, fd_fmt. destruct (Z.eqb_spec (scale a) 0) as [H0|H0].
  - cbn [default from_option id]. rewrite as_from_bytes. by apply integral_denotes.
  - rewrite pow10_spec by apply Hwf. cbn [mbind option_bind default from_option id].
    rewrite as_from_bytes. by apply fractional_denotes.
Qed.

Lemma min_scales (P : Z → Prop) :
  P 0 → P 1 → P 2 → P 3 → P 4 → P 5 → P 6 → P 7 → P 8 → P 9 → P 10 → P 11 → P 12 → P 13 →
  P 14 → P 15 → P 16 → P 17 → P 18 → ∀ sc, 0 <= sc <= 18 → P sc.
Proof.
  intros. assert (sc ∈ seqZ 0 19) as Hin by (apply elem_of_seqZ; lia). cbn in Hin.
  repeat (apply elem_of_cons in Hin as [->|Hin]; [assumption|]). by apply elem_of_nil in Hin.
Qed.

Lemma fd_parse_printed a :
  fd_wf a → units a ≠ i128_min → fd_parse (fd_to_string a) (scale a) = Ok a.
Proof.
  intros Hwf Hmin. apply parse_decimal_iff; [apply Hwf|].
  split_and!; [apply Hwf|done|]. by apply fd_to_string_denotes.
Qed.

Lemma fd_parse_range s sc a :
  0 <= sc → fd_parse s sc = Ok a → scale a = sc ∧ i128_min < units a <= i128_max.
Proof.
  intros Hsc (_ & Hscale & sign & whole & fraction & _ & _ & Hw & Hf & Hlen & Hmax & Hu)%parse_decimal_iff; [|done].
  split; [done|]. assert (0 <= decimal_magnitude whole fraction sc) as Hpos.
  { unfold decimal_magnitude. pose proof (dec_val_bound whole Hw). pose proof (dec_val_bound _ Hf).
    pose proof (Z.pow_nonneg 10 sc). pose proof (Z.pow_nonneg 10 (sc - Z.of_nat (length (default [] fraction)))). nia. }
  rewrite Hu. destruct sign; width_lia.
Qed.

(** The least [i128] is printed, but its magnitude does not fit when it is read
    back. *)
Definition min_error (a : FixedDecimal) : RatingError :=
  if scale a =? 0 then RE_InvalidDecimal "decimal" (fd_to_string a) else RE_ArithmeticOverflow.

Lemma fd_min_not_parsed sc :
  0 <= sc <= MAX_MONEY_SCALE →
  fd_parse (fd_to_string (mkFixedDecimal i128_min sc)) sc = Err (min_error (mkFixedDecimal i128_min sc)).
Proof. revert sc. apply min_scales; vm_compute; reflexivity. Qed.

(** C32: printing an amount and parsing the text at the same scale gives the
    amount back, for every representable amount except the least [i128]: its text
    is rejected, as no number at the scale 0 and as an overflow at the others. *)
Theorem fixed_decimal_roundtrip (a : FixedDecimal) (Hwf : fd_wf a) :
  fd_parse (fd_to_string a) (scale a)
  = if bool_decide (units a = i128_min)
    then Err (if scale a =? 0 then RE_InvalidDecimal "decimal" (fd_to_string a) else RE_ArithmeticOverflow)
    else Ok a.
Proof.
  case_bool_decide as Hmin; [|by apply fd_parse_printed]. destruct a as [u sc]; cbn in Hmin; subst u.
  apply fd_min_not_parsed, Hwf.
Qed.

Lemma fixed_decimal_roundtrip_witness :
  fd_to_string (mkFixedDecimal (-150) 8) = "-0.00000150" ∧ fd_parse "-0.00000150" 8 = Ok (mkFixedDecimal (-150) 8).
Proof.
  assert (fd_wf (mkFixedDecimal (-150) 8)) as H by (split; cbn; [width_lia|done]).
  split; [vm_compute; reflexivity|]. exact (fixed_decimal_roundtrip _ H).
Defined.

(** A text is accepted as an amount exactly when, after trimming, it is an
    optional sign, at least one digit and at most [scale] fractional digits
    whose magnitude fits an [i128], and then the amount is the one it writes. *)
Theorem fd_parse_grammar (s : string) (sc : Z) (a : FixedDecimal) (Hsc : 0 <= sc) :
  fd_parse s sc = Ok a ↔
  sc <= MAX_MONEY_SCALE ∧ scale a = sc ∧ decimal_denotes (trim (as_bytes s)) sc (units a).
Proof. by apply parse_decimal_iff. Qed.

Lemma fd_parse_grammar_witness :
  fd_parse " +1.5 " 8 = Ok (mkFixedDecimal 150000000 8) ↔
  8 <= MAX_MONEY_SCALE ∧ 8 = 8 ∧ decimal_denotes (trim (as_bytes " +1.5 ")) 8 150000000.
Proof. exact (fd_parse_grammar " +1.5 " 8 (mkFixedDecimal 150000000 8) ltac:(lia)). Defined.

(** ** Rounding and token costs *)

(** The reference: the nearest integer to n/d, ties upwards. *)
Definition round_half_up (n d : Z) : Z := (2 * n + d) / (2 * d).

Lemma round_half_up_nearest n d :
  0 < d → 2 * n - d < 2 * (round_half_up n d * d) <= 2 * n + d.
Proof.
  intros Hd. unfold round_half_up.
  pose proof (Z.div_mod (2 * n + d) (2 * d) ltac:(lia)).
  pose proof (Z.mod_pos_bound (2 * n + d) (2 * d) ltac:(lia)). lia.
Qed.

Lemma round_half_up_nonneg n d : 0 <= n → 0 < d → 0 <= round_half_up n d.
Proof. intros. apply Z.div_pos; lia. Qed.

Lemma div_round_half_up_exact n d :
  0 <= n <= i128_max → 0 < d <= 2 ^ 126 → div_round_half_up n d = Ok (round_half_up n d).
Proof.
  intros Hn Hd. unfold div_round_half_up.
  replace ((d <=? 0) || (n <? 0)) with false by lia.
  rewrite Z.quot_div_nonneg, Z.rem_mod_nonneg by lia.
  pose proof (Z.div_mod n d ltac:(lia)) as Hdm. pose proof (Z.mod_pos_bound n d ltac:(lia)).
  assert (0 <= n / d) by (apply Z.div_pos; lia).
  unfold checked_i128. rewrite (checked_in _ _ (n mod d * 2)) by width_lia.
  cbn [ok_or mbind result_bind]. unfold round_half_up. destruct (Z.leb_spec d (n mod d * 2)) as [Hup|Hdown].
  - assert (2 * (n / d) <= d * (n / d)) by nia.
    rewrite checked_in by width_lia. cbn. f_equal.
    apply Z.div_unique with (r := 2 * (n mod d) - d); [left|]; lia.
  - f_equal. apply Z.div_unique with (r := 2 * (n mod d) + d); [left|]; lia.
Qed.

(** The division used for prices returns, for every non-negative [i128]
    numerator and positive denominator up to 2^126, the nearest integer with
    ties rounded up, and never overflows. *)
Theorem div_round_half_up_correct (n d : Z) (Hn : 0 <= n <= i128_max) (Hd : 0 < d <= 2 ^ 126) :
  ∃ q, div_round_half_up n d = Ok q ∧ 2 * n - d < 2 * (q * d) <= 2 * n + d.
Proof.
  exists (round_half_up n d). split; [by apply div_round_half_up_exact|].
  apply round_half_up_nearest. lia.
Qed.

Lemma div_round_half_up_correct_witness :
  div_round_half_up 2500000 1000000 = Ok 3 ∧
  ∃ q, div_round_half_up 2500000 1000000 = Ok q ∧ 2 * 2500000 - 1000000 < 2 * (q * 1000000) <= 2 * 2500000 + 1000000.
Proof.
  split; [vm_compute; reflexivity|].
  exact (div_round_half_up_correct 2500000 1000000 ltac:(width_lia) ltac:(lia)).
Defined.

(** The cost of [tokens] at a rate, as a number of units. *)
Definition token_cost (tokens : Z) (rate : FixedDecimal) : Z :=
  round_half_up (tokens * units rate) TOKENS_PER_MILLION.

Lemma rate_tokens_eq tokens rate :
  in_u64 tokens → 0 <= units rate → scale rate <= MAX_MONEY_SCALE →
  rate_tokens tokens rate =
    if tokens * units rate <=? i128_max
    then Ok (mkFixedDecimal (token_cost tokens rate) (scale rate))
    else Err RE_ArithmeticOverflow.
Proof.
  intros Ht Hu Hs. unfold rate_tokens. rewrite (proj2 (Z.ltb_ge _ _)) by lia.
  unfold checked_i128. destruct (Z.leb_spec (tokens * units rate) i128_max).
  - rewrite checked_in by width_lia. cbn [ok_or mbind result_bind].
    rewrite div_round_half_up_exact; [|unfold TOKENS_PER_MILLION; lia..].
    cbn [mbind result_bind]. by apply from_units_ok.
  - rewrite (proj2 (checked_None _ _ _)) by width_lia. done.
Qed.

Lemma token_cost_nonneg tokens rate : 0 <= tokens → 0 <= units rate → 0 <= token_cost tokens rate.
Proof. intros. apply round_half_up_nonneg; [nia|done]. Qed.

(** Prices the parser produces: one scale, no negative amount. *)
Definition pricing_wf (p : PricingRules) : Prop :=
  0 <= pr_scale p <= MAX_MONEY_SCALE ∧
  Forall (λ a, scale a = pr_scale p ∧ 0 <= units a)
    [input_token_rate_per_million p; output_token_rate_per_million p;
     cache_token_rate_per_million p; reasoning_token_rate_per_million p; pr_fixed_request_cost p].

Definition usage_wf (u : ExtendedTokenUsage) : Prop :=
  in_u64 (input_tokens u) ∧ in_u64 (output_tokens u) ∧
  (∀ t, cache_tokens u = Some t → in_u64 t) ∧ (∀ t, reasoning_tokens u = Some t → in_u64 t).

(** The five parts of a request's price. *)
Definition usage_parts (p : PricingRules) (u : ExtendedTokenUsage) : list Z :=
  [token_cost (input_tokens u) (input_token_rate_per_million p);
   token_cost (output_tokens u) (output_token_rate_per_million p);
   default 0 ((λ t, token_cost t (cache_token_rate_per_million p)) <$> cache_tokens u);
   default 0 ((λ t, token_cost t (reasoning_token_rate_per_million p)) <$> reasoning_tokens u);
   units (pr_fixed_request_cost p)].

Definition usage_total (p : PricingRules) (u : ExtendedTokenUsage) : Z := foldr Z.add 0 (usage_parts p u).

(** Every intermediate product and the total fit an [i128]. *)
Definition usage_fits (p : PricingRules) (u : ExtendedTokenUsage) : bool :=
  (input_tokens u * units (input_token_rate_per_million p) <=? i128_max)
  && (output_tokens u * units (output_token_rate_per_million p) <=? i128_max)
  && (default 0 ((λ t, t * units (cache_token_rate_per_million p)) <$> cache_tokens u) <=? i128_max)
  && (default 0 ((λ t, t * units (reasoning_token_rate_per_million p)) <$> reasoning_tokens u) <=? i128_max)
  && (usage_total p u <=? i128_max).

Lemma rate_optional_eq (tokens : option Z) rate :
  (∀ t, tokens = Some t → in_u64 t) → 0 <= units rate → scale rate <= MAX_MONEY_SCALE →
  transpose ((λ t, rate_tokens t rate) <$> tokens) =
    if default 0 ((λ t, t * units rate) <$> tokens) <=? i128_max
    then Ok ((λ t, mkFixedDecimal (token_cost t rate) (scale rate)) <$> tokens)
    else Err RE_ArithmeticOverflow.
Proof.
  intros Ht Hu Hs. destruct tokens as [t|]; cbn.
  - rewrite rate_tokens_eq by auto. by destruct (_ <=? _).
  - done.
Qed.

Lemma fd_checked_add_eq u v sc :
  0 <= u → 0 <= v →
  fd_checked_add (mkFixedDecimal u sc) (mkFixedDecimal v sc) =
    if u + v <=? i128_max then Ok (mkFixedDecimal (u + v) sc) else Err RE_ArithmeticOverflow.
Proof.
  intros. unfold fd_checked_add. cbn [scale units]. rewrite Z.eqb_refl. cbn [negb].
  unfold checked_i128. destruct (Z.leb_spec (u + v) i128_max).
  - by rewrite checked_in by width_lia.
  - by rewrite (proj2 (checked_None _ _ _)) by width_lia.
Qed.

(** Rewrite with the closed forms above and split on each overflow test. *)
Ltac rating_step :=
  first
    [ progress cbn [mbind result_bind ok_or default from_option id fmap option_fmap option_map]
    | rewrite fd_checked_add_eq by (assumption || lia)
    | match goal with |- context [if ?a <=? ?b then _ else _] => destruct (Z.leb_spec a b) end ].

Lemma default_cost (f : Z → Z) sc (o : option Z) :
  default (mkFixedDecimal 0 sc) ((λ t, mkFixedDecimal (f t) sc) <$> o) = mkFixedDecimal (default 0 (f <$> o)) sc.
Proof. by destruct o. Qed.

Lemma optional_cost_nonneg rate (o : option Z) :
  (∀ t, o = Some t → in_u64 t) → 0 <= units rate → 0 <= default 0 ((λ t, token_cost t rate) <$> o).
Proof. intros Ht Hu. destruct o as [t|]; [|done]. apply token_cost_nonneg; naive_solver. Qed.

Lemma rate_usage_eq p u :
  pricing_wf p → usage_wf u →
  rate_usage p u =
    if usage_fits p u then
      Ok {|
        rr_input_tokens := input_tokens u;
        rr_output_tokens := output_tokens u;
        rr_cache_tokens := cache_tokens u;
        rr_reasoning_tokens := reasoning_tokens u;
        input_cost := mkFixedDecimal (token_cost (input_tokens u) (input_token_rate_per_million p)) (pr_scale p);
        output_cost := mkFixedDecimal (token_cost (output_tokens u) (output_token_rate_per_million p)) (pr_scale p);
        cache_cost := (λ t, mkFixedDecimal (token_cost t (cache_token_rate_per_million p)) (pr_scale p))
                        <$> cache_tokens u;
        reasoning_cost := (λ t, mkFixedDecimal (token_cost t (reasoning_token_rate_per_million p)) (pr_scale p))
                            <$> reasoning_tokens u;
        rr_fixed_request_cost := pr_fixed_request_cost p;
        total_cost := mkFixedDecimal (usage_total p u) (pr_scale p);
        rr_currency := pr_currency p;
        rr_scale := pr_scale p;
      |}
    else Err RE_ArithmeticOverflow.
Proof.
  intros (Hsc & Hall) (Hi & Ho & Hc & Hr).
  rewrite !Forall_cons in Hall.
  destruct Hall as ((Si & Ui) & (So & Uo) & (Sc & Uc) & (Sr & Ur) & (Sf & Uf) & _).
  unfold rate_usage. rewrite !rate_tokens_eq, !rate_optional_eq by (done || lia).
  unfold usage_fits, usage_total, usage_parts. rewrite Si, So, Sc, Sr.
  pose proof (token_cost_nonneg _ _ (proj1 Hi) Ui). pose proof (token_cost_nonneg _ _ (proj1 Ho) Uo).
  set (ci := token_cost (input_tokens u) _) in *. set (co := token_cost (output_tokens u) _) in *.
  unfold fd_zero. rewrite from_units_ok by lia.
  destruct (Z.leb_spec (input_tokens u * units (input_token_rate_per_million p)) i128_max); [|done].
  destruct (Z.leb_spec (output_tokens u * units (output_token_rate_per_million p)) i128_max); [|done].
  cbn [mbind result_bind andb].
  destruct (Z.leb_spec (default 0 ((λ t, t * units (cache_token_rate_per_million p)) <$> cache_tokens u)) i128_max);
    [|done].
  cbn [mbind result_bind andb].
  destruct (Z.leb_spec (default 0 ((λ t, t * units (reasoning_token_rate_per_million p)) <$> reasoning_tokens u)) i128_max);
    [|done].
  cbn [mbind result_bind andb].
  rewrite !default_cost.
  pose proof (optional_cost_nonneg _ _ Hc Uc). pose proof (optional_cost_nonneg _ _ Hr Ur).
  destruct (pr_fixed_request_cost p) as [uf sf]; cbn [units scale] in *; subst sf.
  cbn [foldr]. repeat rating_step; try lia; try done.
  do 2 f_equal. f_equal. lia.
Qed.

(** C19: for well-formed prices and [u64] token counts, pricing a request either
    returns the sum of its five parts (four rounded token costs and the fixed
    cost), when every product and the sum fit an [i128], or reports an
    arithmetic overflow; no other outcome exists. *)
Theorem rate_usage_correct (p : PricingRules) (u : ExtendedTokenUsage)
    (Hp : pricing_wf p) (Hu : usage_wf u) :
  if usage_fits p u then
    ∃ r, rate_usage p u = Ok r ∧
      units (total_cost r) = usage_total p u ∧ scale (total_cost r) = pr_scale p ∧
      [units (input_cost r); units (output_cost r); default 0 (units <$> cache_cost r);
       default 0 (units <$> reasoning_cost r); units (rr_fixed_request_cost r)] = usage_parts p u
  else rate_usage p u = Err RE_ArithmeticOverflow.
Proof.
  rewrite rate_usage_eq by done. destruct (usage_fits p u); [|done].
  eexists. split; [done|]. cbn. split_and!; [done|done|]. unfold usage_parts.
  repeat f_equal; by destruct_or! || (destruct (cache_tokens u), (reasoning_tokens u); done).
Qed.

Definition sample_pricing : PricingRules :=
  mkPricingRules "USD" 8 (mkFixedDecimal 15000000 8) (mkFixedDecimal 60000000 8)
    (mkFixedDecimal 7500000 8) (mkFixedDecimal 0 8) (mkFixedDecimal 10000 8).

Definition sample_usage : ExtendedTokenUsage := mkExtendedTokenUsage 1000 250 (Some 400) None.

Lemma sample_pricing_wf : pricing_wf sample_pricing.
Proof. split; [done|]. repeat (constructor; [done|]). constructor. Defined.

Lemma sample_usage_wf : usage_wf sample_usage.
Proof. split_and!; try (intros ? [= <-]); try done; width_lia. Defined.

Lemma rate_usage_correct_witness :
  usage_fits sample_pricing sample_usage = true ∧
  ∃ r, rate_usage sample_pricing sample_usage = Ok r ∧ units (total_cost r) = 43000.
Proof.
  split; [vm_compute; reflexivity|].
  pose proof (rate_usage_correct _ _ sample_pricing_wf sample_usage_wf) as H.
  assert (usage_fits sample_pricing sample_usage = true) as E by (vm_compute; reflexivity).
  rewrite E in H. destruct H as (r & Hr & Ht & _). exists r. split; [exact Hr|].
  rewrite Ht. vm_compute. reflexivity.
Defined.

(** C37: prices of at most 2^62 units per million tokens and a fixed cost of at
    most 2^62 units cannot overflow, whatever the token counts. *)
Theorem rate_usage_never_overflows (p : PricingRules) (u : ExtendedTokenUsage)
    (Hp : pricing_wf p) (Hu : usage_wf u)
    (Hb : Forall (λ a, units a <= 2 ^ 62)
            [input_token_rate_per_million p; output_token_rate_per_million p;
             cache_token_rate_per_million p; reasoning_token_rate_per_million p;
             pr_fixed_request_cost p]) :
  is_ok (rate_usage p u) = true.
Proof.
  rewrite rate_usage_eq by done.
  enough (usage_fits p u = true) as -> by done.
  destruct Hp as [_ Hall]. destruct Hu as (Hi & Ho & Hc & Hr).
  rewrite !Forall_cons in Hall, Hb.
  destruct Hall as ((_ & Ui) & (_ & Uo) & (_ & Uc) & (_ & Ur) & (_ & Uf) & _).
  destruct Hb as (Bi & Bo & Bc & Br & Bf & _).
  assert (∀ t r, in_u64 t → 0 <= units r <= 2 ^ 62 → 0 <= t * units r <= 2 ^ 126 ∧ 0 <= token_cost t r <= 2 ^ 107) as Hk.
  { intros t r Ht Hru. assert (0 <= t * units r <= 2 ^ 126) by width_lia || (unfold_widths; nia).
    split; [done|]. split; [apply round_half_up_nonneg; [lia|done]|].
    pose proof (round_half_up_nearest (t * units r) TOKENS_PER_MILLION ltac:(done)).
    unfold token_cost, TOKENS_PER_MILLION in *. lia. }
  pose proof (Hk _ _ Hi (conj Ui Bi)). pose proof (Hk _ _ Ho (conj Uo Bo)).
  unfold usage_fits, usage_total, usage_parts. cbn [foldr].
  assert (∀ o r, (∀ t, o = Some t → in_u64 t) → 0 <= units r <= 2 ^ 62 →
    default 0 ((λ t, t * units r) <$> o) <= 2 ^ 126 ∧
    default 0 ((λ t, token_cost t r) <$> o) <= 2 ^ 107) as Ho'.
  { intros [t|] r Ht Hru; cbn; [|lia]. destruct (Hk t r); naive_solver lia. }
  pose proof (Ho' _ _ Hc (conj Uc Bc)). pose proof (Ho' _ _ Hr (conj Ur Br)).
  rewrite !andb_true_iff, !Z.leb_le. width_lia.
Qed.

Lemma rate_usage_never_overflows_witness : is_ok (rate_usage sample_pricing sample_usage) = true.
Proof.
  apply rate_usage_never_overflows; [exact sample_pricing_wf|exact sample_usage_wf|].
  repeat constructor; cbn; lia.
Defined.

(** ** JSON inputs *)

Section json_facts.
Context {J : SerdeJson} {JL : SerdeJsonLaws J}.

Lemma usage_u64_at_path_range value path field n :
  usage_u64_at_path value path field = Ok (Some n) → in_u64 n.
Proof.
  unfold usage_u64_at_path. destruct (value_at_path value path) as [v|]; [|done].
  destruct (value_is_null v); [done|]. destruct (value_as_u64 v) eqn:E; cbn; [|done].
  intros [= <-]. by eapply value_as_u64_range.
Qed.

Lemma first_present_range value candidates n :
  first_present_usage_u64 value candidates = Ok (Some n) → in_u64 n.
Proof.
  induction candidates as [|[field path] candidates IH]; cbn; [done|].
  intros H. step_ok. destruct a as [t|]; [|auto]. injection H as ->.
  by eapply usage_u64_at_path_range.
Qed.

Lemma subtract_category_Ok total category_value category field n :
  subtract_category total category_value category field = Ok n →
  in_u64 total → (∀ t, category_value = Some t → in_u64 t) →
  in_u64 n ∧ n + default 0 category_value = total.
Proof.
  unfold subtract_category. destruct category_value as [t|]; intros H; inv_ok; cbn; [|lia].
  intros. lia.
Qed.

Lemma parse_optional_money_wf field value sc a :
  0 <= sc → parse_optional_money_field field value sc = Ok a → scale a = sc ∧ 0 <= units a.
Proof.
  intros Hsc. unfold parse_optional_money_field, reject_negative.
  destruct (value_view <$> value) as [[|s|m|]|]; intros H; try discriminate.
  - apply from_units_Ok in H as [_ ->]. done.
  - inv_ok. bool_to_prop. apply parse_decimal_iff in Ha0 as (_ & ? & _); done.
  - inv_ok. bool_to_prop. apply from_units_Ok in Ha1 as [_ ->]. done.
  - apply from_units_Ok in H as [_ ->]. done.
Qed.

(** 3 to 32 upper-case letters, digits and underscores, a letter first. *)
Definition currency_wf (currency : string) : Prop :=
  let upper c := 65 <= byte_val c <= 90 in
  ∃ first rest, as_bytes currency = first :: rest ∧ (2 <= length rest <= 31)%nat ∧ upper first ∧
    Forall (λ c, upper c ∨ 48 <= byte_val c <= 57 ∨ c = "_"%char) rest.

Lemma validate_currency_Ok currency : validate_currency currency = Ok () → currency_wf currency.
Proof.
  unfold validate_currency, currency_wf, is_ascii_uppercase, is_ascii_digit, byte_between. intros Hok.
  destruct (as_bytes currency) as [|first rest]; [done|]. destruct (_ && _) eqn:Hguard; [|done].
  rewrite !andb_true_iff, forallb_elem in Hguard. destruct Hguard as (((Hfirst & H3%Nat.leb_le) & H32%Nat.leb_le) & Hrest). cbn [length] in H3, H32.
  exists first, rest. split_and!; [done|lia..|]. apply Forall_forall. intros c Hc%Hrest.
  apply orb_true_iff in Hc as [[Hc|Hc]%orb_true_iff|Hc]; [left; lia|right; left; lia|]. right. right. by bool_to_prop.
Qed.

(** C38: prices read from JSON are well formed (one valid scale, no negative
    amount) and carry a currency of 3 to 32 upper-case letters, digits and
    underscores that starts with a letter. [Hwire] says what the type of the
    field [scale] of the deserialized struct says: it is a [u32]. *)
Theorem pricing_from_json_well_formed
    (from_value : Value → result string PricingRulesWire)
    (Hwire : ∀ v w sc, from_value v = Ok w → w_scale w = Some sc → in_u32 sc)
    (v : Value) (p : PricingRules) (Hok : pricing_from_json_value from_value v = Ok p) :
  pricing_wf p ∧ currency_wf (pr_currency p).
Proof.
  unfold pricing_from_json_value in Hok. inv_ok.
  assert (0 <= default DEFAULT_MONEY_SCALE (w_scale a)) as Hsc.
  { destruct (w_scale a) as [sc|] eqn:E; cbn; [|done]. by apply (Hwire v a sc). }
  destruct a0, a1. apply validate_scale_Ok in Ha0.
  split; [|by apply validate_currency_Ok]. split; cbn; [done|].
  repeat (constructor; [by eapply parse_optional_money_wf|]). constructor.
Qed.

(** Usage extraction conserves tokens: the billed input and the cached
    tokens add up to the reported input total, the billed output and the
    reasoning tokens to the output total (reported, or derived from the overall
    total), and every count is a [u64]. *)
Theorem extract_usage_conserves (v : Value) (u : ExtendedTokenUsage)
    (Hok : extract_runtime_token_usage_from_value v = Ok (Some u)) :
  usage_wf u ∧
  ∃ o input_total output_total, runtime_usage_object v = Some o ∧
    first_present_usage_u64 o input_total_candidates = Ok (Some input_total) ∧
    (first_present_usage_u64 o output_total_candidates = Ok (Some output_total) ∨
     first_present_usage_u64 o output_total_candidates = Ok None ∧
     derive_output_tokens_from_total o input_total = Some (Ok output_total)) ∧
    input_tokens u + default 0 (cache_tokens u) = input_total ∧
    output_tokens u + default 0 (reasoning_tokens u) = output_total.
Proof.
  unfold extract_runtime_token_usage_from_value in Hok.
  destruct (runtime_usage_object v) as [o|]; [|discriminate].
  step_ok. destruct a as [it|]; [|discriminate].
  do 2 step_ok. destruct a0 as [ot|]; [|discriminate].
  inv_ok.
  assert (in_u64 it) by by eapply first_present_range.
  assert (in_u64 ot) as Hot.
  { destruct a as [ot'|]; [injection Ha1 as ->; by eapply first_present_range|].
    unfold derive_output_tokens_from_total in Ha1.
    destruct (first_present_usage_u64 o _) as [[t|]|] in Ha1; cbn in Ha1; try discriminate.
    destruct (checked_u64 _) eqn:E; [|discriminate]. step_ok. cbn in Ha1. injection Ha1 as <-. lia. }
  assert (∀ t, a0 = Some t → in_u64 t) by (intros ? ->; by eapply first_present_range).
  assert (∀ t, a1 = Some t → in_u64 t) by (intros ? ->; by eapply first_present_range).
  apply subtract_category_Ok in Ha4 as [? ?]; [|done|done].
  apply subtract_category_Ok in Ha5 as [? ?]; [|done|done].
  split; [|exists o, it, ot; split_and!; [done|done| | |]].
  - unfold usage_wf. destruct a0, a1; cbn; naive_solver lia.
  - destruct a as [ot'|]; [injection Ha1 as ->; auto|]. right. split; [done|].
    destruct (derive_output_tokens_from_total o it) as [[?|?]|]; cbn in Ha1; naive_solver.
  - by destruct a0, a1.
  - by destruct a0, a1.
Qed.
End json_facts.

(** ** A concrete JSON type, to show the interface can be implemented *)

(** An object is a chain of [JField]s that ends in [JObj]. *)
Inductive JValue : Type :=
| JNull
| JNum (n : Z)
| JStr (s : string)
| JObj
| JField (key : string) (value rest : JValue).

Fixpoint jget (v : JValue) (key : string) : option JValue :=
  match v with
  | JField k value rest => if bool_decide (k = key) then Some value else jget rest key
  | _ => None
  end.

#[local] Instance json_model : SerdeJson := {|
  Value := JValue;
  Number := Z;
  value_view v := match v with JNull => VNull | JStr s => VString s | JNum n => VNumber n | _ => VOther end;
  value_get := jget;
  value_is_object v := match v with JObj | JField _ _ _ => true | _ => false end;
  value_is_null v := match v with JNull => true | _ => false end;
  value_as_u64 v := match v with JNum n => checked 0 u64_max n | _ => None end;
  number_as_i64 n := checked i64_min i64_max n;
  number_as_u64 n := checked 0 u64_max n;
  json_from_str _ := Err "EOF while parsing a value";
|}.

#[local] Instance json_model_laws : SerdeJsonLaws json_model.
Proof.
  split; cbn.
  - intros v n. destruct v; try done. by intros [-> ?]%checked_Some.
  - by intros m n [-> ?]%checked_Some.
  - by intros m n [-> ?]%checked_Some.
Qed.

Definition sample_wire (v : Value) : result string PricingRulesWire :=
  Ok {|
    w_currency := None; w_scale := Some 6;
    w_input_token_rate_per_1m := Some v; w_output_token_rate_per_1m := Some (JNum 250);
    w_cache_token_rate_per_1m := None; w_reasoning_token_rate_per_1m := Some JNull;
    w_fixed_request_cost := None;
  |}.

Lemma pricing_from_json_well_formed_witness :
  ∃ p, pricing_from_json_value sample_wire (JStr "0.15") = Ok p ∧
       units (input_token_rate_per_million p) = 150000 ∧
       pricing_wf p ∧ currency_wf (pr_currency p).
Proof.
  eexists. split; [vm_compute; reflexivity|]. split; [reflexivity|].
  apply (pricing_from_json_well_formed sample_wire) with (v := JStr "0.15").
  - intros v w sc [= <-] [= <-]. width_lia.
  - vm_compute. reflexivity.
Defined.

Definition sample_response : Value :=
  JField "id" (JStr "chatcmpl-1")
    (JField "usage"
      (JField "prompt_tokens" (JNum 1400)
        (JField "total_tokens" (JNum 1650)
          (JField "prompt_tokens_details" (JField "cached_tokens" (JNum 400) JObj) JObj)))
      JObj).

Lemma extract_usage_conserves_witness :
  extract_runtime_token_usage_from_value sample_response = Ok (Some sample_usage) ∧ usage_wf sample_usage.
Proof.
  split; [vm_compute; reflexivity|].
  apply (extract_usage_conserves sample_response). vm_compute. reflexivity.
Defined.
