(* ===== verification/Reconciliation.v ===== *)
(** crates/billing-ledger/src/reconciliation.rs: the report that compares the final
    cost of each request with what the ledger holds for it: one issue per
    inconsistent row, counters, totals per currency, and redaction of free text. *)

From Stdlib Require String.
From S2P Require Export Rating.

#[local] Open Scope string_scope.
#[local] Open Scope list_scope.
#[local] Open Scope Z_scope.

Abbreviation Uuid := Z.

(** ** Data *)

Inductive ReconciliationError : Type :=
| InvalidMoney (field value : string) (source : RatingError)
| ReconcileOverflow.

Record BillingReconciliationInputRow : Type := mkInputRow {
  br_tenant_id : Uuid;
  br_period_start : string;
  br_period_end : string;
  br_request_id : option Uuid;
  br_project_id : option Uuid;
  br_virtual_key_id : option Uuid;
  br_trace_id : option string;
  br_canonical_model_id : option Uuid;
  br_resolved_provider_id : option Uuid;
  br_resolved_channel_id : option Uuid;
  br_requested_model : option string;
  br_upstream_model : option string;
  br_request_status : option string;
  br_input_tokens : option Z;
  br_output_tokens : option Z;
  br_request_final_cost : option string;
  br_request_currency : option string;
  br_ledger_entry_ids : list Uuid;
  br_ledger_entry_count : Z;
  br_ledger_amount : option string;
  br_ledger_currency : option string;
}.

Inductive ReconciliationIssue : Type :=
| MissingLedger | UnexpectedLedger | AmountMismatch | CurrencyMismatch.

#[export] Instance ReconciliationIssue_eq_dec : EqDecision ReconciliationIssue.
Proof. solve_decision. Defined.

Record BillingReconciliationCurrencyTotal : Type := mkCurrencyTotal {
  bt_currency : string;
  bt_request_final_cost_total : string;
  bt_expected_ledger_amount_total : string;
  bt_ledger_amount_total : string;
  bt_difference_amount : string;
}.

Record BillingReconciliationSummary : Type := mkSummary {
  bs_request_count : nat;
  bs_billable_request_count : nat;
  bs_ledger_entry_count : Z;
  bs_matched_request_count : nat;
  bs_discrepancy_count : nat;
  bs_missing_ledger_count : nat;
  bs_unexpected_ledger_count : nat;
  bs_amount_mismatch_count : nat;
  bs_currency_mismatch_count : nat;
  bs_returned_discrepancy_count : nat;
  bs_currency_totals : list BillingReconciliationCurrencyTotal;
}.

Record BillingReconciliationDiscrepancy : Type := mkDiscrepancy {
  bd_issues : list ReconciliationIssue;
  bd_request_id : option Uuid;
  bd_ledger_entry_ids : list Uuid;
  bd_project_id : option Uuid;
  bd_virtual_key_id : option Uuid;
  bd_trace_id : option string;
  bd_canonical_model_id : option Uuid;
  bd_resolved_provider_id : option Uuid;
  bd_resolved_channel_id : option Uuid;
  bd_requested_model : option string;
  bd_upstream_model : option string;
  bd_request_status : option string;
  bd_input_tokens : option Z;
  bd_output_tokens : option Z;
  bd_request_final_cost : option string;
  bd_expected_ledger_amount : option string;
  bd_request_currency : option string;
  bd_ledger_amount : option string;
  bd_ledger_currency : option string;
  bd_difference_amount : option string;
}.

Record BillingReconciliationReport : Type := mkReport {
  rep_report_version : Z;
  rep_tenant_id : Uuid;
  rep_period_start : string;
  rep_period_end : string;
  rep_summary : BillingReconciliationSummary;
  rep_discrepancies : list BillingReconciliationDiscrepancy;
}.

(** ** Helpers *)

Definition redact_reconciliation_text (value : string) : string :=
  let trimmed := trim (as_bytes value) in
  let normalized := byte_to_lowercase <$> trimmed in
  let has p := contains (as_bytes p) normalized in
  if starts_with (as_bytes "sk-") trimmed
     || (starts_with (as_bytes "vk_") trimmed && (16 <? length trimmed)%nat)
     || has "bearer " || has "api_key=" || has "apikey=" || has "authorization=" || has "token="
     || has "password=" || has "secret="
  then "[REDACTED]" else value.

Definition parse_optional_money (field : string) (value : option string)
    : result ReconciliationError (option FixedDecimal) :=
  transpose ((λ value, map_err (InvalidMoney field value) (fd_parse value DEFAULT_MONEY_SCALE)) <$> value).

Definition checked_neg (value : FixedDecimal) : result ReconciliationError FixedDecimal :=
  u ← ok_or (checked_i128 (- units value)) ReconcileOverflow;
  map_err (λ _, ReconcileOverflow) (from_units u (scale value)).

Definition checked_subtract (left right : FixedDecimal) : result ReconciliationError FixedDecimal :=
  negated ← checked_neg right;
  map_err (λ _, ReconcileOverflow) (fd_checked_add left negated).

Record CurrencyAccumulator : Type := mkAccumulator {
  ac_request_final_cost_total : FixedDecimal;
  ac_expected_ledger_amount_total : FixedDecimal;
  ac_ledger_amount_total : FixedDecimal;
}.

(** [CurrencyAccumulator::default]; the scale is valid, so it does not panic. *)
Definition accumulator_default : CurrencyAccumulator :=
  let zero := mkFixedDecimal 0 DEFAULT_MONEY_SCALE in mkAccumulator zero zero zero.

Definition add_request (request_final_cost expected_ledger_amount : FixedDecimal) (self : CurrencyAccumulator)
    : result ReconciliationError CurrencyAccumulator :=
  cost ← map_err (λ _, ReconcileOverflow) (fd_checked_add (ac_request_final_cost_total self) request_final_cost);
  expected ← map_err (λ _, ReconcileOverflow)
    (fd_checked_add (ac_expected_ledger_amount_total self) expected_ledger_amount);
  Ok (mkAccumulator cost expected (ac_ledger_amount_total self)).

Definition add_ledger (amount : FixedDecimal) (self : CurrencyAccumulator)
    : result ReconciliationError CurrencyAccumulator :=
  total ← map_err (λ _, ReconcileOverflow) (fd_checked_add (ac_ledger_amount_total self) amount);
  Ok (mkAccumulator (ac_request_final_cost_total self) (ac_expected_ledger_amount_total self) total).

Definition into_total (currency : string) (self : CurrencyAccumulator)
    : result ReconciliationError BillingReconciliationCurrencyTotal :=
  difference ← checked_subtract (ac_ledger_amount_total self) (ac_expected_ledger_amount_total self);
  Ok {|
    bt_currency := currency;
    bt_request_final_cost_total := fd_to_string (ac_request_final_cost_total self);
    bt_expected_ledger_amount_total := fd_to_string (ac_expected_ledger_amount_total self);
    bt_ledger_amount_total := fd_to_string (ac_ledger_amount_total self);
    bt_difference_amount := fd_to_string difference;
  |}.

(** [map.entry(key).or_default()] followed by a fallible update, on a [BTreeMap]:
    the association list is kept sorted by key. *)
Fixpoint update_entry (key : string) (f : CurrencyAccumulator → result ReconciliationError CurrencyAccumulator)
    (map : list (string * CurrencyAccumulator)) : result ReconciliationError (list (string * CurrencyAccumulator)) :=
  match map with
  | [] => v ← f accumulator_default; Ok [(key, v)]
  | (k, v) :: rest =>
      match String.compare key k with
      | Eq => v ← f v; Ok ((k, v) :: rest)
      | Lt => new ← f accumulator_default; Ok ((key, new) :: (k, v) :: rest)
      | Gt => rest ← update_entry key f rest; Ok ((k, v) :: rest)
      end
  end.

(** ** The loop over the rows *)

(** The local variables of the function. *)
Record ReconcileState : Type := mkReconcileState {
  st_period_start : option string;
  st_period_end : option string;
  st_request_count : nat;
  st_billable_request_count : nat;
  st_ledger_entry_count : Z;
  st_matched_request_count : nat;
  st_missing_ledger_count : nat;
  st_unexpected_ledger_count : nat;
  st_amount_mismatch_count : nat;
  st_currency_mismatch_count : nat;
  st_currency_totals : list (string * CurrencyAccumulator);
  st_discrepancies : list BillingReconciliationDiscrepancy;
  st_discrepancy_count : nat;
}.

Definition reconcile_start : ReconcileState := mkReconcileState None None 0 0 0 0 0 0 0 0 [] [] 0.

(** [if c { n += 1 }]. *)
Definition count_if (c : bool) (n : nat) : nat := if c then S n else n.

Definition nonzero (amount : option FixedDecimal) : bool :=
  match amount with Some amount => negb (is_zero amount) | None => false end.

Definition row_issues (row : BillingReconciliationInputRow) (expected_ledger_amount ledger_amount : option FixedDecimal)
    : list ReconciliationIssue :=
  let request_present := bool_decide (is_Some (br_request_final_cost row)) in
  let ledger_present := 0 <? br_ledger_entry_count row in
  if request_present && negb ledger_present then
    if nonzero expected_ledger_amount then [MissingLedger] else []
  else if negb request_present && ledger_present then [UnexpectedLedger]
  else if request_present && ledger_present then
    let currency_matches := bool_decide (br_request_currency row = br_ledger_currency row) in
    (if negb currency_matches then [CurrencyMismatch] else []) ++
    (if currency_matches && negb (bool_decide (ledger_amount = expected_ledger_amount)) then [AmountMismatch] else [])
  else [].

Definition row_difference (row : BillingReconciliationInputRow) (expected_ledger_amount ledger_amount : option FixedDecimal)
    : result ReconciliationError (option string) :=
  match bool_decide (br_request_currency row = br_ledger_currency row), ledger_amount, expected_ledger_amount with
  | true, Some ledger, Some expected => difference ← checked_subtract ledger expected; Ok (Some (fd_to_string difference))
  | _, _, _ => Ok None
  end.

Definition row_discrepancy (row : BillingReconciliationInputRow) (issues : list ReconciliationIssue)
    (expected_ledger_amount : option FixedDecimal) (difference_amount : option string)
    : BillingReconciliationDiscrepancy := {|
  bd_issues := issues;
  bd_request_id := br_request_id row;
  bd_ledger_entry_ids := br_ledger_entry_ids row;
  bd_project_id := br_project_id row;
  bd_virtual_key_id := br_virtual_key_id row;
  bd_trace_id := redact_reconciliation_text <$> br_trace_id row;
  bd_canonical_model_id := br_canonical_model_id row;
  bd_resolved_provider_id := br_resolved_provider_id row;
  bd_resolved_channel_id := br_resolved_channel_id row;
  bd_requested_model := redact_reconciliation_text <$> br_requested_model row;
  bd_upstream_model := redact_reconciliation_text <$> br_upstream_model row;
  bd_request_status := redact_reconciliation_text <$> br_request_status row;
  bd_input_tokens := br_input_tokens row;
  bd_output_tokens := br_output_tokens row;
  bd_request_final_cost := br_request_final_cost row;
  bd_expected_ledger_amount := fd_to_string <$> expected_ledger_amount;
  bd_request_currency := redact_reconciliation_text <$> br_request_currency row;
  bd_ledger_amount := br_ledger_amount row;
  bd_ledger_currency := redact_reconciliation_text <$> br_ledger_currency row;
  bd_difference_amount := difference_amount;
|}.

(** The updates of the currency totals for one row. *)
Definition row_totals (row : BillingReconciliationInputRow)
    (request_final_cost expected_ledger_amount ledger_amount : option FixedDecimal)
    (totals : list (string * CurrencyAccumulator)) : result ReconciliationError (list (string * CurrencyAccumulator)) :=
  totals ←
    match br_request_currency row, request_final_cost, expected_ledger_amount with
    | Some currency, Some cost, Some expected => update_entry currency (add_request cost expected) totals
    | _, _, _ => Ok totals
    end;
  match br_ledger_currency row, ledger_amount with
  | Some currency, Some amount => update_entry currency (add_ledger amount) totals
  | _, _ => Ok totals
  end.

(** One iteration. *)
Definition reconcile_row (zero : FixedDecimal) (discrepancy_limit : nat) (st : ReconcileState)
    (row : BillingReconciliationInputRow) : result ReconciliationError ReconcileState :=
  let period_start := match st_period_start st with None => Some (br_period_start row) | s => s end in
  let period_end := match st_period_end st with None => Some (br_period_end row) | s => s end in
  let request_present := bool_decide (is_Some (br_request_final_cost row)) in
  let ledger_present := 0 <? br_ledger_entry_count row in
  if negb request_present && negb ledger_present then
    Ok (mkReconcileState period_start period_end (st_request_count st) (st_billable_request_count st)
          (st_ledger_entry_count st) (st_matched_request_count st) (st_missing_ledger_count st)
          (st_unexpected_ledger_count st) (st_amount_mismatch_count st) (st_currency_mismatch_count st)
          (st_currency_totals st) (st_discrepancies st) (st_discrepancy_count st))
  else
    request_final_cost ← parse_optional_money "request_final_cost" (br_request_final_cost row);
    expected_ledger_amount ← transpose (checked_neg <$> request_final_cost);
    ledger_amount ← parse_optional_money "ledger_amount" (br_ledger_amount row);
    let ledger_amount := if ledger_present then Some (default zero ledger_amount) else None in
    let request_count := count_if request_present (st_request_count st) in
    let billable_request_count :=
      count_if (request_present && nonzero expected_ledger_amount) (st_billable_request_count st) in
    let ledger_entry_count := wrap_i64 (st_ledger_entry_count st + br_ledger_entry_count row) in
    currency_totals ← row_totals row request_final_cost expected_ledger_amount ledger_amount (st_currency_totals st);
    let issues := row_issues row expected_ledger_amount ledger_amount in
    match issues with
    | [] =>
        Ok (mkReconcileState period_start period_end request_count billable_request_count ledger_entry_count
              (count_if request_present (st_matched_request_count st)) (st_missing_ledger_count st)
              (st_unexpected_ledger_count st) (st_amount_mismatch_count st) (st_currency_mismatch_count st)
              currency_totals (st_discrepancies st) (st_discrepancy_count st))
    | _ =>
        let has issue := bool_decide (issue ∈ issues) in
        discrepancies ←
          (if (length (st_discrepancies st) <? discrepancy_limit)%nat then
             difference_amount ← row_difference row expected_ledger_amount ledger_amount;
             Ok (st_discrepancies st ++ [row_discrepancy row issues expected_ledger_amount difference_amount])
           else Ok (st_discrepancies st));
        Ok (mkReconcileState period_start period_end request_count billable_request_count ledger_entry_count
              (st_matched_request_count st) (count_if (has MissingLedger) (st_missing_ledger_count st))
              (count_if (has UnexpectedLedger) (st_unexpected_ledger_count st))
              (count_if (has AmountMismatch) (st_amount_mismatch_count st))
              (count_if (has CurrencyMismatch) (st_currency_mismatch_count st))
              currency_totals discrepancies (S (st_discrepancy_count st)))
    end.

Definition reconcile_billing_usage_ledger (tenant_id : Uuid) (rows : list BillingReconciliationInputRow)
    (discrepancy_limit : nat) : result ReconciliationError BillingReconciliationReport :=
  zero ← map_err (λ _, ReconcileOverflow) (fd_zero DEFAULT_MONEY_SCALE);
  st ← try_fold (reconcile_row zero discrepancy_limit) reconcile_start rows;
  currency_totals ←
    try_map (λ '(currency, totals), into_total (redact_reconciliation_text currency) totals) (st_currency_totals st);
  Ok {|
    rep_report_version := 1;
    rep_tenant_id := tenant_id;
    rep_period_start := default "" (st_period_start st);
    rep_period_end := default "" (st_period_end st);
    rep_summary := {|
      bs_request_count := st_request_count st;
      bs_billable_request_count := st_billable_request_count st;
      bs_ledger_entry_count := st_ledger_entry_count st;
      bs_matched_request_count := st_matched_request_count st;
      bs_discrepancy_count := st_discrepancy_count st;
      bs_missing_ledger_count := st_missing_ledger_count st;
      bs_unexpected_ledger_count := st_unexpected_ledger_count st;
      bs_amount_mismatch_count := st_amount_mismatch_count st;
      bs_currency_mismatch_count := st_currency_mismatch_count st;
      bs_returned_discrepancy_count := length (st_discrepancies st);
      bs_currency_totals := currency_totals;
    |};
    rep_discrepancies := st_discrepancies st;
  |}.

(** ** What the report says, row by row *)

Abbreviation money u := (mkFixedDecimal u DEFAULT_MONEY_SCALE).

Definition amount_of (value : option string) : option Z :=
  value ≫= λ s, match fd_parse s DEFAULT_MONEY_SCALE with Ok a => Some (units a) | Err _ => None end.

(** The cost of the request and the amount in the ledger, in units. *)
Definition row_cost (row : BillingReconciliationInputRow) : option Z := amount_of (br_request_final_cost row).
Definition row_ledger (row : BillingReconciliationInputRow) : option Z :=
  if 0 <? br_ledger_entry_count row then Some (default 0 (amount_of (br_ledger_amount row))) else None.

(** The verdict on a row: the ledger should hold the negated cost, in the same
    currency. *)
Definition classify (row : BillingReconciliationInputRow) : option ReconciliationIssue :=
  match row_cost row, row_ledger row with
  | None, None => None
  | Some cost, None => if cost =? 0 then None else Some MissingLedger
  | None, Some _ => Some UnexpectedLedger
  | Some cost, Some amount =>
      if bool_decide (br_request_currency row = br_ledger_currency row)
      then if amount =? - cost then None else Some AmountMismatch
      else Some CurrencyMismatch
  end.

Definition difference_for (row : BillingReconciliationInputRow) : option string :=
  if bool_decide (br_request_currency row = br_ledger_currency row) then
    match row_ledger row, row_cost row with
    | Some amount, Some cost => Some (fd_to_string (money (amount + cost)))
    | _, _ => None
    end
  else None.

Definition discrepancy_for (row : BillingReconciliationInputRow) : option BillingReconciliationDiscrepancy :=
  (λ issue, row_discrepancy row [issue] ((λ cost, money (- cost)) <$> row_cost row) (difference_for row))
    <$> classify row.

Definition has_cost (row : BillingReconciliationInputRow) : bool := bool_decide (is_Some (row_cost row)).
Definition has_issue (issue : ReconciliationIssue) (row : BillingReconciliationInputRow) : bool :=
  bool_decide (classify row = Some issue).

(** The number of rows with a property, and the sums per currency. *)
Definition count_rows (p : BillingReconciliationInputRow → bool) (rows : list BillingReconciliationInputRow) : nat :=
  length (List.filter p rows).
Definition cost_in (currency : string) (row : BillingReconciliationInputRow) : Z :=
  if bool_decide (br_request_currency row = Some currency) then default 0 (row_cost row) else 0.
Definition ledger_in (currency : string) (row : BillingReconciliationInputRow) : Z :=
  if bool_decide (br_ledger_currency row = Some currency) then default 0 (row_ledger row) else 0.
Definition sum_rows (f : BillingReconciliationInputRow → Z) (rows : list BillingReconciliationInputRow) : Z :=
  fold_right (λ row total, f row + total) 0 rows.
Definition mentions (currency : string) (row : BillingReconciliationInputRow) : Prop :=
  (br_request_currency row = Some currency ∧ is_Some (row_cost row))
  ∨ (br_ledger_currency row = Some currency ∧ is_Some (row_ledger row)).

(** The line of the report for a currency. *)
Definition total_line (rows : list BillingReconciliationInputRow) (currency : string)
    : BillingReconciliationCurrencyTotal :=
  let cost := sum_rows (cost_in currency) rows in
  let ledger := sum_rows (ledger_in currency) rows in
  {|
    bt_currency := redact_reconciliation_text currency;
    bt_request_final_cost_total := fd_to_string (money cost);
    bt_expected_ledger_amount_total := fd_to_string (money (- cost));
    bt_ledger_amount_total := fd_to_string (money ledger);
    bt_difference_amount := fd_to_string (money (ledger + cost));
  |}.

(** ** Lemmas *)

Lemma count_rows_snoc p rows row : count_rows p (rows ++ [row]) = count_if (p row) (count_rows p rows).
Proof. unfold count_rows. rewrite List.filter_app, length_app. cbn. destruct (p row); cbn; lia. Qed.

Lemma sum_rows_snoc f rows row : sum_rows f (rows ++ [row]) = sum_rows f rows + f row.
Proof. unfold sum_rows. rewrite fold_right_app. cbn. induction rows as [|r rows IH]; cbn in *; lia. Qed.

Lemma parse_money_Ok field value a :
  parse_optional_money field value = Ok a → a = (λ u, money u) <$> amount_of value ∧ (is_Some value ↔ is_Some (amount_of value)).
Proof.
  unfold parse_optional_money, amount_of. destruct value as [s|]; [|cbn; naive_solver].
  cbn [fmap option_fmap option_map mbind option_bind].
  destruct (fd_parse s DEFAULT_MONEY_SCALE) as [x|e] eqn:E; [|done]. intros [= <-].
  assert (0 <= DEFAULT_MONEY_SCALE) as Hsc by (unfold DEFAULT_MONEY_SCALE; lia).
  apply (parse_decimal_iff _ _ _ _ Hsc) in E as (_ & Hs & _). destruct x as [u sc]. cbn in Hs. subst sc.
  split; [done|]. split; eauto.
Qed.

Lemma reconcile_neg_Ok a b : checked_neg a = Ok b → b = mkFixedDecimal (- units a) (scale a).
Proof. unfold checked_neg. intros H. inv_ok. by apply from_units_Ok in H as [_ ->]. Qed.

Lemma reconcile_subtract_Ok a b c : checked_subtract a b = Ok c → c = mkFixedDecimal (units a - units b) (scale a).
Proof.
  unfold checked_subtract. intros H. inv_ok. apply reconcile_neg_Ok in Ha0 as ->.
  apply fd_checked_add_Ok in H as (_ & _ & ->). done.
Qed.

Lemma negated_costs (cost : option Z) expected :
  transpose (checked_neg <$> ((λ u, money u) <$> cost)) = Ok expected → expected = (λ c, money (- c)) <$> cost.
Proof.
  destruct cost as [c|]; cbn; [|naive_solver]. destruct (checked_neg (money c)) as [x|] eqn:E; [|done].
  apply reconcile_neg_Ok in E as ->. by intros [= <-].
Qed.

(** The issues of a row are its verdict. *)
Lemma row_issues_classify row :
  (is_Some (br_request_final_cost row) ↔ is_Some (row_cost row)) →
  row_issues row ((λ c, money (- c)) <$> row_cost row) ((λ u, money u) <$> row_ledger row) = option_list (classify row).
Proof.
  intros Hp. unfold row_issues, classify. rewrite (bool_decide_ext _ _ Hp). unfold row_ledger.
  destruct (row_cost row) as [c|], (0 <? br_ledger_entry_count row); cbn; try done.
  - case_bool_decide; cbn; [|done].
    assert (bool_decide (Some (money (default 0 (amount_of (br_ledger_amount row)))) = Some (money (- c)))
            = (default 0 (amount_of (br_ledger_amount row)) =? - c)) as ->.
    { apply eq_true_iff_eq. rewrite bool_decide_eq_true, Z.eqb_eq. split; [by intros [= ->]|by intros ->]. }
    by destruct (_ =? _).
  - unfold is_zero. cbn. destruct (Z.eqb_spec (- c) 0), (Z.eqb_spec c 0); done || lia.
Qed.

Lemma row_difference_Ok row difference :
  row_difference row ((λ c, money (- c)) <$> row_cost row) ((λ u, money u) <$> row_ledger row) = Ok difference →
  difference = difference_for row.
Proof.
  unfold row_difference, difference_for. case_bool_decide; [|naive_solver].
  destruct (row_ledger row), (row_cost row); cbn; try naive_solver. intros Hd. inv_ok.
  apply reconcile_subtract_Ok in Ha as ->. cbn. by rewrite Z.sub_opp_r.
Qed.

Definition billable (row : BillingReconciliationInputRow) : bool :=
  match row_cost row with Some cost => negb (cost =? 0) | None => false end.
Definition matched (row : BillingReconciliationInputRow) : bool :=
  has_cost row && bool_decide (classify row = None).
Definition discrepant (row : BillingReconciliationInputRow) : bool := bool_decide (is_Some (classify row)).

(** What one iteration does to the local variables. *)
Record row_effect (limit : nat) (row : BillingReconciliationInputRow) (st st' : ReconcileState) : Prop := {
  re_request : st_request_count st' = count_if (has_cost row) (st_request_count st);
  re_billable : st_billable_request_count st' = count_if (billable row) (st_billable_request_count st);
  re_matched : st_matched_request_count st' = count_if (matched row) (st_matched_request_count st);
  re_missing : st_missing_ledger_count st' = count_if (has_issue MissingLedger row) (st_missing_ledger_count st);
  re_unexpected :
    st_unexpected_ledger_count st' = count_if (has_issue UnexpectedLedger row) (st_unexpected_ledger_count st);
  re_amount : st_amount_mismatch_count st' = count_if (has_issue AmountMismatch row) (st_amount_mismatch_count st);
  re_currency :
    st_currency_mismatch_count st' = count_if (has_issue CurrencyMismatch row) (st_currency_mismatch_count st);
  re_discrepancy : st_discrepancy_count st' = count_if (discrepant row) (st_discrepancy_count st);
  re_discrepancies : st_discrepancies st' =
    st_discrepancies st ++
      (if (length (st_discrepancies st) <? limit)%nat then option_list (discrepancy_for row) else []);
  re_totals : row_totals row ((λ u, money u) <$> row_cost row) ((λ c, money (- c)) <$> row_cost row)
    ((λ u, money u) <$> row_ledger row) (st_currency_totals st) = Ok (st_currency_totals st');
}.

Ltac st_simpl :=
  cbn [st_request_count st_billable_request_count st_ledger_entry_count st_matched_request_count
       st_missing_ledger_count st_unexpected_ledger_count st_amount_mismatch_count st_currency_mismatch_count
       st_currency_totals st_discrepancies st_discrepancy_count].

Lemma issue_test (i issue : ReconciliationIssue) :
  bool_decide (i ∈ [issue]) = bool_decide (Some issue = Some i).
Proof. apply bool_decide_ext. rewrite list_elem_of_singleton. split; [by intros ->|by intros [= ->]]. Qed.

Lemma reconcile_row_skip limit st row st' :
  br_request_final_cost row = None → br_ledger_entry_count row <= 0 →
  reconcile_row (money 0) limit st row = Ok st' → row_effect limit row st st'.
Proof.
  intros Hc Hl. unfold reconcile_row. rewrite Hc, (proj2 (Z.ltb_ge _ _)) by done. cbn. intros [= <-].
  assert (row_cost row = None) as Hcost by (unfold row_cost; by rewrite Hc).
  assert (row_ledger row = None) as Hled by (unfold row_ledger; by rewrite (proj2 (Z.ltb_ge _ _))).
  assert (classify row = None) as Hcl by (unfold classify; by rewrite Hcost, Hled).
  constructor; cbn; unfold matched, has_cost, billable, has_issue, discrepant, discrepancy_for, row_totals;
    rewrite ?Hcost, ?Hcl, ?Hled; cbn; try done.
  - case_match; by rewrite app_nil_r.
  - destruct (br_request_currency row), (br_ledger_currency row); done.
Qed.

Lemma nonzero_cost (cost : option Z) :
  nonzero ((λ c, money (- c)) <$> cost) = match cost with Some c => negb (c =? 0) | None => false end.
Proof.
  destruct cost as [c|]; [|done]. cbn. unfold is_zero. cbn. destruct (Z.eqb_spec (- c) 0), (Z.eqb_spec c 0); done || lia.
Qed.

Lemma reconcile_row_Ok limit st row st' :
  reconcile_row (money 0) limit st row = Ok st' → row_effect limit row st st'.
Proof.
  intros H. destruct (decide (br_request_final_cost row = None ∧ br_ledger_entry_count row <= 0)) as [[Hc Hl]|Hp].
  { by eapply reconcile_row_skip. }
  unfold reconcile_row in H. replace (negb _ && negb _) with false in H.
  2: { symmetry. apply andb_false_iff. rewrite !negb_false_iff, bool_decide_eq_true, Z.ltb_lt.
       destruct (Z.lt_ge_cases 0 (br_ledger_entry_count row)); [by right|left].
       destruct (br_request_final_cost row); [eauto|]. by destruct Hp. }
  apply bind_Ok in H as (cost & [-> Hsome]%parse_money_Ok & H). apply bind_Ok in H as (expected & ->%negated_costs & H).
  apply bind_Ok in H as (ledger & [-> _]%parse_money_Ok & H). fold (row_cost row) in *. cbn zeta in H.
  replace (if 0 <? br_ledger_entry_count row then Some _ else None) with ((λ u, money u) <$> row_ledger row) in H
    by (unfold row_ledger; destruct (0 <? _); [|done]; by destruct (amount_of (br_ledger_amount row))).
  apply bind_Ok in H as (totals & Htot & H). rewrite (bool_decide_ext _ _ Hsome), nonzero_cost, row_issues_classify in H by done.
  assert (has_cost row && match row_cost row with Some c => negb (c =? 0) | None => false end = billable row) as Hbill
    by (unfold has_cost, billable; by destruct (row_cost row)).
  unfold has_cost in Hbill. rewrite Hbill in H.
  destruct (classify row) as [issue|] eqn:Hcl; cbn [option_list] in H.
  - apply bind_Ok in H as (ds & Hds & [= <-]).
    constructor; st_simpl; unfold matched, has_issue, discrepant; rewrite ?Hcl, ?issue_test, ?andb_false_r; try done.
    destruct (length (st_discrepancies st) <? limit)%nat; [|injection Hds as <-; by rewrite app_nil_r].
    apply bind_Ok in Hds as (diff & ->%row_difference_Ok & [= <-]). unfold discrepancy_for. by rewrite Hcl.
  - injection H as <-. constructor; st_simpl; unfold matched, has_issue, discrepant, discrepancy_for; rewrite ?Hcl; try done.
    + decide_refl. by rewrite andb_true_r.
    + destruct (length (st_discrepancies st) <? limit)%nat; cbn; by rewrite app_nil_r.
Qed.

(** ** The totals *)

Abbreviation key_lt := (λ a b : string * CurrencyAccumulator, String.compare a.1 b.1 = Lt).

Lemma string_compare_refl s : String.compare s s = Eq.
Proof. pose proof (String.compare_antisym s s) as H. by destruct (String.compare s s). Qed.

(** Updating an entry of a sorted map changes that entry and no other. *)
Lemma update_entry_spec key f m m' :
  StronglySorted key_lt m → update_entry key f m = Ok m' →
  StronglySorted key_lt m' ∧
  ∃ v v', ((key, v) ∈ m ∨ (key ∉ m.*1) ∧ v = accumulator_default) ∧ f v = Ok v' ∧
    ∀ k a, (k, a) ∈ m' ↔ k = key ∧ a = v' ∨ k ≠ key ∧ (k, a) ∈ m.
Proof.
  intros Hs. revert m'. induction Hs as [|[k v] m Hs IH Hall]; intros m' H; cbn [update_entry] in H.
  { apply bind_Ok in H as (v' & Hv & [= <-]). split; [repeat constructor|].
    exists accumulator_default, v'. split; [right; split; [|done]; apply not_elem_of_nil|]. split; [done|].
    intros k a. rewrite elem_of_cons, elem_of_nil. naive_solver. }
  rewrite Forall_forall in Hall.
  assert (∀ k' a', (k', a') ∈ m → k' ≠ k) as Hne.
  { intros k' a' Hin ->. specialize (Hall _ Hin). cbn in Hall. by rewrite string_compare_refl in Hall. }
  destruct (String.compare key k) eqn:E; apply bind_Ok in H as (x & Hx & [= <-]).
  - apply String.compare_eq_iff in E as <-. split; [by constructor; [|rewrite Forall_forall]|].
    exists v, x. split; [left; apply list_elem_of_here|]. split; [done|].
    intros k' a'. rewrite !elem_of_cons. naive_solver.
  - assert (∀ k' a', (k', a') ∈ m → String.compare key k' = Lt) as Hlt.
    { intros k' a' Hin. eapply string_compare_lt_trans; [done|]. exact (Hall _ Hin). }
    assert (key ≠ k) as Hkk by (intros ->; by rewrite string_compare_refl in E).
    split.
    { constructor; [constructor; [done|by rewrite Forall_forall]|]. constructor; [done|].
      apply Forall_forall. intros [k' a'] Hin. by apply (Hlt k' a'). }
    exists accumulator_default, x. split.
    { right. split; [|done]. cbn. rewrite elem_of_cons. intros [->|([k' a'] & -> & Hin)%list_elem_of_fmap]; [done|].
      specialize (Hlt _ _ Hin). cbn in Hlt. by rewrite string_compare_refl in Hlt. }
    split; [done|]. intros k' a'. rewrite (elem_of_cons (_ :: _)). split; [|naive_solver].
    intros [?|Hin]; [naive_solver|]. destruct (decide (k' = key)) as [->|]; [|auto].
    apply elem_of_cons in Hin as [[= -> ->]|Hin]; [done|]. specialize (Hlt _ _ Hin). by rewrite string_compare_refl in Hlt.
  - destruct (IH _ Hx) as (Hs' & v0 & v' & Hold & Hf & Hin).
    assert (String.compare k key = Lt) as Hlt by (rewrite String.compare_antisym, E; done).
    assert (key ≠ k) as Hkk by (intros ->; by rewrite string_compare_refl in E).
    split.
    { constructor; [done|]. apply Forall_forall. intros [k' a'] [[-> ->]|[_ H]]%Hin; [done|]. by apply (Hall (k', a')). }
    exists v0, v'. split; [|split; [done|]].
    + destruct Hold as [?|[Hn ->]]; [left; by apply list_elem_of_further|right]. split; [|done].
      cbn. rewrite elem_of_cons. naive_solver.
    + intros k' a'. rewrite !elem_of_cons, Hin. naive_solver.
Qed.

Definition accumulated (cost ledger : Z) : CurrencyAccumulator :=
  mkAccumulator (money cost) (money (- cost)) (money ledger).

(** A map holds the sums [fc] and [fl] for the currencies in [S]. *)
Definition represents (m : list (string * CurrencyAccumulator)) (S : string → Prop) (fc fl : string → Z) : Prop :=
  StronglySorted key_lt m ∧ (∀ k a, (k, a) ∈ m ↔ S k ∧ a = accumulated (fc k) (fl k)) ∧
  (∀ k, ¬ S k → fc k = 0 ∧ fl k = 0).

Lemma represents_ext m (S S' : string → Prop) fc fc' fl fl' :
  (∀ k, S k ↔ S' k) → (∀ k, fc k = fc' k) → (∀ k, fl k = fl' k) → represents m S fc fl → represents m S' fc' fl'.
Proof.
  intros HS Hc Hl (Hs & Hm & H0). split; [done|]. split.
  - intros k a. by rewrite Hm, HS, Hc, Hl.
  - intros k. rewrite <- HS, <- Hc, <- Hl. apply H0.
Qed.

Lemma represents_update m (S : string → Prop) fc fl fc' fl' key f m' :
  represents m S fc fl → update_entry key f m = Ok m' →
  (∀ v, f (accumulated (fc key) (fl key)) = Ok v → v = accumulated (fc' key) (fl' key)) →
  (∀ k, k ≠ key → fc' k = fc k ∧ fl' k = fl k) →
  represents m' (λ k, k = key ∨ S k) fc' fl'.
Proof.
  intros (Hs & Hm & H0) Hu Hf Hother. destruct (update_entry_spec _ _ _ _ Hs Hu) as (Hs' & v & v' & Hv & Hfv & Hin).
  assert (v = accumulated (fc key) (fl key)) as ->.
  { destruct Hv as [[_ ->]%Hm|[Hn ->]]; [done|]. assert (¬ S key) as HS.
    { intros HS. apply Hn. apply (list_elem_of_fmap_2 fst m (key, accumulated (fc key) (fl key))). by apply Hm. }
    destruct (H0 key HS) as [-> ->]. done. }
  apply Hf in Hfv as ->. split; [done|]. split.
  - intros k a. rewrite Hin, Hm. destruct (decide (k = key)) as [->|Hk]; [naive_solver|].
    destruct (Hother k Hk) as [-> ->]. naive_solver.
  - intros k Hk. destruct (Hother k) as [-> ->]; [naive_solver|]. apply H0. naive_solver.
Qed.

Lemma add_request_Ok cost ledger c v :
  add_request (money c) (money (- c)) (accumulated cost ledger) = Ok v → v = accumulated (cost + c) ledger.
Proof.
  unfold add_request. intros H. inv_ok. apply fd_checked_add_Ok in Ha as (_ & _ & ->), Ha0 as (_ & _ & ->).
  unfold accumulated. cbn. by rewrite Z.opp_add_distr.
Qed.

Lemma add_ledger_Ok cost ledger amount v :
  add_ledger (money amount) (accumulated cost ledger) = Ok v → v = accumulated cost (ledger + amount).
Proof. unfold add_ledger. intros H. inv_ok. by apply fd_checked_add_Ok in Ha as (_ & _ & ->). Qed.

Lemma exists_snoc {A} (P : A → Prop) l x : (∃ y, y ∈ l ++ [x] ∧ P y) ↔ (∃ y, y ∈ l ∧ P y) ∨ P x.
Proof. setoid_rewrite elem_of_app. setoid_rewrite list_elem_of_singleton. naive_solver. Qed.

(** The totals after one more row. *)
Lemma row_totals_represents rows row m m' :
  let S rows k := ∃ r, r ∈ rows ∧ mentions k r in
  represents m (S rows) (λ k, sum_rows (cost_in k) rows) (λ k, sum_rows (ledger_in k) rows) →
  row_totals row ((λ u, money u) <$> row_cost row) ((λ c, money (- c)) <$> row_cost row)
    ((λ u, money u) <$> row_ledger row) m = Ok m' →
  represents m' (S (rows ++ [row])) (λ k, sum_rows (cost_in k) (rows ++ [row]))
    (λ k, sum_rows (ledger_in k) (rows ++ [row])).
Proof.
  cbn zeta. intros Hm H. unfold row_totals in H. apply bind_Ok in H as (m1 & H1 & H2).
  assert (represents m1 (λ k, (br_request_currency row = Some k ∧ is_Some (row_cost row)) ∨ ∃ r, r ∈ rows ∧ mentions k r)
    (λ k, sum_rows (cost_in k) rows + cost_in k row) (λ k, sum_rows (ledger_in k) rows)) as Hm1.
  { unfold cost_in at 2. destruct (br_request_currency row) as [key|], (row_cost row) as [c|]; cbn in H1.
    2-4: injection H1 as <-; eapply represents_ext, Hm.
    2-10: intros k; cbn; try naive_solver; case_bool_decide; done || lia.
    eapply represents_ext; [| | |apply (represents_update _ _ _ _ (λ k, sum_rows (cost_in k) rows +
      (if bool_decide (Some key = Some k) then c else 0)) (λ k, sum_rows (ledger_in k) rows) _ _ _ Hm H1)]; cbn; try done.
    - intros k. naive_solver.
    - intros v Hv%add_request_Ok. rewrite bool_decide_true by done. done.
    - intros k Hk. rewrite bool_decide_false by congruence. lia. }
  clear Hm H1.
  destruct (br_ledger_currency row) as [key|] eqn:Ek, (row_ledger row) as [l|] eqn:El; cbn in H2.
  1: { eapply represents_ext; [| | |apply (represents_update _ _ _ _ (λ k, sum_rows (cost_in k) rows + cost_in k row)
         (λ k, sum_rows (ledger_in k) rows + ledger_in k row) _ _ _ Hm1 H2)]; cbn.
       - intros k. rewrite exists_snoc. unfold mentions at 3. rewrite Ek, El. naive_solver.
       - intros k. by rewrite sum_rows_snoc.
       - intros k. by rewrite sum_rows_snoc.
       - intros v Hv%add_ledger_Ok. unfold ledger_in at 2. rewrite Ek, El, bool_decide_true by done. done.
       - intros k Hk. unfold ledger_in at 2. rewrite Ek, bool_decide_false by congruence. lia. }
  all: injection H2 as <-; eapply represents_ext, Hm1; cbn;
    [intros k; rewrite exists_snoc; unfold mentions at 3; rewrite Ek, El; naive_solver
    |intros k; by rewrite sum_rows_snoc
    |intros k; rewrite sum_rows_snoc; unfold ledger_in at 3; rewrite Ek, El; case_bool_decide; cbn; done || lia].
Qed.

(** ** The report *)

(** The local variables after the rows [rows]. *)
Record reconcile_inv (limit : nat) (rows : list BillingReconciliationInputRow) (st : ReconcileState) : Prop := {
  ri_request : st_request_count st = count_rows has_cost rows;
  ri_billable : st_billable_request_count st = count_rows billable rows;
  ri_matched : st_matched_request_count st = count_rows matched rows;
  ri_missing : st_missing_ledger_count st = count_rows (has_issue MissingLedger) rows;
  ri_unexpected : st_unexpected_ledger_count st = count_rows (has_issue UnexpectedLedger) rows;
  ri_amount : st_amount_mismatch_count st = count_rows (has_issue AmountMismatch) rows;
  ri_currency : st_currency_mismatch_count st = count_rows (has_issue CurrencyMismatch) rows;
  ri_discrepancy : st_discrepancy_count st = count_rows discrepant rows;
  ri_discrepancies : st_discrepancies st = take limit (omap discrepancy_for rows);
  ri_totals : represents (st_currency_totals st) (λ k, ∃ r, r ∈ rows ∧ mentions k r)
    (λ k, sum_rows (cost_in k) rows) (λ k, sum_rows (ledger_in k) rows);
}.

Lemma take_snoc_limit {A} limit (l : list A) (x : option A) :
  take limit (l ++ option_list x) = take limit l ++ (if (length (take limit l) <? limit)%nat then option_list x else []).
Proof.
  rewrite take_app, length_take. f_equal. destruct (Nat.ltb_spec (Nat.min limit (length l)) limit).
  - destruct x; cbn; [|by rewrite take_nil]. replace (limit - length l)%nat with (S (limit - length l - 1)) by lia.
    cbn. by rewrite take_nil.
  - by replace (limit - length l)%nat with 0%nat by lia.
Qed.

Lemma reconcile_inv_step limit rows row st st' :
  reconcile_inv limit rows st → reconcile_row (money 0) limit st row = Ok st' → reconcile_inv limit (rows ++ [row]) st'.
Proof.
  intros [] []%reconcile_row_Ok. constructor; rewrite ?count_rows_snoc; try congruence.
  - rewrite omap_app. replace (omap discrepancy_for [row]) with (option_list (discrepancy_for row))
      by (cbn; by destruct (discrepancy_for row)).
    rewrite take_snoc_limit, <- ri_discrepancies0. done.
  - by eapply row_totals_represents.
Qed.

(** A row has at most one issue, and a row with a cost is matched or has one of
    three issues. *)
Lemma issues_partition rows :
  count_rows discrepant rows =
    (count_rows (has_issue MissingLedger) rows + count_rows (has_issue UnexpectedLedger) rows +
     count_rows (has_issue AmountMismatch) rows + count_rows (has_issue CurrencyMismatch) rows)%nat ∧
  count_rows has_cost rows =
    (count_rows matched rows + count_rows (has_issue MissingLedger) rows +
     count_rows (has_issue AmountMismatch) rows + count_rows (has_issue CurrencyMismatch) rows)%nat.
Proof.
  induction rows as [|row rows [IH1 IH2]]; [done|].
  assert (has_cost row = negb (bool_decide (classify row = Some UnexpectedLedger)) &&
          (discrepant row || matched row)) as Hcost.
  { unfold discrepant, matched, has_cost, classify. destruct (row_cost row), (row_ledger row); cbn;
      repeat (case_bool_decide || case_match); done || naive_solver. }
  unfold count_rows in *. cbn [List.filter]. rewrite Hcost.
  assert (∀ i j : ReconciliationIssue, i ≠ j → bool_decide (Some i = Some j) = false) as Hij
    by (intros i j ?; apply bool_decide_false; congruence).
  unfold matched, discrepant, has_issue in *. clear Hcost.
  destruct (classify row) as [[]|]; rewrite ?(bool_decide_true (is_Some _)) by eauto; decide_refl;
    rewrite ?(bool_decide_false (None = Some _)), ?Hij, ?(bool_decide_false (is_Some None)) by (done || by intros []);
    rewrite ?andb_false_r, ?andb_true_r; cbn [negb andb orb]; try (cbn [length]; lia).
  destruct (has_cost row); cbn [length]; lia.
Qed.

Lemma into_total_Ok rows k line :
  into_total (redact_reconciliation_text k)
    (accumulated (sum_rows (cost_in k) rows) (sum_rows (ledger_in k) rows)) = Ok line → line = total_line rows k.
Proof.
  unfold into_total. intros H. inv_ok. apply reconcile_subtract_Ok in Ha as ->. cbn.
  unfold total_line. by rewrite Z.sub_opp_r.
Qed.

(** C36: the reconciliation report is exact. The counters are the numbers of rows
    with each verdict, where a row is sound iff the ledger holds the negated cost
    in the same currency (or no entry for a free request); requests are matched,
    missing or mismatched, and nothing else. The listed discrepancies are the
    first ones, up to the limit, each with its verdict and difference. There is
    one total per currency that occurs, in order, and it is the sum of the rows:
    cost, expected and actual ledger amount, and their difference. *)
Theorem reconciliation_report_exact (tenant_id : Uuid) (rows : list BillingReconciliationInputRow) (limit : nat)
    (report : BillingReconciliationReport)
    (Hreport : reconcile_billing_usage_ledger tenant_id rows limit = Ok report) :
  let s := rep_summary report in
  bs_missing_ledger_count s = count_rows (has_issue MissingLedger) rows ∧
  bs_unexpected_ledger_count s = count_rows (has_issue UnexpectedLedger) rows ∧
  bs_amount_mismatch_count s = count_rows (has_issue AmountMismatch) rows ∧
  bs_currency_mismatch_count s = count_rows (has_issue CurrencyMismatch) rows ∧
  bs_request_count s = count_rows has_cost rows ∧ bs_billable_request_count s = count_rows billable rows ∧
  bs_discrepancy_count s = (bs_missing_ledger_count s + bs_unexpected_ledger_count s +
    bs_amount_mismatch_count s + bs_currency_mismatch_count s)%nat ∧
  bs_request_count s = (bs_matched_request_count s + bs_missing_ledger_count s +
    bs_amount_mismatch_count s + bs_currency_mismatch_count s)%nat ∧
  rep_discrepancies report = take limit (omap discrepancy_for rows) ∧
  bs_returned_discrepancy_count s = length (rep_discrepancies report) ∧
  ∃ currencies, Sorted (λ a b, String.compare a b = Lt) currencies ∧
    (∀ k, k ∈ currencies ↔ ∃ row, row ∈ rows ∧ mentions k row) ∧
    bs_currency_totals s = total_line rows <$> currencies.
Proof.
  unfold reconcile_billing_usage_ledger in Hreport. apply bind_Ok in Hreport as (zero & Hz & H).
  apply map_err_Ok, from_units_Ok in Hz as [_ ->]. apply bind_Ok in H as (st & Hst & H).
  apply bind_Ok in H as (totals & Htot & [= <-]).
  assert (reconcile_inv limit rows st) as [].
  { eapply (try_fold_inv _ (reconcile_inv limit)); [|intros; by eapply reconcile_inv_step|done].
    constructor; try done; [cbn; by rewrite take_nil|]. split; [constructor|]. split; [|done].
    intros k a. rewrite elem_of_nil. setoid_rewrite elem_of_nil. naive_solver. }
  destruct (issues_partition rows) as [Hp1 Hp2]. cbn.
  do 6 (split; [done|]). split; [lia|]. split; [lia|]. split; [done|]. split; [done|].
  destruct ri_totals0 as (Hs & Hm & _). exists (st_currency_totals st).*1. split; [|split].
  - apply StronglySorted_Sorted in Hs. clear -Hs. induction Hs as [|[k a] l Hs IH Hd]; cbn; constructor; [done|].
    destruct Hd; cbn; by constructor.
  - intros k. rewrite list_elem_of_fmap. split; [intros ([k' a] & -> & [? _]%Hm); done|].
    intros Hk. eexists (k, _). split; [done|]. by apply Hm.
  - apply try_map_Ok in Htot. rewrite <- list_fmap_compose. clear -Htot Hm.
    assert (∀ k a, (k, a) ∈ st_currency_totals st → a = accumulated (sum_rows (cost_in k) rows) (sum_rows (ledger_in k) rows))
      as Ha by (intros k a [_ ?]%Hm; done). clear Hm.
    induction Htot as [|[k a] line m totals Hl Htot IH]; [done|]. cbn. f_equal.
    + apply into_total_Ok. rewrite <- (Ha k a); [done|apply list_elem_of_here].
    + apply IH. intros k' a' Hin. apply Ha. by apply list_elem_of_further.
Qed.

Definition sample_row (id : Uuid) (cost : option string) (count : Z) (amount ledger_currency : option string)
    : BillingReconciliationInputRow := {|
  br_tenant_id := 1; br_period_start := "2026-01-01"; br_period_end := "2026-02-01";
  br_request_id := Some id; br_project_id := None; br_virtual_key_id := None; br_trace_id := None;
  br_canonical_model_id := None; br_resolved_provider_id := None; br_resolved_channel_id := None;
  br_requested_model := None; br_upstream_model := None; br_request_status := None;
  br_input_tokens := None; br_output_tokens := None;
  br_request_final_cost := cost; br_request_currency := (λ _, "USD") <$> cost; br_ledger_entry_ids := [];
  br_ledger_entry_count := count; br_ledger_amount := amount; br_ledger_currency := ledger_currency;
|}.

(** A matched request, one without ledger entry, and a ledger entry in another
    currency without request. *)
Definition sample_rows : list BillingReconciliationInputRow :=
  [sample_row 10 (Some "0.25") 1 (Some "-0.25") (Some "USD"); sample_row 11 (Some "0.5") 0 None None;
   sample_row 12 None 1 (Some "-2") (Some "EUR")].

Lemma reconciliation_report_exact_witness :
  match reconcile_billing_usage_ledger 1 sample_rows 1 with
  | Err _ => False
  | Ok report =>
      rep_discrepancies report = take 1 (omap discrepancy_for sample_rows) ∧
      bs_discrepancy_count (rep_summary report) = 2%nat ∧
      bs_currency_totals (rep_summary report) = [total_line sample_rows "EUR"; total_line sample_rows "USD"]
  end.
Proof.
  destruct (reconcile_billing_usage_ledger 1 sample_rows 1) as [report|e] eqn:E; [|by vm_compute in E].
  pose proof (reconciliation_report_exact 1 sample_rows 1 report E) as (_ & _ & _ & _ & _ & _ & _ & _ & Hd & _).
  split; [exact Hd|]. vm_compute in E. injection E as <-. split; [reflexivity|]. vm_compute. reflexivity.
Defined.
