(* ===== verification/Ledger.v ===== *)
(** crates/billing-ledger/src/ledger.rs: the planner of ledger operations
    (reserve, settle, full and partial refund, admin adjustment). A plan is
    computed from the request and the entries already in the ledger; it either
    inserts one entry (and reverses the pending reserves of a settled request)
    or recognises the request as a replay. *)

From S2P Require Export Rating Crypto.

#[local] Open Scope string_scope.
#[local] Open Scope list_scope.
#[local] Open Scope Z_scope.

(** ** Identifiers

    A [Uuid] is its 128-bit value. The text form is computed by the [uuid]
    crate, which is not part of the repository: it is an interface. *)

Abbreviation Uuid := Z.

Definition uuid_nil : Uuid := 0.

Class UuidDisplay : Type := uuid_to_string : Uuid → string.

(** [Uuid::parse_str] of the [uuid] crate. *)
Class UuidParse : Type := uuid_parse_str : string → option Uuid.

(** What the crate documents of the hyphenated form: it is made of 36 hexadecimal
    digits and hyphens and determines the 128-bit value. *)
Class UuidDisplayLaws (U : UuidDisplay) : Prop := {
  uuid_to_string_inj a b :
    in_u128 a → in_u128 b → uuid_to_string a = uuid_to_string b → a = b;
  uuid_to_string_chars a :
    in_u128 a →
    Forall (λ c, is_ascii_hexdigit c = true ∨ c = "-"%char) (as_bytes (uuid_to_string a));
  uuid_to_string_length a : str_len (uuid_to_string a) = 36%nat;
}.

(** ** Data *)

Inductive LedgerContractError : Type :=
| LE_NonPositiveAmount (field : string)
| LE_InvalidCurrency (currency : string)
| LE_IdempotencyConflict (key : string)
| LE_RequestAlreadyReserved (request_id : Uuid)
| LE_RequestAlreadySettled (request_id : Uuid)
| LE_ReserveCurrencyMismatch (reserve_currency settle_currency : string)
| LE_RefundSourceNotFound (ledger_entry_id : Uuid)
| LE_RefundSourceNotConfirmedSettleDebit (ledger_entry_id : Uuid)
| LE_RefundCurrencyMismatch (expected actual : string)
| LE_FullRefundAmountNotAllowed
| LE_PartialRefundAmountRequired
| LE_PartialRefundOperationIdRequired
| LE_PartialRefundConsumesRemaining (requested remaining : FixedDecimal)
| LE_AdminAdjustmentZeroAmount
| LE_RefundAmountExceedsRemaining (requested remaining : FixedDecimal)
| LE_ScaleMismatch (expected actual : Z)
| LE_ArithmeticOverflow.

Inductive LedgerEntryType : Type := EntryReserve | EntrySettle | EntryRefund | EntryAdjust.

Inductive LedgerEntryStatus : Type := Pending | Confirmed | Reversed.

Inductive LedgerOperationKind : Type :=
  OpReserve | OpSettle | OpRefund | OpRefundPartial | OpAdminAdjustment.

Inductive LedgerRefundKind : Type := RefundKindFull | RefundKindPartial.

Inductive LedgerAdminAdjustmentKind : Type := AdjustCredit | AdjustDebit.

Inductive LedgerStatusUpdateReason : Type := ReserveSettled.

#[export] Instance LedgerContractError_eq_dec : EqDecision LedgerContractError.
Proof. solve_decision. Defined.
#[export] Instance LedgerEntryType_eq_dec : EqDecision LedgerEntryType.
Proof. solve_decision. Defined.
#[export] Instance LedgerEntryStatus_eq_dec : EqDecision LedgerEntryStatus.
Proof. solve_decision. Defined.
#[export] Instance LedgerOperationKind_eq_dec : EqDecision LedgerOperationKind.
Proof. solve_decision. Defined.

(** The exact-cache metadata a settle entry may carry (exact_cache.rs). *)
Inductive ExactCacheStatus : Type := CacheHit | CacheMiss | CachePartialHit.

Inductive ExactCacheReadPolicy : Type := ReadDisabled | ReadDiscountedInputTokens | ReadFixedCost.

Inductive ExactCacheWritePolicy : Type := WriteDisabled | WriteTokenRate | WriteFixedCost.

#[export] Instance ExactCacheStatus_eq_dec : EqDecision ExactCacheStatus.
Proof. solve_decision. Defined.
#[export] Instance ExactCacheReadPolicy_eq_dec : EqDecision ExactCacheReadPolicy.
Proof. solve_decision. Defined.
#[export] Instance ExactCacheWritePolicy_eq_dec : EqDecision ExactCacheWritePolicy.
Proof. solve_decision. Defined.

Record ExactCacheUsageSummary : Type := mkExactCacheUsageSummary {
  us_input_tokens : Z;
  us_cached_input_tokens : Z;
  us_billable_input_tokens : Z;
  us_output_tokens : Z;
  us_cache_read_tokens : Z;
  us_cache_write_tokens : Z;
}.

Record ExactCacheLedgerMetadata : Type := mkExactCacheLedgerMetadata {
  cm_status : ExactCacheStatus;
  cm_cache_key_hash : string;
  cm_cache_entry_id : option Uuid;
  cm_read_policy : ExactCacheReadPolicy;
  cm_write_policy : ExactCacheWritePolicy;
  cm_usage_summary : ExactCacheUsageSummary;
}.

Record LedgerEntryRecord : Type := mkLedgerEntryRecord {
  er_id : Uuid;
  er_request_id : option Uuid;
  er_related_ledger_entry_id : option Uuid;
  er_entry_type : LedgerEntryType;
  er_amount : FixedDecimal;
  er_currency : string;
  er_status : LedgerEntryStatus;
  er_idempotency_key : string;
}.

Record LedgerEntryMetadata : Type := mkLedgerEntryMetadata {
  md_operation : LedgerOperationKind;
  md_request_id : option Uuid;
  md_related_ledger_entry_id : option Uuid;
  md_refund_kind : option LedgerRefundKind;
  md_admin_adjustment_kind : option LedgerAdminAdjustmentKind;
  md_exact_cache : option ExactCacheLedgerMetadata;
}.

Record LedgerEntryDraft : Type := mkLedgerEntryDraft {
  ed_request_id : option Uuid;
  ed_related_ledger_entry_id : option Uuid;
  ed_entry_type : LedgerEntryType;
  ed_amount : FixedDecimal;
  ed_currency : string;
  ed_status : LedgerEntryStatus;
  ed_idempotency_key : string;
  ed_metadata : LedgerEntryMetadata;
}.

Record LedgerStatusUpdate : Type := mkLedgerStatusUpdate {
  su_ledger_entry_id : Uuid;
  su_from : LedgerEntryStatus;
  su_to : LedgerEntryStatus;
  su_reason : LedgerStatusUpdateReason;
}.

Inductive LedgerOperationOutcome : Type :=
| OutcomeApply
| OutcomeIdempotent (existing_entry_id : Uuid).

Record LedgerOperationPlan : Type := mkLedgerOperationPlan {
  lp_operation : LedgerOperationKind;
  lp_idempotency_key : string;
  lp_outcome : LedgerOperationOutcome;
  lp_entries : list LedgerEntryDraft;
  lp_status_updates : list LedgerStatusUpdate;
}.

Record ReserveLedgerRequest : Type := mkReserveLedgerRequest {
  rv_request_id : Uuid;
  rv_amount : FixedDecimal;
  rv_currency : string;
}.

Record SettleLedgerRequest : Type := mkSettleLedgerRequest {
  st_request_id : Uuid;
  st_final_cost : FixedDecimal;
  st_currency : string;
}.

Inductive RefundLedgerRequest : Type :=
| RefundFull (related_ledger_entry_id : Uuid) (currency : string) (amount : option FixedDecimal)
| RefundPartial (related_ledger_entry_id : Uuid) (refund_operation_id : option Uuid)
    (amount : option FixedDecimal) (currency : string).

Record AdminAdjustmentLedgerRequest : Type := mkAdminAdjustmentLedgerRequest {
  aa_adjustment_operation_id : Uuid;
  aa_request_id : option Uuid;
  aa_related_ledger_entry_id : option Uuid;
  aa_amount : FixedDecimal;
  aa_currency : string;
}.

Record NormalizedRefundRequest : Type := mkNormalizedRefundRequest {
  nr_related_ledger_entry_id : Uuid;
  nr_amount : option FixedDecimal;
  nr_currency : string;
  nr_kind : LedgerRefundKind;
  nr_operation : LedgerOperationKind;
  nr_idempotency_key : string;
}.

(** ** Metadata constructors *)

Definition metadata_reserve (request_id : Uuid) : LedgerEntryMetadata :=
  mkLedgerEntryMetadata OpReserve (Some request_id) None None None None.

Definition metadata_settle (request_id : Uuid) : LedgerEntryMetadata :=
  mkLedgerEntryMetadata OpSettle (Some request_id) None None None None.

Definition metadata_settle_with_exact_cache (request_id : Uuid) (exact_cache : ExactCacheLedgerMetadata)
    : LedgerEntryMetadata :=
  mkLedgerEntryMetadata OpSettle (Some request_id) None None None (Some exact_cache).

Definition metadata_refund (related_ledger_entry_id : Uuid) (refund_kind : LedgerRefundKind)
    : LedgerEntryMetadata :=
  mkLedgerEntryMetadata
    match refund_kind with RefundKindFull => OpRefund | RefundKindPartial => OpRefundPartial end
    None (Some related_ledger_entry_id) (Some refund_kind) None None.

Definition metadata_admin_adjustment (request_id related_ledger_entry_id : option Uuid)
    (adjustment_kind : LedgerAdminAdjustmentKind) : LedgerEntryMetadata :=
  mkLedgerEntryMetadata OpAdminAdjustment request_id related_ledger_entry_id None (Some adjustment_kind) None.

(** ** Checked arithmetic and validation *)

Definition checked_neg (value : FixedDecimal) : result LedgerContractError FixedDecimal :=
  u ← ok_or (checked_i128 (- units value)) LE_ArithmeticOverflow;
  map_err (λ _, LE_ArithmeticOverflow) (from_units u (scale value)).

Definition ensure_same_scale (expected actual : FixedDecimal) : result LedgerContractError () :=
  if scale expected =? scale actual then Ok ()
  else Err (LE_ScaleMismatch (scale expected) (scale actual)).

Definition checked_subtract (left right : FixedDecimal) : result LedgerContractError FixedDecimal :=
  _ ← ensure_same_scale left right;
  negated ← checked_neg right;
  map_err (λ _, LE_ArithmeticOverflow) (fd_checked_add left negated).

Definition require_positive (field : string) (amount : FixedDecimal) : result LedgerContractError () :=
  if 0 <? units amount then Ok () else Err (LE_NonPositiveAmount field).

Definition debit_amount (field : string) (amount : FixedDecimal) : result LedgerContractError FixedDecimal :=
  _ ← require_positive field amount;
  checked_neg amount.

Definition validate_currency (currency : string) : result LedgerContractError () :=
  match as_bytes currency with
  | [] => Err (LE_InvalidCurrency currency)
  | first :: rest =>
      if is_ascii_uppercase first
         && (3 <=? length (as_bytes currency))%nat
         && (length (as_bytes currency) <=? 32)%nat
         && List.forallb (λ c, is_ascii_uppercase c || is_ascii_digit c || bool_decide (c = "_"%char)) rest
      then Ok () else Err (LE_InvalidCurrency currency)
  end.

(** ** Queries on the existing entries *)

(** [matches!(status, Pending | Confirmed)]. *)
Definition is_active (status : LedgerEntryStatus) : bool :=
  match status with Pending | Confirmed => true | Reversed => false end.

Definition find_by_idempotency_key (existing : list LedgerEntryRecord) (key : string)
    : option LedgerEntryRecord :=
  List.find (λ entry, bool_decide (er_idempotency_key entry = key)) existing.

Definition is_active_for (ty : LedgerEntryType) (request_id : Uuid) (entry : LedgerEntryRecord) : bool :=
  bool_decide (er_request_id entry = Some request_id)
  && bool_decide (er_entry_type entry = ty)
  && is_active (er_status entry).

Definition find_active_reserve_for_request (existing : list LedgerEntryRecord) (request_id : Uuid)
    : option LedgerEntryRecord :=
  List.find (is_active_for EntryReserve request_id) existing.

Definition find_active_settle_for_request (existing : list LedgerEntryRecord) (request_id : Uuid)
    : option LedgerEntryRecord :=
  List.find (is_active_for EntrySettle request_id) existing.

Definition is_pending_reserve_for (request_id : Uuid) (entry : LedgerEntryRecord) : bool :=
  bool_decide (er_request_id entry = Some request_id)
  && bool_decide (er_entry_type entry = EntryReserve)
  && bool_decide (er_status entry = Pending).

Definition pending_reserve_updates_for_settle (existing : list LedgerEntryRecord) (request_id : Uuid)
    (settle_currency : string) : result LedgerContractError (list LedgerStatusUpdate) :=
  try_map
    (λ entry,
      fail_if negb (bool_decide (er_currency entry = settle_currency))
      with LE_ReserveCurrencyMismatch (er_currency entry) settle_currency ;;
      Ok {| su_ledger_entry_id := er_id entry; su_from := Pending; su_to := Reversed;
            su_reason := ReserveSettled |})
    (List.filter (is_pending_reserve_for request_id) existing).

Definition find_refund_source (existing : list LedgerEntryRecord) (related_ledger_entry_id : Uuid)
    : result LedgerContractError LedgerEntryRecord :=
  source ← ok_or (List.find (λ entry, er_id entry =? related_ledger_entry_id) existing)
             (LE_RefundSourceNotFound related_ledger_entry_id);
  fail_if negb (bool_decide (er_entry_type source = EntrySettle))
       || negb (bool_decide (er_status source = Confirmed))
       || (0 <=? units (er_amount source))
  with LE_RefundSourceNotConfirmedSettleDebit related_ledger_entry_id ;;
  Ok source.

(** The active refunds of [source_id], without the entry [excluded]. *)
Definition is_counted_refund (source_id excluded : Uuid) (entry : LedgerEntryRecord) : bool :=
  bool_decide (er_related_ledger_entry_id entry = Some source_id)
  && negb (er_id entry =? excluded)
  && bool_decide (er_entry_type entry = EntryRefund)
  && is_active (er_status entry).

Definition add_refund (total : FixedDecimal) (entry : LedgerEntryRecord) : result LedgerContractError FixedDecimal :=
  _ ← require_positive "refund.amount" (er_amount entry);
  map_err (λ _, LE_ArithmeticOverflow) (fd_checked_add total (er_amount entry)).

Definition remaining_refundable_amount_excluding (source : LedgerEntryRecord)
    (existing : list LedgerEntryRecord) (excluded_entry_id : Uuid) : result LedgerContractError FixedDecimal :=
  zero ← map_err (λ _, LE_ArithmeticOverflow) (fd_zero (scale (er_amount source)));
  debited ← checked_neg (er_amount source);
  refunded ← try_fold add_refund zero
               (List.filter (is_counted_refund (er_id source) excluded_entry_id) existing);
  checked_subtract debited refunded.

Definition remaining_refundable_amount (source : LedgerEntryRecord) (existing : list LedgerEntryRecord)
    : result LedgerContractError FixedDecimal :=
  remaining_refundable_amount_excluding source existing uuid_nil.

(** ** Replay checks *)

Definition ensure_existing_matches_draft (existing : LedgerEntryRecord) (draft : LedgerEntryDraft)
    : result LedgerContractError () :=
  let status_matches :=
    bool_decide (er_status existing = ed_status draft)
    || (bool_decide (ed_entry_type draft = EntryReserve)
        && bool_decide (ed_status draft = Pending)
        && bool_decide (er_status existing = Reversed)) in
  if bool_decide (er_request_id existing = ed_request_id draft)
     && bool_decide (er_related_ledger_entry_id existing = ed_related_ledger_entry_id draft)
     && bool_decide (er_entry_type existing = ed_entry_type draft)
     && bool_decide (er_amount existing = ed_amount draft)
     && bool_decide (er_currency existing = ed_currency draft)
     && status_matches
  then Ok () else Err (LE_IdempotencyConflict (ed_idempotency_key draft)).

Definition ensure_existing_matches_refund (existing : LedgerEntryRecord) (refund : NormalizedRefundRequest)
    (remaining_excluding_existing : FixedDecimal) : result LedgerContractError () :=
  let idempotent :=
    bool_decide (er_related_ledger_entry_id existing = Some (nr_related_ledger_entry_id refund))
    && bool_decide (er_entry_type existing = EntryRefund)
    && bool_decide (er_status existing = Confirmed)
    && bool_decide (er_currency existing = nr_currency refund)
    && (0 <? units (er_amount existing)) in
  fail_if negb idempotent with LE_IdempotencyConflict (nr_idempotency_key refund) ;;
  let expected_amount := default remaining_excluding_existing (nr_amount refund) in
  fail_if negb (bool_decide (er_amount existing = expected_amount))
  with LE_IdempotencyConflict (nr_idempotency_key refund) ;;
  Ok ().

(** ** Plans *)

Definition apply_plan (operation : LedgerOperationKind) (idempotency_key : string) (draft : LedgerEntryDraft)
    : LedgerOperationPlan :=
  {| lp_operation := operation; lp_idempotency_key := idempotency_key; lp_outcome := OutcomeApply;
     lp_entries := [draft]; lp_status_updates := [] |}.

Definition idempotent_plan (operation : LedgerOperationKind) (idempotency_key : string) (existing_entry_id : Uuid)
    : LedgerOperationPlan :=
  {| lp_operation := operation; lp_idempotency_key := idempotency_key;
     lp_outcome := OutcomeIdempotent existing_entry_id; lp_entries := []; lp_status_updates := [] |}.

Section plans.
Context {U : UuidDisplay}.

Definition reserve_ledger_idempotency_key (request_id : Uuid) : string :=
  "reserve:" +:+ uuid_to_string request_id.

Definition settle_ledger_idempotency_key (request_id : Uuid) : string :=
  "settle:" +:+ uuid_to_string request_id.

Definition refund_ledger_idempotency_key (related_ledger_entry_id : Uuid) : string :=
  "refund:" +:+ uuid_to_string related_ledger_entry_id.

Definition refund_partial_ledger_idempotency_key (related_ledger_entry_id refund_operation_id : Uuid) : string :=
  "refund_partial:" +:+ uuid_to_string related_ledger_entry_id +:+ ":" +:+ uuid_to_string refund_operation_id.

Definition admin_adjustment_ledger_idempotency_key (adjustment_operation_id : Uuid) : string :=
  "admin_adjustment:" +:+ uuid_to_string adjustment_operation_id.

Definition plan_ledger_reserve (request : ReserveLedgerRequest) (existing_entries : list LedgerEntryRecord)
    : result LedgerContractError LedgerOperationPlan :=
  _ ← validate_currency (rv_currency request);
  amount ← debit_amount "amount" (rv_amount request);
  let idempotency_key := reserve_ledger_idempotency_key (rv_request_id request) in
  let draft := {|
    ed_request_id := Some (rv_request_id request);
    ed_related_ledger_entry_id := None;
    ed_entry_type := EntryReserve;
    ed_amount := amount;
    ed_currency := rv_currency request;
    ed_status := Pending;
    ed_idempotency_key := idempotency_key;
    ed_metadata := metadata_reserve (rv_request_id request);
  |} in
  match find_by_idempotency_key existing_entries idempotency_key with
  | Some existing =>
      _ ← ensure_existing_matches_draft existing draft;
      Ok (idempotent_plan OpReserve idempotency_key (er_id existing))
  | None =>
      fail_if bool_decide (is_Some (find_active_settle_for_request existing_entries (rv_request_id request)))
      with LE_RequestAlreadySettled (rv_request_id request) ;;
      fail_if bool_decide (is_Some (find_active_reserve_for_request existing_entries (rv_request_id request)))
      with LE_RequestAlreadyReserved (rv_request_id request) ;;
      Ok (apply_plan OpReserve idempotency_key draft)
  end.

Definition plan_ledger_settle_with_metadata (request : SettleLedgerRequest)
    (existing_entries : list LedgerEntryRecord) (metadata : LedgerEntryMetadata)
    : result LedgerContractError LedgerOperationPlan :=
  _ ← validate_currency (st_currency request);
  amount ← debit_amount "final_cost" (st_final_cost request);
  let idempotency_key := settle_ledger_idempotency_key (st_request_id request) in
  let draft := {|
    ed_request_id := Some (st_request_id request);
    ed_related_ledger_entry_id := None;
    ed_entry_type := EntrySettle;
    ed_amount := amount;
    ed_currency := st_currency request;
    ed_status := Confirmed;
    ed_idempotency_key := idempotency_key;
    ed_metadata := metadata;
  |} in
  match find_by_idempotency_key existing_entries idempotency_key with
  | Some existing =>
      _ ← ensure_existing_matches_draft existing draft;
      Ok (idempotent_plan OpSettle idempotency_key (er_id existing))
  | None =>
      fail_if bool_decide (is_Some (find_active_settle_for_request existing_entries (st_request_id request)))
      with LE_RequestAlreadySettled (st_request_id request) ;;
      status_updates ←
        pending_reserve_updates_for_settle existing_entries (st_request_id request) (ed_currency draft);
      Ok {|
        lp_operation := OpSettle;
        lp_idempotency_key := idempotency_key;
        lp_outcome := OutcomeApply;
        lp_entries := [draft];
        lp_status_updates := status_updates;
      |}
  end.

Definition plan_ledger_settle (request : SettleLedgerRequest) (existing_entries : list LedgerEntryRecord)
    : result LedgerContractError LedgerOperationPlan :=
  plan_ledger_settle_with_metadata request existing_entries (metadata_settle (st_request_id request)).

Definition normalize_refund_request (request : RefundLedgerRequest)
    : result LedgerContractError NormalizedRefundRequest :=
  match request with
  | RefundFull related_ledger_entry_id currency amount =>
      fail_if bool_decide (is_Some amount) with LE_FullRefundAmountNotAllowed ;;
      Ok {|
        nr_related_ledger_entry_id := related_ledger_entry_id;
        nr_amount := amount;
        nr_currency := currency;
        nr_kind := RefundKindFull;
        nr_operation := OpRefund;
        nr_idempotency_key := refund_ledger_idempotency_key related_ledger_entry_id;
      |}
  | RefundPartial related_ledger_entry_id refund_operation_id amount currency =>
      refund_operation_id ← ok_or refund_operation_id LE_PartialRefundOperationIdRequired;
      Ok {|
        nr_related_ledger_entry_id := related_ledger_entry_id;
        nr_amount := amount;
        nr_currency := currency;
        nr_kind := RefundKindPartial;
        nr_operation := OpRefundPartial;
        nr_idempotency_key :=
          refund_partial_ledger_idempotency_key related_ledger_entry_id refund_operation_id;
      |}
  end.

Definition plan_ledger_refund (request : RefundLedgerRequest) (existing_entries : list LedgerEntryRecord)
    : result LedgerContractError LedgerOperationPlan :=
  refund ← normalize_refund_request request;
  _ ← validate_currency (nr_currency refund);
  source ← find_refund_source existing_entries (nr_related_ledger_entry_id refund);
  fail_if negb (bool_decide (er_currency source = nr_currency refund))
  with LE_RefundCurrencyMismatch (er_currency source) (nr_currency refund) ;;
  match find_by_idempotency_key existing_entries (nr_idempotency_key refund) with
  | Some existing =>
      remaining_excluding_existing ←
        remaining_refundable_amount_excluding source existing_entries (er_id existing);
      _ ← ensure_existing_matches_refund existing refund remaining_excluding_existing;
      Ok (idempotent_plan (nr_operation refund) (nr_idempotency_key refund) (er_id existing))
  | None =>
      remaining ← remaining_refundable_amount source existing_entries;
      amount ←
        match nr_kind refund with
        | RefundKindFull => Ok remaining
        | RefundKindPartial =>
            requested ← ok_or (nr_amount refund) LE_PartialRefundAmountRequired;
            _ ← require_positive "amount" requested;
            _ ← ensure_same_scale remaining requested;
            fail_if fd_geb requested remaining
            with LE_PartialRefundConsumesRemaining requested remaining ;;
            Ok requested
        end;
      _ ← require_positive "remaining_refundable_amount" amount;
      fail_if fd_gtb amount remaining with LE_RefundAmountExceedsRemaining amount remaining ;;
      let draft := {|
        ed_request_id := er_request_id source;
        ed_related_ledger_entry_id := Some (er_id source);
        ed_entry_type := EntryRefund;
        ed_amount := amount;
        ed_currency := er_currency source;
        ed_status := Confirmed;
        ed_idempotency_key := nr_idempotency_key refund;
        ed_metadata := metadata_refund (er_id source) (nr_kind refund);
      |} in
      Ok (apply_plan (nr_operation refund) (nr_idempotency_key refund) draft)
  end.

Definition plan_ledger_admin_adjustment (request : AdminAdjustmentLedgerRequest)
    (existing_entries : list LedgerEntryRecord) : result LedgerContractError LedgerOperationPlan :=
  _ ← validate_currency (aa_currency request);
  fail_if is_zero (aa_amount request) with LE_AdminAdjustmentZeroAmount ;;
  let idempotency_key := admin_adjustment_ledger_idempotency_key (aa_adjustment_operation_id request) in
  let adjustment_kind := if 0 <? units (aa_amount request) then AdjustCredit else AdjustDebit in
  let draft := {|
    ed_request_id := aa_request_id request;
    ed_related_ledger_entry_id := aa_related_ledger_entry_id request;
    ed_entry_type := EntryAdjust;
    ed_amount := aa_amount request;
    ed_currency := aa_currency request;
    ed_status := Confirmed;
    ed_idempotency_key := idempotency_key;
    ed_metadata :=
      metadata_admin_adjustment (aa_request_id request) (aa_related_ledger_entry_id request) adjustment_kind;
  |} in
  match find_by_idempotency_key existing_entries idempotency_key with
  | Some existing =>
      _ ← ensure_existing_matches_draft existing draft;
      Ok (idempotent_plan OpAdminAdjustment idempotency_key (er_id existing))
  | None => Ok (apply_plan OpAdminAdjustment idempotency_key draft)
  end.
End plans.

(** ** Sums over entries *)

(** The sum of the amounts (in units) of the entries that satisfy [p]. *)
Definition sum_units (p : LedgerEntryRecord → bool) (entries : list LedgerEntryRecord) : Z :=
  foldr (λ entry total, units (er_amount entry) + total) 0 (List.filter p entries).

#[global] Arguments sum_units : simpl never.

(** The active refunds of a source, whatever their id. *)
Definition is_refund_of (source_id : Uuid) (entry : LedgerEntryRecord) : bool :=
  bool_decide (er_related_ledger_entry_id entry = Some source_id)
  && bool_decide (er_entry_type entry = EntryRefund)
  && is_active (er_status entry).

Definition refunds_of (source_id : Uuid) (entries : list LedgerEntryRecord) : Z :=
  sum_units (is_refund_of source_id) entries.

Lemma sum_units_nil p : sum_units p [] = 0.
Proof. done. Qed.

Lemma sum_units_cons p e es :
  sum_units p (e :: es) = (if p e then units (er_amount e) else 0) + sum_units p es.
Proof. unfold sum_units. cbn. destruct (p e); cbn; lia. Qed.

Lemma sum_units_app p es1 es2 : sum_units p (es1 ++ es2) = sum_units p es1 + sum_units p es2.
Proof. induction es1 as [|e es IH]; cbn [app]; rewrite ?sum_units_cons, ?sum_units_nil; lia. Qed.

Lemma sum_units_ext p q es : (∀ e, e ∈ es → p e = q e) → sum_units p es = sum_units q es.
Proof. intros H. unfold sum_units. by rewrite (filter_ext_elem p q). Qed.

Lemma sum_units_nonneg p es :
  (∀ e, e ∈ es → p e = true → 0 <= units (er_amount e)) → 0 <= sum_units p es.
Proof.
  induction es as [|e es IH]; intros H; [done|]. rewrite sum_units_cons.
  assert (0 <= sum_units p es) by (apply IH; intros; apply H; [by right|done]).
  pose proof (H e (list_elem_of_here _ _)). destruct (p e); naive_solver lia.
Qed.

(** A sum of non-negative amounts bounds each of its terms. *)
Lemma sum_units_elem p es e :
  (∀ e, e ∈ es → p e = true → 0 <= units (er_amount e)) →
  e ∈ es → p e = true → units (er_amount e) <= sum_units p es.
Proof.
  induction es as [|e' es IH]; intros H He Hp; [by apply elem_of_nil in He|].
  rewrite sum_units_cons.
  assert (0 <= sum_units p es) by (apply sum_units_nonneg; intros; apply H; [by right|done]).
  apply elem_of_cons in He as [->|He]; [rewrite Hp; lia|].
  pose proof (H e' (list_elem_of_here _ _)).
  assert (units (er_amount e) <= sum_units p es) by (apply IH; [|done..]; intros; apply H; [by right|done]).
  destruct (p e'); naive_solver lia.
Qed.

(** ** Arithmetic of the ledger *)

Lemma ledger_neg_Ok a b :
  checked_neg a = Ok b ↔
  in_i128 (- units a) ∧ scale a <= MAX_MONEY_SCALE ∧ b = mkFixedDecimal (- units a) (scale a).
Proof.
  unfold checked_neg. split.
  - intros H. inv_ok. by apply from_units_Ok in H as [? ->].
  - intros (? & ? & ->). unfold checked_i128. rewrite checked_in by done. cbn.
    by rewrite from_units_ok.
Qed.

Lemma require_positive_Ok field a u : require_positive field a = Ok u ↔ 0 < units a.
Proof. unfold require_positive. destruct u, (Z.ltb_spec 0 (units a)); naive_solver lia. Qed.

Lemma debit_amount_Ok field a b :
  debit_amount field a = Ok b ↔
  0 < units a ∧ in_i128 (- units a) ∧ scale a <= MAX_MONEY_SCALE ∧ b = mkFixedDecimal (- units a) (scale a).
Proof.
  unfold debit_amount. rewrite bind_Ok. setoid_rewrite require_positive_Ok.
  setoid_rewrite ledger_neg_Ok. split; [naive_solver|]. intros. exists (). naive_solver.
Qed.

Lemma ensure_same_scale_Ok a b u : ensure_same_scale a b = Ok u ↔ scale a = scale b.
Proof. unfold ensure_same_scale. destruct u, (Z.eqb_spec (scale a) (scale b)); naive_solver. Qed.

Lemma ledger_subtract_Ok a b c :
  checked_subtract a b = Ok c ↔
  scale a = scale b ∧ scale a <= MAX_MONEY_SCALE ∧ in_i128 (- units b) ∧ in_i128 (units a - units b) ∧
  c = mkFixedDecimal (units a - units b) (scale a).
Proof.
  unfold checked_subtract. split.
  - intros H. inv_ok. apply ensure_same_scale_Ok in Ha0.
    apply ledger_neg_Ok in Ha1 as (? & ? & ->).
    apply fd_checked_add_Ok in H as (? & Hr & ->). cbn in *.
    rewrite Z.add_opp_r in *. repeat split; done || lia.
  - intros (Hs & Hm & Hb & Hr & ->).
    rewrite (proj2 (ensure_same_scale_Ok a b ()) Hs). cbn.
    assert (scale b <= MAX_MONEY_SCALE) as Hm' by lia.
    rewrite (proj2 (ledger_neg_Ok b _) (conj Hb (conj Hm' eq_refl))). cbn.
    rewrite (proj2 (fd_checked_add_Ok _ _ (mkFixedDecimal (units a - units b) (scale a)))); [done|].
    cbn. rewrite Z.add_opp_r. done.
Qed.

Lemma add_refund_Ok total e r :
  add_refund total e = Ok r ↔
  0 < units (er_amount e) ∧ scale total = scale (er_amount e) ∧
  in_i128 (units total + units (er_amount e)) ∧
  r = mkFixedDecimal (units total + units (er_amount e)) (scale total).
Proof.
  unfold add_refund. rewrite bind_Ok. setoid_rewrite require_positive_Ok.
  setoid_rewrite map_err_Ok. setoid_rewrite fd_checked_add_Ok.
  split; [naive_solver|]. intros. exists (). naive_solver.
Qed.

Lemma add_refund_fold es total r :
  try_fold add_refund total es = Ok r →
  Forall (λ e, 0 < units (er_amount e) ∧ scale (er_amount e) = scale total) es ∧
  r = mkFixedDecimal (units total + sum_units (λ _, true) es) (scale total).
Proof.
  revert total. induction es as [|e es IH]; intros total H; cbn in H.
  - inv_ok. rewrite sum_units_nil, Z.add_0_r. split; [constructor|]. by destruct r.
  - inv_ok. apply add_refund_Ok in Ha as (? & Hs & ? & ->). apply IH in H as [HF ->]. cbn in *.
    rewrite sum_units_cons. split; [constructor; [done|exact HF]|]. f_equal. lia.
Qed.

Lemma add_refund_fold_ok es total :
  Forall (λ e, 0 < units (er_amount e) ∧ scale (er_amount e) = scale total) es →
  0 <= units total → units total + sum_units (λ _, true) es <= i128_max →
  try_fold add_refund total es =
    Ok (mkFixedDecimal (units total + sum_units (λ _, true) es) (scale total)).
Proof.
  revert total. induction es as [|e es IH]; intros total HF Ht Hb; cbn.
  - rewrite sum_units_nil, Z.add_0_r. by destruct total.
  - apply Forall_cons in HF as [[Hp Hs] HF]. rewrite sum_units_cons in Hb.
    assert (0 <= sum_units (λ _, true) es).
    { apply sum_units_nonneg. intros x Hx _. rewrite Forall_forall in HF. apply HF in Hx. lia. }
    assert (in_i128 (units total + units (er_amount e))) as Hr by width_lia.
    rewrite (proj2 (add_refund_Ok _ _ _) (conj Hp (conj (eq_sym Hs) (conj Hr eq_refl)))). cbn.
    rewrite IH; cbn; [|done|lia|lia]. rewrite sum_units_cons. do 2 f_equal. lia.
Qed.

(** The refunds of [source] that [remaining_refundable_amount_excluding] counts. *)
Definition counted_refunds (source_id excluded : Uuid) (entries : list LedgerEntryRecord) : Z :=
  sum_units (is_counted_refund source_id excluded) entries.

Lemma sum_units_filter p es : sum_units (λ _, true) (List.filter p es) = sum_units p es.
Proof.
  unfold sum_units. f_equal. induction es as [|e es IH]; cbn; [done|].
  destruct (p e); cbn; by rewrite ?IH.
Qed.

Lemma remaining_excluding_Ok source es excluded r :
  remaining_refundable_amount_excluding source es excluded = Ok r →
  (∀ e, e ∈ es → is_counted_refund (er_id source) excluded e = true →
    0 < units (er_amount e) ∧ scale (er_amount e) = scale (er_amount source)) ∧
  scale (er_amount source) <= MAX_MONEY_SCALE ∧
  r = mkFixedDecimal (- units (er_amount source) - counted_refunds (er_id source) excluded es)
        (scale (er_amount source)).
Proof.
  unfold remaining_refundable_amount_excluding, fd_zero. intros H. inv_ok.
  apply from_units_Ok in Ha as [? ->]. apply ledger_neg_Ok in Ha0 as (? & ? & ->).
  apply add_refund_fold in Ha1 as [HF ->]. apply ledger_subtract_Ok in H as (_ & _ & _ & _ & ->).
  cbn in *. rewrite sum_units_filter. split_and!; [|done|done].
  intros e He Hc. rewrite Forall_forall in HF. apply HF. rewrite elem_of_filter_b. done.
Qed.

Lemma remaining_excluding_ok source es excluded :
  (∀ e, e ∈ es → is_counted_refund (er_id source) excluded e = true →
    0 < units (er_amount e) ∧ scale (er_amount e) = scale (er_amount source)) →
  scale (er_amount source) <= MAX_MONEY_SCALE →
  0 <= counted_refunds (er_id source) excluded es <= - units (er_amount source) →
  - units (er_amount source) <= i128_max →
  remaining_refundable_amount_excluding source es excluded =
    Ok (mkFixedDecimal (- units (er_amount source) - counted_refunds (er_id source) excluded es)
          (scale (er_amount source))).
Proof.
  intros HF Hs Hc Hmax. unfold counted_refunds in *.
  unfold remaining_refundable_amount_excluding, fd_zero. rewrite from_units_ok by done. cbn.
  assert (in_i128 (- units (er_amount source))) as Hn by width_lia.
  rewrite (proj2 (ledger_neg_Ok _ _) (conj Hn (conj Hs eq_refl))). cbn.
  rewrite add_refund_fold_ok; cbn; [| |lia|rewrite sum_units_filter; lia].
  - apply ledger_subtract_Ok. cbn. rewrite sum_units_filter. split_and!; try done; width_lia.
  - apply Forall_forall. intros e [He1 He2]%elem_of_filter_b. by apply HF.
Qed.

(** [inv_ok], with the inversions of the ledger's checks. *)
Ltac ledger_ok :=
  repeat (step_ok || match goal with
  | H : require_positive _ _ = Ok _ |- _ => apply require_positive_Ok in H
  | H : ensure_same_scale _ _ = Ok _ |- _ => apply ensure_same_scale_Ok in H
  | H : debit_amount _ _ = Ok _ |- _ => apply debit_amount_Ok in H as (? & ? & ? & ->)
  | H : remaining_refundable_amount_excluding _ _ _ = Ok _ |- _ =>
      apply remaining_excluding_Ok in H as (? & ? & ->)
  | H : remaining_refundable_amount _ _ = Ok _ |- _ =>
      apply remaining_excluding_Ok in H as (? & ? & ->)
  end).

(** ** What a plan contains *)

(** The entry a refund request names. *)
Definition refund_source_id (request : RefundLedgerRequest) : Uuid :=
  match request with RefundFull id _ _ | RefundPartial id _ _ _ => id end.

Lemma find_refund_source_Ok existing id source :
  find_refund_source existing id = Ok source ↔
  List.find (λ entry, er_id entry =? id) existing = Some source ∧
  er_entry_type source = EntrySettle ∧ er_status source = Confirmed ∧ units (er_amount source) < 0.
Proof.
  unfold find_refund_source. split.
  - intros H. inv_ok. bool_to_prop. done.
  - intros (-> & Ht & Hs & Hu). cbn. rewrite !bool_decide_true by done. cbn.
    by rewrite (proj2 (Z.leb_gt _ _) Hu).
Qed.

Lemma find_refund_source_elem existing id source :
  find_refund_source existing id = Ok source → source ∈ existing ∧ er_id source = id.
Proof. intros [[? ?]%find_Some_elem _]%find_refund_source_Ok. bool_to_prop. done. Qed.

Section plan_specs.
Context {U : UuidDisplay}.

Lemma normalize_refund_request_Ok request refund :
  normalize_refund_request request = Ok refund →
  nr_related_ledger_entry_id refund = refund_source_id request ∧
  match request with
  | RefundFull _ _ _ => nr_kind refund = RefundKindFull ∧ nr_amount refund = None
  | RefundPartial _ _ amount _ => nr_kind refund = RefundKindPartial ∧ nr_amount refund = amount
  end.
Proof.
  destruct request; cbn; intros H; inv_ok; cbn; [|done].
  bool_to_prop. destruct amount as [a|]; [|done]. destruct H0; eauto.
Qed.

(** What a fresh refund plan inserts, in terms of the refunds it counted. *)
Record refund_draft_spec (request : RefundLedgerRequest) (existing : list LedgerEntryRecord)
    (refund : NormalizedRefundRequest) (source : LedgerEntryRecord) (draft : LedgerEntryDraft) : Prop := {
  rds_source : find_refund_source existing (refund_source_id request) = Ok source;
  rds_fresh : find_by_idempotency_key existing (nr_idempotency_key refund) = None;
  rds_currency : er_currency source = nr_currency refund;
  rds_scales e : e ∈ existing → is_counted_refund (er_id source) uuid_nil e = true →
    0 < units (er_amount e) ∧ scale (er_amount e) = scale (er_amount source);
  rds_scale : scale (ed_amount draft) = scale (er_amount source);
  rds_max_scale : scale (er_amount source) <= MAX_MONEY_SCALE;
  rds_positive : 0 < units (ed_amount draft);
  rds_bound : counted_refunds (er_id source) uuid_nil existing + units (ed_amount draft)
    <= - units (er_amount source);
  rds_full : counted_refunds (er_id source) uuid_nil existing + units (ed_amount draft)
    = - units (er_amount source) ↔ nr_kind refund = RefundKindFull;
  rds_partial : nr_kind refund = RefundKindPartial → nr_amount refund = Some (ed_amount draft);
  rds_draft : draft = {|
    ed_request_id := er_request_id source;
    ed_related_ledger_entry_id := Some (er_id source);
    ed_entry_type := EntryRefund;
    ed_amount := ed_amount draft;
    ed_currency := er_currency source;
    ed_status := Confirmed;
    ed_idempotency_key := nr_idempotency_key refund;
    ed_metadata := metadata_refund (er_id source) (nr_kind refund);
  |};
}.

Lemma refund_draft_fields request existing refund source draft :
  refund_draft_spec request existing refund source draft →
  ed_request_id draft = er_request_id source ∧ ed_related_ledger_entry_id draft = Some (er_id source) ∧
  ed_entry_type draft = EntryRefund ∧ ed_currency draft = er_currency source ∧
  ed_status draft = Confirmed ∧ ed_idempotency_key draft = nr_idempotency_key refund.
Proof. intros Hs. pose proof (rds_draft _ _ _ _ _ Hs) as Hd. destruct draft. by injection Hd as -> -> -> -> -> -> ->. Qed.

Lemma plan_ledger_refund_apply request existing plan :
  plan_ledger_refund request existing = Ok plan → lp_outcome plan = OutcomeApply →
  ∃ refund source draft,
    normalize_refund_request request = Ok refund ∧
    plan = apply_plan (nr_operation refund) (nr_idempotency_key refund) draft ∧
    refund_draft_spec request existing refund source draft.
Proof.
  unfold plan_ledger_refund. intros H Hout. inv_ok. bool_to_prop.
  destruct (normalize_refund_request_Ok _ _ Ha) as [Hid Hkind].
  rename a into refund, a1 into source. rewrite Hid in *.
  destruct (find_by_idempotency_key _ _) eqn:Hfresh; [inv_ok; done|].
  apply bind_Ok in H as (remaining & Hrem & H). apply bind_Ok in H as (amount & Hamount & H).
  ledger_ok. set (counted := counted_refunds (er_id source) uuid_nil existing) in *.
  assert (scale amount = scale (er_amount source) ∧
    (counted + units amount = - units (er_amount source) ↔ nr_kind refund = RefundKindFull) ∧
    (nr_kind refund = RefundKindPartial → nr_amount refund = Some amount) ∧
    counted + units amount <= - units (er_amount source)) as (Hs & Hfull & Hpart & Hle).
  { clear Hkind. destruct (nr_kind refund); ledger_ok; cbn in *.
    - split_and!; [done|split; [done|lia]|done|lia].
    - rewrite fd_geb_same_scale in * by done. bool_to_prop. cbn in *.
      split_and!; [done|split; [lia|done]|done|lia]. }
  eexists refund, source, _. split_and!; [done|reflexivity|].
  constructor; cbn; done.
Qed.

Definition release_update (entry : LedgerEntryRecord) : LedgerStatusUpdate := {|
  su_ledger_entry_id := er_id entry; su_from := Pending; su_to := Reversed; su_reason := ReserveSettled;
|}.

Lemma pending_reserve_updates_Ok existing request_id currency updates :
  pending_reserve_updates_for_settle existing request_id currency = Ok updates →
  (∀ e, e ∈ existing → is_pending_reserve_for request_id e = true → er_currency e = currency) ∧
  updates = release_update <$> List.filter (is_pending_reserve_for request_id) existing.
Proof.
  unfold pending_reserve_updates_for_settle. intros HF%try_map_Ok.
  assert (Forall2 (λ e u, er_currency e = currency ∧ u = release_update e)
            (List.filter (is_pending_reserve_for request_id) existing) updates) as HF'.
  { eapply Forall2_impl; [exact HF|]. intros e u He. cbn beta in He. inv_ok. bool_to_prop. done. }
  clear HF. split.
  - intros e He Hp. destruct (list_elem_of_lookup_1 _ e (proj2 (elem_of_filter_b _ _ _) (conj Hp He))) as [i Hi].
    destruct (Forall2_lookup_l _ _ _ _ _ HF' Hi) as (u & _ & ? & _). done.
  - induction HF' as [|e u es us [_ ->] _ IH]; cbn; [done|]. by rewrite IH.
Qed.

(** The entry that a reserve, a settle or an adjustment inserts. *)
Definition reserve_draft (request : ReserveLedgerRequest) : LedgerEntryDraft := {|
  ed_request_id := Some (rv_request_id request);
  ed_related_ledger_entry_id := None;
  ed_entry_type := EntryReserve;
  ed_amount := mkFixedDecimal (- units (rv_amount request)) (scale (rv_amount request));
  ed_currency := rv_currency request;
  ed_status := Pending;
  ed_idempotency_key := reserve_ledger_idempotency_key (rv_request_id request);
  ed_metadata := metadata_reserve (rv_request_id request);
|}.

Definition settle_draft (request : SettleLedgerRequest) (metadata : LedgerEntryMetadata) : LedgerEntryDraft := {|
  ed_request_id := Some (st_request_id request);
  ed_related_ledger_entry_id := None;
  ed_entry_type := EntrySettle;
  ed_amount := mkFixedDecimal (- units (st_final_cost request)) (scale (st_final_cost request));
  ed_currency := st_currency request;
  ed_status := Confirmed;
  ed_idempotency_key := settle_ledger_idempotency_key (st_request_id request);
  ed_metadata := metadata;
|}.

Definition adjustment_draft (request : AdminAdjustmentLedgerRequest) : LedgerEntryDraft := {|
  ed_request_id := aa_request_id request;
  ed_related_ledger_entry_id := aa_related_ledger_entry_id request;
  ed_entry_type := EntryAdjust;
  ed_amount := aa_amount request;
  ed_currency := aa_currency request;
  ed_status := Confirmed;
  ed_idempotency_key := admin_adjustment_ledger_idempotency_key (aa_adjustment_operation_id request);
  ed_metadata := metadata_admin_adjustment (aa_request_id request) (aa_related_ledger_entry_id request)
    (if 0 <? units (aa_amount request) then AdjustCredit else AdjustDebit);
|}.

(** A request for a positive amount that can be negated, in a valid currency. *)
Definition debit_request_ok (amount : FixedDecimal) (currency : string) : Prop :=
  validate_currency currency = Ok () ∧
  0 < units amount ∧ in_i128 (- units amount) ∧ scale amount <= MAX_MONEY_SCALE.

Lemma plan_ledger_reserve_eq request existing :
  debit_request_ok (rv_amount request) (rv_currency request) →
  plan_ledger_reserve request existing =
  match find_by_idempotency_key existing (reserve_ledger_idempotency_key (rv_request_id request)) with
  | Some entry =>
      _ ← ensure_existing_matches_draft entry (reserve_draft request);
      Ok (idempotent_plan OpReserve (reserve_ledger_idempotency_key (rv_request_id request)) (er_id entry))
  | None =>
      fail_if bool_decide (is_Some (find_active_settle_for_request existing (rv_request_id request)))
      with LE_RequestAlreadySettled (rv_request_id request) ;;
      fail_if bool_decide (is_Some (find_active_reserve_for_request existing (rv_request_id request)))
      with LE_RequestAlreadyReserved (rv_request_id request) ;;
      Ok (apply_plan OpReserve (reserve_ledger_idempotency_key (rv_request_id request)) (reserve_draft request))
  end.
Proof.
  intros (Hc & Hp & Hr & Hs). unfold plan_ledger_reserve. rewrite Hc. cbn.
  by rewrite (proj2 (debit_amount_Ok _ _ _) (conj Hp (conj Hr (conj Hs eq_refl)))).
Qed.

Lemma plan_ledger_reserve_Ok request existing plan :
  plan_ledger_reserve request existing = Ok plan →
  debit_request_ok (rv_amount request) (rv_currency request).
Proof. unfold plan_ledger_reserve. intros H. inv_ok. destruct a. ledger_ok. done. Qed.

Lemma plan_ledger_settle_eq request existing metadata :
  debit_request_ok (st_final_cost request) (st_currency request) →
  plan_ledger_settle_with_metadata request existing metadata =
  match find_by_idempotency_key existing (settle_ledger_idempotency_key (st_request_id request)) with
  | Some entry =>
      _ ← ensure_existing_matches_draft entry (settle_draft request metadata);
      Ok (idempotent_plan OpSettle (settle_ledger_idempotency_key (st_request_id request)) (er_id entry))
  | None =>
      fail_if bool_decide (is_Some (find_active_settle_for_request existing (st_request_id request)))
      with LE_RequestAlreadySettled (st_request_id request) ;;
      updates ← pending_reserve_updates_for_settle existing (st_request_id request) (st_currency request);
      Ok {| lp_operation := OpSettle;
            lp_idempotency_key := settle_ledger_idempotency_key (st_request_id request);
            lp_outcome := OutcomeApply;
            lp_entries := [settle_draft request metadata];
            lp_status_updates := updates |}
  end.
Proof.
  intros (Hc & Hp & Hr & Hs). unfold plan_ledger_settle_with_metadata. rewrite Hc. cbn.
  by rewrite (proj2 (debit_amount_Ok _ _ _) (conj Hp (conj Hr (conj Hs eq_refl)))).
Qed.

Lemma plan_ledger_settle_Ok request existing metadata plan :
  plan_ledger_settle_with_metadata request existing metadata = Ok plan →
  debit_request_ok (st_final_cost request) (st_currency request).
Proof. unfold plan_ledger_settle_with_metadata. intros H. inv_ok. destruct a. ledger_ok. done. Qed.

Lemma plan_ledger_adjustment_eq request existing :
  validate_currency (aa_currency request) = Ok () → units (aa_amount request) ≠ 0 →
  plan_ledger_admin_adjustment request existing =
  match find_by_idempotency_key existing
          (admin_adjustment_ledger_idempotency_key (aa_adjustment_operation_id request)) with
  | Some entry =>
      _ ← ensure_existing_matches_draft entry (adjustment_draft request);
      Ok (idempotent_plan OpAdminAdjustment
            (admin_adjustment_ledger_idempotency_key (aa_adjustment_operation_id request)) (er_id entry))
  | None =>
      Ok (apply_plan OpAdminAdjustment
            (admin_adjustment_ledger_idempotency_key (aa_adjustment_operation_id request))
            (adjustment_draft request))
  end.
Proof.
  intros Hc Hz. unfold plan_ledger_admin_adjustment. rewrite Hc. cbn.
  unfold is_zero. by rewrite (proj2 (Z.eqb_neq _ _) Hz).
Qed.

Lemma plan_ledger_adjustment_Ok request existing plan :
  plan_ledger_admin_adjustment request existing = Ok plan →
  validate_currency (aa_currency request) = Ok () ∧ units (aa_amount request) ≠ 0.
Proof.
  unfold plan_ledger_admin_adjustment, is_zero. intros H. inv_ok. destruct a. bool_to_prop. done.
Qed.
End plan_specs.

Lemma counted_refunds_nil source_id existing :
  (∀ e, e ∈ existing → er_id e ≠ uuid_nil) →
  counted_refunds source_id uuid_nil existing = refunds_of source_id existing.
Proof.
  intros Hnil. apply sum_units_ext. intros e He. unfold is_counted_refund, is_refund_of.
  rewrite (proj2 (Z.eqb_neq _ _) (Hnil e He)). by destruct (bool_decide _).
Qed.

(** ** A concrete text form for identifiers

    The hyphenated lower-case form of the [uuid] crate, used to evaluate the
    definitions on concrete inputs. *)

Definition uuid_nibble (z : Uuid) (i : nat) : Z := Z.shiftr z (4 * (31 - Z.of_nat i)) mod 16.

Definition uuid_hyphenated (z : Uuid) : string :=
  let digits from n := map (λ i, hex_digit (uuid_nibble z i)) (List.seq from n) in
  from_bytes (digits 0 8 ++ ["-"%char] ++ digits 8 4 ++ ["-"%char] ++ digits 12 4 ++ ["-"%char]
              ++ digits 16 4 ++ ["-"%char] ++ digits 20 12)%nat.

Definition uuid_display_model : UuidDisplay := uuid_hyphenated.

Lemma uuid_nibble_range z i : 0 <= uuid_nibble z i < 16.
Proof. apply Z.mod_pos_bound. lia. Qed.

Lemma uuid_nibble_bit z i k :
  (i < 32)%nat → 0 <= k < 4 →
  Z.testbit (uuid_nibble z i) k = Z.testbit z (k + 4 * (31 - Z.of_nat i)).
Proof.
  intros Hi Hk. unfold uuid_nibble. change 16 with (2 ^ 4).
  rewrite Z.mod_pow2_bits_low by lia. by rewrite Z.shiftr_spec by lia.
Qed.

Lemma uuid_nibbles_inj a b :
  in_u128 a → in_u128 b → (∀ i, (i < 32)%nat → uuid_nibble a i = uuid_nibble b i) → a = b.
Proof.
  intros Ha Hb Heq. apply Z.bits_inj'. intros k Hk. destruct (Z_lt_le_dec k 128) as [Hlt|Hge].
  - pose (i := Z.to_nat (31 - k / 4)).
    assert (0 <= k mod 4 < 4) by (apply Z.mod_pos_bound; lia).
    assert (k / 4 < 32) by (apply Z.div_lt_upper_bound; lia).
    assert (0 <= k / 4) by (apply Z.div_pos; lia).
    assert (k = k mod 4 + 4 * (31 - Z.of_nat i)) as ->.
    { unfold i. rewrite Z2Nat.id by lia. pose proof (Z.div_mod k 4). lia. }
    rewrite <-!uuid_nibble_bit by lia. by rewrite Heq by lia.
  - assert (∀ z, in_u128 z → Z.testbit z k = false) as Hhigh.
    { intros z Hz. apply Z.testbit_false; [lia|]. rewrite Z.div_small; [done|].
      split; [lia|]. apply Z.lt_le_trans with (2 ^ 128); [width_lia|]. apply Z.pow_le_mono_r; lia. }
    by rewrite !Hhigh.
Qed.

Lemma uuid_digits_inj a b from n :
  map (λ i, hex_digit (uuid_nibble a i)) (List.seq from n) =
  map (λ i, hex_digit (uuid_nibble b i)) (List.seq from n) →
  ∀ i, (from <= i < from + n)%nat → uuid_nibble a i = uuid_nibble b i.
Proof.
  revert from. induction n as [|n IH]; intros from H i Hi; [lia|].
  cbn in H. injection H as H1 H2. destruct (decide (i = from)) as [->|].
  - apply hex_digit_inj in H1; auto using uuid_nibble_range.
  - apply (IH (S from)); [exact H2|lia].
Qed.

#[export] Instance uuid_display_model_laws : UuidDisplayLaws uuid_display_model.
Proof.
  constructor.
  - intros a b Ha Hb H. apply uuid_nibbles_inj; [done..|]. intros i Hi.
    unfold uuid_to_string, uuid_display_model, uuid_hyphenated in H.
    apply (f_equal as_bytes) in H. rewrite !as_from_bytes in H.
    repeat (apply app_inj_1 in H as [? H]; [|by rewrite ?length_map, ?length_seq]).
    destruct (decide (i < 8)%nat); [by eapply (uuid_digits_inj a b 0 8); [|lia]|].
    destruct (decide (i < 12)%nat); [by eapply (uuid_digits_inj a b 8 4); [|lia]|].
    destruct (decide (i < 16)%nat); [by eapply (uuid_digits_inj a b 12 4); [|lia]|].
    destruct (decide (i < 20)%nat); [by eapply (uuid_digits_inj a b 16 4); [|lia]|].
    by eapply (uuid_digits_inj a b 20 12); [|lia].
  - intros a _. unfold uuid_to_string, uuid_display_model, uuid_hyphenated. rewrite as_from_bytes.
    assert (∀ from n, Forall (λ c, is_ascii_hexdigit c = true ∨ c = "-"%char)
              (map (λ i, hex_digit (uuid_nibble a i)) (List.seq from n))) as Hd.
    { intros from n. apply Forall_map, Forall_true. intros i. left. apply hex_digit_hexdigit, uuid_nibble_range. }
    assert (Forall (λ c, is_ascii_hexdigit c = true ∨ c = "-"%char) ["-"%char]) as Hh by (repeat constructor; auto).
    repeat (apply Forall_app; split); auto.
  - intros a. unfold uuid_to_string, uuid_display_model, uuid_hyphenated. rewrite from_bytes_len.
    by rewrite !length_app, !length_map, !length_seq.
Qed.

(** ** Properties of the planner *)

(** C14: a refund never gives back more than was debited. A planned refund
    inserts exactly one confirmed, positive credit, in the currency and scale of
    the confirmed settle debit it names; together with the active refunds of that
    debit already in the ledger it stays within the debit, and it exhausts the
    debit exactly when the request is a full refund. *)
Theorem refund_never_exceeds_debit `{UuidDisplay} (request : RefundLedgerRequest)
    (existing : list LedgerEntryRecord) (plan : LedgerOperationPlan)
    (Hnil : ∀ e, e ∈ existing → er_id e ≠ uuid_nil)
    (Hplan : plan_ledger_refund request existing = Ok plan)
    (Happly : lp_outcome plan = OutcomeApply) :
  ∃ source draft,
    find_refund_source existing (refund_source_id request) = Ok source ∧
    lp_entries plan = [draft] ∧ lp_status_updates plan = [] ∧
    ed_entry_type draft = EntryRefund ∧ ed_status draft = Confirmed ∧
    ed_related_ledger_entry_id draft = Some (er_id source) ∧
    ed_currency draft = er_currency source ∧
    scale (ed_amount draft) = scale (er_amount source) ∧
    0 < units (ed_amount draft) ∧
    refunds_of (er_id source) existing + units (ed_amount draft) <= - units (er_amount source) ∧
    (refunds_of (er_id source) existing + units (ed_amount draft) = - units (er_amount source) ↔
      match request with RefundFull _ _ _ => True | RefundPartial _ _ _ _ => False end).
Proof.
  destruct (plan_ledger_refund_apply _ _ _ Hplan Happly) as (refund & source & draft & Hn & -> & Hspec).
  destruct (normalize_refund_request_Ok _ _ Hn) as [_ Hkind].
  destruct (refund_draft_fields _ _ _ _ _ Hspec) as (_ & ? & ? & ? & ? & _).
  exists source, draft. destruct Hspec. rewrite counted_refunds_nil in * by done.
  do 10 (split; [done|]).
  rewrite rds_full0. destruct request, Hkind as [-> _]; naive_solver.
Qed.

Definition sample_settle : LedgerEntryRecord := {|
  er_id := 7; er_request_id := Some 1; er_related_ledger_entry_id := None; er_entry_type := EntrySettle;
  er_amount := mkFixedDecimal (-1000) 8; er_currency := "USD"; er_status := Confirmed;
  er_idempotency_key := "settle:1";
|}.

Definition sample_refund : LedgerEntryRecord := {|
  er_id := 8; er_request_id := Some 1; er_related_ledger_entry_id := Some 7; er_entry_type := EntryRefund;
  er_amount := mkFixedDecimal 300 8; er_currency := "USD"; er_status := Confirmed;
  er_idempotency_key := "refund_partial:7:1";
|}.

Lemma refund_never_exceeds_debit_witness :
  ∃ plan draft,
    @plan_ledger_refund uuid_display_model (RefundFull 7 "USD" None) [sample_settle; sample_refund] = Ok plan ∧
    lp_entries plan = [draft] ∧ refunds_of 7 [sample_settle; sample_refund] = 300 ∧
    300 + units (ed_amount draft) <= 1000 ∧ (300 + units (ed_amount draft) = 1000 ↔ True).
Proof.
  eexists. assert (∀ e, e ∈ [sample_settle; sample_refund] → er_id e ≠ uuid_nil) as Hnil.
  { intros e. rewrite !elem_of_cons, elem_of_nil. intros [->|[->|[]]]; done. }
  destruct (@refund_never_exceeds_debit uuid_display_model (RefundFull 7 "USD" None) _ _ Hnil eq_refl eq_refl)
    as (source & draft & Hs & He & _ & _ & _ & _ & _ & _ & _ & Hle & Heq).
  exists draft. vm_compute in Hs. injection Hs as <-. split_and!; [reflexivity|exact He|done|exact Hle|exact Heq].
Defined.

(** The nil id means "exclude nothing" to the refund computation, so a refund
    entry whose own id is nil is not counted: adding it to the ledger does not
    change what remains refundable. *)
Theorem nil_refund_is_not_counted (source refund : LedgerEntryRecord) (existing : list LedgerEntryRecord)
    (Hnil : er_id refund = uuid_nil) :
  remaining_refundable_amount source (existing ++ [refund]) = remaining_refundable_amount source existing.
Proof.
  unfold remaining_refundable_amount, remaining_refundable_amount_excluding.
  rewrite List.filter_app. cbn [List.filter].
  assert (is_counted_refund (er_id source) uuid_nil refund = false) as ->.
  { unfold is_counted_refund. rewrite Hnil, Z.eqb_refl. cbn. by rewrite andb_false_r. }
  by rewrite app_nil_r.
Qed.

Lemma nil_refund_is_not_counted_witness :
  let refund := {|
    er_id := 0; er_request_id := Some 1; er_related_ledger_entry_id := Some 7; er_entry_type := EntryRefund;
    er_amount := mkFixedDecimal 1000 8; er_currency := "USD"; er_status := Confirmed;
    er_idempotency_key := "refund:7" |} in
  remaining_refundable_amount sample_settle [sample_settle] = Ok (mkFixedDecimal 1000 8) ∧
  remaining_refundable_amount sample_settle ([sample_settle] ++ [refund])
    = remaining_refundable_amount sample_settle [sample_settle].
Proof. split; [vm_compute; reflexivity|]. by apply nil_refund_is_not_counted. Defined.
