(* ===== verification/Writer.v ===== *)
(** crates/billing-ledger/src/writer_contract.rs: the consistent ledger writer.
    A write request is planned by [Ledger], checked against the balance window
    (wallet, active credit grants, active ledger entries) and the budgets, turned
    into a list of bounded commands and applied by the in-memory executor. *)

From S2P Require Export Ledger.

#[local] Open Scope string_scope.
#[local] Open Scope list_scope.
#[local] Open Scope Z_scope.

(** ** Data *)

Definition CONSISTENT_LEDGER_WRITER_SCHEMA : string := "billing_ledger_consistent_writer_plan.v1".
Definition CONSISTENT_LEDGER_COMMAND_EXECUTOR_SCHEMA : string := "billing_ledger_command_executor.v1".

Inductive ConsistentBudgetDimension : Type := Tenant | Project | VirtualKey.

#[export] Instance ConsistentBudgetDimension_eq_dec : EqDecision ConsistentBudgetDimension.
Proof. solve_decision. Defined.

Definition budget_dimension_sort_key (dimension : ConsistentBudgetDimension) : Z :=
  match dimension with Tenant => 0 | Project => 1 | VirtualKey => 2 end.

Definition budget_dimension_as_str (dimension : ConsistentBudgetDimension) : string :=
  match dimension with Tenant => "tenant" | Project => "project" | VirtualKey => "virtual_key" end.

Inductive ConsistentLedgerWriterError : Type :=
| WE_WalletRequired
| WE_WalletCurrencyMismatch (wallet_currency request_currency : string)
| WE_InsufficientWalletBalance (available required : FixedDecimal)
| WE_InsufficientBudget (budget_id : Uuid) (dimension : ConsistentBudgetDimension)
    (remaining required : FixedDecimal)
| WE_ScaleMismatch (expected actual : Z)
| WE_ArithmeticOverflow
| WE_InMemoryStateConflict (reason : string)
| WE_Ledger (error : LedgerContractError).

Record ConsistentLedgerScope : Type := mkConsistentLedgerScope {
  sc_tenant_id : Uuid;
  sc_project_id : option Uuid;
  sc_virtual_key_id : option Uuid;
}.

Inductive ConsistentLedgerWriteRequest : Type :=
| WriteReserve (wr_scope : ConsistentLedgerScope) (request_id : Uuid) (amount : FixedDecimal)
    (wr_currency : string)
| WriteSettle (wr_scope : ConsistentLedgerScope) (request_id : Uuid) (final_cost : FixedDecimal)
    (wr_currency : string)
| WriteRefundFull (wr_scope : ConsistentLedgerScope) (related_ledger_entry_id : Uuid) (wr_currency : string)
| WriteRefundPartial (wr_scope : ConsistentLedgerScope) (related_ledger_entry_id refund_operation_id : Uuid)
    (amount : FixedDecimal) (wr_currency : string)
| WriteAdminAdjustment (wr_scope : ConsistentLedgerScope) (adjustment_operation_id : Uuid)
    (request_id related_ledger_entry_id : option Uuid) (amount : FixedDecimal) (wr_currency : string).

Definition request_scope (request : ConsistentLedgerWriteRequest) : ConsistentLedgerScope :=
  match request with
  | WriteReserve scope _ _ _ | WriteSettle scope _ _ _ | WriteRefundFull scope _ _
  | WriteRefundPartial scope _ _ _ _ | WriteAdminAdjustment scope _ _ _ _ _ => scope
  end.

Definition request_currency (request : ConsistentLedgerWriteRequest) : string :=
  match request with
  | WriteReserve _ _ _ currency | WriteSettle _ _ _ currency | WriteRefundFull _ _ currency
  | WriteRefundPartial _ _ _ _ currency | WriteAdminAdjustment _ _ _ _ _ currency => currency
  end.

Definition request_operation (request : ConsistentLedgerWriteRequest) : LedgerOperationKind :=
  match request with
  | WriteReserve _ _ _ _ => OpReserve
  | WriteSettle _ _ _ _ => OpSettle
  | WriteRefundFull _ _ _ => OpRefund
  | WriteRefundPartial _ _ _ _ _ => OpRefundPartial
  | WriteAdminAdjustment _ _ _ _ _ _ => OpAdminAdjustment
  end.

Record ConsistentWalletSnapshot : Type := mkConsistentWalletSnapshot {
  wallet_id : Uuid;
  wallet_currency : string;
  available_balance : FixedDecimal;
}.

Record ConsistentCreditGrantSnapshot : Type := mkConsistentCreditGrantSnapshot {
  grant_id : Uuid;
  grant_currency : string;
  grant_remaining_amount : FixedDecimal;
  grant_active : bool;
}.

Record ConsistentBudgetSnapshot : Type := mkConsistentBudgetSnapshot {
  budget_id : Uuid;
  budget_dimension : ConsistentBudgetDimension;
  budget_currency : string;
  budget_remaining_amount : FixedDecimal;
  budget_active : bool;
}.

Record ConsistentLedgerWriterState : Type := mkConsistentLedgerWriterState {
  ws_wallet : option ConsistentWalletSnapshot;
  ws_credit_grants : list ConsistentCreditGrantSnapshot;
  ws_budgets : list ConsistentBudgetSnapshot;
  ws_ledger_entries : list LedgerEntryRecord;
}.

Record ConsistentWriterLockStep : Type := mkConsistentWriterLockStep {
  ls_order : Z;
  ls_resource : string;
  ls_lock_mode : string;
  ls_query_shape : string;
  ls_bounded_by : list string;
}.

Record ConsistentWriterLockPlan : Type := mkConsistentWriterLockPlan {
  lk_transaction : string;
  lk_lock_order : list ConsistentWriterLockStep;
  lk_unique_constraints : list string;
}.

Record ConsistentBalanceWindow : Type := mkConsistentBalanceWindow {
  bw_currency : string;
  bw_wallet_available_balance : FixedDecimal;
  bw_active_credit_grant_total : FixedDecimal;
  bw_active_ledger_effect : FixedDecimal;
  bw_available_before_write : FixedDecimal;
  bw_required_debit : FixedDecimal;
  bw_refund_credit : FixedDecimal;
  bw_available_after_write : FixedDecimal;
  bw_calculation : string;
}.

Record ConsistentWalletCheck : Type := mkConsistentWalletCheck {
  wc_wallet_id : Uuid;
  wc_required : bool;
  wc_passed : bool;
  wc_reason : string;
}.

Record ConsistentBudgetCheck : Type := mkConsistentBudgetCheck {
  bc_budget_id : Uuid;
  bc_dimension : ConsistentBudgetDimension;
  bc_remaining_before_write : FixedDecimal;
  bc_required_debit : FixedDecimal;
  bc_remaining_after_write : FixedDecimal;
  bc_passed : bool;
}.

Record ConsistentWriterStateMachine : Type := mkConsistentWriterStateMachine {
  sm_reserve : string;
  sm_settle : string;
  sm_refund : string;
  sm_admin_adjustment : string;
  sm_idempotency : string;
  sm_concurrency_rejections : list string;
}.

Record ConsistentPostgresWriterContract : Type := mkConsistentPostgresWriterContract {
  pc_read_write_scope : string;
  pc_balance_window : string;
  pc_budget_dimensions : list string;
  pc_cursor_or_scan_policy : string;
  pc_safe_output_contract : list string;
}.

Record ConsistentLedgerWriterPlan : Type := mkConsistentLedgerWriterPlan {
  wp_schema_version : string;
  wp_operation : LedgerOperationKind;
  wp_idempotency_key : string;
  wp_outcome : LedgerOperationOutcome;
  wp_scope : ConsistentLedgerScope;
  wp_lock_plan : ConsistentWriterLockPlan;
  wp_balance_window : ConsistentBalanceWindow;
  wp_wallet_check : ConsistentWalletCheck;
  wp_budget_checks : list ConsistentBudgetCheck;
  wp_state_machine : ConsistentWriterStateMachine;
  wp_postgres_writer_contract : ConsistentPostgresWriterContract;
  wp_ledger_plan : LedgerOperationPlan;
}.

Inductive ConsistentLedgerBoundedCommandKind : Type :=
  AssertBalanceWindow | AssertBudgetWindow | InsertLedgerEntry | UpdateLedgerStatus.

Record ConsistentLedgerBoundedCommand : Type := mkConsistentLedgerBoundedCommand {
  cmd_order : Z;
  cmd_kind : ConsistentLedgerBoundedCommandKind;
  cmd_target : string;
  cmd_statement_shape : string;
  cmd_bounded_by : list string;
  cmd_request_id : option Uuid;
  cmd_ledger_entry_id : option Uuid;
  cmd_related_ledger_entry_id : option Uuid;
  cmd_entry_type : option LedgerEntryType;
  cmd_status : option LedgerEntryStatus;
  cmd_amount : option FixedDecimal;
  cmd_currency : option string;
  cmd_budget_id : option Uuid;
  cmd_budget_dimension : option ConsistentBudgetDimension;
  cmd_metadata : option LedgerEntryMetadata;
  cmd_operation_key_output : string;
}.

Record ConsistentLedgerExecutorContract : Type := mkConsistentLedgerExecutorContract {
  ec_trait_name : string;
  ec_mockable : bool;
  ec_postgres_impl_name : string;
  ec_transaction : string;
  ec_command_policy : string;
  ec_output_contract : list string;
}.

Record ConsistentLedgerCommandPlan : Type := mkConsistentLedgerCommandPlan {
  cp_schema_version : string;
  cp_operation : LedgerOperationKind;
  cp_outcome : LedgerOperationOutcome;
  cp_scope : ConsistentLedgerScope;
  cp_operation_key_output : string;
  cp_commands : list ConsistentLedgerBoundedCommand;
  cp_executor_contract : ConsistentLedgerExecutorContract;
}.

Inductive ConsistentLedgerCommandExecutionOutcome : Type := Applied | Idempotent | Rejected.

Record ConsistentLedgerCommandExecutionError : Type := mkConsistentLedgerCommandExecutionError {
  ee_code : string;
  ee_category : string;
  ee_detail_output : string;
}.

Record ConsistentLedgerInMemoryStateSummary : Type := mkConsistentLedgerInMemoryStateSummary {
  ss_ledger_entry_count : nat;
  ss_pending_reserve_count : nat;
  ss_confirmed_settle_count : nat;
  ss_confirmed_refund_count : nat;
  ss_confirmed_adjustment_count : nat;
  ss_reversed_reserve_count : nat;
}.

Record ConsistentLedgerCommandExecution : Type := mkConsistentLedgerCommandExecution {
  ex_schema_version : string;
  ex_executor : string;
  ex_operation : LedgerOperationKind;
  ex_outcome : ConsistentLedgerCommandExecutionOutcome;
  ex_operation_key_output : string;
  ex_commands : list ConsistentLedgerBoundedCommand;
  ex_error : option ConsistentLedgerCommandExecutionError;
  ex_state_summary : ConsistentLedgerInMemoryStateSummary;
}.

Record InMemoryConsistentLedgerWriter : Type := mkInMemoryConsistentLedgerWriter {
  im_state : ConsistentLedgerWriterState;
  im_next_ledger_entry_id : Uuid;
}.

(** ** Checked arithmetic *)

Definition ensure_same_scale (left right : FixedDecimal) : result ConsistentLedgerWriterError () :=
  if scale left =? scale right then Ok () else Err (WE_ScaleMismatch (scale left) (scale right)).

Definition checked_add (left right : FixedDecimal) : result ConsistentLedgerWriterError FixedDecimal :=
  _ ← ensure_same_scale left right;
  map_err (λ _, WE_ArithmeticOverflow) (fd_checked_add left right).

Definition checked_subtract (left right : FixedDecimal) : result ConsistentLedgerWriterError FixedDecimal :=
  _ ← ensure_same_scale left right;
  u ← ok_or (checked_i128 (units left - units right)) WE_ArithmeticOverflow;
  map_err (λ _, WE_ArithmeticOverflow) (from_units u (scale left)).

Definition checked_neg (value : FixedDecimal) : result ConsistentLedgerWriterError FixedDecimal :=
  u ← ok_or (checked_i128 (- units value)) WE_ArithmeticOverflow;
  map_err (λ _, WE_ArithmeticOverflow) (from_units u (scale value)).

Definition zero (sc : Z) : result ConsistentLedgerWriterError FixedDecimal :=
  map_err (λ _, WE_ArithmeticOverflow) (fd_zero sc).

(** ** Error codes *)

Definition ledger_error_code (error : LedgerContractError) : string :=
  match error with
  | LE_IdempotencyConflict _ => "idempotency_conflict"
  | LE_RequestAlreadyReserved _ => "request_already_reserved"
  | LE_RequestAlreadySettled _ => "request_already_settled"
  | LE_ReserveCurrencyMismatch _ _ => "reserve_currency_mismatch"
  | LE_RefundSourceNotFound _ => "refund_source_not_found"
  | LE_RefundSourceNotConfirmedSettleDebit _ => "refund_source_not_confirmed_settle_debit"
  | LE_RefundCurrencyMismatch _ _ => "refund_currency_mismatch"
  | LE_FullRefundAmountNotAllowed => "full_refund_amount_not_allowed"
  | LE_PartialRefundAmountRequired => "partial_refund_amount_required"
  | LE_PartialRefundOperationIdRequired => "partial_refund_operation_id_required"
  | LE_PartialRefundConsumesRemaining _ _ => "partial_refund_consumes_remaining"
  | LE_AdminAdjustmentZeroAmount => "admin_adjustment_zero_amount"
  | LE_RefundAmountExceedsRemaining _ _ => "refund_amount_exceeds_remaining"
  | LE_NonPositiveAmount _ => "non_positive_amount"
  | LE_InvalidCurrency _ => "invalid_currency"
  | LE_ScaleMismatch _ _ => "ledger_scale_mismatch"
  | LE_ArithmeticOverflow => "ledger_arithmetic_overflow"
  end.

Definition consistent_writer_error_code (error : ConsistentLedgerWriterError) : string :=
  match error with
  | WE_WalletRequired => "wallet_required"
  | WE_WalletCurrencyMismatch _ _ => "wallet_currency_mismatch"
  | WE_InsufficientWalletBalance _ _ => "insufficient_wallet_balance"
  | WE_InsufficientBudget _ _ _ _ => "insufficient_budget"
  | WE_ScaleMismatch _ _ => "scale_mismatch"
  | WE_ArithmeticOverflow => "arithmetic_overflow"
  | WE_InMemoryStateConflict _ => "in_memory_state_conflict"
  | WE_Ledger error => ledger_error_code error
  end.

Definition consistent_writer_error_category (error : ConsistentLedgerWriterError) : string :=
  match error with
  | WE_Ledger _ => "ledger_contract"
  | WE_InsufficientWalletBalance _ _ | WE_InsufficientBudget _ _ _ _ => "balance_contract"
  | WE_WalletRequired | WE_WalletCurrencyMismatch _ _ | WE_ScaleMismatch _ _
  | WE_ArithmeticOverflow | WE_InMemoryStateConflict _ => "writer_contract"
  end.

(** ** The balance window and the budgets *)

Definition pending_reserve_amount_for_request (entries : list LedgerEntryRecord) (request_id : Uuid)
    : result ConsistentLedgerWriterError FixedDecimal :=
  let sc := default DEFAULT_MONEY_SCALE
              (option_map (λ entry, scale (er_amount entry))
                 (List.find (λ entry, bool_decide (er_request_id entry = Some request_id)) entries)) in
  zero ← zero sc;
  try_fold
    (λ total entry, reserved ← checked_neg (er_amount entry); checked_add total reserved)
    zero (List.filter (is_pending_reserve_for request_id) entries).

Definition required_debit_for_write (request : ConsistentLedgerWriteRequest)
    (state : ConsistentLedgerWriterState) : result ConsistentLedgerWriterError FixedDecimal :=
  match request with
  | WriteReserve _ _ amount _ => Ok amount
  | WriteSettle _ request_id final_cost _ =>
      reserved ← pending_reserve_amount_for_request (ws_ledger_entries state) request_id;
      if fd_gtb final_cost reserved then checked_subtract final_cost reserved
      else zero (scale final_cost)
  | WriteRefundFull _ _ _ | WriteRefundPartial _ _ _ _ _ =>
      zero (default DEFAULT_MONEY_SCALE
              (option_map (λ wallet, scale (available_balance wallet)) (ws_wallet state)))
  | WriteAdminAdjustment _ _ _ _ amount _ =>
      if units amount <? 0 then checked_neg amount else zero (scale amount)
  end.

Definition refund_credit_for_plan (ledger_plan : LedgerOperationPlan) (sc : Z)
    : result ConsistentLedgerWriterError FixedDecimal :=
  zero ← zero sc;
  try_fold
    (λ total entry,
      if (0 <? units (ed_amount entry))
         && match ed_entry_type entry with EntryRefund | EntryAdjust => true | _ => false end
      then checked_add total (ed_amount entry)
      else Ok total)
    zero (lp_entries ledger_plan).

Definition active_credit_grant_total (grants : list ConsistentCreditGrantSnapshot) (currency : string) (sc : Z)
    : result ConsistentLedgerWriterError FixedDecimal :=
  zero ← zero sc;
  try_fold
    (λ total grant, checked_add total (grant_remaining_amount grant))
    zero (List.filter (λ grant, grant_active grant && bool_decide (grant_currency grant = currency)) grants).

Definition is_active_in (currency : string) (entry : LedgerEntryRecord) : bool :=
  bool_decide (er_currency entry = currency) && is_active (er_status entry).

Definition active_ledger_effect (entries : list LedgerEntryRecord) (currency : string) (sc : Z)
    : result ConsistentLedgerWriterError FixedDecimal :=
  zero ← zero sc;
  try_fold
    (λ total entry, checked_add total (er_amount entry))
    zero (List.filter (is_active_in currency) entries).

Definition balance_window (currency : string) (wallet : ConsistentWalletSnapshot)
    (state : ConsistentLedgerWriterState) (required_debit refund_credit : FixedDecimal)
    : result ConsistentLedgerWriterError ConsistentBalanceWindow :=
  grant_total ← active_credit_grant_total (ws_credit_grants state) currency (scale (available_balance wallet));
  ledger_effect ← active_ledger_effect (ws_ledger_entries state) currency (scale (available_balance wallet));
  wallet_and_grants ← checked_add (available_balance wallet) grant_total;
  available_before_write ← checked_add wallet_and_grants ledger_effect;
  available_after_debit ← checked_subtract available_before_write required_debit;
  available_after_write ← checked_add available_after_debit refund_credit;
  Ok {|
    bw_currency := currency;
    bw_wallet_available_balance := available_balance wallet;
    bw_active_credit_grant_total := grant_total;
    bw_active_ledger_effect := ledger_effect;
    bw_available_before_write := available_before_write;
    bw_required_debit := required_debit;
    bw_refund_credit := refund_credit;
    bw_available_after_write := available_after_write;
    bw_calculation :=
      "wallet_available_balance + active_credit_grants + active_pending_or_confirmed_ledger - required_debit + refund_credit";
  |}.

Definition wallet_check (wallet_id : Uuid) (available_before_write required_debit : FixedDecimal)
    : ConsistentWalletCheck :=
  let passed := is_zero required_debit || fd_geb available_before_write required_debit in
  {|
    wc_wallet_id := wallet_id;
    wc_required := negb (is_zero required_debit);
    wc_passed := passed;
    wc_reason :=
      if passed then "available_balance_covers_required_debit" else "available_balance_below_required_debit";
  |}.

(** The key [(dimension.sort_key(), budget_id)], compared lexicographically. *)
Definition budget_leb (left right : ConsistentBudgetSnapshot) : bool :=
  let left_key := budget_dimension_sort_key (budget_dimension left) in
  let right_key := budget_dimension_sort_key (budget_dimension right) in
  (left_key <? right_key) || ((left_key =? right_key) && (budget_id left <=? budget_id right)).

Definition budget_checks (budgets : list ConsistentBudgetSnapshot) (currency : string)
    (required_debit : FixedDecimal) : result ConsistentLedgerWriterError (list ConsistentBudgetCheck) :=
  let active :=
    List.filter (λ budget, budget_active budget && bool_decide (budget_currency budget = currency)) budgets in
  try_map
    (λ budget,
      remaining_after_write ← checked_subtract (budget_remaining_amount budget) required_debit;
      Ok {|
        bc_budget_id := budget_id budget;
        bc_dimension := budget_dimension budget;
        bc_remaining_before_write := budget_remaining_amount budget;
        bc_required_debit := required_debit;
        bc_remaining_after_write := remaining_after_write;
        bc_passed := fd_geb (budget_remaining_amount budget) required_debit;
      |})
    (sort_by budget_leb active).

(** ** Contract documents carried by a plan *)

Definition lock_plan_for_request (request : ConsistentLedgerWriteRequest) : ConsistentWriterLockPlan :=
  let lock_order := [
    {| ls_order := 1;
       ls_resource := "wallets";
       ls_lock_mode := "for_update";
       ls_query_shape := "select wallet row by tenant/project/currency for update";
       ls_bounded_by := ["tenant_id"; "project_id"; "currency"] |};
    {| ls_order := 2;
       ls_resource := "credit_grants";
       ls_lock_mode := "for_update_ordered";
       ls_query_shape := "select active credit grants by tenant/wallet/currency/validity window ordered by grant_id for update";
       ls_bounded_by := ["tenant_id"; "wallet_id"; "currency"; "validity_window"] |};
    {| ls_order := 3;
       ls_resource := "budgets";
       ls_lock_mode := "for_update_ordered";
       ls_query_shape := "select active tenant/project/virtual_key budgets ordered by scope,budget_id for update";
       ls_bounded_by := ["tenant_id"; "project_id"; "virtual_key_id"; "currency"] |} ] in
  let ledger_step := match request with
    | WriteReserve _ _ _ _ | WriteSettle _ _ _ _ =>
        {| ls_order := 4;
           ls_resource := "ledger_entries";
           ls_lock_mode := "for_update_ordered";
           ls_query_shape := "select ledger rows by tenant/request_id or idempotency_key ordered by created_at,id for update";
           ls_bounded_by := ["tenant_id"; "request_id"; "related_ledger_entry_id"; "idempotency_key"] |}
    | WriteAdminAdjustment _ _ _ _ _ _ =>
        {| ls_order := 4;
           ls_resource := "ledger_entries";
           ls_lock_mode := "for_update_ordered";
           ls_query_shape := "select admin adjustment replay and related rows by tenant/request_id/related_ledger_entry_id/idempotency_key ordered by created_at,id for update";
           ls_bounded_by := ["tenant_id"; "request_id"; "related_ledger_entry_id"; "idempotency_key"] |}
    | WriteRefundFull _ _ _ | WriteRefundPartial _ _ _ _ _ =>
        {| ls_order := 4;
           ls_resource := "ledger_entries";
           ls_lock_mode := "for_update_ordered";
           ls_query_shape := "select source settle and related refund rows by tenant/source_ledger_entry_id/idempotency_key ordered by created_at,id for update";
           ls_bounded_by := ["tenant_id"; "request_id"; "related_ledger_entry_id"; "idempotency_key"] |}
    end in
  {|
    lk_transaction := "read_committed_single_transaction_with_explicit_for_update_locks";
    lk_lock_order := lock_order ++ [ledger_step];
    lk_unique_constraints := [
      "ledger_entries(tenant_id,idempotency_key)";
      "one active settle per tenant/request_id";
      "one active reserve per tenant/request_id" ];
  |}.

Definition state_machine_contract : ConsistentWriterStateMachine := {|
  sm_reserve := "reserve:{request_id} inserts one pending debit after locked wallet/grant/budget balance covers required debit";
  sm_settle := "settle:{request_id} inserts one confirmed debit and reverses pending reserve for the same request; only final_cost minus locked pending reserve requires additional balance";
  sm_refund := "refund keys insert confirmed positive credits against a locked confirmed settle source; remaining refundable amount is recomputed while source and related refunds are locked";
  sm_admin_adjustment := "admin_adjustment:{adjustment_operation_id} inserts one confirmed signed adjustment; debits require locked balance/budget capacity and credits increase the locked balance window";
  sm_idempotency := "same idempotency key with identical ledger shape returns idempotent without additional debit; same key with different amount/currency/status is rejected";
  sm_concurrency_rejections := [
    "non_idempotent_duplicate_reserve_for_request";
    "non_idempotent_duplicate_settle_for_request";
    "refund_against_missing_uncommitted_or_locked_settle_source";
    "refund_amount_exceeds_remaining_after_locked_refunds";
    "same_refund_operation_id_with_different_amount_or_currency" ];
|}.

Definition postgres_writer_contract : ConsistentPostgresWriterContract := {|
  pc_read_write_scope := "single tenant-scoped transaction; no cross-tenant rows; no unbounded table scan";
  pc_balance_window := "recompute wallet + active credit grants + pending/confirmed ledger debits/credits after all FOR UPDATE locks are acquired";
  pc_budget_dimensions := ["tenant"; "project"; "virtual_key"];
  pc_cursor_or_scan_policy := "all ledger reads are bounded by tenant_id plus request_id, related_ledger_entry_id, or idempotency_key";
  pc_safe_output_contract := [
    "request_material_omitted";
    "auth_header_omitted";
    "provider_credential_omitted";
    "wallet_credential_omitted";
    "db_url_omitted" ];
|}.

Definition executor_contract : ConsistentLedgerExecutorContract := {|
  ec_trait_name := "ConsistentLedgerCommandExecutor";
  ec_mockable := true;
  ec_postgres_impl_name := "PostgresConsistentLedgerCommandExecutor";
  ec_transaction := "single tenant-scoped transaction with explicit ordered locks";
  ec_command_policy := "assert locked balance and budget windows before applying bounded ledger writes";
  ec_output_contract := [
    "operation_key_omitted";
    "request_material_omitted";
    "auth_header_omitted";
    "provider_credential_omitted";
    "wallet_credential_omitted";
    "db_url_omitted" ];
|}.

(** ** Bounded commands *)

Definition balance_assert_command (order : Z) (plan : ConsistentLedgerWriterPlan)
    : ConsistentLedgerBoundedCommand := {|
  cmd_order := order;
  cmd_kind := AssertBalanceWindow;
  cmd_target := "wallet_credit_ledger_window";
  cmd_statement_shape := "assert locked wallet, active grants, and active ledger window covers required debit";
  cmd_bounded_by := ["tenant_id"; "project_id"; "currency"];
  cmd_request_id := None;
  cmd_ledger_entry_id := None;
  cmd_related_ledger_entry_id := None;
  cmd_entry_type := None;
  cmd_status := None;
  cmd_amount := Some (bw_required_debit (wp_balance_window plan));
  cmd_currency := Some (bw_currency (wp_balance_window plan));
  cmd_budget_id := None;
  cmd_budget_dimension := None;
  cmd_metadata := None;
  cmd_operation_key_output := "omitted";
|}.

Definition budget_assert_command (order : Z) (budget : ConsistentBudgetCheck)
    : ConsistentLedgerBoundedCommand := {|
  cmd_order := order;
  cmd_kind := AssertBudgetWindow;
  cmd_target := "budgets";
  cmd_statement_shape := "assert locked budget remaining covers required debit";
  cmd_bounded_by := ["tenant_id"; "project_id"; "virtual_key_id"; "currency"];
  cmd_request_id := None;
  cmd_ledger_entry_id := None;
  cmd_related_ledger_entry_id := None;
  cmd_entry_type := None;
  cmd_status := None;
  cmd_amount := Some (bc_required_debit budget);
  cmd_currency := None;
  cmd_budget_id := Some (bc_budget_id budget);
  cmd_budget_dimension := Some (bc_dimension budget);
  cmd_metadata := None;
  cmd_operation_key_output := "omitted";
|}.

Definition insert_ledger_command (order : Z) (entry : LedgerEntryDraft)
    : ConsistentLedgerBoundedCommand := {|
  cmd_order := order;
  cmd_kind := InsertLedgerEntry;
  cmd_target := "ledger_entries";
  cmd_statement_shape := "insert one tenant-scoped ledger row using canonical operation key from the private plan";
  cmd_bounded_by := ["tenant_id"; "request_id"; "related_ledger_entry_id"; "operation_key"];
  cmd_request_id := ed_request_id entry;
  cmd_ledger_entry_id := None;
  cmd_related_ledger_entry_id := ed_related_ledger_entry_id entry;
  cmd_entry_type := Some (ed_entry_type entry);
  cmd_status := Some (ed_status entry);
  cmd_amount := Some (ed_amount entry);
  cmd_currency := Some (ed_currency entry);
  cmd_budget_id := None;
  cmd_budget_dimension := None;
  cmd_metadata := Some (ed_metadata entry);
  cmd_operation_key_output := "omitted";
|}.

Definition status_update_command (order : Z) (ledger_entry_id : Uuid)
    : ConsistentLedgerBoundedCommand := {|
  cmd_order := order;
  cmd_kind := UpdateLedgerStatus;
  cmd_target := "ledger_entries";
  cmd_statement_shape := "update one locked ledger row status by ledger_entry_id";
  cmd_bounded_by := ["tenant_id"; "ledger_entry_id"];
  cmd_request_id := None;
  cmd_ledger_entry_id := Some ledger_entry_id;
  cmd_related_ledger_entry_id := None;
  cmd_entry_type := None;
  cmd_status := Some Reversed;
  cmd_amount := None;
  cmd_currency := None;
  cmd_budget_id := None;
  cmd_budget_dimension := None;
  cmd_metadata := None;
  cmd_operation_key_output := "omitted";
|}.

(** One loop of [bounded_commands_for_plan]: push the command of each item and
    increment the [u16] counter (which wraps, as an unchecked [+=] does in a
    release build). *)
Definition push_commands {A : Type} (command : Z → A → ConsistentLedgerBoundedCommand)
    (items : list A) (acc : list ConsistentLedgerBoundedCommand * Z)
    : list ConsistentLedgerBoundedCommand * Z :=
  fold_left (λ '(commands, order) item, (commands ++ [command order item], wrap_u16 (order + 1))) items acc.

Definition bounded_commands_for_plan (plan : ConsistentLedgerWriterPlan) : list ConsistentLedgerBoundedCommand :=
  let acc := ([balance_assert_command 1 plan], wrap_u16 (1 + 1)) in
  let acc := push_commands budget_assert_command (wp_budget_checks plan) acc in
  let acc := push_commands insert_ledger_command (lp_entries (wp_ledger_plan plan)) acc in
  let acc := push_commands (λ order update, status_update_command order (su_ledger_entry_id update))
               (lp_status_updates (wp_ledger_plan plan)) acc in
  fst acc.

Definition plan_consistent_ledger_write_commands (plan : ConsistentLedgerWriterPlan)
    : ConsistentLedgerCommandPlan := {|
  cp_schema_version := CONSISTENT_LEDGER_COMMAND_EXECUTOR_SCHEMA;
  cp_operation := wp_operation plan;
  cp_outcome := wp_outcome plan;
  cp_scope := wp_scope plan;
  cp_operation_key_output := "omitted";
  cp_commands :=
    match wp_outcome plan with
    | OutcomeIdempotent _ => []
    | OutcomeApply => bounded_commands_for_plan plan
    end;
  cp_executor_contract := executor_contract;
|}.

(** ** State summary and rejected executions *)

Definition count_entries (ty : LedgerEntryType) (st : LedgerEntryStatus) (entries : list LedgerEntryRecord) : nat :=
  length (List.filter
    (λ entry, bool_decide (er_entry_type entry = ty) && bool_decide (er_status entry = st)) entries).

Definition state_summary (state : ConsistentLedgerWriterState) : ConsistentLedgerInMemoryStateSummary := {|
  ss_ledger_entry_count := length (ws_ledger_entries state);
  ss_pending_reserve_count := count_entries EntryReserve Pending (ws_ledger_entries state);
  ss_confirmed_settle_count := count_entries EntrySettle Confirmed (ws_ledger_entries state);
  ss_confirmed_refund_count := count_entries EntryRefund Confirmed (ws_ledger_entries state);
  ss_confirmed_adjustment_count := count_entries EntryAdjust Confirmed (ws_ledger_entries state);
  ss_reversed_reserve_count := count_entries EntryReserve Reversed (ws_ledger_entries state);
|}.

Definition rejected_execution (operation : LedgerOperationKind) (commands : list ConsistentLedgerBoundedCommand)
    (error : ConsistentLedgerWriterError) (state : ConsistentLedgerWriterState)
    : ConsistentLedgerCommandExecution := {|
  ex_schema_version := CONSISTENT_LEDGER_COMMAND_EXECUTOR_SCHEMA;
  ex_executor := "in_memory_consistent_ledger_writer";
  ex_operation := operation;
  ex_outcome := Rejected;
  ex_operation_key_output := "omitted";
  ex_commands := commands;
  ex_error := Some {|
    ee_code := consistent_writer_error_code error;
    ee_category := consistent_writer_error_category error;
    ee_detail_output := "omitted";
  |};
  ex_state_summary := state_summary state;
|}.

(** ** Applying a plan in memory

    The executor mutates itself and may fail half way: each step returns the
    writer it leaves behind together with its result. *)

Definition with_status (entry : LedgerEntryRecord) (status : LedgerEntryStatus) : LedgerEntryRecord := {|
  er_id := er_id entry;
  er_request_id := er_request_id entry;
  er_related_ledger_entry_id := er_related_ledger_entry_id entry;
  er_entry_type := er_entry_type entry;
  er_amount := er_amount entry;
  er_currency := er_currency entry;
  er_status := status;
  er_idempotency_key := er_idempotency_key entry;
|}.

(** The first entry with the id of the update, through [iter_mut().find(..)]. *)
Fixpoint apply_status_update (entries : list LedgerEntryRecord) (update : LedgerStatusUpdate)
    : result ConsistentLedgerWriterError (list LedgerEntryRecord) :=
  match entries with
  | [] => Err (WE_InMemoryStateConflict "status_update_target_missing")
  | entry :: rest =>
      if er_id entry =? su_ledger_entry_id update then
        fail_if negb (bool_decide (er_status entry = su_from update))
        with WE_InMemoryStateConflict "status_update_from_mismatch" ;;
        Ok (with_status entry (su_to update) :: rest)
      else
        rest' ← apply_status_update rest update;
        Ok (entry :: rest')
  end.

Definition set_ledger_entries (writer : InMemoryConsistentLedgerWriter) (entries : list LedgerEntryRecord)
    : InMemoryConsistentLedgerWriter := {|
  im_state := {|
    ws_wallet := ws_wallet (im_state writer);
    ws_credit_grants := ws_credit_grants (im_state writer);
    ws_budgets := ws_budgets (im_state writer);
    ws_ledger_entries := entries;
  |};
  im_next_ledger_entry_id := im_next_ledger_entry_id writer;
|}.

Fixpoint apply_status_updates (writer : InMemoryConsistentLedgerWriter) (updates : list LedgerStatusUpdate)
    : InMemoryConsistentLedgerWriter * result ConsistentLedgerWriterError () :=
  match updates with
  | [] => (writer, Ok ())
  | update :: updates =>
      match apply_status_update (ws_ledger_entries (im_state writer)) update with
      | Err error => (writer, Err error)
      | Ok entries => apply_status_updates (set_ledger_entries writer entries) updates
      end
  end.

Definition take_next_ledger_entry_id (writer : InMemoryConsistentLedgerWriter)
    : result ConsistentLedgerWriterError (Uuid * InMemoryConsistentLedgerWriter) :=
  let id := im_next_ledger_entry_id writer in
  next ← ok_or (checked_u128 (id + 1)) WE_ArithmeticOverflow;
  Ok (id, {| im_state := im_state writer; im_next_ledger_entry_id := next |}).

Definition record_of_draft (id : Uuid) (draft : LedgerEntryDraft) : LedgerEntryRecord := {|
  er_id := id;
  er_request_id := ed_request_id draft;
  er_related_ledger_entry_id := ed_related_ledger_entry_id draft;
  er_entry_type := ed_entry_type draft;
  er_amount := ed_amount draft;
  er_currency := ed_currency draft;
  er_status := ed_status draft;
  er_idempotency_key := ed_idempotency_key draft;
|}.

Fixpoint push_drafts (writer : InMemoryConsistentLedgerWriter) (drafts : list LedgerEntryDraft)
    : InMemoryConsistentLedgerWriter * result ConsistentLedgerWriterError () :=
  match drafts with
  | [] => (writer, Ok ())
  | draft :: drafts =>
      match take_next_ledger_entry_id writer with
      | Err error => (writer, Err error)
      | Ok (id, writer) =>
          push_drafts
            (set_ledger_entries writer (ws_ledger_entries (im_state writer) ++ [record_of_draft id draft]))
            drafts
      end
  end.

Definition apply_ledger_plan (writer : InMemoryConsistentLedgerWriter) (plan : LedgerOperationPlan)
    : InMemoryConsistentLedgerWriter * result ConsistentLedgerWriterError () :=
  match apply_status_updates writer (lp_status_updates plan) with
  | (writer, Err error) => (writer, Err error)
  | (writer, Ok _) => push_drafts writer (lp_entries plan)
  end.

Section writer.
Context {U : UuidDisplay}.

Definition request_idempotency_key (request : ConsistentLedgerWriteRequest) : string :=
  match request with
  | WriteReserve _ request_id _ _ => reserve_ledger_idempotency_key request_id
  | WriteSettle _ request_id _ _ => settle_ledger_idempotency_key request_id
  | WriteRefundFull _ related_ledger_entry_id _ => refund_ledger_idempotency_key related_ledger_entry_id
  | WriteRefundPartial _ related_ledger_entry_id refund_operation_id _ _ =>
      refund_partial_ledger_idempotency_key related_ledger_entry_id refund_operation_id
  | WriteAdminAdjustment _ adjustment_operation_id _ _ _ _ =>
      admin_adjustment_ledger_idempotency_key adjustment_operation_id
  end.

Definition plan_inner_ledger_write (request : ConsistentLedgerWriteRequest)
    (existing_entries : list LedgerEntryRecord) : result LedgerContractError LedgerOperationPlan :=
  match request with
  | WriteReserve _ request_id amount currency =>
      plan_ledger_reserve
        {| rv_request_id := request_id; rv_amount := amount; rv_currency := currency |} existing_entries
  | WriteSettle _ request_id final_cost currency =>
      plan_ledger_settle
        {| st_request_id := request_id; st_final_cost := final_cost; st_currency := currency |} existing_entries
  | WriteRefundFull _ related_ledger_entry_id currency =>
      plan_ledger_refund (RefundFull related_ledger_entry_id currency None) existing_entries
  | WriteRefundPartial _ related_ledger_entry_id refund_operation_id amount currency =>
      plan_ledger_refund
        (RefundPartial related_ledger_entry_id (Some refund_operation_id) (Some amount) currency)
        existing_entries
  | WriteAdminAdjustment _ adjustment_operation_id request_id related_ledger_entry_id amount currency =>
      plan_ledger_admin_adjustment
        {| aa_adjustment_operation_id := adjustment_operation_id; aa_request_id := request_id;
           aa_related_ledger_entry_id := related_ledger_entry_id; aa_amount := amount;
           aa_currency := currency |} existing_entries
  end.

Definition is_idempotent_outcome (outcome : LedgerOperationOutcome) : bool :=
  match outcome with OutcomeIdempotent _ => true | OutcomeApply => false end.

Definition plan_consistent_ledger_write (request : ConsistentLedgerWriteRequest)
    (state : ConsistentLedgerWriterState) : result ConsistentLedgerWriterError ConsistentLedgerWriterPlan :=
  ledger_plan ← map_err WE_Ledger (plan_inner_ledger_write request (ws_ledger_entries state));
  wallet ← ok_or (ws_wallet state) WE_WalletRequired;
  fail_if negb (bool_decide (wallet_currency wallet = request_currency request))
  with WE_WalletCurrencyMismatch (wallet_currency wallet) (request_currency request) ;;
  required_debit ←
    (if is_idempotent_outcome (lp_outcome ledger_plan)
     then zero (scale (available_balance wallet))
     else required_debit_for_write request state);
  refund_credit ← refund_credit_for_plan ledger_plan (scale (available_balance wallet));
  window ← balance_window (request_currency request) wallet state required_debit refund_credit;
  let check := wallet_check (wallet_id wallet) (bw_available_before_write window) required_debit in
  fail_if negb (wc_passed check)
  with WE_InsufficientWalletBalance (bw_available_before_write window) required_debit ;;
  checks ← budget_checks (ws_budgets state) (request_currency request) required_debit;
  match List.find (λ check, negb (bc_passed check)) checks with
  | Some failed =>
      Err (WE_InsufficientBudget (bc_budget_id failed) (bc_dimension failed)
             (bc_remaining_before_write failed) (bc_required_debit failed))
  | None =>
      Ok {|
        wp_schema_version := CONSISTENT_LEDGER_WRITER_SCHEMA;
        wp_operation := request_operation request;
        wp_idempotency_key := request_idempotency_key request;
        wp_outcome := lp_outcome ledger_plan;
        wp_scope := request_scope request;
        wp_lock_plan := lock_plan_for_request request;
        wp_balance_window := window;
        wp_wallet_check := check;
        wp_budget_checks := checks;
        wp_state_machine := state_machine_contract;
        wp_postgres_writer_contract := postgres_writer_contract;
        wp_ledger_plan := ledger_plan;
      |}
  end.

Definition execute_consistent_ledger_write (writer : InMemoryConsistentLedgerWriter)
    (request : ConsistentLedgerWriteRequest) : InMemoryConsistentLedgerWriter * ConsistentLedgerCommandExecution :=
  let operation := request_operation request in
  let done writer outcome commands :=
    (writer, {|
      ex_schema_version := CONSISTENT_LEDGER_COMMAND_EXECUTOR_SCHEMA;
      ex_executor := "in_memory_consistent_ledger_writer";
      ex_operation := operation;
      ex_outcome := outcome;
      ex_operation_key_output := "omitted";
      ex_commands := commands;
      ex_error := None;
      ex_state_summary := state_summary (im_state writer);
    |}) in
  match plan_consistent_ledger_write request (im_state writer) with
  | Ok plan =>
      let commands := cp_commands (plan_consistent_ledger_write_commands plan) in
      match wp_outcome plan with
      | OutcomeApply =>
          match apply_ledger_plan writer (wp_ledger_plan plan) with
          | (writer, Err error) =>
              (writer, rejected_execution operation commands error (im_state writer))
          | (writer, Ok _) => done writer Applied commands
          end
      | OutcomeIdempotent _ => done writer Idempotent commands
      end
  | Err error => (writer, rejected_execution operation [] error (im_state writer))
  end.
End writer.

(** ** Arithmetic of the writer *)

Lemma checked_add_Ok a b c :
  checked_add a b = Ok c ↔
  scale a = scale b ∧ in_i128 (units a + units b) ∧ c = mkFixedDecimal (units a + units b) (scale a).
Proof.
  unfold checked_add, ensure_same_scale. destruct (Z.eqb_spec (scale a) (scale b)); cbn; [|naive_solver].
  by rewrite map_err_Ok, fd_checked_add_Ok.
Qed.

Lemma checked_subtract_Ok a b c :
  checked_subtract a b = Ok c ↔
  scale a = scale b ∧ scale a <= MAX_MONEY_SCALE ∧ in_i128 (units a - units b) ∧
  c = mkFixedDecimal (units a - units b) (scale a).
Proof.
  unfold checked_subtract, ensure_same_scale. destruct (Z.eqb_spec (scale a) (scale b)); cbn; [|naive_solver].
  split.
  - intros H. inv_ok. by apply from_units_Ok in H as [? ->].
  - intros (_ & ? & ? & ->). unfold checked_i128. rewrite checked_in by done. cbn. by rewrite from_units_ok.
Qed.

Lemma checked_neg_Ok a b :
  checked_neg a = Ok b ↔
  in_i128 (- units a) ∧ scale a <= MAX_MONEY_SCALE ∧ b = mkFixedDecimal (- units a) (scale a).
Proof.
  unfold checked_neg. split.
  - intros H. inv_ok. by apply from_units_Ok in H as [? ->].
  - intros (? & ? & ->). unfold checked_i128. rewrite checked_in by done. cbn. by rewrite from_units_ok.
Qed.

Lemma zero_Ok sc z : zero sc = Ok z ↔ sc <= MAX_MONEY_SCALE ∧ z = mkFixedDecimal 0 sc.
Proof. unfold zero, fd_zero. by rewrite map_err_Ok, from_units_Ok. Qed.

(** A checked running total of [f x] over a list. *)
Lemma checked_total {A : Type} (f : A → FixedDecimal) l total r :
  try_fold (λ total x, checked_add total (f x)) total l = Ok r →
  (∀ x, x ∈ l → scale (f x) = scale total) ∧
  r = mkFixedDecimal (units total + foldr (λ x sum, units (f x) + sum) 0 l) (scale total).
Proof.
  revert total. induction l as [|x l IH]; intros total H; cbn in H.
  - inv_ok. split; [by intros ? ?%elem_of_nil|]. cbn. rewrite Z.add_0_r. by destruct r.
  - apply bind_Ok in H as (t & (Hs & ? & ->)%checked_add_Ok & [HF ->]%IH). cbn in *.
    split; [|f_equal; lia]. intros y [->|?]%elem_of_cons; [done|auto].
Qed.

Lemma active_ledger_effect_Ok entries currency sc r :
  active_ledger_effect entries currency sc = Ok r →
  (∀ e, e ∈ entries → is_active_in currency e = true → scale (er_amount e) = sc) ∧
  sc <= MAX_MONEY_SCALE ∧ r = mkFixedDecimal (sum_units (is_active_in currency) entries) sc.
Proof.
  unfold active_ledger_effect. intros (z & [? ->]%zero_Ok & [HF ->]%checked_total)%bind_Ok.
  split_and!; [|done|done]. intros e ? ?. apply HF. by apply elem_of_filter_b.
Qed.

(** The active grants of a currency, in units. *)
Definition grant_units (grants : list ConsistentCreditGrantSnapshot) (currency : string) : Z :=
  foldr (λ grant sum, units (grant_remaining_amount grant) + sum) 0
    (List.filter (λ grant, grant_active grant && bool_decide (grant_currency grant = currency)) grants).

#[global] Arguments grant_units : simpl never.

Lemma active_credit_grant_total_Ok grants currency sc r :
  active_credit_grant_total grants currency sc = Ok r → r = mkFixedDecimal (grant_units grants currency) sc.
Proof.
  unfold active_credit_grant_total. by intros (z & [? ->]%zero_Ok & [HF ->]%checked_total)%bind_Ok.
Qed.

(** The balance a tenant has left: wallet, active grants and active entries. *)
Definition available_units (currency : string) (wallet : ConsistentWalletSnapshot)
    (state : ConsistentLedgerWriterState) : Z :=
  units (available_balance wallet) + grant_units (ws_credit_grants state) currency
  + sum_units (is_active_in currency) (ws_ledger_entries state).

Lemma balance_window_Ok currency wallet state debit credit window :
  balance_window currency wallet state debit credit = Ok window →
  units (bw_available_before_write window) = available_units currency wallet state ∧
  units (bw_available_after_write window) = available_units currency wallet state - units debit + units credit ∧
  scale (bw_available_before_write window) = scale (available_balance wallet) ∧
  scale debit = scale (available_balance wallet) ∧ scale credit = scale (available_balance wallet) ∧
  bw_required_debit window = debit ∧ bw_refund_credit window = credit ∧
  (∀ e, e ∈ ws_ledger_entries state → is_active_in currency e = true →
    scale (er_amount e) = scale (available_balance wallet)).
Proof.
  unfold balance_window, available_units. intros H. inv_ok.
  repeat match goal with
  | H : active_credit_grant_total _ _ _ = Ok _ |- _ => apply active_credit_grant_total_Ok in H as ->
  | H : active_ledger_effect _ _ _ = Ok _ |- _ => apply active_ledger_effect_Ok in H as (? & ? & ->)
  | H : checked_add _ _ = Ok _ |- _ => apply checked_add_Ok in H as (? & ? & ->)
  | H : checked_subtract _ _ = Ok _ |- _ => apply checked_subtract_Ok in H as (? & ? & ? & ->)
  end.
  cbn in *. split_and!; done || lia.
Qed.

(** The debit still held by the pending reserves of a request. *)
Definition reserved_units (request_id : Uuid) (entries : list LedgerEntryRecord) : Z :=
  - sum_units (is_pending_reserve_for request_id) entries.

Lemma pending_reserve_fold l total r :
  try_fold (λ total entry, reserved ← checked_neg (er_amount entry); checked_add total reserved) total l = Ok r →
  (∀ e, e ∈ l → scale (er_amount e) = scale total) ∧
  r = mkFixedDecimal (units total - sum_units (λ _, true) l) (scale total).
Proof.
  revert total. induction l as [|x l IH]; intros total H; cbn in H.
  - inv_ok. split; [by intros ? ?%elem_of_nil|]. rewrite sum_units_nil, Z.sub_0_r. by destruct r.
  - apply bind_Ok in H as (t & (n & (? & ? & ->)%checked_neg_Ok & (Hs & ? & ->)%checked_add_Ok)%bind_Ok & [HF ->]%IH).
    rewrite sum_units_cons. cbn in *.
    split; [|f_equal; lia]. intros y [->|?]%elem_of_cons; [done|auto].
Qed.

Lemma pending_reserve_amount_Ok entries request_id r :
  pending_reserve_amount_for_request entries request_id = Ok r →
  units r = reserved_units request_id entries ∧
  (∀ e, e ∈ entries → is_pending_reserve_for request_id e = true → scale (er_amount e) = scale r).
Proof.
  unfold pending_reserve_amount_for_request, reserved_units.
  intros (z & [? ->]%zero_Ok & [HF ->]%pending_reserve_fold)%bind_Ok. cbn in *.
  rewrite sum_units_filter. split; [lia|]. intros e ? ?. apply HF. by apply elem_of_filter_b.
Qed.

Lemma wallet_check_passed id available debit :
  scale available = scale debit →
  wc_passed (wallet_check id available debit) = true ↔ units debit = 0 ∨ units debit <= units available.
Proof.
  intros Hs. unfold wallet_check, is_zero. cbn. rewrite fd_geb_same_scale by done.
  rewrite orb_true_iff, Z.eqb_eq, Z.leb_le. done.
Qed.

(** ** What a planned write does to the ledger *)

(** The request whose pending reserves a write releases. *)
Definition released_request (request : ConsistentLedgerWriteRequest) : option Uuid :=
  match request with WriteSettle _ request_id _ _ => Some request_id | _ => None end.

Definition release (request_id : option Uuid) (entry : LedgerEntryRecord) : LedgerEntryRecord :=
  match request_id with
  | Some id => if is_pending_reserve_for id entry then with_status entry Reversed else entry
  | None => entry
  end.

Lemma set_ledger_entries_twice w es es' :
  set_ledger_entries (set_ledger_entries w es) es' = set_ledger_entries w es'.
Proof. done. Qed.

Lemma set_ledger_entries_same w : set_ledger_entries w (ws_ledger_entries (im_state w)) = w.
Proof. by destruct w as [[]]. Qed.

Lemma release_id r e : er_id (release r e) = er_id e.
Proof. destruct r; cbn; [|done]. by destruct (is_pending_reserve_for _ _). Qed.

Lemma release_fields r e :
  er_request_id (release r e) = er_request_id e ∧
  er_related_ledger_entry_id (release r e) = er_related_ledger_entry_id e ∧
  er_entry_type (release r e) = er_entry_type e ∧ er_amount (release r e) = er_amount e ∧
  er_currency (release r e) = er_currency e ∧ er_idempotency_key (release r e) = er_idempotency_key e.
Proof. destruct r; cbn; [|done]. by destruct (is_pending_reserve_for _ _). Qed.

Lemma release_None (es : list LedgerEntryRecord) : release None <$> es = es.
Proof. by apply list_fmap_id. Qed.

Lemma apply_status_update_release pre e post :
  er_status e = Pending → er_id e ∉ (er_id <$> pre) →
  apply_status_update (pre ++ e :: post) (release_update e) = Ok (pre ++ with_status e Reversed :: post).
Proof.
  intros Hs. induction pre as [|x pre IH]; intros Hn; cbn.
  - rewrite Z.eqb_refl, bool_decide_true by done. done.
  - rewrite fmap_cons, not_elem_of_cons in Hn. destruct Hn as [Hx Hn].
    rewrite (proj2 (Z.eqb_neq _ _) (not_eq_sym Hx)), IH by done. done.
Qed.

Lemma apply_status_updates_release r w pre post :
  ws_ledger_entries (im_state w) = pre ++ post → NoDup (er_id <$> (pre ++ post)) →
  apply_status_updates w (release_update <$> List.filter (is_pending_reserve_for r) post) =
    (set_ledger_entries w (pre ++ (release (Some r) <$> post)), Ok ()).
Proof.
  revert w pre. induction post as [|e post IH]; intros w pre Hes Hnd; cbn.
  - by rewrite <-Hes, set_ledger_entries_same.
  - unfold release at 1. destruct (is_pending_reserve_for r e) eqn:Hp; cbn.
    + assert (er_status e = Pending) by (unfold is_pending_reserve_for in Hp; by bool_to_prop).
      rewrite Hes, apply_status_update_release; [|done|].
      2:{ rewrite fmap_app, fmap_cons in Hnd. apply NoDup_app in Hnd as (_ & Hd & _). set_solver. }
      rewrite (IH _ (pre ++ [with_status e Reversed])); cbn.
      * by rewrite set_ledger_entries_twice, <-app_assoc.
      * by rewrite <-app_assoc.
      * rewrite <-app_assoc, fmap_app. by rewrite fmap_app in Hnd.
    + rewrite (IH w (pre ++ [e])); cbn; rewrite <-app_assoc; done.
Qed.

(** The ledger after a planned write: the pending reserves of a settled request
    are reversed and the drafted entry is appended under the next id. *)
Definition ledger_after (request : ConsistentLedgerWriteRequest) (entries : list LedgerEntryRecord)
    (id : Uuid) (draft : LedgerEntryDraft) : list LedgerEntryRecord :=
  (release (released_request request) <$> entries) ++ [record_of_draft id draft].

Definition planned_updates (request : ConsistentLedgerWriteRequest) (entries : list LedgerEntryRecord)
    : list LedgerStatusUpdate :=
  match released_request request with
  | Some r => release_update <$> List.filter (is_pending_reserve_for r) entries
  | None => []
  end.

Lemma apply_ledger_plan_eq request w lp draft :
  NoDup (er_id <$> ws_ledger_entries (im_state w)) →
  lp_entries lp = [draft] → lp_status_updates lp = planned_updates request (ws_ledger_entries (im_state w)) →
  0 <= im_next_ledger_entry_id w →
  apply_ledger_plan w lp =
  if im_next_ledger_entry_id w <? u128_max then
    ({| im_state := im_state (set_ledger_entries w
          (ledger_after request (ws_ledger_entries (im_state w)) (im_next_ledger_entry_id w) draft));
        im_next_ledger_entry_id := im_next_ledger_entry_id w + 1 |}, Ok ())
  else
    (set_ledger_entries w (release (released_request request) <$> ws_ledger_entries (im_state w)),
     Err WE_ArithmeticOverflow).
Proof.
  intros Hnd He Hu H0. unfold apply_ledger_plan, ledger_after.
  assert (apply_status_updates w (lp_status_updates lp) =
    (set_ledger_entries w (release (released_request request) <$> ws_ledger_entries (im_state w)), Ok ())) as ->.
  { rewrite Hu. unfold planned_updates. destruct (released_request request) as [r|].
    - by apply (apply_status_updates_release r w []).
    - cbn. by rewrite release_None, set_ledger_entries_same. }
  rewrite He. cbn. unfold take_next_ledger_entry_id, checked_u128, checked. cbn.
  rewrite (proj2 (Z.leb_le 0 _)) by lia. cbn.
  destruct (Z.ltb_spec (im_next_ledger_entry_id w) u128_max).
  - by rewrite (proj2 (Z.leb_le _ _)) by lia.
  - by rewrite (proj2 (Z.leb_gt _ _)) by lia.
Qed.

Section writer_plans.
Context {U : UuidDisplay}.

(** What the planner guarantees of the entry it drafts, request by request. *)
Definition draft_spec (request : ConsistentLedgerWriteRequest) (entries : list LedgerEntryRecord)
    (draft : LedgerEntryDraft) : Prop :=
  match request with
  | WriteReserve _ r amount currency =>
      debit_request_ok amount currency ∧ draft = reserve_draft (mkReserveLedgerRequest r amount currency) ∧
      (∀ e, e ∈ entries → is_active_for EntrySettle r e = false) ∧
      (∀ e, e ∈ entries → is_active_for EntryReserve r e = false)
  | WriteSettle _ r cost currency =>
      debit_request_ok cost currency ∧
      draft = settle_draft (mkSettleLedgerRequest r cost currency) (metadata_settle r) ∧
      (∀ e, e ∈ entries → is_active_for EntrySettle r e = false) ∧
      (∀ e, e ∈ entries → is_pending_reserve_for r e = true → er_currency e = currency)
  | WriteRefundFull _ related currency =>
      ∃ refund source,
        normalize_refund_request (RefundFull related currency None) = Ok refund ∧
        refund_draft_spec (RefundFull related currency None) entries refund source draft
  | WriteRefundPartial _ related op amount currency =>
      ∃ refund source,
        normalize_refund_request (RefundPartial related (Some op) (Some amount) currency) = Ok refund ∧
        refund_draft_spec (RefundPartial related (Some op) (Some amount) currency) entries refund source draft
  | WriteAdminAdjustment _ op r related amount currency =>
      validate_currency currency = Ok () ∧ units amount ≠ 0 ∧
      draft = adjustment_draft (mkAdminAdjustmentLedgerRequest op r related amount currency)
  end.

Lemma not_is_Some_find {A} (f : A → bool) l :
  bool_decide (is_Some (List.find f l)) = false → ∀ x, x ∈ l → f x = false.
Proof. intros H%bool_decide_eq_false. apply find_None_iff. by apply eq_None_not_Some. Qed.

Lemma plan_inner_apply request entries lp :
  plan_inner_ledger_write request entries = Ok lp → lp_outcome lp = OutcomeApply →
  ∃ draft,
    lp_entries lp = [draft] ∧ lp_status_updates lp = planned_updates request entries ∧
    find_by_idempotency_key entries (request_idempotency_key request) = None ∧
    ed_idempotency_key draft = request_idempotency_key request ∧
    ed_currency draft = request_currency request ∧
    draft_spec request entries draft.
Proof.
  destruct request as [sc r a c|sc r a c|sc rel c|sc rel op a c|sc op r rel a c]; intros H Hout;
    cbn [plan_inner_ledger_write] in H.
  - pose proof (plan_ledger_reserve_Ok _ _ _ H) as Hok. rewrite plan_ledger_reserve_eq in H by done. cbn in *.
    destruct (find_by_idempotency_key _ _); inv_ok; [done|].
    eexists. split_and!; try done. by apply not_is_Some_find. by apply not_is_Some_find.
  - unfold plan_ledger_settle in H.
    pose proof (plan_ledger_settle_Ok _ _ _ _ H) as Hok. rewrite plan_ledger_settle_eq in H by done. cbn in *.
    destruct (find_by_idempotency_key _ _); inv_ok; [done|].
    match goal with H : pending_reserve_updates_for_settle _ _ _ = _ |- _ =>
      apply pending_reserve_updates_Ok in H as [Hcur ->] end.
    eexists. split_and!; try done. by apply not_is_Some_find.
  - destruct (plan_ledger_refund_apply _ _ _ H Hout) as (refund & source & draft & Hn & -> & Hs).
    destruct (refund_draft_fields _ _ _ _ _ Hs) as (_ & _ & _ & Hcur & _ & Hkey).
    exists draft. pose proof Hs as []. pose proof Hn as Hn'. cbn in Hn'. inv_ok. cbn in *.
    rewrite Hcur. split_and!; try done. eexists _, source. by split; [|exact Hs].
  - destruct (plan_ledger_refund_apply _ _ _ H Hout) as (refund & source & draft & Hn & -> & Hs).
    destruct (refund_draft_fields _ _ _ _ _ Hs) as (_ & _ & _ & Hcur & _ & Hkey).
    exists draft. pose proof Hs as []. pose proof Hn as Hn'. cbn in Hn'. inv_ok. cbn in *.
    rewrite Hcur. split_and!; try done. eexists _, source. by split; [|exact Hs].
  - pose proof (plan_ledger_adjustment_Ok _ _ _ H) as [Hc Hz].
    rewrite plan_ledger_adjustment_eq in H by done. cbn in *.
    destruct (find_by_idempotency_key _ _); inv_ok; [done|]. eexists. split_and!; done.
Qed.

Lemma plan_inner_idempotent request entries lp id :
  plan_inner_ledger_write request entries = Ok lp → lp_outcome lp = OutcomeIdempotent id →
  lp_entries lp = [] ∧ lp_status_updates lp = [].
Proof.
  destruct request; intros H Hout; cbn in H; unfold plan_ledger_reserve, plan_ledger_settle,
    plan_ledger_settle_with_metadata, plan_ledger_refund, plan_ledger_admin_adjustment in H;
    inv_ok; destruct (find_by_idempotency_key _ _); inv_ok; done.
Qed.

(** ** The plan of a write *)

Record write_plan_spec (request : ConsistentLedgerWriteRequest) (state : ConsistentLedgerWriterState)
    (plan : ConsistentLedgerWriterPlan) (wallet : ConsistentWalletSnapshot)
    (debit credit : FixedDecimal) : Prop := {
  wps_inner : plan_inner_ledger_write request (ws_ledger_entries state) = Ok (wp_ledger_plan plan);
  wps_outcome : wp_outcome plan = lp_outcome (wp_ledger_plan plan);
  wps_wallet : ws_wallet state = Some wallet;
  wps_currency : wallet_currency wallet = request_currency request;
  wps_debit : (if is_idempotent_outcome (lp_outcome (wp_ledger_plan plan))
               then zero (scale (available_balance wallet))
               else required_debit_for_write request state) = Ok debit;
  wps_credit : refund_credit_for_plan (wp_ledger_plan plan) (scale (available_balance wallet)) = Ok credit;
  wps_window : balance_window (request_currency request) wallet state debit credit = Ok (wp_balance_window plan);
  wps_passed : units debit = 0 ∨ units debit <= available_units (request_currency request) wallet state;
  wps_budgets : budget_checks (ws_budgets state) (request_currency request) debit = Ok (wp_budget_checks plan);
  wps_budgets_passed check : check ∈ wp_budget_checks plan → bc_passed check = true;
}.

Lemma plan_write_Ok request state plan :
  plan_consistent_ledger_write request state = Ok plan →
  ∃ wallet debit credit, write_plan_spec request state plan wallet debit credit.
Proof.
  unfold plan_consistent_ledger_write. intros H. inv_ok. bool_to_prop.
  destruct (List.find _ _) eqn:Hfind; [done|]. inv_ok.
  eexists _, _, _. constructor; cbn; eauto.
  - destruct (balance_window_Ok _ _ _ _ _ _ Ha3) as (<- & _ & Hs & Hd & _).
    apply (wallet_check_passed (wallet_id a0)); [congruence|done].
  - intros check Hc. rewrite find_None_iff in Hfind. apply negb_false_iff. by apply Hfind.
Qed.

Lemma refund_credit_single lp sc credit draft :
  lp_entries lp = [draft] → refund_credit_for_plan lp sc = Ok credit →
  units credit =
    if (0 <? units (ed_amount draft))
       && match ed_entry_type draft with EntryRefund | EntryAdjust => true | _ => false end
    then units (ed_amount draft) else 0.
Proof.
  unfold refund_credit_for_plan. intros ->. intros (z & [_ ->]%zero_Ok & H)%bind_Ok. cbn in H.
  destruct (_ && _); inv_ok; [|done].
  match goal with H : checked_add _ _ = _ |- _ => apply checked_add_Ok in H as (_ & _ & ->) end.
  done.
Qed.

(** The part of a reservation that a cheaper settle gives back. *)
Definition settle_surplus (request : ConsistentLedgerWriteRequest) (entries : list LedgerEntryRecord) : Z :=
  match request with
  | WriteSettle _ r cost _ => Z.max 0 (reserved_units r entries - units cost)
  | _ => 0
  end.

Lemma required_settle_debit sc r cost currency state debit :
  required_debit_for_write (WriteSettle sc r cost currency) state = Ok debit →
  units debit = Z.max 0 (units cost - reserved_units r (ws_ledger_entries state)).
Proof.
  cbn. intros (reserved & [<- _]%pending_reserve_amount_Ok & H)%bind_Ok.
  unfold fd_gtb, fd_compare in H.
  destruct (Z.compare_spec (units cost) (units reserved)).
  - destruct (Z.compare_spec (scale cost) (scale reserved));
      [apply zero_Ok in H as [_ ->]; cbn; lia..|].
    apply checked_subtract_Ok in H as (? & _ & _ & ->). lia.
  - apply zero_Ok in H as [_ ->]. cbn. lia.
  - apply checked_subtract_Ok in H as (? & _ & _ & ->). cbn. lia.
Qed.

(** The active balance after a write, entry by entry. *)
Lemma sum_active_release currency r entries :
  (∀ e, e ∈ entries → is_pending_reserve_for r e = true → er_currency e = currency) →
  sum_units (is_active_in currency) (release (Some r) <$> entries) =
  sum_units (is_active_in currency) entries + reserved_units r entries.
Proof.
  unfold reserved_units. induction entries as [|e es IH]; intros Hc; [done|].
  rewrite fmap_cons, !sum_units_cons, IH by (intros; apply Hc; [by right|done]).
  pose proof (Hc e (list_elem_of_here _ _)) as He. unfold release.
  destruct (is_pending_reserve_for r e) eqn:Hp; [|lia].
  unfold is_active_in, is_pending_reserve_for in *. bool_to_prop. cbn.
  rewrite H0, He, bool_decide_true by done. cbn. lia.
Qed.

Lemma draft_active request entries draft :
  draft_spec request entries draft → is_active (ed_status draft) = true.
Proof.
  destruct request; cbn.
  1, 2: by intros (_ & -> & _).
  1, 2: intros (refund & source & _ & Hs); by destruct (refund_draft_fields _ _ _ _ _ Hs) as (_ & _ & _ & _ & -> & _).
  by intros (_ & _ & ->).
Qed.

Lemma sum_active_after request entries id draft :
  draft_spec request entries draft → ed_currency draft = request_currency request →
  sum_units (is_active_in (request_currency request)) (ledger_after request entries id draft) =
  sum_units (is_active_in (request_currency request)) entries + units (ed_amount draft)
  + match released_request request with Some r => reserved_units r entries | None => 0 end.
Proof.
  intros Hs Hc. unfold ledger_after. rewrite sum_units_app, sum_units_cons, sum_units_nil.
  assert (is_active_in (request_currency request) (record_of_draft id draft) = true) as ->.
  { unfold is_active_in. cbn. rewrite bool_decide_true by done. by eapply draft_active. }
  cbn [er_amount record_of_draft].
  destruct request; cbn [released_request]; rewrite ?release_None; try lia.
  rewrite sum_active_release; [cbn; lia|]. by destruct Hs as (_ & _ & _ & ?).
Qed.

Lemma write_effect request state plan wallet debit credit draft :
  write_plan_spec request state plan wallet debit credit →
  lp_outcome (wp_ledger_plan plan) = OutcomeApply → lp_entries (wp_ledger_plan plan) = [draft] →
  draft_spec request (ws_ledger_entries state) draft →
  0 <= units debit ∧ 0 <= units credit ∧
  units (ed_amount draft)
    + match released_request request with Some r => reserved_units r (ws_ledger_entries state) | None => 0 end
  = units credit - units debit + settle_surplus request (ws_ledger_entries state).
Proof.
  intros Hspec Hout He Hd. destruct Hspec. rewrite Hout in wps_debit0. cbn in wps_debit0.
  pose proof (refund_credit_single _ _ _ _ He wps_credit0) as ->.
  destruct request as [sc r a c|sc r a c|sc rel c|sc rel op a c|sc op r rel a c].
  - destruct Hd as ((_ & ? & _) & -> & _). cbn in *. inv_ok.
    rewrite andb_false_r. lia.
  - apply required_settle_debit in wps_debit0 as ->. destruct Hd as ((_ & ? & _) & -> & _).
    cbn. rewrite andb_false_r. lia.
  - apply zero_Ok in wps_debit0 as [_ ->]. destruct Hd as (refund & source & _ & Hs).
    destruct (refund_draft_fields _ _ _ _ _ Hs) as (_ & _ & -> & _).
    rewrite (proj2 (Z.ltb_lt _ _) (rds_positive _ _ _ _ _ Hs)). pose proof (rds_positive _ _ _ _ _ Hs). cbn. lia.
  - apply zero_Ok in wps_debit0 as [_ ->]. destruct Hd as (refund & source & _ & Hs).
    destruct (refund_draft_fields _ _ _ _ _ Hs) as (_ & _ & -> & _).
    rewrite (proj2 (Z.ltb_lt _ _) (rds_positive _ _ _ _ _ Hs)). pose proof (rds_positive _ _ _ _ _ Hs). cbn. lia.
  - destruct Hd as (_ & Hz & ->). cbn in *. rewrite andb_true_r.
    destruct (Z.ltb_spec (units a) 0); destruct (Z.ltb_spec 0 (units a)); try lia.
    + apply checked_neg_Ok in wps_debit0 as (_ & _ & ->). cbn. lia.
    + apply zero_Ok in wps_debit0 as [_ ->]. cbn. lia.
Qed.

(** The in-memory execution, case by case. *)
Lemma execute_cases w request :
  let '(w', ex) := execute_consistent_ledger_write w request in
  (∃ error, plan_consistent_ledger_write request (im_state w) = Err error ∧ w' = w ∧ ex_outcome ex = Rejected) ∨
  (∃ plan, plan_consistent_ledger_write request (im_state w) = Ok plan ∧
    match wp_outcome plan with
    | OutcomeIdempotent _ => w' = w ∧ ex_outcome ex = Idempotent
    | OutcomeApply =>
        w' = fst (apply_ledger_plan w (wp_ledger_plan plan)) ∧
        ex_outcome ex = if is_ok (snd (apply_ledger_plan w (wp_ledger_plan plan))) then Applied else Rejected
    end).
Proof.
  unfold execute_consistent_ledger_write.
  destruct (plan_consistent_ledger_write request (im_state w)) as [plan|error]; [|left; eauto].
  destruct (wp_outcome plan) eqn:Ho.
  - destruct (apply_ledger_plan w (wp_ledger_plan plan)) as [w' [[]|error]] eqn:Ha;
      right; exists plan; by rewrite Ho, Ha.
  - right. exists plan. by rewrite Ho.
Qed.

(** A write that is planned to apply: its effect on the writer. *)
Lemma execute_apply w request plan :
  NoDup (er_id <$> ws_ledger_entries (im_state w)) → 0 <= im_next_ledger_entry_id w →
  plan_consistent_ledger_write request (im_state w) = Ok plan → wp_outcome plan = OutcomeApply →
  ∃ wallet debit credit draft,
    write_plan_spec request (im_state w) plan wallet debit credit ∧
    lp_entries (wp_ledger_plan plan) = [draft] ∧
    find_by_idempotency_key (ws_ledger_entries (im_state w)) (request_idempotency_key request) = None ∧
    ed_idempotency_key draft = request_idempotency_key request ∧
    ed_currency draft = request_currency request ∧
    draft_spec request (ws_ledger_entries (im_state w)) draft ∧
    apply_ledger_plan w (wp_ledger_plan plan) =
    if im_next_ledger_entry_id w <? u128_max then
      ({| im_state := im_state (set_ledger_entries w
            (ledger_after request (ws_ledger_entries (im_state w)) (im_next_ledger_entry_id w) draft));
          im_next_ledger_entry_id := im_next_ledger_entry_id w + 1 |}, Ok ())
    else
      (set_ledger_entries w (release (released_request request) <$> ws_ledger_entries (im_state w)),
       Err WE_ArithmeticOverflow).
Proof.
  intros Hnd H0 Hplan Hout. destruct (plan_write_Ok _ _ _ Hplan) as (wallet & debit & credit & Hs).
  pose proof (wps_outcome _ _ _ _ _ _ Hs) as Ho. rewrite Hout in Ho. symmetry in Ho.
  destruct (plan_inner_apply _ _ _ (wps_inner _ _ _ _ _ _ Hs) Ho) as (draft & He & Hu & Hf & Hk & Hc & Hd).
  exists wallet, debit, credit, draft. split_and!; try done. by apply apply_ledger_plan_eq.
Qed.
End writer_plans.

(** ** Idempotency keys *)

(** The identifiers that name an operation. *)
Definition operation_ids (request : ConsistentLedgerWriteRequest) : list Uuid :=
  match request with
  | WriteReserve _ r _ _ | WriteSettle _ r _ _ => [r]
  | WriteRefundFull _ related _ => [related]
  | WriteRefundPartial _ related op _ _ => [related; op]
  | WriteAdminAdjustment _ op _ _ _ _ => [op]
  end.

Lemma app_cons_unique {A} (c : A) l1 l2 r1 r2 :
  c ∉ l1 → c ∉ l2 → l1 ++ c :: r1 = l2 ++ c :: r2 → l1 = l2 ∧ r1 = r2.
Proof.
  revert l2. induction l1 as [|x l1 IH]; intros [|y l2] H1 H2 Heq; cbn in *; simplify_eq; try done.
  - destruct H2. by left.
  - destruct H1. by left.
  - apply not_elem_of_cons in H1 as [_ H1]. apply not_elem_of_cons in H2 as [_ H2].
    destruct (IH l2 H1 H2) as [-> ->]; done.
Qed.

Lemma uuid_text_no_colon `{UuidDisplayLaws} z :
  in_u128 z → ":"%char ∉ as_bytes (uuid_to_string z).
Proof.
  intros Hz Hin. pose proof (uuid_to_string_chars z Hz) as HF. rewrite Forall_forall in HF.
  apply HF in Hin as [Hin|Hin]; done.
Qed.

Lemma as_bytes_inj s t : as_bytes s = as_bytes t → s = t.
Proof. intros H. by rewrite <-(from_as_bytes s), H, from_as_bytes. Qed.

(** The idempotency keys of two write requests are equal exactly when the
    requests name the same kind of operation and the same identifiers: no two
    different operations ever share a key. *)
Theorem idempotency_key_determines_operation `{UuidDisplayLaws} (q1 q2 : ConsistentLedgerWriteRequest)
    (H1 : Forall (λ id, in_u128 id) (operation_ids q1)) (H2 : Forall (λ id, in_u128 id) (operation_ids q2)) :
  request_idempotency_key q1 = request_idempotency_key q2 ↔
  request_operation q1 = request_operation q2 ∧ operation_ids q1 = operation_ids q2.
Proof.
  split.
  - intros Hk. apply (f_equal as_bytes) in Hk. destruct q1, q2; cbn in H1, H2 |- *;
      unfold request_idempotency_key, reserve_ledger_idempotency_key, settle_ledger_idempotency_key,
        refund_ledger_idempotency_key, refund_partial_ledger_idempotency_key,
        admin_adjustment_ledger_idempotency_key in Hk; rewrite !as_bytes_app in Hk; cbn in Hk;
      try discriminate Hk;
      repeat match goal with H : Forall _ (_ :: _) |- _ => apply Forall_cons in H as [? H] end;
      cbn beta in *.
    all: try (injection Hk as Hk; apply as_bytes_inj, uuid_to_string_inj in Hk; [by subst|done..]).
    injection Hk as Hk. apply app_cons_unique in Hk as [Hk1 Hk2]; [|by apply uuid_text_no_colon..].
    apply as_bytes_inj, uuid_to_string_inj in Hk1; [|done..].
    apply as_bytes_inj, uuid_to_string_inj in Hk2; [|done..]. by subst.
  - intros [Ho Hi]. destruct q1, q2; cbn in *; try discriminate Ho; by simplify_eq.
Qed.

Lemma idempotency_key_determines_operation_witness :
  let scope := mkConsistentLedgerScope 1 None None in
  let q1 := WriteRefundFull scope 7 "USD" in
  let q2 := WriteRefundPartial scope 7 8 (mkFixedDecimal 1 8) "USD" in
  @request_idempotency_key uuid_display_model q1 = "refund:00000000-0000-0000-0000-000000000007" ∧
  (@request_idempotency_key uuid_display_model q1 = @request_idempotency_key uuid_display_model q2 ↔
    OpRefund = OpRefundPartial ∧ [7] = [7; 8]).
Proof.
  split; [vm_compute; reflexivity|].
  apply (@idempotency_key_determines_operation uuid_display_model uuid_display_model_laws);
    repeat constructor; width_lia.
Defined.

(** ** Coverage by wallet and budgets *)

Lemma budget_leb_total a b : budget_leb a b = false → budget_leb b a = true.
Proof.
  unfold budget_leb. intros H. apply orb_false_iff in H as [H1 H2]. apply Z.ltb_ge in H1.
  apply orb_true_iff. rewrite andb_true_iff, Z.ltb_lt, Z.eqb_eq, Z.leb_le.
  destruct (Z.eqb_spec (budget_dimension_sort_key (budget_dimension a))
              (budget_dimension_sort_key (budget_dimension b))); cbn in *; [|lia].
  apply Z.leb_gt in H2. lia.
Qed.

Lemma budget_checks_Ok budgets currency debit checks :
  budget_checks budgets currency debit = Ok checks →
  ∃ sorted,
    sorted ≡ₚ List.filter (λ b, budget_active b && bool_decide (budget_currency b = currency)) budgets ∧
    Sorted (λ a b, budget_leb a b = true) sorted ∧
    Forall2 (λ b check,
      bc_budget_id check = budget_id b ∧ bc_dimension check = budget_dimension b ∧
      bc_remaining_before_write check = budget_remaining_amount b ∧ bc_required_debit check = debit ∧
      scale (budget_remaining_amount b) = scale debit ∧
      units (bc_remaining_after_write check) = units (budget_remaining_amount b) - units debit ∧
      bc_passed check = (units debit <=? units (budget_remaining_amount b))) sorted checks.
Proof.
  unfold budget_checks. intros H%try_map_Ok. eexists. split_and!; [apply sort_by_perm| |].
  - apply sort_by_sorted, budget_leb_total.
  - eapply Forall2_impl; [exact H|]. intros b check (r & (? & ? & ? & ->)%checked_subtract_Ok & [= <-])%bind_Ok.
    cbn. rewrite fd_geb_same_scale by done. done.
Qed.

(** A write is only planned when it is paid for. The required debit is zero
    or covered by the available balance, and every active budget of the currency,
    visited in the order of dimension and budget id, has at least the debit
    remaining; the plan records what each budget keeps. *)
Theorem planned_write_is_covered `{UuidDisplay} (request : ConsistentLedgerWriteRequest)
    (state : ConsistentLedgerWriterState) (plan : ConsistentLedgerWriterPlan)
    (Hplan : plan_consistent_ledger_write request state = Ok plan) :
  let debit := bw_required_debit (wp_balance_window plan) in
  (∃ wallet, ws_wallet state = Some wallet ∧ wallet_currency wallet = request_currency request ∧
     scale debit = scale (available_balance wallet) ∧
     (units debit = 0 ∨ units debit <= available_units (request_currency request) wallet state)) ∧
  (∀ budget, budget ∈ ws_budgets state → budget_active budget = true →
     budget_currency budget = request_currency request →
     scale (budget_remaining_amount budget) = scale debit ∧
     units debit <= units (budget_remaining_amount budget)) ∧
  ∃ sorted,
    sorted ≡ₚ List.filter
      (λ b, budget_active b && bool_decide (budget_currency b = request_currency request)) (ws_budgets state) ∧
    Sorted (λ a b, budget_leb a b = true) sorted ∧
    Forall2 (λ b check, bc_budget_id check = budget_id b ∧
      units (bc_remaining_after_write check) = units (budget_remaining_amount b) - units debit ∧
      0 <= units (bc_remaining_after_write check)) sorted (wp_budget_checks plan).
Proof.
  destruct (plan_write_Ok _ _ _ Hplan) as (wallet & debit & credit & Hs).
  destruct (balance_window_Ok _ _ _ _ _ _ (wps_window _ _ _ _ _ _ Hs)) as (_ & _ & _ & Hsc & _ & -> & _).
  destruct (budget_checks_Ok _ _ _ _ (wps_budgets _ _ _ _ _ _ Hs)) as (sorted & Hperm & Hsorted & HF).
  assert (Forall2 (λ b check, bc_budget_id check = budget_id b ∧
    scale (budget_remaining_amount b) = scale debit ∧ units debit <= units (budget_remaining_amount b) ∧
    units (bc_remaining_after_write check) = units (budget_remaining_amount b) - units debit)
    sorted (wp_budget_checks plan)) as HF'.
  { apply Forall2_same_length_lookup. split; [by eapply Forall2_length|].
    intros i b check Hb Hc. destruct (Forall2_lookup_lr _ _ _ _ _ _ HF Hb Hc) as (? & _ & _ & _ & ? & ? & Hp).
    rewrite (wps_budgets_passed _ _ _ _ _ _ Hs check (list_elem_of_lookup_2 _ _ _ Hc)) in Hp.
    symmetry in Hp. bool_to_prop. done. }
  cbn zeta. split_and!.
  - exists wallet. destruct Hs. done.
  - intros budget Hb Ha Hc. assert (budget ∈ sorted) as [i Hi]%list_elem_of_lookup_1.
    { rewrite Hperm. apply elem_of_filter_b. by rewrite Ha, bool_decide_true by done. }
    destruct (Forall2_lookup_l _ _ _ _ _ HF' Hi) as (check & _ & _ & ? & ? & _). done.
  - exists sorted. split_and!; [done..|]. eapply Forall2_impl; [exact HF'|].
    intros b check (? & ? & ? & ?). split_and!; [done..|lia].
Qed.

Definition sample_budget : ConsistentBudgetSnapshot :=
  mkConsistentBudgetSnapshot 301 Project "USD" (mkFixedDecimal 800 8) true.

Lemma planned_write_is_covered_witness :
  ∃ plan,
    @plan_consistent_ledger_write uuid_display_model
      (WriteReserve (mkConsistentLedgerScope 100 None None) 11 (mkFixedDecimal 500 8) "USD")
      (mkConsistentLedgerWriterState
        (Some (mkConsistentWalletSnapshot 200 "USD" (mkFixedDecimal 1000 8))) [] [sample_budget] []) = Ok plan ∧
    units (bw_required_debit (wp_balance_window plan)) <= 800.
Proof.
  eexists. split; [reflexivity|].
  destruct (@planned_write_is_covered uuid_display_model
    (WriteReserve (mkConsistentLedgerScope 100 None None) 11 (mkFixedDecimal 500 8) "USD")
    (mkConsistentLedgerWriterState
      (Some (mkConsistentWalletSnapshot 200 "USD" (mkFixedDecimal 1000 8))) [] [sample_budget] []) _ eq_refl)
    as (_ & Hb & _).
  exact (proj2 (Hb sample_budget (list_elem_of_here _ _) eq_refl eq_refl)).
Defined.

(** ** Command numbering *)

Lemma push_commands_spec {A} (command : Z → A → ConsistentLedgerBoundedCommand) kind items commands order :
  (∀ n item, cmd_order (command n item) = n ∧ cmd_kind (command n item) = kind) →
  0 <= order → order + Z.of_nat (length items) < 2 ^ 16 →
  ∃ new, push_commands command items (commands, order) = (commands ++ new, order + Z.of_nat (length items)) ∧
    cmd_order <$> new = seqZ order (Z.of_nat (length items)) ∧
    cmd_kind <$> new = replicate (length items) kind.
Proof.
  intros Hcmd. revert commands order. induction items as [|item items IH]; intros commands order H0 Hlt.
  - exists []. cbn. by rewrite app_nil_r, Z.add_0_r.
  - cbn [length] in Hlt. unfold push_commands in *. cbn [fold_left].
    assert (wrap_u16 (order + 1) = order + 1) as -> by (unfold wrap_u16; rewrite Z.mod_small; lia).
    destruct (IH (commands ++ [command order item]) (order + 1)) as (new & Hn & Ho & Hk); [lia..|].
    exists (command order item :: new). destruct (Hcmd order item) as [Hord Hkind].
    rewrite Hn, <-app_assoc, !fmap_cons, Ho, Hk, Hord, Hkind. cbn [length replicate app].
    split_and!; [f_equal; lia| |done].
    rewrite (seqZ_cons order) by lia. do 2 f_equal; lia.
Qed.

(** The commands of an applied plan are numbered consecutively from 1, and
    every assertion on the balance and the budgets comes before the first ledger
    write, as the executor contract demands; the numbering does not wrap while
    the plan has fewer than 65,535 commands. *)
Theorem bounded_commands_ordered (plan : ConsistentLedgerWriterPlan)
    (Hsize : Z.of_nat (length (wp_budget_checks plan) + length (lp_entries (wp_ledger_plan plan))
               + length (lp_status_updates (wp_ledger_plan plan))) < 2 ^ 16 - 2)
    (Happly : wp_outcome plan = OutcomeApply) :
  let commands := cp_commands (plan_consistent_ledger_write_commands plan) in
  cmd_order <$> commands = seqZ 1 (Z.of_nat (length commands)) ∧
  cmd_kind <$> commands =
    AssertBalanceWindow :: replicate (length (wp_budget_checks plan)) AssertBudgetWindow
    ++ replicate (length (lp_entries (wp_ledger_plan plan))) InsertLedgerEntry
    ++ replicate (length (lp_status_updates (wp_ledger_plan plan))) UpdateLedgerStatus.
Proof.
  unfold plan_consistent_ledger_write_commands. cbn [cp_commands]. rewrite Happly.
  unfold bounded_commands_for_plan. change (wrap_u16 (1 + 1)) with 2.
  rewrite !Nat2Z.inj_add in Hsize.
  destruct (push_commands_spec budget_assert_command AssertBudgetWindow (wp_budget_checks plan)
    [balance_assert_command 1 plan] 2) as (c1 & -> & Ho1 & Hk1); [done|lia..|].
  destruct (push_commands_spec insert_ledger_command InsertLedgerEntry (lp_entries (wp_ledger_plan plan))
    ([balance_assert_command 1 plan] ++ c1) (2 + Z.of_nat (length (wp_budget_checks plan))))
    as (c2 & -> & Ho2 & Hk2); [done|lia..|].
  destruct (push_commands_spec (λ order update, status_update_command order (su_ledger_entry_id update))
    UpdateLedgerStatus (lp_status_updates (wp_ledger_plan plan)) (([balance_assert_command 1 plan] ++ c1) ++ c2)
    (2 + Z.of_nat (length (wp_budget_checks plan)) + Z.of_nat (length (lp_entries (wp_ledger_plan plan)))))
    as (c3 & -> & Ho3 & Hk3); [done|lia..|].
  cbn [fst]. rewrite <-!app_assoc, !fmap_app, Ho1, Ho2, Ho3, Hk1, Hk2, Hk3. split; [|done].
  apply (f_equal length) in Hk1, Hk2, Hk3. rewrite length_fmap, length_replicate in Hk1, Hk2, Hk3.
  rewrite !length_app, Hk1, Hk2, Hk3. cbn [length Nat.add].
  replace (Z.of_nat (S _)) with
    (1 + (Z.of_nat (length (wp_budget_checks plan)) + (Z.of_nat (length (lp_entries (wp_ledger_plan plan)))
      + Z.of_nat (length (lp_status_updates (wp_ledger_plan plan)))))) by lia.
  rewrite !seqZ_app by lia. repeat f_equal; lia.
Qed.

Lemma bounded_commands_ordered_witness :
  ∃ plan,
    @plan_consistent_ledger_write uuid_display_model
      (WriteReserve (mkConsistentLedgerScope 100 None None) 11 (mkFixedDecimal 500 8) "USD")
      (mkConsistentLedgerWriterState
        (Some (mkConsistentWalletSnapshot 200 "USD" (mkFixedDecimal 1000 8))) [] [sample_budget] []) = Ok plan ∧
    cmd_order <$> cp_commands (plan_consistent_ledger_write_commands plan) = [1; 2; 3].
Proof.
  eexists. split; [reflexivity|].
  match goal with |- cmd_order <$> cp_commands (plan_consistent_ledger_write_commands ?p) = _ =>
    exact (proj1 (bounded_commands_ordered p ltac:(vm_compute; reflexivity) eq_refl)) end.
Defined.

(** ** Settling without a reservation *)

Lemma no_entries_no_reserve entries r :
  (∀ e, e ∈ entries → er_request_id e ≠ Some r) →
  pending_reserve_amount_for_request entries r = Ok (mkFixedDecimal 0 DEFAULT_MONEY_SCALE).
Proof.
  intros Hnone. unfold pending_reserve_amount_for_request.
  assert (List.find (λ e, bool_decide (er_request_id e = Some r)) entries = None) as ->.
  { apply find_None_iff. intros e He. by apply bool_decide_eq_false, Hnone. }
  assert (List.filter (is_pending_reserve_for r) entries = []) as ->; [|done].
  apply nil_length_inv. induction entries as [|e es IH]; [done|]. cbn.
  unfold is_pending_reserve_for at 1. rewrite bool_decide_false by (apply Hnone; by left). cbn.
  apply IH. intros x Hx. apply Hnone. by right.
Qed.

(** A settle of a request that has no entry in the ledger is only accepted
    at the default scale 8: the missing reservation is taken to be zero at the
    default scale instead of the scale of the cost, so at any other scale the
    write is rejected with a scale mismatch, whatever the wallet holds. *)
Theorem settle_without_reserve_needs_default_scale `{UuidDisplay} (scope : ConsistentLedgerScope)
    (r : Uuid) (cost : FixedDecimal) (currency : string) (state : ConsistentLedgerWriterState)
    (wallet : ConsistentWalletSnapshot) (lp : LedgerOperationPlan)
    (Hinner : plan_inner_ledger_write (WriteSettle scope r cost currency) (ws_ledger_entries state) = Ok lp)
    (Happly : lp_outcome lp = OutcomeApply)
    (Hwallet : ws_wallet state = Some wallet) (Hcur : wallet_currency wallet = currency)
    (Hnone : ∀ e, e ∈ ws_ledger_entries state → er_request_id e ≠ Some r)
    (Hscale : scale cost ≠ DEFAULT_MONEY_SCALE) :
  plan_consistent_ledger_write (WriteSettle scope r cost currency) state =
    Err (WE_ScaleMismatch (scale cost) DEFAULT_MONEY_SCALE).
Proof.
  unfold plan_consistent_ledger_write. rewrite Hinner, Hwallet. cbn. rewrite Hcur. decide_refl. cbn.
  rewrite Happly. cbn. rewrite no_entries_no_reserve by done. cbn.
  cbn in Hinner. destruct (plan_ledger_settle_Ok _ _ _ _ Hinner) as (_ & Hpos & _). cbn in Hpos.
  unfold fd_gtb, fd_compare. cbn. rewrite (proj2 (Z.compare_gt_iff _ _) Hpos).
  unfold checked_subtract, ensure_same_scale. cbn. by rewrite (proj2 (Z.eqb_neq _ _) Hscale).
Qed.

Lemma settle_without_reserve_needs_default_scale_witness :
  @plan_consistent_ledger_write uuid_display_model
    (WriteSettle (mkConsistentLedgerScope 100 None None) 11 (mkFixedDecimal 500 2) "USD")
    (mkConsistentLedgerWriterState
      (Some (mkConsistentWalletSnapshot 200 "USD" (mkFixedDecimal 1000 2))) [] [] [])
  = Err (WE_ScaleMismatch 2 8).
Proof.
  eapply (@settle_without_reserve_needs_default_scale uuid_display_model);
    [reflexivity|reflexivity|reflexivity|reflexivity|by intros e ?%elem_of_nil|discriminate].
Defined.
