(* ===== verification/LedgerInvariant.v ===== *)
(** The states the in-memory ledger writer can reach: the invariant every write
    preserves (unique ids and keys, at most one active reserve and settle per
    request, refunds within their debit), what a replayed request does in any
    later state, and how a write changes the balance. *)

From stdpp Require Import relations.
From S2P Require Export Writer.

#[local] Open Scope string_scope.
#[local] Open Scope list_scope.
#[local] Open Scope Z_scope.

(** ** The invariant *)

Definition is_debit_type (ty : LedgerEntryType) : bool :=
  match ty with EntryReserve | EntrySettle => true | EntryRefund | EntryAdjust => false end.

Definition is_refundable (s : LedgerEntryRecord) : Prop :=
  er_entry_type s = EntrySettle ∧ er_status s = Confirmed.

Record ledger_inv (entries : list LedgerEntryRecord) (next : Uuid) : Prop := {
  li_next : 0 < next;
  li_ids : NoDup (er_id <$> entries);
  li_range e : e ∈ entries → 0 < er_id e < next;
  li_keys : NoDup (er_idempotency_key <$> entries);
  li_unique ty r : is_debit_type ty = true →
    (length (List.filter (is_active_for ty r) entries) <= 1)%nat;
  li_debit e : e ∈ entries → is_debit_type (er_entry_type e) = true →
    0 < - units (er_amount e) <= i128_max ∧ scale (er_amount e) <= MAX_MONEY_SCALE;
  li_refund e : e ∈ entries → er_entry_type e = EntryRefund →
    0 < units (er_amount e) ∧
    ∃ s, s ∈ entries ∧ is_refundable s ∧ er_related_ledger_entry_id e = Some (er_id s) ∧
         er_currency e = er_currency s ∧ scale (er_amount e) = scale (er_amount s);
  li_settled s : s ∈ entries → is_refundable s →
    refunds_of (er_id s) entries <= - units (er_amount s);
}.

Definition writer_inv (w : InMemoryConsistentLedgerWriter) : Prop :=
  ledger_inv (ws_ledger_entries (im_state w)) (im_next_ledger_entry_id w).

(** The amounts of a request are [FixedDecimal] values. *)
Definition request_wf (request : ConsistentLedgerWriteRequest) : Prop :=
  match request with
  | WriteReserve _ _ amount _ | WriteSettle _ _ amount _
  | WriteRefundPartial _ _ _ amount _ | WriteAdminAdjustment _ _ _ _ amount _ => fd_wf amount
  | WriteRefundFull _ _ _ => True
  end.

(** ** Lemmas on released entries *)

Lemma elem_of_release r (es : list LedgerEntryRecord) e' :
  e' ∈ (release r <$> es) ↔ ∃ e, e ∈ es ∧ e' = release r e.
Proof. rewrite list_elem_of_fmap. naive_solver. Qed.

Lemma elem_of_release_2 r (es : list LedgerEntryRecord) e : e ∈ es → release r e ∈ (release r <$> es).
Proof. apply list_elem_of_fmap_2. Qed.

Lemma release_ids r (es : list LedgerEntryRecord) : er_id <$> (release r <$> es) = er_id <$> es.
Proof. rewrite <-list_fmap_compose. apply list_fmap_ext. intros ? e _. apply release_id. Qed.

Lemma release_keys r (es : list LedgerEntryRecord) :
  er_idempotency_key <$> (release r <$> es) = er_idempotency_key <$> es.
Proof. rewrite <-list_fmap_compose. apply list_fmap_ext. intros ? e _. apply release_fields. Qed.

Lemma release_other r e : er_entry_type e ≠ EntryReserve → release r e = e.
Proof.
  intros He. destruct r as [r|]; cbn; [|done]. unfold is_pending_reserve_for.
  rewrite (bool_decide_false (er_entry_type e = EntryReserve)) by done. by rewrite andb_false_r.
Qed.

Lemma release_active_for ty r r' e :
  is_active_for ty r (release r' e) = true → is_active_for ty r e = true.
Proof.
  destruct r' as [r'|]; cbn; [|done]. destruct (is_pending_reserve_for r' e); [|done].
  unfold is_active_for. cbn. by rewrite andb_false_r.
Qed.

Lemma is_refund_of_release id r e : is_refund_of id (release r e) = is_refund_of id e.
Proof.
  destruct (decide (er_entry_type e = EntryReserve)) as [Ht|Ht]; [|by rewrite release_other].
  unfold is_refund_of. destruct (release_fields r e) as (_ & -> & -> & _).
  rewrite (bool_decide_false (er_entry_type e = EntryRefund)) by congruence.
  by rewrite !andb_false_r.
Qed.

Lemma refunds_of_release id r (es : list LedgerEntryRecord) : refunds_of id (release r <$> es) = refunds_of id es.
Proof.
  unfold refunds_of. induction es as [|e es IH]; [done|].
  rewrite fmap_cons, !sum_units_cons, IH, is_refund_of_release.
  by destruct (release_fields r e) as (_ & _ & _ & -> & _).
Qed.

Lemma length_filter_release ty r r' (es : list LedgerEntryRecord) :
  (length (List.filter (is_active_for ty r) (release r' <$> es))
   <= length (List.filter (is_active_for ty r) es))%nat.
Proof.
  induction es as [|e es IH]; [done|]. rewrite fmap_cons. cbn.
  destruct (is_active_for ty r (release r' e)) eqn:Hr.
  - rewrite (release_active_for _ _ _ _ Hr). cbn. lia.
  - destruct (is_active_for ty r e); cbn; lia.
Qed.

Lemma find_by_key_None es key :
  find_by_idempotency_key es key = None ↔ key ∉ (er_idempotency_key <$> es).
Proof.
  unfold find_by_idempotency_key. rewrite find_None_iff, list_elem_of_fmap. split.
  - intros H (e & -> & He%H). by bool_to_prop.
  - intros H e He. apply bool_decide_eq_false. intros <-. eauto.
Qed.

(** The entry found by a key or an id is the only one that has it. *)
Lemma find_unique {A B} `{EqDecision B} (f : A → B) (p : A → bool) (l : list A) x :
  NoDup (f <$> l) → x ∈ l → (∀ y, p y = true ↔ f y = f x) → List.find p l = Some x.
Proof.
  intros Hnd Hx Hp. induction l as [|y l IH]; [by apply elem_of_nil in Hx|].
  rewrite fmap_cons in Hnd. apply NoDup_cons in Hnd as [Hy Hnd]. cbn.
  apply elem_of_cons in Hx as [<-|Hx].
  - by rewrite (proj2 (Hp x) eq_refl).
  - destruct (p y) eqn:E; [|by apply IH].
    apply Hp in E. destruct Hy. rewrite E. by apply list_elem_of_fmap_2.
Qed.

Lemma unique_id es e e' :
  NoDup (er_id <$> es) → e ∈ es → e' ∈ es → er_id e = er_id e' → e = e'.
Proof.
  intros Hnd He He' Heq.
  assert (List.find (λ x, er_id x =? er_id e) es = Some e) as H1.
  { apply (find_unique er_id); [done..|]. intros y. apply Z.eqb_eq. }
  assert (List.find (λ x, er_id x =? er_id e) es = Some e') as H2.
  { apply (find_unique er_id); [done..|]. intros y. rewrite Z.eqb_eq, Heq. done. }
  congruence.
Qed.

(** ** Preservation *)

Lemma inv_release r es next : ledger_inv es next → ledger_inv (release r <$> es) next.
Proof.
  intros []. constructor.
  - done.
  - by rewrite release_ids.
  - intros e' (e & He & ->)%elem_of_release. rewrite release_id. auto.
  - by rewrite release_keys.
  - intros ty q Hty. pose proof (length_filter_release ty q r es). pose proof (li_unique0 ty q Hty). lia.
  - intros e' (e & He & ->)%elem_of_release. destruct (release_fields r e) as (_ & _ & -> & -> & _). auto.
  - intros e' (e & He & ->)%elem_of_release.
    destruct (release_fields r e) as (_ & -> & -> & -> & -> & _). intros Ht.
    destruct (li_refund0 e He Ht) as (? & s & Hs & Hrs & Hrel & Hcur & Hsc). split; [done|].
    exists s. split_and!; try done. apply elem_of_release. exists s. split; [done|].
    rewrite release_other; [done|]. by destruct Hrs as [-> _].
  - intros s' (s & Hs & ->)%elem_of_release [Ht Hst]. rewrite refunds_of_release, release_id.
    destruct (release_fields r s) as (_ & _ & Hty & Ham & _). rewrite Hty in Ht. rewrite Ham.
    rewrite release_other in Hst by congruence. by apply li_settled0.
Qed.

(** What a new entry must satisfy to be appended. *)
Record entry_ok (es : list LedgerEntryRecord) (e : LedgerEntryRecord) : Prop := {
  eo_key : er_idempotency_key e ∉ (er_idempotency_key <$> es);
  eo_unique r : is_debit_type (er_entry_type e) = true → is_active_for (er_entry_type e) r e = true →
    ∀ x, x ∈ es → is_active_for (er_entry_type e) r x = false;
  eo_debit : is_debit_type (er_entry_type e) = true →
    0 < - units (er_amount e) <= i128_max ∧ scale (er_amount e) <= MAX_MONEY_SCALE;
  eo_refund : er_entry_type e = EntryRefund →
    0 < units (er_amount e) ∧
    ∃ s, s ∈ es ∧ is_refundable s ∧ er_related_ledger_entry_id e = Some (er_id s) ∧
         er_currency e = er_currency s ∧ scale (er_amount e) = scale (er_amount s) ∧
         refunds_of (er_id s) es + units (er_amount e) <= - units (er_amount s);
}.

Lemma is_active_for_type ty r e : is_active_for ty r e = true → er_entry_type e = ty.
Proof. unfold is_active_for. intros H. by bool_to_prop. Qed.

Lemma is_refund_of_type id e :
  is_refund_of id e = true → er_entry_type e = EntryRefund ∧ er_related_ledger_entry_id e = Some id.
Proof. unfold is_refund_of. intros H. by bool_to_prop. Qed.

Lemma refunds_of_app id es es' : refunds_of id (es ++ es') = refunds_of id es + refunds_of id es'.
Proof. apply sum_units_app. Qed.

Lemma refunds_of_push id es e :
  refunds_of id (es ++ [e]) = refunds_of id es + if is_refund_of id e then units (er_amount e) else 0.
Proof. unfold refunds_of. rewrite sum_units_app, sum_units_cons, sum_units_nil. lia. Qed.

(** No refund points to an id that has not been handed out. *)
Lemma no_refunds_yet es next : ledger_inv es next → refunds_of next es = 0.
Proof.
  intros Hinv. unfold refunds_of. rewrite (sum_units_ext _ (λ _, false)).
  - clear. induction es as [|e es IH]; [done|]. rewrite sum_units_cons, IH. done.
  - intros e He. destruct (is_refund_of next e) eqn:E; [|done].
    apply is_refund_of_type in E as [Ht Hrel].
    destruct (li_refund _ _ Hinv e He Ht) as (_ & s & Hs & _ & Hrel' & _).
    pose proof (li_range _ _ Hinv s Hs). assert (next = er_id s) by congruence. lia.
Qed.

Lemma inv_push es next e :
  ledger_inv es next → er_id e = next → entry_ok es e → ledger_inv (es ++ [e]) (next + 1).
Proof.
  intros Hinv Hid Hok. pose proof Hinv as []. destruct Hok. constructor.
  - lia.
  - rewrite fmap_app. apply NoDup_app. split_and!; [done| |apply NoDup_singleton].
    intros i (x & -> & Hx%li_range0)%list_elem_of_fmap ?%list_elem_of_singleton. lia.
  - intros x [Hx%li_range0|Hx%list_elem_of_singleton]%elem_of_app; [|subst x]; lia.
  - rewrite fmap_app. apply NoDup_app. split_and!; [done| |apply NoDup_singleton].
    intros k Hk Hk'%list_elem_of_singleton. by subst k.
  - intros ty r Hty. rewrite List.filter_app, length_app. cbn.
    destruct (is_active_for ty r e) eqn:E; [|pose proof (li_unique0 ty r Hty); cbn; lia].
    pose proof (is_active_for_type _ _ _ E). subst ty.
    rewrite filter_none by eauto. cbn. lia.
  - intros x [Hx|Hx%list_elem_of_singleton]%elem_of_app; [|subst x]; auto.
  - intros x [Hx|Hx%list_elem_of_singleton]%elem_of_app Ht; [|subst x].
    + destruct (li_refund0 x Hx Ht) as (? & s & Hs & ?). split; [done|]. exists s. split; [set_solver|done].
    + destruct (eo_refund0 Ht) as (? & s & Hs & ? & ? & ? & ? & _). split; [done|].
      exists s. split; [set_solver|done].
  - intros s Hs [Hst Hsc]. rewrite refunds_of_push. apply elem_of_app in Hs as [Hs|Hs%list_elem_of_singleton]; [|subst s].
    + pose proof (li_settled0 s Hs (conj Hst Hsc)).
      destruct (is_refund_of (er_id s) e) eqn:E; [|lia].
      apply is_refund_of_type in E as [Ht Hrel].
      destruct (eo_refund0 Ht) as (_ & s' & Hs' & _ & Hrel' & _ & _ & Hle).
      assert (s' = s) as -> by (apply (unique_id es); congruence). done.
    + rewrite Hid, (no_refunds_yet es next) by done.
      destruct (is_refund_of next e) eqn:E; [apply is_refund_of_type in E as [? _]; congruence|].
      rewrite Hst in eo_debit0. destruct (eo_debit0 eq_refl). lia.
Qed.

Section steps.
Context {U : UuidDisplay}.

(** The entry a request drafts can be appended once the reserves are released. *)
Lemma refund_entry_ok request refund source es next draft id :
  ledger_inv es next → ed_idempotency_key draft ∉ (er_idempotency_key <$> es) →
  refund_draft_spec request es refund source draft →
  entry_ok es (record_of_draft id draft).
Proof.
  intros Hinv Hkey Hs. destruct (refund_draft_fields _ _ _ _ _ Hs) as (_ & Hrel & Ht & Hc & _ & _).
  destruct Hs. constructor; cbn; rewrite ?Ht; try done. intros _. split; [done|].
  destruct (find_refund_source_elem _ _ _ rds_source) as [Hin _].
  apply find_refund_source_Ok in rds_source as (_ & Hty & Hst & _).
  exists source. rewrite Hrel, Hc. split_and!; try done.
  rewrite <-counted_refunds_nil; [done|]. intros e He. pose proof (li_range _ _ Hinv e He).
  unfold uuid_nil. lia.
Qed.

Lemma draft_entry_ok request es next draft id :
  ledger_inv es next → request_wf request →
  find_by_idempotency_key es (request_idempotency_key request) = None →
  ed_idempotency_key draft = request_idempotency_key request →
  draft_spec request es draft →
  entry_ok (release (released_request request) <$> es) (record_of_draft id draft).
Proof.
  intros Hinv Hwf Hfresh Hkey Hd. apply find_by_key_None in Hfresh. rewrite <-Hkey in Hfresh.
  destruct request as [sc r a c|sc r a c|sc rel c|sc rel op a c|sc op r rel a c];
    cbn [released_request]; rewrite ?release_None.
  - destruct Hd as ((_ & Hp & Hr & Hs) & -> & _ & Hnone). destruct Hwf as [Hwf _].
    constructor; cbn in *; try done; [|intros _; split; [width_lia|done]].
    intros q _ Hq x Hx. assert (q = r) as ->; [|auto].
    unfold is_active_for in Hq. cbn in Hq. bool_to_prop. congruence.
  - destruct Hd as ((_ & Hp & Hr & Hs) & -> & Hnone & _). destruct Hwf as [Hwf _].
    constructor; cbn in *; [|intros q _ Hq x|intros _; split; [width_lia|done]|done].
    { by rewrite release_keys. }
    intros (x' & Hx & ->)%elem_of_release. assert (q = r) as ->.
    { unfold is_active_for in Hq. cbn in Hq. bool_to_prop. congruence. }
    apply not_true_iff_false. intros Hact%release_active_for. by rewrite Hnone in Hact.
  - destruct Hd as (refund & source & _ & Hs). by eapply refund_entry_ok.
  - destruct Hd as (refund & source & _ & Hs). by eapply refund_entry_ok.
  - destruct Hd as (_ & _ & ->). constructor; cbn in *; done.
Qed.

(** ** Steps of the writer *)

Definition writer_after (w : InMemoryConsistentLedgerWriter) (request : ConsistentLedgerWriteRequest)
    : InMemoryConsistentLedgerWriter :=
  fst (execute_consistent_ledger_write w request).

Inductive writer_step : InMemoryConsistentLedgerWriter → InMemoryConsistentLedgerWriter → Prop :=
| writer_step_execute w request : request_wf request → writer_step w (writer_after w request).

(** A step leaves the writer alone, or releases reserves and appends at most
    one entry. *)
Lemma step_shape w request :
  writer_inv w → request_wf request →
  writer_after w request = w ∨
  writer_inv (writer_after w request) ∧
  ∃ r new, ws_ledger_entries (im_state (writer_after w request)) =
    (release r <$> ws_ledger_entries (im_state w)) ++ new.
Proof.
  intros Hinv Hwf. pose proof Hinv as Hinv'. destruct Hinv' as [Hn Hids _ _ _ _ _ _].
  pose proof (execute_cases w request) as Hex. unfold writer_after.
  destruct (execute_consistent_ledger_write w request) as [w' ex]. cbn.
  destruct Hex as [(? & _ & -> & _)|(plan & Hplan & Hex)]; [by left|].
  destruct (wp_outcome plan) eqn:Ho; [|left; by destruct Hex]. right.
  destruct (execute_apply w request plan Hids ltac:(lia) Hplan Ho)
    as (wallet & debit & credit & draft & _ & _ & Hfresh & Hkey & _ & Hd & Happ).
  rewrite Happ in Hex. destruct Hex as [-> _].
  pose proof (inv_release (released_request request) _ _ Hinv) as Hrel.
  destruct (_ <? _); unfold writer_inv; cbn; (split; [|eauto]).
  - apply inv_push; [done|done|]. by eapply draft_entry_ok.
  - done.
  - eexists _, []. by rewrite app_nil_r.
Qed.

Lemma step_inv w w' : writer_inv w → writer_step w w' → writer_inv w'.
Proof.
  intros Hinv Hstep. destruct Hstep as [w request Hwf].
  destruct (step_shape _ request Hinv Hwf) as [->|[? _]]; done.
Qed.

Lemma steps_inv w w' : writer_inv w → rtc writer_step w w' → writer_inv w'.
Proof. intros Hinv Hsteps. induction Hsteps as [|w1 w2 w3 Hstep _ IH]; [done|]. eauto using step_inv. Qed.

Lemma run_steps w requests :
  Forall request_wf requests → rtc writer_step w (foldl writer_after w requests).
Proof.
  intros HF. revert w. induction HF as [|request requests Hwf _ IH]; intros w; cbn; [done|].
  eapply rtc_l; [by constructor|]. apply IH.
Qed.

Lemma empty_inv wallet grants budgets next :
  0 < next →
  writer_inv (mkInMemoryConsistentLedgerWriter (mkConsistentLedgerWriterState wallet grants budgets []) next).
Proof.
  intros. constructor; cbn; try (done || apply NoDup_nil_2);
    first [intros e ?%elem_of_nil; done|intros; lia].
Qed.

(** ** Replays *)

(** A refund of the settle [s] recorded as the entry [e]. *)
Definition refund_answered (related : Uuid) (currency : string) (e s : LedgerEntryRecord)
    (es : list LedgerEntryRecord) : Prop :=
  validate_currency currency = Ok () ∧
  er_related_ledger_entry_id e = Some related ∧ er_entry_type e = EntryRefund ∧
  er_status e = Confirmed ∧ er_currency e = currency ∧
  s ∈ es ∧ er_id s = related ∧ is_refundable s ∧ er_currency s = currency.

(** The ledger already holds the effect of [request], as entry [id]. *)
Definition answered (request : ConsistentLedgerWriteRequest) (es : list LedgerEntryRecord) (id : Uuid) : Prop :=
  ∃ e, e ∈ es ∧ er_id e = id ∧ er_idempotency_key e = request_idempotency_key request ∧
  match request with
  | WriteReserve _ r amount currency =>
      debit_request_ok amount currency ∧
      ∃ status, status ≠ Confirmed ∧
        e = with_status (record_of_draft id (reserve_draft (mkReserveLedgerRequest r amount currency))) status
  | WriteSettle _ r cost currency =>
      debit_request_ok cost currency ∧
      e = record_of_draft id (settle_draft (mkSettleLedgerRequest r cost currency) (metadata_settle r))
  | WriteRefundFull _ related currency =>
      ∃ s, refund_answered related currency e s es ∧ refunds_of related es = - units (er_amount s)
  | WriteRefundPartial _ related _ amount currency =>
      ∃ s, refund_answered related currency e s es ∧ er_amount e = amount
  | WriteAdminAdjustment _ op r related amount currency =>
      validate_currency currency = Ok () ∧ units amount ≠ 0 ∧
      e = record_of_draft id (adjustment_draft (mkAdminAdjustmentLedgerRequest op r related amount currency))
  end.

Lemma refund_answered_after request es next refund source draft id :
  ledger_inv es next → refund_draft_spec request es refund source draft →
  validate_currency (nr_currency refund) = Ok () →
  refund_answered (refund_source_id request) (nr_currency refund) (record_of_draft id draft) source
    (es ++ [record_of_draft id draft]) ∧
  refunds_of (er_id source) (es ++ [record_of_draft id draft]) =
    refunds_of (er_id source) es + units (ed_amount draft).
Proof.
  intros Hinv Hs Hc. destruct (refund_draft_fields _ _ _ _ _ Hs) as (_ & Hrel & Ht & Hcur & Hst & _).
  destruct (find_refund_source_elem _ _ _ (rds_source _ _ _ _ _ Hs)) as [Hin Hid].
  pose proof (rds_source _ _ _ _ _ Hs) as (_ & Hty & Hstat & _)%find_refund_source_Ok.
  pose proof (rds_currency _ _ _ _ _ Hs) as Hcur'.
  split.
  - split_and!; cbn; try congruence; [set_solver|done].
  - rewrite refunds_of_push. unfold is_refund_of. cbn. rewrite Hrel, Ht, Hst, !bool_decide_true by done. done.
Qed.

Lemma plan_refund_currency request es lp refund :
  plan_ledger_refund request es = Ok lp → normalize_refund_request request = Ok refund →
  validate_currency (nr_currency refund) = Ok ().
Proof.
  unfold plan_ledger_refund. intros H Hn. rewrite Hn in H. cbn in H. inv_ok. by destruct a.
Qed.

Lemma answered_after request w wallet plan debit credit draft :
  writer_inv w → write_plan_spec request (im_state w) plan wallet debit credit →
  ed_idempotency_key draft = request_idempotency_key request →
  draft_spec request (ws_ledger_entries (im_state w)) draft →
  answered request (ledger_after request (ws_ledger_entries (im_state w)) (im_next_ledger_entry_id w) draft)
    (im_next_ledger_entry_id w).
Proof.
  intros Hinv Hplan Hkey Hd. exists (record_of_draft (im_next_ledger_entry_id w) draft).
  split_and!; [unfold ledger_after; set_solver|done|done|].
  pose proof (wps_inner _ _ _ _ _ _ Hplan) as Hin. unfold ledger_after.
  destruct request as [sc r a c|sc r a c|sc rel c|sc rel op a c|sc op r rel a c];
    cbn [released_request]; rewrite ?release_None; cbn [plan_inner_ledger_write] in Hin.
  - destruct Hd as (? & -> & _). split; [done|]. by exists Pending.
  - by destruct Hd as (? & -> & _).
  - destruct Hd as (refund & source & Hn & Hs).
    pose proof (plan_refund_currency _ _ _ _ Hin Hn) as Hc. pose proof Hs as Hs'.
    cbn in Hn. injection Hn as <-.
    eapply (refund_answered_after _ _ _ _ _ _ (im_next_ledger_entry_id w)) in Hs' as [Hra Hsum]; [|done..].
    exists source. split; [done|]. pose proof Hra as (_ & _ & _ & _ & _ & _ & Hid & _). cbn in Hid.
    rewrite <-Hid, Hsum, <-(counted_refunds_nil (er_id source)); [by apply (rds_full _ _ _ _ _ Hs)|].
    intros e He. pose proof (li_range _ _ Hinv e He). unfold uuid_nil. lia.
  - destruct Hd as (refund & source & Hn & Hs).
    pose proof (plan_refund_currency _ _ _ _ Hin Hn) as Hc. pose proof Hs as Hs'.
    cbn in Hn. injection Hn as <-.
    eapply (refund_answered_after _ _ _ _ _ _ (im_next_ledger_entry_id w)) in Hs' as [Hra _]; [|done..].
    exists source. split; [done|]. pose proof (rds_partial _ _ _ _ _ Hs eq_refl) as Hp. cbn in Hp. by injection Hp.
  - by destruct Hd as (? & ? & ->).
Qed.

Lemma refund_answered_stable related currency e s es r new :
  refund_answered related currency e s es →
  refund_answered related currency (release r e) s ((release r <$> es) ++ new).
Proof.
  intros (? & ? & Ht & ? & ? & Hs & ? & Hrs & ?). rewrite release_other by congruence.
  split_and!; try done. apply elem_of_app. left. apply elem_of_release. exists s.
  split; [done|]. rewrite release_other; [done|]. by destruct Hrs as [-> _].
Qed.

Lemma refunds_of_nonneg es next id new :
  ledger_inv es next → (∀ e, e ∈ new → e ∈ es) → 0 <= refunds_of id new.
Proof.
  intros Hinv Hsub. apply sum_units_nonneg. intros e He [Ht _]%is_refund_of_type.
  destruct (li_refund _ _ Hinv e (Hsub e He) Ht). lia.
Qed.

Lemma answered_stable request es id r new next :
  answered request es id → ledger_inv ((release r <$> es) ++ new) next →
  answered request ((release r <$> es) ++ new) id.
Proof.
  intros (e & He & Hid & Hkey & Hm) Hinv. exists (release r e).
  destruct (release_fields r e) as (_ & _ & _ & Ham & _ & Hk).
  rewrite release_id, Hk. split_and!; try done. { apply elem_of_app. left. by apply elem_of_release_2. }
  destruct request as [sc q a c|sc q a c|sc rel c|sc rel op a c|sc op q rel a c].
  - destruct Hm as (? & st & Hst & ->). split; [done|]. destruct r as [r|]; cbn; [|eauto].
    destruct (is_pending_reserve_for _ _); [by exists Reversed|eauto].
  - destruct Hm as (? & ->). by rewrite release_other.
  - destruct Hm as (s & Hra & Hsum). apply (refund_answered_stable _ _ _ _ _ r new) in Hra.
    exists s. split; [done|]. destruct Hra as (_ & _ & _ & _ & _ & Hs & Hsid & Hrs & _).
    pose proof (li_settled _ _ Hinv s Hs Hrs) as Hle. rewrite Hsid in Hle.
    rewrite refunds_of_app, refunds_of_release in *.
    assert (0 <= refunds_of rel new) by (eapply refunds_of_nonneg; [done|set_solver]). lia.
  - destruct Hm as (s & Hra & ?). exists s. rewrite Ham. split; [by apply refund_answered_stable|done].
  - destruct Hm as (? & ? & ->). by rewrite release_other.
Qed.

Lemma matches_own_draft id draft status :
  status = ed_status draft ∨ (ed_entry_type draft = EntryReserve ∧ ed_status draft = Pending ∧ status = Reversed) →
  ensure_existing_matches_draft (with_status (record_of_draft id draft) status) draft = Ok ().
Proof.
  intros Hst. unfold ensure_existing_matches_draft. cbn.
  destruct Hst as [->|(-> & -> & ->)]; decide_refl; cbn; by rewrite ?orb_true_r.
Qed.

Lemma matches_record id draft : ensure_existing_matches_draft (record_of_draft id draft) draft = Ok ().
Proof. apply (matches_own_draft id draft (ed_status draft)). by left. Qed.

Lemma find_answer es e key :
  NoDup (er_idempotency_key <$> es) → e ∈ es → er_idempotency_key e = key →
  find_by_idempotency_key es key = Some e.
Proof.
  intros Hnd He <-. apply (find_unique er_idempotency_key); [done..|].
  intros y. apply bool_decide_eq_true.
Qed.

(** The refunds of [s] without [e]. *)
Lemma counted_refunds_excluding es s e :
  NoDup (er_id <$> es) → e ∈ es → is_refund_of s e = true →
  counted_refunds s (er_id e) es = refunds_of s es - units (er_amount e).
Proof.
  unfold counted_refunds, refunds_of. intros Hnd He Hr. induction es as [|x es IH]; [by apply elem_of_nil in He|].
  rewrite fmap_cons in Hnd. apply NoDup_cons in Hnd as [Hx Hnd]. rewrite !sum_units_cons.
  assert (is_counted_refund s (er_id e) x = negb (er_id x =? er_id e) && is_refund_of s x) as ->.
  { unfold is_counted_refund, is_refund_of. by destruct (bool_decide _), (_ =? _). }
  apply elem_of_cons in He as [<-|He].
  - rewrite Z.eqb_refl, Hr. cbn. rewrite (sum_units_ext _ (is_refund_of s)); [lia|].
    intros y Hy. unfold is_counted_refund, is_refund_of.
    assert (er_id y ≠ er_id e) as ->%Z.eqb_neq by (intros E; apply Hx; rewrite <-E; by apply list_elem_of_fmap_2).
    by destruct (bool_decide _).
  - assert (er_id x ≠ er_id e) as ->%Z.eqb_neq by (intros E; apply Hx; rewrite E; by apply list_elem_of_fmap_2).
    rewrite IH by done. cbn. lia.
Qed.

Lemma refund_replay es next e s related currency refund :
  ledger_inv es next → e ∈ es → refund_answered related currency e s es →
  nr_related_ledger_entry_id refund = related → nr_currency refund = currency →
  match nr_amount refund with
  | None => refunds_of related es = - units (er_amount s)
  | Some amount => er_amount e = amount
  end →
  find_refund_source es related = Ok s ∧ er_currency s = currency ∧
  ∃ remaining,
    remaining_refundable_amount_excluding s es (er_id e) = Ok remaining ∧
    ensure_existing_matches_refund e refund remaining = Ok ().
Proof.
  intros Hinv He (Hc & Hrel & Ht & Hst & Hcur & Hs & Hsid & [Hty Hstat] & Hscur) Hr Hrc Hamount.
  destruct (li_debit _ _ Hinv s Hs) as [Hneg Hsc]; [by rewrite Hty|].
  assert (is_refund_of (er_id s) e = true) as Hrefund.
  { unfold is_refund_of. rewrite Hrel, Ht, Hst, Hsid, !bool_decide_true by done. done. }
  pose proof (counted_refunds_excluding es (er_id s) e (li_ids _ _ Hinv) He Hrefund) as Hcount.
  destruct (li_refund _ _ Hinv e He Ht) as (Hpos & s' & Hs' & _ & Hrel' & _ & Hescale).
  assert (s' = s) as -> by (apply (unique_id es); [apply Hinv|done..|congruence]).
  assert (∀ x, x ∈ es → is_counted_refund (er_id s) (er_id e) x = true →
    0 < units (er_amount x) ∧ scale (er_amount x) = scale (er_amount s)) as Hall.
  { intros x Hx Hcx. unfold is_counted_refund in Hcx. bool_to_prop.
    destruct (li_refund _ _ Hinv x Hx) as (? & s'' & Hs'' & _ & Hrel'' & _ & ?); [done|].
    assert (s'' = s) as -> by (apply (unique_id es); [apply Hinv|done..|congruence]). done. }
  assert (0 <= counted_refunds (er_id s) (er_id e) es) as Hnn.
  { apply sum_units_nonneg. intros x Hx Hcx. destruct (Hall x Hx Hcx). lia. }
  pose proof (li_settled _ _ Hinv s Hs (conj Hty Hstat)) as Hle.
  split_and!; [|done|].
  { apply find_refund_source_Ok. split_and!; try done; [|lia]. rewrite <-Hsid.
    apply (find_unique er_id); [apply Hinv|done|]. intros y. apply Z.eqb_eq. }
  eexists. split; [apply remaining_excluding_ok; [done|done|lia|lia]|].
  unfold ensure_existing_matches_refund. rewrite !(bool_decide_true (_ = _)) by congruence.
  rewrite (proj2 (Z.ltb_lt _ _) Hpos). cbn. rewrite bool_decide_true; [done|].
  destruct (nr_amount refund); cbn; [done|]. rewrite Hcount, Hsid, Hamount.
  destruct (er_amount e) as [u sc]; cbn in *. f_equal; [lia|done].
Qed.

(** A request whose effect is in the ledger is planned as a replay of it. *)
Lemma answered_replay request es next id :
  ledger_inv es next → answered request es id →
  plan_inner_ledger_write request es =
    Ok (idempotent_plan (request_operation request) (request_idempotency_key request) id).
Proof.
  intros Hinv (e & He & <- & Hkey & Hm).
  pose proof (find_answer _ _ _ (li_keys _ _ Hinv) He Hkey) as Hfind.
  destruct request as [sc q a c|sc q a c|sc rel c|sc rel op a c|sc op q rel a c];
    cbn [plan_inner_ledger_write request_operation request_idempotency_key] in *.
  - destruct Hm as (Hok & st & Hst & Heq). rewrite plan_ledger_reserve_eq by done. cbn.
    rewrite Hfind, Heq, matches_own_draft; [done|]. cbn. destruct st; naive_solver.
  - destruct Hm as (Hok & Heq). unfold plan_ledger_settle. rewrite plan_ledger_settle_eq by done. cbn.
    by rewrite Hfind, Heq, matches_record.
  - destruct Hm as (s & Hra & Hsum).
    destruct (refund_replay _ _ _ _ _ _ (mkNormalizedRefundRequest rel None c RefundKindFull OpRefund
      (refund_ledger_idempotency_key rel)) Hinv He Hra eq_refl eq_refl Hsum)
      as (Hsrc & Hcur & remaining & Hrem & Hmatch).
    destruct Hra as [Hc _]. unfold plan_ledger_refund. cbn in *. rewrite Hc. cbn.
    rewrite Hsrc. cbn. rewrite Hcur. decide_refl. cbn. rewrite Hfind, Hrem. cbn. by rewrite Hmatch.
  - destruct Hm as (s & Hra & Ham).
    destruct (refund_replay _ _ _ _ _ _ (mkNormalizedRefundRequest rel (Some a) c RefundKindPartial OpRefundPartial
      (refund_partial_ledger_idempotency_key rel op)) Hinv He Hra eq_refl eq_refl Ham)
      as (Hsrc & Hcur & remaining & Hrem & Hmatch).
    destruct Hra as [Hc _]. unfold plan_ledger_refund. cbn in *. rewrite Hc. cbn.
    rewrite Hsrc. cbn. rewrite Hcur. decide_refl. cbn. rewrite Hfind, Hrem. cbn. by rewrite Hmatch.
  - destruct Hm as (Hc & Hz & Heq). rewrite plan_ledger_adjustment_eq by done. cbn.
    by rewrite Hfind, Heq, matches_record.
Qed.

Lemma answered_steps request w w' id :
  writer_inv w → answered request (ws_ledger_entries (im_state w)) id → rtc writer_step w w' →
  answered request (ws_ledger_entries (im_state w')) id.
Proof.
  intros Hinv Ha Hsteps. induction Hsteps as [|w1 w2 w3 Hstep _ IH]; [done|].
  apply IH; [by eapply step_inv|]. destruct Hstep as [w1 request' Hwf].
  destruct (step_shape w1 request' Hinv Hwf) as [->|(Hinv' & r & new & Heq)]; [done|].
  unfold writer_inv in Hinv'. rewrite Heq in *. by eapply answered_stable.
Qed.

(** A replay is never applied, whatever the rest of the planning decides. *)
Lemma idempotent_unchanged w request op key id :
  plan_inner_ledger_write request (ws_ledger_entries (im_state w)) = Ok (idempotent_plan op key id) →
  writer_after w request = w.
Proof.
  intros Hin. unfold writer_after. pose proof (execute_cases w request) as Hex.
  destruct (execute_consistent_ledger_write w request) as [w' ex]. cbn.
  destruct Hex as [(? & _ & -> & _)|(plan & Hplan & Hex)]; [done|].
  destruct (plan_write_Ok _ _ _ Hplan) as (wallet & debit & credit & Hs).
  rewrite (wps_outcome _ _ _ _ _ _ Hs) in Hex. pose proof (wps_inner _ _ _ _ _ _ Hs) as Hin'.
  rewrite Hin in Hin'. injection Hin' as Hin'. rewrite <-Hin' in Hex. by destruct Hex.
Qed.

Lemma applied_shape w request :
  writer_inv w → ex_outcome (snd (execute_consistent_ledger_write w request)) = Applied →
  ∃ plan wallet debit credit draft,
    plan_consistent_ledger_write request (im_state w) = Ok plan ∧
    write_plan_spec request (im_state w) plan wallet debit credit ∧
    lp_outcome (wp_ledger_plan plan) = OutcomeApply ∧ lp_entries (wp_ledger_plan plan) = [draft] ∧
    ed_idempotency_key draft = request_idempotency_key request ∧
    ed_currency draft = request_currency request ∧
    draft_spec request (ws_ledger_entries (im_state w)) draft ∧
    writer_after w request =
      {| im_state := im_state (set_ledger_entries w
           (ledger_after request (ws_ledger_entries (im_state w)) (im_next_ledger_entry_id w) draft));
         im_next_ledger_entry_id := im_next_ledger_entry_id w + 1 |}.
Proof.
  intros Hinv Happ. unfold writer_after. pose proof (execute_cases w request) as Hex.
  destruct (execute_consistent_ledger_write w request) as [w' ex]. cbn in *.
  destruct Hex as [(? & _ & _ & ?)|(plan & Hplan & Hex)]; [congruence|].
  destruct (wp_outcome plan) eqn:Ho; [|destruct Hex; congruence].
  destruct (execute_apply w request plan (li_ids _ _ Hinv) ltac:(pose proof (li_next _ _ Hinv); lia) Hplan Ho)
    as (wallet & debit & credit & draft & Hs & He & _ & Hkey & Hc & Hd & Heq).
  exists plan, wallet, debit, credit, draft. rewrite Heq in Hex.
  rewrite <-(wps_outcome _ _ _ _ _ _ Hs). destruct (_ <? _); destruct Hex as [-> Hex]; [done|].
  cbn in Hex. congruence.
Qed.
End steps.

(** ** Properties *)

(** C6: every state the writer reaches satisfies the ledger invariant: ids and
    idempotency keys are unique, every id is below the next one to be handed out,
    a request has at most one active reserve and at most one active settle, debits
    are negative, each refund belongs to a confirmed settle of the same currency
    and scale, and the active refunds of a settle never exceed its debit. *)
Theorem reachable_ledger_invariant `{UuidDisplay} (w w' : InMemoryConsistentLedgerWriter)
    (Hinv : writer_inv w) (Hsteps : rtc writer_step w w') : writer_inv w'.
Proof. by eapply steps_inv. Qed.

(** C11: an applied request can be repeated safely. In every state reached after
    it was applied, whatever was written in between, the planner recognises the
    same request as a replay of the entry it created, and executing it again
    leaves the writer as it is. *)
Theorem replay_is_idempotent `{UuidDisplay} (w w' : InMemoryConsistentLedgerWriter)
    (request : ConsistentLedgerWriteRequest)
    (Hinv : writer_inv w) (Hwf : request_wf request)
    (Happ : ex_outcome (snd (execute_consistent_ledger_write w request)) = Applied)
    (Hsteps : rtc writer_step (writer_after w request) w') :
  plan_inner_ledger_write request (ws_ledger_entries (im_state w')) =
    Ok (idempotent_plan (request_operation request) (request_idempotency_key request)
          (im_next_ledger_entry_id w)) ∧
  writer_after w' request = w'.
Proof.
  destruct (applied_shape w request Hinv Happ)
    as (plan & wallet & debit & credit & draft & _ & Hs & _ & _ & Hkey & _ & Hd & Hw).
  assert (writer_inv (writer_after w request)) as Hinv1 by (eapply step_inv; [done|by constructor]).
  assert (answered request (ws_ledger_entries (im_state w')) (im_next_ledger_entry_id w)) as Ha.
  { eapply answered_steps; [done| |done]. rewrite Hw. cbn. by eapply answered_after. }
  assert (writer_inv w') as Hinv' by (by eapply steps_inv).
  pose proof (answered_replay _ _ _ _ Hinv' Ha) as Hp. split; [done|]. by eapply idempotent_unchanged.
Qed.

(** C7: balance conservation. An applied write changes the tenant's available
    balance (wallet, active grants, active ledger entries) from the window's
    [available_before_write] to exactly its [available_after_write], plus the part
    of the reservation that a cheaper settle gives back. A write that needs a
    debit is covered by the balance before it, so a non-negative balance stays
    non-negative. *)
Theorem applied_write_balance `{UuidDisplay} (w : InMemoryConsistentLedgerWriter)
    (request : ConsistentLedgerWriteRequest) (Hinv : writer_inv w)
    (Happ : ex_outcome (snd (execute_consistent_ledger_write w request)) = Applied) :
  ∃ plan wallet,
    plan_consistent_ledger_write request (im_state w) = Ok plan ∧ ws_wallet (im_state w) = Some wallet ∧
    let window := wp_balance_window plan in
    let before := available_units (request_currency request) wallet (im_state w) in
    let after := available_units (request_currency request) wallet (im_state (writer_after w request)) in
    units (bw_available_before_write window) = before ∧
    units (bw_available_after_write window)
      = before - units (bw_required_debit window) + units (bw_refund_credit window) ∧
    after = units (bw_available_after_write window)
            + settle_surplus request (ws_ledger_entries (im_state w)) ∧
    0 <= settle_surplus request (ws_ledger_entries (im_state w)) ∧
    (0 < units (bw_required_debit window) → units (bw_required_debit window) <= before) ∧
    (0 <= before → 0 <= after).
Proof.
  destruct (applied_shape w request Hinv Happ)
    as (plan & wallet & debit & credit & draft & Hp & Hs & Ho & He & _ & Hc & Hd & ->).
  exists plan, wallet. split_and!; [done|by eapply wps_wallet|]. cbn zeta.
  destruct (write_effect _ _ _ _ _ _ _ Hs Ho He Hd) as (Hdeb & Hcred & Heff).
  destruct (balance_window_Ok _ _ _ _ _ _ (wps_window _ _ _ _ _ _ Hs)) as (-> & -> & _ & _ & _ & -> & -> & _).
  unfold available_units in *. cbn. rewrite (sum_active_after _ _ _ _ Hd Hc).
  assert (0 <= settle_surplus request (ws_ledger_entries (im_state w))) by (destruct request; cbn; lia).
  pose proof (wps_passed _ _ _ _ _ _ Hs) as Hcov. unfold available_units in Hcov.
  split_and!; try done; lia.
Qed.

(** A write that is not applied has no effect: when the execution reports
    [Idempotent] or [Rejected], the writer is exactly what it was, as long as an
    id is left to hand out. *)
Theorem unapplied_write_unchanged `{UuidDisplay} (w : InMemoryConsistentLedgerWriter)
    (request : ConsistentLedgerWriteRequest) (Hinv : writer_inv w)
    (Hid : im_next_ledger_entry_id w < u128_max)
    (Hout : ex_outcome (snd (execute_consistent_ledger_write w request)) ≠ Applied) :
  writer_after w request = w.
Proof.
  unfold writer_after. pose proof (execute_cases w request) as Hex.
  destruct (execute_consistent_ledger_write w request) as [w' ex]. cbn in *.
  destruct Hex as [(? & _ & -> & _)|(plan & Hplan & Hex)]; [done|].
  destruct (wp_outcome plan) eqn:Ho; [|by destruct Hex]. exfalso.
  destruct (execute_apply w request plan (li_ids _ _ Hinv) ltac:(pose proof (li_next _ _ Hinv); lia) Hplan Ho)
    as (? & ? & ? & ? & _ & _ & _ & _ & _ & _ & Heq).
  rewrite Heq, (proj2 (Z.ltb_lt _ _) Hid) in Hex. by destruct Hex as [_ ?].
Qed.

(** ** Concrete runs *)

Definition sample_scope : ConsistentLedgerScope := mkConsistentLedgerScope 100 None None.

Definition sample_wallet : ConsistentWalletSnapshot :=
  mkConsistentWalletSnapshot 200 "USD" (mkFixedDecimal 10000 8).

Definition sample_writer : InMemoryConsistentLedgerWriter :=
  mkInMemoryConsistentLedgerWriter (mkConsistentLedgerWriterState (Some sample_wallet) [] [] []) 1.

Definition sample_reserve : ConsistentLedgerWriteRequest :=
  WriteReserve sample_scope 11 (mkFixedDecimal 500 8) "USD".

Definition sample_settle_request : ConsistentLedgerWriteRequest :=
  WriteSettle sample_scope 11 (mkFixedDecimal 400 8) "USD".

Definition sample_refund_request : ConsistentLedgerWriteRequest :=
  WriteRefundPartial sample_scope 2 12 (mkFixedDecimal 100 8) "USD".

Lemma sample_writer_inv : writer_inv sample_writer.
Proof. by apply empty_inv. Qed.

Lemma sample_requests_wf : Forall request_wf [sample_reserve; sample_settle_request; sample_refund_request].
Proof. repeat constructor; cbn; width_lia || (unfold MAX_MONEY_SCALE; lia). Qed.

Definition sample_after (requests : list ConsistentLedgerWriteRequest) : InMemoryConsistentLedgerWriter :=
  foldl (@writer_after uuid_display_model) sample_writer requests.

Lemma reachable_ledger_invariant_witness :
  writer_inv (sample_after [sample_reserve; sample_settle_request; sample_refund_request]) ∧
  (er_status <$> ws_ledger_entries (im_state
     (sample_after [sample_reserve; sample_settle_request; sample_refund_request])))
    = [Reversed; Confirmed; Confirmed].
Proof.
  split; [|vm_compute; reflexivity].
  apply (@reachable_ledger_invariant uuid_display_model sample_writer); [apply sample_writer_inv|].
  apply run_steps, sample_requests_wf.
Defined.

Lemma replay_is_idempotent_witness :
  @writer_after uuid_display_model (sample_after [sample_reserve; sample_settle_request; sample_refund_request])
    sample_reserve
  = sample_after [sample_reserve; sample_settle_request; sample_refund_request].
Proof.
  apply (@replay_is_idempotent uuid_display_model sample_writer _ sample_reserve sample_writer_inv).
  - exact (Forall_inv sample_requests_wf).
  - vm_compute; reflexivity.
  - change (sample_after [sample_reserve; sample_settle_request; sample_refund_request])
      with (foldl (@writer_after uuid_display_model)
              (@writer_after uuid_display_model sample_writer sample_reserve)
              [sample_settle_request; sample_refund_request]).
    apply run_steps. exact (Forall_inv_tail sample_requests_wf).
Defined.

Lemma applied_write_balance_witness :
  ∃ plan,
    @plan_consistent_ledger_write uuid_display_model sample_settle_request (im_state (sample_after [sample_reserve]))
      = Ok plan ∧
    available_units "USD" sample_wallet (im_state (sample_after [sample_reserve; sample_settle_request]))
      = units (bw_available_after_write (wp_balance_window plan)) + 100.
Proof.
  assert (writer_inv (sample_after [sample_reserve])) as Hinv.
  { eapply step_inv; [apply sample_writer_inv|]. constructor. exact (Forall_inv sample_requests_wf). }
  destruct (@applied_write_balance uuid_display_model (sample_after [sample_reserve]) sample_settle_request Hinv)
    as (plan & wallet & Hp & Hw & _ & _ & Ha & _); [vm_compute; reflexivity|].
  vm_compute in Hw. injection Hw as <-. exists plan. split; [exact Hp|exact Ha].
Defined.

Lemma unapplied_write_unchanged_witness :
  @writer_after uuid_display_model sample_writer (WriteReserve sample_scope 11 (mkFixedDecimal 20000 8) "USD")
  = sample_writer.
Proof.
  apply (@unapplied_write_unchanged uuid_display_model); [apply sample_writer_inv|cbn; width_lia|].
  vm_compute. discriminate.
Defined.

(** ** A rejected write that changes the ledger *)

(** Applying a plan is not atomic. When the last id has been reached, a
    settle that passes every check is reported as rejected, no entry is inserted,
    and yet the pending reserves of the request have been reversed: the
    reservation is gone without the debit that should replace it. *)
Theorem rejected_settle_releases_reserve `{UuidDisplay} (w : InMemoryConsistentLedgerWriter)
    (request : ConsistentLedgerWriteRequest) (plan : ConsistentLedgerWriterPlan) (Hinv : writer_inv w)
    (Hid : im_next_ledger_entry_id w = u128_max)
    (Hplan : plan_consistent_ledger_write request (im_state w) = Ok plan)
    (Hout : wp_outcome plan = OutcomeApply) :
  ex_outcome (snd (execute_consistent_ledger_write w request)) = Rejected ∧
  writer_after w request =
    set_ledger_entries w (release (released_request request) <$> ws_ledger_entries (im_state w)).
Proof.
  unfold writer_after. pose proof (execute_cases w request) as Hex.
  destruct (execute_consistent_ledger_write w request) as [w' ex]. cbn in *.
  destruct Hex as [(? & ? & _)|(plan' & Hplan' & Hex)]; [congruence|].
  assert (plan' = plan) as -> by congruence. rewrite Hout in Hex.
  destruct (execute_apply w request plan (li_ids _ _ Hinv) ltac:(pose proof (li_next _ _ Hinv); lia) Hplan Hout)
    as (? & ? & ? & ? & _ & _ & _ & _ & _ & _ & Heq).
  rewrite Heq, Hid, Z.ltb_irrefl in Hex. by destruct Hex as [-> ->].
Qed.

(** A writer whose last id is reserved for the settle of its only reservation. *)
Definition last_id_writer : InMemoryConsistentLedgerWriter :=
  mkInMemoryConsistentLedgerWriter
    (mkConsistentLedgerWriterState (Some sample_wallet) [] []
      (ws_ledger_entries (im_state (sample_after [sample_reserve])))) u128_max.

Lemma last_id_writer_inv : writer_inv last_id_writer.
Proof.
  assert (writer_inv (sample_after [sample_reserve])) as Hinv.
  { eapply step_inv; [apply sample_writer_inv|]. constructor. exact (Forall_inv sample_requests_wf). }
  pose proof (li_range _ _ Hinv) as Hr.
  assert (im_next_ledger_entry_id (sample_after [sample_reserve]) = 2) as E by (vm_compute; reflexivity).
  rewrite E in Hr. destruct Hinv. constructor; try done.
  intros e He. specialize (Hr e He). change (im_next_ledger_entry_id last_id_writer) with u128_max. width_lia.
Qed.

Lemma rejected_settle_releases_reserve_witness :
  ex_outcome (snd (@execute_consistent_ledger_write uuid_display_model last_id_writer sample_settle_request))
    = Rejected ∧
  (er_status <$> ws_ledger_entries (im_state last_id_writer)) = [Pending] ∧
  (er_status <$> ws_ledger_entries (im_state (@writer_after uuid_display_model last_id_writer sample_settle_request)))
    = [Reversed].
Proof.
  destruct (@plan_consistent_ledger_write uuid_display_model sample_settle_request (im_state last_id_writer))
    as [plan|error] eqn:Hplan; [|vm_compute in Hplan; discriminate Hplan].
  destruct (@rejected_settle_releases_reserve uuid_display_model last_id_writer sample_settle_request plan
    last_id_writer_inv eq_refl Hplan) as [Hr Hw].
  { vm_compute in Hplan. injection Hplan as <-. reflexivity. }
  split; [exact Hr|]. rewrite Hw. split; vm_compute; reflexivity.
Defined.
