(* ===== verification/PostgresPlan.v ===== *)
(** crates/billing-ledger/src/postgres_execution.rs: how a planned ledger write
    is turned into SQL statements with their parameters, and the executors that
    run such a plan in one transaction, over the trait of the crate and over
    sqlx. The tables the statements work on are in [PostgresTables]. *)

From S2P Require Export Writer.

#[local] Open Scope string_scope.
#[local] Open Scope list_scope.
#[local] Open Scope Z_scope.

(** ** Data *)

Inductive ConsistentLedgerPostgresStatementKind : Type :=
| KLockWallet
| KLockCreditGrants
| KLockBudgets
| KLockLedgerEntries
| KAssertBalanceWindow
| KAssertBudgetWindow
| KInsertLedgerEntry
| KUpdateLedgerStatus.

#[export] Instance statement_kind_eq_dec : EqDecision ConsistentLedgerPostgresStatementKind.
Proof. solve_decision. Defined.

Inductive ConsistentLedgerPostgresRowCountExpectation : Type := ExactlyOne | ZeroOrMore.

Inductive ConsistentLedgerPostgresStatementOutcome : Type := Executed | Refused.

#[export] Instance statement_outcome_eq_dec : EqDecision ConsistentLedgerPostgresStatementOutcome.
Proof. solve_decision. Defined.

Inductive ConsistentLedgerPostgresExecutorOutcome : Type := PgApplied | PgIdempotent | PgRolledBack.

(** [statement_shape], a sentence for readers, and [operation_key_output], which
    is always omitted, are left out. *)
Record ConsistentLedgerPostgresStatement : Type := mkPostgresStatement {
  ps_order : Z;
  ps_kind : ConsistentLedgerPostgresStatementKind;
  ps_target : string;
  ps_lock_clause : option string;
  ps_where_bounds : list string;
  ps_ordered_by : list string;
  ps_command_order : option Z;
  ps_command_kind : option ConsistentLedgerBoundedCommandKind;
  ps_row_count_expectation : ConsistentLedgerPostgresRowCountExpectation;
  ps_request_id : option Uuid;
  ps_ledger_entry_id : option Uuid;
  ps_related_ledger_entry_id : option Uuid;
  ps_budget_id : option Uuid;
  ps_entry_type : option LedgerEntryType;
  ps_amount : option FixedDecimal;
  ps_currency : option string;
  ps_status : option LedgerEntryStatus;
  ps_metadata : option LedgerEntryMetadata;
}.

Inductive ConsistentLedgerPostgresTransactionStepKind : Type :=
| BeginTransaction | AcquireOrderedLocks | RecomputeLockedWindows | ExecuteBoundedCommands | CommitOrRollback.

Record ConsistentLedgerPostgresTransactionStep : Type := mkTransactionStep {
  tr_order : Z;
  tr_kind : ConsistentLedgerPostgresTransactionStepKind;
  tr_description : string;
}.

Record ConsistentLedgerPostgresExecutionPlan : Type := mkPostgresExecutionPlan {
  pp_operation : LedgerOperationKind;
  pp_outcome : LedgerOperationOutcome;
  pp_scope : ConsistentLedgerScope;
  pp_transaction_steps : list ConsistentLedgerPostgresTransactionStep;
  pp_sql_statements : list ConsistentLedgerPostgresStatement;
}.

Record ConsistentLedgerPostgresExecutorError : Type := mkExecutorError {
  xe_code : string;
  xe_category : string;
}.

Record ConsistentLedgerPostgresStatementResult : Type := mkStatementResult {
  sr_order : Z;
  sr_kind : ConsistentLedgerPostgresStatementKind;
  sr_target : string;
  sr_outcome : ConsistentLedgerPostgresStatementOutcome;
  sr_rows_affected : Z;
}.

Record ConsistentLedgerPostgresExecutorResult : Type := mkExecutorResult {
  er_operation : LedgerOperationKind;
  er_outcome : ConsistentLedgerPostgresExecutorOutcome;
  er_committed : bool;
  er_rolled_back : bool;
  er_statement_results : list ConsistentLedgerPostgresStatementResult;
  er_error : option ConsistentLedgerPostgresExecutorError;
}.

Definition statement_refused (code : string) : ConsistentLedgerPostgresExecutorError :=
  mkExecutorError code "statement_refusal".

Definition row_count_mismatch (code : string) : ConsistentLedgerPostgresExecutorError :=
  mkExecutorError code "row_count_enforcement".

(** ** Planning *)

(** The lock statements carry no value of a command. *)
Definition lock_statement (order : Z) (kind : ConsistentLedgerPostgresStatementKind) (target lock_clause : string)
    (where_bounds ordered_by : list string) (expectation : ConsistentLedgerPostgresRowCountExpectation)
    (currency : option string) : ConsistentLedgerPostgresStatement := {|
  ps_order := order;
  ps_kind := kind;
  ps_target := target;
  ps_lock_clause := Some lock_clause;
  ps_where_bounds := where_bounds;
  ps_ordered_by := ordered_by;
  ps_command_order := None;
  ps_command_kind := None;
  ps_row_count_expectation := expectation;
  ps_request_id := None;
  ps_ledger_entry_id := None;
  ps_related_ledger_entry_id := None;
  ps_budget_id := None;
  ps_entry_type := None;
  ps_amount := None;
  ps_currency := currency;
  ps_status := None;
  ps_metadata := None;
|}.

Definition ledger_lock_statement (order : Z) (operation : LedgerOperationKind) : ConsistentLedgerPostgresStatement :=
  let bounds :=
    match operation with
    | OpReserve | OpSettle => ["tenant_id"; "request_id"; "private_operation_key"]
    | OpAdminAdjustment => ["tenant_id"; "request_id"; "related_ledger_entry_id"; "private_operation_key"]
    | OpRefund | OpRefundPartial =>
        ["tenant_id"; "source_ledger_entry_id"; "related_ledger_entry_id"; "private_operation_key"]
    end in
  lock_statement order KLockLedgerEntries "ledger_entries" "for_update_ordered" bounds ["created_at"; "id"]
    ZeroOrMore None.

Definition ordered_lock_statements (writer_plan : ConsistentLedgerWriterPlan)
    : list ConsistentLedgerPostgresStatement :=
  let currency := Some (bw_currency (wp_balance_window writer_plan)) in
  [ lock_statement 1 KLockWallet "wallets" "for_update" ["tenant_id"; "project_id"; "currency"] [] ExactlyOne currency;
    lock_statement 2 KLockCreditGrants "credit_grants" "for_update_ordered"
      ["tenant_id"; "wallet_id"; "currency"; "validity_window"] ["id"] ZeroOrMore currency;
    lock_statement 3 KLockBudgets "budgets" "for_update_ordered"
      ["tenant_id"; "project_id"; "virtual_key_id"; "currency"] ["scope"; "id"] ZeroOrMore currency;
    ledger_lock_statement 4 (wp_operation writer_plan) ].

Definition command_statement (order : Z) (command : ConsistentLedgerBoundedCommand)
    : ConsistentLedgerPostgresStatement :=
  let '(kind, target, bounds, related_ledger_entry_id) :=
    match cmd_kind command with
    | AssertBalanceWindow =>
        (KAssertBalanceWindow, "locked_balance_window", ["tenant_id"; "currency"],
         cmd_related_ledger_entry_id command)
    | AssertBudgetWindow =>
        (KAssertBudgetWindow, "locked_budget_window", ["tenant_id"; "budget_id"; "currency"],
         cmd_related_ledger_entry_id command)
    | InsertLedgerEntry =>
        (KInsertLedgerEntry, "ledger_entries",
         ["tenant_id"; "request_id"; "related_ledger_entry_id"; "private_operation_key"],
         cmd_related_ledger_entry_id command)
    | UpdateLedgerStatus => (KUpdateLedgerStatus, "ledger_entries", ["tenant_id"; "ledger_entry_id"], None)
    end in
  {|
    ps_order := order;
    ps_kind := kind;
    ps_target := target;
    ps_lock_clause := None;
    ps_where_bounds := bounds;
    ps_ordered_by := [];
    ps_command_order := Some (cmd_order command);
    ps_command_kind := Some (cmd_kind command);
    ps_row_count_expectation := ExactlyOne;
    ps_request_id := cmd_request_id command;
    ps_ledger_entry_id := cmd_ledger_entry_id command;
    ps_related_ledger_entry_id := related_ledger_entry_id;
    ps_budget_id := cmd_budget_id command;
    ps_entry_type := cmd_entry_type command;
    ps_amount := cmd_amount command;
    ps_currency := cmd_currency command;
    ps_status := cmd_status command;
    ps_metadata := cmd_metadata command;
  |}.

Definition transaction_steps (idempotent_replay : bool) : list ConsistentLedgerPostgresTransactionStep :=
  [ mkTransactionStep 1 BeginTransaction "begin read committed transaction";
    mkTransactionStep 2 AcquireOrderedLocks
      "acquire wallet, credit grant, budget, then ledger row locks in deterministic order";
    mkTransactionStep 3 RecomputeLockedWindows
      "recompute balance, budget, replay, and refund remaining windows after locks are held";
    mkTransactionStep 4 ExecuteBoundedCommands
      (if idempotent_replay
       then "idempotent replay returns existing result without insert or update statements"
       else "execute bounded assert, insert, and update command statements in order");
    mkTransactionStep 5 CommitOrRollback
      "commit only after all statements match expected row counts; otherwise rollback and return sanitized error" ].

(** The loop over the commands; [next_order] is a [u16]. *)
Fixpoint command_statements (next_order : Z) (commands : list ConsistentLedgerBoundedCommand)
    : list ConsistentLedgerPostgresStatement :=
  match commands with
  | [] => []
  | command :: commands =>
      command_statement next_order command :: command_statements (wrap_u16 (next_order + 1)) commands
  end.

Definition plan_consistent_ledger_postgres_execution (writer_plan : ConsistentLedgerWriterPlan)
    (command_plan : ConsistentLedgerCommandPlan) : ConsistentLedgerPostgresExecutionPlan :=
  let locks := ordered_lock_statements writer_plan in
  {|
    pp_operation := wp_operation writer_plan;
    pp_outcome := wp_outcome writer_plan;
    pp_scope := wp_scope writer_plan;
    pp_transaction_steps := transaction_steps (match cp_commands command_plan with [] => true | _ => false end);
    pp_sql_statements :=
      locks ++ command_statements (wrap_u16 (Z.of_nat (length locks) + 1)) (cp_commands command_plan);
  |}.

(** ** Checking the answers of the database *)

Definition row_count_mismatch_code (kind : ConsistentLedgerPostgresStatementKind) (rows_affected : Z) : string :=
  match kind with
  | KLockWallet => if rows_affected =? 0 then "wallet_lock_missing_row" else "wallet_lock_row_count_mismatch"
  | KAssertBalanceWindow =>
      if rows_affected =? 0 then "balance_assert_missing_row" else "balance_assert_row_count_mismatch"
  | KAssertBudgetWindow =>
      if rows_affected =? 0 then "budget_assert_missing_row" else "budget_assert_row_count_mismatch"
  | KInsertLedgerEntry =>
      if rows_affected =? 0 then "ledger_insert_conflict_no_row" else "ledger_insert_row_count_mismatch"
  | KUpdateLedgerStatus =>
      if rows_affected =? 0 then "ledger_update_missing_row" else "ledger_update_row_count_mismatch"
  | KLockCreditGrants | KLockBudgets | KLockLedgerEntries => "lock_row_count_mismatch"
  end.

Definition enforce_statement_row_count (statement : ConsistentLedgerPostgresStatement) (rows_affected : Z)
    : option ConsistentLedgerPostgresExecutorError :=
  match ps_row_count_expectation statement with
  | ExactlyOne =>
      if negb (rows_affected =? 1)
      then Some (row_count_mismatch (row_count_mismatch_code (ps_kind statement) rows_affected))
      else None
  | ZeroOrMore => None
  end.

Definition sanitized_statement_result (statement : ConsistentLedgerPostgresStatement)
    (result : ConsistentLedgerPostgresStatementResult) : ConsistentLedgerPostgresStatementResult := {|
  sr_order := ps_order statement;
  sr_kind := ps_kind statement;
  sr_target := ps_target statement;
  sr_outcome := sr_outcome result;
  sr_rows_affected := sr_rows_affected result;
|}.

Definition refused_statement_result (statement : ConsistentLedgerPostgresStatement)
    : ConsistentLedgerPostgresStatementResult := {|
  sr_order := ps_order statement;
  sr_kind := ps_kind statement;
  sr_target := ps_target statement;
  sr_outcome := Refused;
  sr_rows_affected := 0;
|}.

(** [result.outcome = Refused]. *)
Definition mark_refused (result : ConsistentLedgerPostgresStatementResult)
    : ConsistentLedgerPostgresStatementResult := {|
  sr_order := sr_order result;
  sr_kind := sr_kind result;
  sr_target := sr_target result;
  sr_outcome := Refused;
  sr_rows_affected := sr_rows_affected result;
|}.

Definition executor_result (plan : ConsistentLedgerPostgresExecutionPlan)
    (outcome : ConsistentLedgerPostgresExecutorOutcome) (committed rolled_back : bool)
    (statement_results : list ConsistentLedgerPostgresStatementResult)
    (error : option ConsistentLedgerPostgresExecutorError) : ConsistentLedgerPostgresExecutorResult := {|
  er_operation := pp_operation plan;
  er_outcome := outcome;
  er_committed := committed;
  er_rolled_back := rolled_back;
  er_statement_results := statement_results;
  er_error := error;
|}.

Definition committed_outcome (plan : ConsistentLedgerPostgresExecutionPlan) : ConsistentLedgerPostgresExecutorOutcome :=
  if is_idempotent_outcome (pp_outcome plan) then PgIdempotent else PgApplied.

(** ** The executor over the trait

    An implementation of [ConsistentLedgerPostgresTransactionExecutor] is a
    state with the four methods. *)

Class TransactionExecutor (S : Type) : Type := {
  begin_transaction : S → result ConsistentLedgerPostgresExecutorError () * S;
  execute_statement :
    ConsistentLedgerPostgresStatement → S →
    result ConsistentLedgerPostgresExecutorError ConsistentLedgerPostgresStatementResult * S;
  commit_transaction : S → result ConsistentLedgerPostgresExecutorError () * S;
  rollback_transaction : S → result ConsistentLedgerPostgresExecutorError () * S;
}.

Section executor.
Context {S : Type} {X : TransactionExecutor S} (plan : ConsistentLedgerPostgresExecutionPlan).

(** Roll back and report. *)
Definition roll_back (executor : S) (statement_results : list ConsistentLedgerPostgresStatementResult)
    (error : ConsistentLedgerPostgresExecutorError) : ConsistentLedgerPostgresExecutorResult * S :=
  let '(answer, executor) := rollback_transaction executor in
  (executor_result plan PgRolledBack false (is_ok answer) statement_results (Some error), executor).

Fixpoint execute_statements (executor : S) (statement_results : list ConsistentLedgerPostgresStatementResult)
    (statements : list ConsistentLedgerPostgresStatement) : ConsistentLedgerPostgresExecutorResult * S :=
  match statements with
  | [] =>
      let '(answer, executor) := commit_transaction executor in
      match answer with
      | Err error => roll_back executor statement_results error
      | Ok _ => (executor_result plan (committed_outcome plan) true false statement_results None, executor)
      end
  | statement :: statements =>
      let '(answer, executor) := execute_statement statement executor in
      match answer with
      | Ok result =>
          let result := sanitized_statement_result statement result in
          if bool_decide (sr_outcome result = Refused) then
            roll_back executor (statement_results ++ [result]) (statement_refused "statement_refused")
          else
            match enforce_statement_row_count statement (sr_rows_affected result) with
            | Some error => roll_back executor (statement_results ++ [mark_refused result]) error
            | None => execute_statements executor (statement_results ++ [result]) statements
            end
      | Err error => roll_back executor (statement_results ++ [refused_statement_result statement]) error
      end
  end.

Definition execute_consistent_ledger_postgres_plan (executor : S) : ConsistentLedgerPostgresExecutorResult * S :=
  let '(answer, executor) := begin_transaction executor in
  match answer with
  | Err error => (executor_result plan PgRolledBack false false [] (Some error), executor)
  | Ok _ => execute_statements executor [] (pp_sql_statements plan)
  end.
End executor.

(** ** Summaries *)

Record ConsistentLedgerPostgresExecutorResultSummary : Type := mkExecutorResultSummary {
  sy_operation : LedgerOperationKind;
  sy_outcome : ConsistentLedgerPostgresExecutorOutcome;
  sy_committed : bool;
  sy_rolled_back : bool;
  sy_statement_count : nat;
  sy_executed_statement_count : nat;
  sy_refused_statement_count : nat;
  sy_total_rows_affected : Z;
  sy_final_statement_order : option Z;
  sy_final_statement_kind : option ConsistentLedgerPostgresStatementKind;
  sy_error_code : option string;
  sy_error_category : option string;
  sy_row_count_mismatch : bool;
}.

Definition count_outcome (outcome : ConsistentLedgerPostgresStatementOutcome)
    (results : list ConsistentLedgerPostgresStatementResult) : nat :=
  length (List.filter (λ statement, bool_decide (sr_outcome statement = outcome)) results).

(** The sum of the rows is a [u64] sum, which wraps in a release build. *)
Definition summarize_consistent_ledger_postgres_executor_result (result : ConsistentLedgerPostgresExecutorResult)
    : ConsistentLedgerPostgresExecutorResultSummary := {|
  sy_operation := er_operation result;
  sy_outcome := er_outcome result;
  sy_committed := er_committed result;
  sy_rolled_back := er_rolled_back result;
  sy_statement_count := length (er_statement_results result);
  sy_executed_statement_count := count_outcome Executed (er_statement_results result);
  sy_refused_statement_count := count_outcome Refused (er_statement_results result);
  sy_total_rows_affected :=
    fold_left (λ sum statement, wrap_u64 (sum + sr_rows_affected statement)) (er_statement_results result) 0;
  sy_final_statement_order := sr_order <$> last (er_statement_results result);
  sy_final_statement_kind := sr_kind <$> last (er_statement_results result);
  sy_error_code := xe_code <$> er_error result;
  sy_error_category := xe_category <$> er_error result;
  sy_row_count_mismatch :=
    match er_error result with
    | Some error => bool_decide (xe_category error = "row_count_enforcement")
    | None => false
    end;
|}.

(** ** Executable statements *)

Inductive ConsistentLedgerPostgresSqlxBindMarker : Type :=
| TenantId | ProjectId | VirtualKeyId | WalletId | Currency | Now | RequestId | SourceLedgerEntryId
| RelatedLedgerEntryId | LedgerEntryId | BudgetId | RequiredDebit | AvailableBeforeWrite | EntryType | Amount
| Status | FromStatus | ToStatus | Metadata | OperationKeyBind.

#[export] Instance bind_marker_eq_dec : EqDecision ConsistentLedgerPostgresSqlxBindMarker.
Proof. solve_decision. Defined.

(** The decimal text of an amount stands for the amount, and the JSON of the
    metadata for the metadata. *)
Inductive ConsistentLedgerPostgresSqlxBindValue : Type :=
| BindUuid (value : Uuid)
| BindOptionalUuid (value : option Uuid)
| BindText (value : string)
| BindDecimalText (value : FixedDecimal)
| BindJson (value : LedgerEntryMetadata)
| BindOperationKey (value : string).

Record ConsistentLedgerPostgresSqlxExecutableStatement : Type := mkExecutableStatement {
  xs_order : Z;
  xs_kind : ConsistentLedgerPostgresStatementKind;
  xs_sql : string;
  xs_bind_markers : list ConsistentLedgerPostgresSqlxBindMarker;
  xs_returning_columns : list string;
  xs_binds : list ConsistentLedgerPostgresSqlxBindValue;
}.

Definition sqlx_bind_markers_for_statement (kind : ConsistentLedgerPostgresStatementKind)
    : list ConsistentLedgerPostgresSqlxBindMarker :=
  match kind with
  | KLockWallet => [TenantId; ProjectId; Currency]
  | KLockCreditGrants => [TenantId; WalletId; Currency]
  | KLockBudgets => [TenantId; ProjectId; VirtualKeyId; Currency]
  | KLockLedgerEntries => [TenantId; RequestId; SourceLedgerEntryId; RelatedLedgerEntryId; OperationKeyBind]
  | KAssertBalanceWindow => [TenantId; Currency; AvailableBeforeWrite; RequiredDebit]
  | KAssertBudgetWindow => [TenantId; BudgetId; Currency; RequiredDebit]
  | KInsertLedgerEntry =>
      [TenantId; ProjectId; VirtualKeyId; WalletId; RequestId; RelatedLedgerEntryId; EntryType; Amount; Currency;
       Status; OperationKeyBind; Metadata]
  | KUpdateLedgerStatus => [TenantId; LedgerEntryId; FromStatus; ToStatus]
  end.

Definition sqlx_returning_columns_for_statement (kind : ConsistentLedgerPostgresStatementKind) : list string :=
  match kind with
  | KLockWallet => ["id"; "balance_floor"]
  | KLockCreditGrants => ["id"; "remaining_amount"]
  | KLockBudgets => ["id"; "scope"; "limit_amount"]
  | KLockLedgerEntries =>
      ["id"; "request_id"; "related_ledger_entry_id"; "entry_type"; "amount"; "currency"; "status"]
  | KAssertBalanceWindow | KAssertBudgetWindow => ["passed"]
  | KInsertLedgerEntry => ["id"; "entry_type"; "amount"; "currency"; "status"]
  | KUpdateLedgerStatus => ["id"; "status"]
  end.

Definition sqlx_statement_sql (kind : ConsistentLedgerPostgresStatementKind) : string :=
  match kind with
  | KLockWallet =>
      "select id, balance_floor::text as balance_floor from wallets where tenant_id = $1 and project_id is not distinct from $2 and currency = $3 and status in ('active','suspended') for update"
  | KLockCreditGrants =>
      "select id, remaining_amount::text as remaining_amount from credit_grants where tenant_id = $1 and wallet_id = $2 and currency = $3 and status = 'active' and valid_from <= now() and (valid_until is null or valid_until > now()) order by id for update"
  | KLockBudgets =>
      "select id, scope, limit_amount::text as limit_amount from budgets where tenant_id = $1 and (scope = 'tenant' or (scope = 'project' and project_id is not distinct from $2) or (scope = 'virtual_key' and virtual_key_id is not distinct from $3)) and currency = $4 and status = 'active' and deleted_at is null order by scope, id for update"
  | KLockLedgerEntries =>
      "select id, request_id, related_ledger_entry_id, entry_type, amount::text as amount, currency, status from ledger_entries where tenant_id = $1 and (($2::uuid is not null and request_id = $2) or ($3::uuid is not null and id = $3) or ($4::uuid is not null and related_ledger_entry_id = $4) or idempotency_key = $5) order by created_at, id for update"
  | KAssertBalanceWindow =>
      "select true as passed where $1::uuid is not null and $2::text is not null and $3::numeric >= $4::numeric"
  | KAssertBudgetWindow =>
      "select true as passed from budgets where tenant_id = $1 and id = $2 and currency = $3 and limit_amount >= $4::numeric"
  | KInsertLedgerEntry =>
      "insert into ledger_entries (tenant_id, project_id, virtual_key_id, wallet_id, request_id, related_ledger_entry_id, entry_type, amount, currency, status, idempotency_key, metadata) values ($1, $2, $3, $4, $5, $6, $7, $8::numeric, $9, $10, $11, $12) on conflict (tenant_id, idempotency_key) do nothing returning id, entry_type, amount::text as amount, currency, status"
  | KUpdateLedgerStatus =>
      "update ledger_entries set status = $4 where tenant_id = $1 and id = $2 and status = $3 returning id, status"
  end.

Definition ledger_entry_type_sql (entry_type : LedgerEntryType) : string :=
  match entry_type with
  | EntryReserve => "reserve" | EntrySettle => "settle" | EntryRefund => "refund" | EntryAdjust => "adjust"
  end.

Definition ledger_entry_status_sql (status : LedgerEntryStatus) : string :=
  match status with Pending => "pending" | Confirmed => "confirmed" | Reversed => "reversed" end.

Definition first_ledger_entry_request_id (writer_plan : ConsistentLedgerWriterPlan) : option Uuid :=
  head (lp_entries (wp_ledger_plan writer_plan)) ≫= ed_request_id.

Definition or_else {A} (x y : option A) : option A := match x with Some _ => x | None => y end.

Definition source_ledger_entry_id (writer_plan : ConsistentLedgerWriterPlan)
    (statement : ConsistentLedgerPostgresStatement) : option Uuid :=
  or_else (ps_related_ledger_entry_id statement)
    (head (lp_entries (wp_ledger_plan writer_plan)) ≫= ed_related_ledger_entry_id).

Definition sqlx_bind_value (writer_plan : ConsistentLedgerWriterPlan) (statement : ConsistentLedgerPostgresStatement)
    (marker : ConsistentLedgerPostgresSqlxBindMarker)
    : result ConsistentLedgerPostgresExecutorError ConsistentLedgerPostgresSqlxBindValue :=
  let required {A} (value : option A) (code : string) := ok_or value (statement_refused code) in
  match marker with
  | TenantId => Ok (BindUuid (sc_tenant_id (wp_scope writer_plan)))
  | ProjectId => Ok (BindOptionalUuid (sc_project_id (wp_scope writer_plan)))
  | VirtualKeyId => Ok (BindOptionalUuid (sc_virtual_key_id (wp_scope writer_plan)))
  | WalletId => Ok (BindUuid (wc_wallet_id (wp_wallet_check writer_plan)))
  | Currency =>
      Ok (BindText (default (bw_currency (wp_balance_window writer_plan)) (ps_currency statement)))
  | Now => Ok (BindText "now")
  | RequestId =>
      Ok (BindOptionalUuid (or_else (ps_request_id statement) (first_ledger_entry_request_id writer_plan)))
  | SourceLedgerEntryId => Ok (BindOptionalUuid (source_ledger_entry_id writer_plan statement))
  | RelatedLedgerEntryId =>
      Ok (BindOptionalUuid
            (or_else (ps_related_ledger_entry_id statement) (source_ledger_entry_id writer_plan statement)))
  | LedgerEntryId =>
      id ← required (ps_ledger_entry_id statement) "sqlx_ledger_entry_id_missing"; Ok (BindUuid id)
  | BudgetId => id ← required (ps_budget_id statement) "sqlx_budget_id_missing"; Ok (BindUuid id)
  | RequiredDebit =>
      Ok (BindDecimalText (default (bw_required_debit (wp_balance_window writer_plan)) (ps_amount statement)))
  | AvailableBeforeWrite => Ok (BindDecimalText (bw_available_before_write (wp_balance_window writer_plan)))
  | EntryType =>
      entry_type ← required (ps_entry_type statement) "sqlx_entry_type_missing";
      Ok (BindText (ledger_entry_type_sql entry_type))
  | Amount => amount ← required (ps_amount statement) "sqlx_amount_missing"; Ok (BindDecimalText amount)
  | Status =>
      status ← required (ps_status statement) "sqlx_status_missing"; Ok (BindText (ledger_entry_status_sql status))
  | FromStatus => Ok (BindText (ledger_entry_status_sql Pending))
  | ToStatus =>
      status ← required (ps_status statement) "sqlx_to_status_missing"; Ok (BindText (ledger_entry_status_sql status))
  | Metadata => metadata ← required (ps_metadata statement) "sqlx_metadata_missing"; Ok (BindJson metadata)
  | OperationKeyBind => Ok (BindOperationKey (wp_idempotency_key writer_plan))
  end.

Definition sqlx_executable_statement (writer_plan : ConsistentLedgerWriterPlan)
    (statement : ConsistentLedgerPostgresStatement)
    : result ConsistentLedgerPostgresExecutorError ConsistentLedgerPostgresSqlxExecutableStatement :=
  let bind_markers := sqlx_bind_markers_for_statement (ps_kind statement) in
  binds ← try_map (sqlx_bind_value writer_plan statement) bind_markers;
  Ok {|
    xs_order := ps_order statement;
    xs_kind := ps_kind statement;
    xs_sql := sqlx_statement_sql (ps_kind statement);
    xs_bind_markers := bind_markers;
    xs_returning_columns := sqlx_returning_columns_for_statement (ps_kind statement);
    xs_binds := binds;
  |}.

#[export] Instance ConsistentLedgerScope_eq_dec : EqDecision ConsistentLedgerScope.
Proof. solve_decision. Defined.

Definition plan_consistent_ledger_postgres_sqlx_executable_statements (writer_plan : ConsistentLedgerWriterPlan)
    (plan : ConsistentLedgerPostgresExecutionPlan)
    : result ConsistentLedgerPostgresExecutorError (list ConsistentLedgerPostgresSqlxExecutableStatement) :=
  fail_if negb (bool_decide (wp_operation writer_plan = pp_operation plan))
          || negb (bool_decide (wp_scope writer_plan = pp_scope plan))
  with statement_refused "sqlx_plan_context_mismatch" ;;
  fail_if bool_decide (str_trim (wp_idempotency_key writer_plan) = "")
  with statement_refused "sqlx_operation_key_missing" ;;
  try_map (sqlx_executable_statement writer_plan) (pp_sql_statements plan).

Definition contains_sql_template_placeholder (sql : string) : bool :=
  str_contains sql "<private"
  || str_contains sql "$tenant_id"
  || str_contains sql "$project_id"
  || str_contains sql "$virtual_key_id"
  || str_contains sql "$wallet_id"
  || str_contains sql "$request_id"
  || str_contains sql "$private_operation_key"
  || str_contains sql "$operation_key".

(** The arms of [validate_sqlx_executable_statement_set] for one statement. *)
Definition validate_statement (executable_statements : list ConsistentLedgerPostgresSqlxExecutableStatement)
    (statement : ConsistentLedgerPostgresStatement) : option ConsistentLedgerPostgresExecutorError :=
  let markers := sqlx_bind_markers_for_statement (ps_kind statement) in
  let refuse code := Some (statement_refused code) in
  match List.filter (λ executable, xs_order executable =? ps_order statement) executable_statements with
  | [] => refuse "sqlx_executable_statement_missing"
  | [executable] =>
      if negb (bool_decide (xs_kind executable = ps_kind statement))
      then refuse "sqlx_executable_statement_kind_mismatch"
      else if bool_decide (str_trim (xs_sql executable) = "") || contains_sql_template_placeholder (xs_sql executable)
      then refuse "sqlx_executable_statement_not_concrete"
      else if negb (bool_decide (xs_bind_markers executable = markers))
      then refuse "sqlx_executable_bind_marker_mismatch"
      else if negb (bool_decide
                      (xs_returning_columns executable = sqlx_returning_columns_for_statement (ps_kind statement)))
      then refuse "sqlx_executable_returning_schema_mismatch"
      else if negb (bool_decide (length (xs_binds executable) = length (xs_bind_markers executable)))
      then refuse "sqlx_executable_bind_count_mismatch"
      else if bool_decide (OperationKeyBind ∈ markers)
              && negb (bool_decide (OperationKeyBind ∈ xs_bind_markers executable))
      then refuse "sqlx_operation_key_bind_marker_missing"
      else None
  | _ => refuse "sqlx_executable_statement_duplicate"
  end.

Definition validate_sqlx_executable_statement_set (plan : ConsistentLedgerPostgresExecutionPlan)
    (executable_statements : list ConsistentLedgerPostgresSqlxExecutableStatement)
    : option ConsistentLedgerPostgresExecutorError :=
  match omap (validate_statement executable_statements) (pp_sql_statements plan) with
  | error :: _ => Some error
  | [] =>
      if List.existsb
           (λ executable,
             negb (List.existsb (λ statement, ps_order statement =? xs_order executable) (pp_sql_statements plan)))
           executable_statements
      then Some (statement_refused "sqlx_executable_statement_unplanned")
      else None
  end.

(** ** Errors of the database *)

Inductive ConsistentLedgerPostgresDbErrorKind : Type :=
| UniqueViolation | ForeignKeyViolation | CheckViolation | NotNullViolation | SerializationFailure
| DeadlockDetected | DbTimeout | Connection | Unknown.

Definition map_consistent_ledger_postgres_db_error (kind : ConsistentLedgerPostgresDbErrorKind)
    : ConsistentLedgerPostgresExecutorError :=
  match kind with
  | UniqueViolation => mkExecutorError "db_unique_constraint_violation" "db_constraint"
  | ForeignKeyViolation => mkExecutorError "db_foreign_key_violation" "db_constraint"
  | CheckViolation => mkExecutorError "db_check_constraint_violation" "db_constraint"
  | NotNullViolation => mkExecutorError "db_not_null_violation" "db_constraint"
  | SerializationFailure => mkExecutorError "db_serialization_failure" "db_transaction"
  | DeadlockDetected => mkExecutorError "db_deadlock_detected" "db_transaction"
  | DbTimeout => mkExecutorError "db_timeout" "db_transaction"
  | Connection => mkExecutorError "db_connection_error" "db_connection"
  | Unknown => mkExecutorError "db_error" "db_unknown"
  end.

(** ** The protocol of the executor *)

(** A result that may be followed by the next statement. *)
Definition accepted (statement : ConsistentLedgerPostgresStatement) (result : ConsistentLedgerPostgresStatementResult)
    : Prop :=
  sr_order result = ps_order statement ∧ sr_kind result = ps_kind statement ∧ sr_target result = ps_target statement ∧
  sr_outcome result = Executed ∧ enforce_statement_row_count statement (sr_rows_affected result) = None.

(** A result that ends the transaction. *)
Definition refused (statement : ConsistentLedgerPostgresStatement) (result : ConsistentLedgerPostgresStatementResult)
    : Prop :=
  sr_order result = ps_order statement ∧ sr_kind result = ps_kind statement ∧ sr_target result = ps_target statement ∧
  sr_outcome result = Refused.

(** The results of a transaction: either every statement was accepted, or the
    first ones were and the next one was refused. *)
Definition results_complete (statements : list ConsistentLedgerPostgresStatement)
    (results : list ConsistentLedgerPostgresStatementResult) : Prop :=
  Forall2 accepted statements results.

Definition results_cut (statements : list ConsistentLedgerPostgresStatement)
    (results : list ConsistentLedgerPostgresStatementResult) : Prop :=
  ∃ before statement after accepted_results result,
    statements = before ++ statement :: after ∧ results = accepted_results ++ [result] ∧
    Forall2 accepted before accepted_results ∧ refused statement result.

(** What the result of an execution promises. *)
Record execution_report (plan : ConsistentLedgerPostgresExecutionPlan) (result : ConsistentLedgerPostgresExecutorResult)
    : Prop := {
  rep_operation : er_operation result = pp_operation plan;
  rep_committed :
    er_committed result = true →
    results_complete (pp_sql_statements plan) (er_statement_results result) ∧ er_error result = None ∧
    er_outcome result = committed_outcome plan ∧ er_rolled_back result = false;
  rep_rolled_back :
    er_committed result = false →
    (results_complete (pp_sql_statements plan) (er_statement_results result) ∨
     results_cut (pp_sql_statements plan) (er_statement_results result) ∨ er_statement_results result = []) ∧
    er_error result ≠ None ∧ er_outcome result = PgRolledBack;
}.

Section executor_facts.
Context {S : Type} {X : TransactionExecutor S} (plan : ConsistentLedgerPostgresExecutionPlan).

Lemma roll_back_result executor results error :
  ∃ rolled_back, (roll_back plan executor results error).1
    = executor_result plan PgRolledBack false rolled_back results (Some error).
Proof. unfold roll_back. destruct (rollback_transaction executor). by eexists. Qed.

Lemma results_cut_intro before statement after accepted_results result :
  Forall2 accepted before accepted_results → refused statement result →
  results_cut (before ++ statement :: after) (accepted_results ++ [result]).
Proof. intros. by eexists before, statement, after, accepted_results, result. Qed.

Lemma execute_statements_report executor before results statements :
  pp_sql_statements plan = before ++ statements → Forall2 accepted before results →
  execution_report plan (execute_statements plan executor results statements).1.
Proof.
  revert executor before results. induction statements as [|statement statements IH];
    intros executor before results Hplan Hbefore; cbn [execute_statements].
  - rewrite app_nil_r in Hplan. destruct (commit_transaction executor) as [[|error] executor'].
    + split; cbn; try done. intros _. split_and!; try done. by rewrite Hplan.
    + destruct (roll_back_result executor' results error) as (rolled_back & ->).
      split; cbn; try done. intros _. split_and!; try done. left. by rewrite Hplan.
  - destruct (execute_statement statement executor) as [[result|error] executor'].
    + case_bool_decide as Houtcome; [|destruct (enforce_statement_row_count _ _) as [error|] eqn:Hcount].
      * destruct (roll_back_result executor' (results ++ [sanitized_statement_result statement result])
          (statement_refused "statement_refused")) as (rolled_back & ->).
        split; cbn; try done. intros _. split_and!; try done. right; left. rewrite Hplan. by apply results_cut_intro.
      * destruct (roll_back_result executor' (results ++ [mark_refused (sanitized_statement_result statement result)])
          error) as (rolled_back & ->).
        split; cbn; try done. intros _. split_and!; try done. right; left. rewrite Hplan. by apply results_cut_intro.
      * apply (IH _ (before ++ [statement])); [by rewrite <-app_assoc|]. apply Forall2_app; [done|].
        constructor; [|done]. split_and!; try done. cbn in *. by destruct (sr_outcome result).
    + destruct (roll_back_result executor' (results ++ [refused_statement_result statement]) error)
        as (rolled_back & ->).
      split; cbn; try done. intros _. split_and!; try done. right; left. rewrite Hplan. by apply results_cut_intro.
Qed.

Lemma execution_report_holds executor :
  execution_report plan (execute_consistent_ledger_postgres_plan plan executor).1.
Proof.
  unfold execute_consistent_ledger_postgres_plan. destruct (begin_transaction executor) as [[|error] executor'].
  - by apply (execute_statements_report _ []).
  - split; cbn; try done. intros _. split_and!; try done. by right; right.
Qed.
End executor_facts.

(** ** The calls of an execution *)

Section calls.
Context {S : Type} {X : TransactionExecutor S} (plan : ConsistentLedgerPostgresExecutionPlan).

Definition state_after (executor : S) (statements : list ConsistentLedgerPostgresStatement) : S :=
  foldl (λ s statement, (execute_statement statement s).2) executor statements.

(** The transaction that was opened in [executor] has executed [count] of the
    statements; its last call was the commit, which succeeded, or the rollback,
    whose answer is reported, after a statement or after a commit that failed. *)
Definition transaction_closed (executor : S) (statements : list ConsistentLedgerPostgresStatement) (count : nat)
    (result : ConsistentLedgerPostgresExecutorResult) (executor' : S) : Prop :=
  let s := state_after executor (take count statements) in
  if er_committed result then count = length statements ∧ commit_transaction s = (Ok (), executor')
  else
    ∃ s' answer, (s' = s ∨ count = length statements ∧ ∃ error, commit_transaction s = (Err error, s')) ∧
      rollback_transaction s' = (answer, executor') ∧ er_rolled_back result = is_ok answer.

Lemma roll_back_closed executor statements count results error s :
  s = state_after executor (take count statements) ∨
  count = length statements ∧ (∃ error, commit_transaction (state_after executor (take count statements)) = (Err error, s)) →
  let '(result, executor') := roll_back plan s results error in
  transaction_closed executor statements count result executor' ∧ er_statement_results result = results.
Proof.
  intros Hs. unfold roll_back. destruct (rollback_transaction s) as [answer executor'] eqn:Hroll.
  split; [|done]. by exists s, answer.
Qed.

Lemma execute_statements_closed executor results statements :
  let '(result, executor') := execute_statements plan executor results statements in
  ∃ count, length (er_statement_results result) = (length results + count)%nat ∧
    transaction_closed executor statements count result executor'.
Proof.
  revert executor results. induction statements as [|statement statements IH]; intros executor results;
    cbn [execute_statements].
  - destruct (commit_transaction executor) as [[[]|error] s] eqn:Hcommit.
    + exists 0%nat. split; [cbn; lia|]. by split.
    + pose proof (roll_back_closed executor [] 0 results error s) as Hback. destruct (roll_back _ _ _ _) as [result s'].
      destruct Hback as [Hclosed Hresults]; [right; eauto|]. exists 0%nat. rewrite Hresults. split; [lia|done].
  - assert (∀ last error,
      let '(result, executor') := roll_back plan (execute_statement statement executor).2 (results ++ [last]) error in
      ∃ count, length (er_statement_results result) = (length results + count)%nat ∧
        transaction_closed executor (statement :: statements) count result executor') as Hback.
    { intros last error. pose proof (roll_back_closed executor (statement :: statements) 1 (results ++ [last]) error
        (execute_statement statement executor).2) as Hback. destruct (roll_back _ _ _ _) as [result s'].
      destruct Hback as [Hclosed Hresults]; [by left|]. exists 1%nat. rewrite Hresults, length_app. done. }
    destruct (execute_statement statement executor) as [[result|error] s] eqn:Hstep; [|apply Hback].
    case_bool_decide; [apply Hback|]. destruct (enforce_statement_row_count _ _); [apply Hback|].
    specialize (IH s (results ++ [sanitized_statement_result statement result])).
    destruct (execute_statements plan s _ statements) as [report s']. destruct IH as (count & Hlength & Hclosed).
    exists (Datatypes.S count). split; [rewrite Hlength, length_app; cbn; lia|].
    unfold transaction_closed in *. cbn [take state_after foldl length] in *. rewrite Hstep. cbn [snd].
    destruct (er_committed report); [naive_solver|]. destruct Hclosed as (s0 & answer & Hs0 & Hroll).
    exists s0, answer. split; [|done]. destruct Hs0 as [->|[-> Herror]]; [by left|by right].
Qed.
End calls.

(** What an implementation of the trait has to promise about the data that
    outlives the transaction: only a commit that succeeds may change it. *)
Class ExecutorLaws {S D : Type} (X : TransactionExecutor S) (durable : S → D) : Prop := {
  begin_durable s : durable (begin_transaction s).2 = durable s;
  execute_durable statement s : durable (execute_statement statement s).2 = durable s;
  commit_error_durable s error : (commit_transaction s).1 = Err error → durable (commit_transaction s).2 = durable s;
  rollback_durable s : durable (rollback_transaction s).2 = durable s;
}.

Section atomicity.
Context {S D : Type} {X : TransactionExecutor S} (durable : S → D) {L : ExecutorLaws X durable}.
Context (plan : ConsistentLedgerPostgresExecutionPlan).

Lemma roll_back_durable executor results error : durable (roll_back plan executor results error).2 = durable executor.
Proof.
  unfold roll_back. pose proof (rollback_durable executor) as Hd. by destruct (rollback_transaction executor).
Qed.

Lemma execute_statements_durable executor results statements :
  er_committed (execute_statements plan executor results statements).1 = false →
  durable (execute_statements plan executor results statements).2 = durable executor.
Proof.
  revert executor results. induction statements as [|statement statements IH]; intros executor results;
    cbn [execute_statements].
  - pose proof (commit_error_durable executor) as Hd.
    destruct (commit_transaction executor) as [[|error] executor']; [done|]. intros _.
    rewrite roll_back_durable. by eapply Hd.
  - pose proof (execute_durable statement executor) as Hd.
    destruct (execute_statement statement executor) as [answer executor']. cbn in Hd. rewrite <-Hd.
    destruct answer as [result|error]; [|intros _; apply roll_back_durable].
    case_bool_decide; [intros _; apply roll_back_durable|].
    destruct (enforce_statement_row_count _ _); [intros _; apply roll_back_durable|apply IH].
Qed.

Lemma execute_plan_durable executor :
  er_committed (execute_consistent_ledger_postgres_plan plan executor).1 = false →
  durable (execute_consistent_ledger_postgres_plan plan executor).2 = durable executor.
Proof.
  unfold execute_consistent_ledger_postgres_plan. pose proof (begin_durable executor) as Hd.
  destruct (begin_transaction executor) as [[|error] executor']; cbn in Hd; rewrite <-Hd; [|done].
  apply execute_statements_durable.
Qed.
End atomicity.

Lemma count_outcome_app outcome results results' :
  count_outcome outcome (results ++ results') = (count_outcome outcome results + count_outcome outcome results')%nat.
Proof. unfold count_outcome. by rewrite List.filter_app, length_app. Qed.

Lemma count_outcome_total results :
  (count_outcome Executed results + count_outcome Refused results)%nat = length results.
Proof.
  induction results as [|result results IH]; [done|].
  change (result :: results) with ([result] ++ results). rewrite !count_outcome_app, length_app, <-IH.
  unfold count_outcome. cbn. destruct (sr_outcome result); repeat case_bool_decide; simplify_eq/=; lia.
Qed.

Lemma accepted_not_refused statements results :
  Forall2 accepted statements results → count_outcome Refused results = 0%nat.
Proof.
  induction 1 as [|statement result statements results (_ & _ & _ & Ho & _) _ IH]; [done|].
  unfold count_outcome in *. cbn. by rewrite Ho.
Qed.

Lemma report_refused plan result :
  execution_report plan result →
  (count_outcome Refused (er_statement_results result) <= 1)%nat ∧
  (er_committed result = true → count_outcome Refused (er_statement_results result) = 0%nat ∧
     length (er_statement_results result) = length (pp_sql_statements plan)).
Proof.
  intros [_ Hcommitted Hrolled]. destruct (er_committed result).
  - destruct (Hcommitted eq_refl) as (Hall & _). split; [rewrite (accepted_not_refused _ _ Hall); lia|].
    intros _. split; [by eapply accepted_not_refused|]. symmetry. by eapply Forall2_length.
  - split; [|done]. destruct (Hrolled eq_refl) as ([Hall|[Hcut|Hnone]] & _);
      [rewrite (accepted_not_refused _ _ Hall); lia| |rewrite Hnone; cbn; lia].
    destruct Hcut as (before & statement & after & results & last & _ & Hresults & Hall & (_ & _ & _ & Ho)).
    rewrite Hresults.
    rewrite count_outcome_app, (accepted_not_refused _ _ Hall). unfold count_outcome. cbn. rewrite Ho.
    rewrite bool_decide_eq_true_2 by done. cbn. lia.
Qed.

(** C27: the Postgres executor is atomic and reports truthfully, for every
    implementation of its trait whose transactions are. A committed result means
    that every statement of the plan was executed, in order, with the row count
    it expects, and then the commit, which succeeded; any other result carries an
    error, reports the statements that were accepted and at most one that was
    refused, the last, and has left the durable data as they were. Unless the
    transaction could not be opened, its last call was then a rollback, after the
    last reported statement or a commit that failed, and the result says whether
    that rollback succeeded. The summary counts add up, and say of a committed
    result that as many statements as planned were executed and none refused. *)
Theorem postgres_executor_atomic {S D : Type} {X : TransactionExecutor S} (durable : S → D)
    (plan : ConsistentLedgerPostgresExecutionPlan) (executor : S) (Hlaws : ExecutorLaws X durable) :
  let '(result, executor') := execute_consistent_ledger_postgres_plan plan executor in
  let summary := summarize_consistent_ledger_postgres_executor_result result in
  execution_report plan result ∧
  (er_committed result = false → durable executor' = durable executor) ∧
  match begin_transaction executor with
  | (Ok _, opened) =>
      transaction_closed opened (pp_sql_statements plan) (length (er_statement_results result)) result executor'
  | (Err _, refused) => executor' = refused ∧ er_committed result = false ∧ er_rolled_back result = false
  end ∧
  (sy_executed_statement_count summary + sy_refused_statement_count summary = sy_statement_count summary)%nat ∧
  (sy_refused_statement_count summary <= 1)%nat ∧
  (sy_committed summary = true →
   sy_executed_statement_count summary = length (pp_sql_statements plan) ∧ sy_row_count_mismatch summary = false).
Proof.
  pose proof (execution_report_holds plan executor) as Hreport.
  pose proof (execute_plan_durable durable plan executor) as Hdurable.
  assert (let '(result, executor') := execute_consistent_ledger_postgres_plan plan executor in
    match begin_transaction executor with
    | (Ok _, opened) =>
        transaction_closed opened (pp_sql_statements plan) (length (er_statement_results result)) result executor'
    | (Err _, refused) => executor' = refused ∧ er_committed result = false ∧ er_rolled_back result = false
    end) as Hcalls.
  { unfold execute_consistent_ledger_postgres_plan. destruct (begin_transaction executor) as [[|error] s]; [|done].
    pose proof (execute_statements_closed plan s [] (pp_sql_statements plan)) as Hclosed.
    destruct (execute_statements _ _ _ _) as [result executor']. by destruct Hclosed as (count & -> & Hclosed). }
  destruct (execute_consistent_ledger_postgres_plan plan executor) as [result executor']. cbn in *.
  destruct (report_refused _ _ Hreport) as [Hrefused Hcommitted].
  split_and!; try done; [apply count_outcome_total|]. intros Hc.
  destruct (Hcommitted Hc) as [Hnone Hlength]. destruct (rep_committed _ _ Hreport Hc) as (_ & -> & _).
  split; [|done]. rewrite <-Hlength, <-count_outcome_total, Hnone. lia.
Qed.

(** ** A journal as executor *)

(** The statements of the open transaction and those that were committed; every
    statement finds one row, but for the kinds in [missing]. *)
Record Journal : Type := mkJournal {
  jr_missing : list ConsistentLedgerPostgresStatementKind;
  jr_open : list ConsistentLedgerPostgresStatement;
  jr_committed : list ConsistentLedgerPostgresStatement;
}.

#[export] Instance journal_executor : TransactionExecutor Journal := {
  begin_transaction s := (Ok (), mkJournal (jr_missing s) [] (jr_committed s));
  execute_statement statement s :=
    (Ok (mkStatementResult (ps_order statement) (ps_kind statement) (ps_target statement) Executed
           (if bool_decide (ps_kind statement ∈ jr_missing s) then 0 else 1)),
     mkJournal (jr_missing s) (jr_open s ++ [statement]) (jr_committed s));
  commit_transaction s := (Ok (), mkJournal (jr_missing s) [] (jr_committed s ++ jr_open s));
  rollback_transaction s := (Ok (), mkJournal (jr_missing s) [] (jr_committed s));
}.

Definition sample_execution : ConsistentLedgerPostgresExecutionPlan :=
  mkPostgresExecutionPlan OpRefund OutcomeApply (mkConsistentLedgerScope 100 None None) (transaction_steps false)
    [ledger_lock_statement 1 OpRefund; command_statement 2 (status_update_command 1 7)].

Lemma postgres_executor_atomic_witness :
  let executor := mkJournal [KUpdateLedgerStatus] [] [] in
  let '(result, executor') := execute_consistent_ledger_postgres_plan sample_execution executor in
  er_committed result = false ∧ jr_committed executor' = jr_committed executor ∧
  count_outcome Refused (er_statement_results result) = 1%nat.
Proof.
  cbn zeta.
  assert (ExecutorLaws journal_executor jr_committed) as Hlaws by (by constructor).
  pose proof (postgres_executor_atomic jr_committed sample_execution (mkJournal [KUpdateLedgerStatus] [] []) Hlaws)
    as Hatomic.
  cbn zeta in Hatomic.
  destruct (execute_consistent_ledger_postgres_plan _ _) as [result executor'] eqn:Hrun.
  destruct Hatomic as (_ & Hdurable & _). vm_compute in Hrun. injection Hrun as <- <-.
  split; [done|]. split; [by apply Hdurable|]. vm_compute. reflexivity.
Defined.
