(* ===== verification/PostgresTables.v ===== *)
(** The tables behind crates/billing-ledger/src/postgres_execution.rs: what the
    eight SQL statements of the crate do, with the constraints of
    db/migrations/0001_init.sql, and the sqlx executor that runs a plan on them in
    one transaction. A committed plan does to the table of ledger entries what
    the in-memory writer does to its list. *)

From S2P Require Export PostgresPlan LedgerInvariant.

#[local] Open Scope string_scope.
#[local] Open Scope list_scope.
#[local] Open Scope Z_scope.

(** ** Tables *)

Record WalletRow : Type := mkWalletRow {
  w_id : Uuid;
  w_tenant_id : Uuid;
  w_project_id : option Uuid;
  w_currency : string;
  w_status : string;
}.

Record CreditGrantRow : Type := mkCreditGrantRow {
  g_id : Uuid;
  g_tenant_id : Uuid;
  g_wallet_id : Uuid;
  g_currency : string;
  g_status : string;
  g_valid_from : Z;
  g_valid_until : option Z;
}.

Record BudgetRow : Type := mkBudgetRow {
  b_id : Uuid;
  b_tenant_id : Uuid;
  b_scope : string;
  b_project_id : option Uuid;
  b_virtual_key_id : option Uuid;
  b_currency : string;
  b_status : string;
  b_deleted : bool;
  b_limit_amount : FixedDecimal;
}.

(** A row of [ledger_entries]; the columns the writer also keeps in memory are
    its record. *)
Record LedgerRow : Type := mkLedgerRow {
  l_tenant_id : Uuid;
  l_project_id : option Uuid;
  l_virtual_key_id : option Uuid;
  l_wallet_id : option Uuid;
  l_record : LedgerEntryRecord;
  l_metadata : LedgerEntryMetadata;
}.

Record Database : Type := mkDatabase {
  db_wallets : list WalletRow;
  db_credit_grants : list CreditGrantRow;
  db_budgets : list BudgetRow;
  db_ledger_entries : list LedgerRow;
}.

Definition with_ledger_entries (db : Database) (rows : list LedgerRow) : Database :=
  mkDatabase (db_wallets db) (db_credit_grants db) (db_budgets db) rows.

(** What the connection and the rest of the database answer: errors of the
    connection, the clock, [gen_random_uuid()] and whether the rows that a new
    entry refers to exist. *)
Record PostgresEnv : Type := mkPostgresEnv {
  pe_begin : option ConsistentLedgerPostgresDbErrorKind;
  pe_statement : Z → option ConsistentLedgerPostgresDbErrorKind;
  pe_commit : option ConsistentLedgerPostgresDbErrorKind;
  pe_rollback : bool;
  pe_now : Z;
  pe_new_id : Uuid;
  pe_references : LedgerRow → bool;
}.

(** ** Statements *)

(** The numeric value of an amount, in units of the finest scale. *)
Definition numeric (amount : FixedDecimal) : Z := units amount * 10 ^ (MAX_MONEY_SCALE - scale amount).

(** The cast to [numeric(20, 8)]: rounded half away from zero; out of range is an
    error. *)
Definition numeric_20_8 (amount : FixedDecimal) : result ConsistentLedgerPostgresDbErrorKind FixedDecimal :=
  let unit := 10 ^ (MAX_MONEY_SCALE - DEFAULT_MONEY_SCALE) in
  let value := numeric amount in
  let rounded := Z.sgn value * ((2 * Z.abs value + unit) / (2 * unit)) in
  if Z.abs rounded <? 10 ^ 20 then Ok (mkFixedDecimal rounded DEFAULT_MONEY_SCALE) else Err Unknown.

Definition entry_type_of_sql (text : string) : option LedgerEntryType :=
  if bool_decide (text = "reserve") then Some EntryReserve
  else if bool_decide (text = "settle") then Some EntrySettle
  else if bool_decide (text = "refund") then Some EntryRefund
  else if bool_decide (text = "adjust") then Some EntryAdjust
  else None.

Definition status_of_sql (text : string) : option LedgerEntryStatus :=
  if bool_decide (text = "pending") then Some Pending
  else if bool_decide (text = "confirmed") then Some Confirmed
  else if bool_decide (text = "reversed") then Some Reversed
  else None.

Definition lock_wallet (tenant_id : Uuid) (project_id : option Uuid) (currency : string) (row : WalletRow) : bool :=
  (w_tenant_id row =? tenant_id) && bool_decide (w_project_id row = project_id)
  && bool_decide (w_currency row = currency) && bool_decide (w_status row ∈ ["active"; "suspended"]).

Definition lock_credit_grant (now : Z) (tenant_id wallet_id : Uuid) (currency : string) (row : CreditGrantRow) : bool :=
  (g_tenant_id row =? tenant_id) && (g_wallet_id row =? wallet_id) && bool_decide (g_currency row = currency)
  && bool_decide (g_status row = "active") && (g_valid_from row <=? now)
  && match g_valid_until row with None => true | Some valid_until => now <? valid_until end.

Definition lock_budget (tenant_id : Uuid) (project_id virtual_key_id : option Uuid) (currency : string)
    (row : BudgetRow) : bool :=
  (b_tenant_id row =? tenant_id)
  && (bool_decide (b_scope row = "tenant")
      || (bool_decide (b_scope row = "project") && bool_decide (b_project_id row = project_id))
      || (bool_decide (b_scope row = "virtual_key") && bool_decide (b_virtual_key_id row = virtual_key_id)))
  && bool_decide (b_currency row = currency) && bool_decide (b_status row = "active") && negb (b_deleted row).

Definition lock_ledger_entry (tenant_id : Uuid) (request_id source_id related_id : option Uuid) (key : string)
    (row : LedgerRow) : bool :=
  (l_tenant_id row =? tenant_id)
  && ((is_some request_id && bool_decide (er_request_id (l_record row) = request_id))
      || (is_some source_id && bool_decide (Some (er_id (l_record row)) = source_id))
      || (is_some related_id && bool_decide (er_related_ledger_entry_id (l_record row) = related_id))
      || bool_decide (er_idempotency_key (l_record row) = key)).

Definition assert_budget (tenant_id budget_id : Uuid) (currency : string) (required : FixedDecimal) (row : BudgetRow)
    : bool :=
  (b_tenant_id row =? tenant_id) && (b_id row =? budget_id) && bool_decide (b_currency row = currency)
  && (numeric required <=? numeric (b_limit_amount row)).

(** The check constraints of [ledger_entries] on a new row. *)
Definition checks_pass (row : LedgerRow) : bool :=
  let record := l_record row in
  List.existsb (λ c, negb (bool_decide (c = " "%char))) (as_bytes (er_idempotency_key record))
  && negb (units (er_amount record) =? 0)
  && is_ok (validate_currency (er_currency record))
  && (negb (bool_decide (er_entry_type record = EntryRefund)) || is_some (er_related_ledger_entry_id record)).

(** The index [uq_ledger_entries_one_settle_per_request]. *)
Definition same_settle (row row' : LedgerRow) : bool :=
  let active_settle row :=
    bool_decide (er_entry_type (l_record row) = EntrySettle) && is_active (er_status (l_record row)) in
  active_settle row && active_settle row' && (l_tenant_id row =? l_tenant_id row')
  && is_some (er_request_id (l_record row))
  && bool_decide (er_request_id (l_record row) = er_request_id (l_record row')).

(** [insert ... on conflict (tenant_id, idempotency_key) do nothing]. *)
Definition insert_ledger_row (env : PostgresEnv) (row : LedgerRow) (rows : list LedgerRow)
    : result ConsistentLedgerPostgresDbErrorKind (nat * list LedgerRow) :=
  if negb (checks_pass row) then Err CheckViolation
  else if List.existsb
            (λ existing, (l_tenant_id existing =? l_tenant_id row)
                         && bool_decide (er_idempotency_key (l_record existing) = er_idempotency_key (l_record row)))
            rows
  then Ok (0%nat, rows)
  else if List.existsb (λ existing, (er_id (l_record existing) =? er_id (l_record row)) || same_settle row existing) rows
  then Err UniqueViolation
  else if negb (pe_references env row) then Err ForeignKeyViolation
  else Ok (1%nat, rows ++ [row]).

Definition update_row (tenant_id id : Uuid) (from to : LedgerEntryStatus) (row : LedgerRow) : option LedgerRow :=
  if (l_tenant_id row =? tenant_id) && (er_id (l_record row) =? id) && bool_decide (er_status (l_record row) = from)
  then Some (mkLedgerRow (l_tenant_id row) (l_project_id row) (l_virtual_key_id row) (l_wallet_id row)
               (Writer.with_status (l_record row) to) (l_metadata row))
  else None.

(** The eight statements with their parameters [$1], [$2], ... in order: the
    number of rows returned and the tables left behind. *)
Definition run_statement (env : PostgresEnv) (kind : ConsistentLedgerPostgresStatementKind)
    (binds : list ConsistentLedgerPostgresSqlxBindValue) (db : Database)
    : result ConsistentLedgerPostgresDbErrorKind (nat * Database) :=
  match kind, binds with
  | KLockWallet, [BindUuid tenant_id; BindOptionalUuid project_id; BindText currency] =>
      Ok (length (List.filter (lock_wallet tenant_id project_id currency) (db_wallets db)), db)
  | KLockCreditGrants, [BindUuid tenant_id; BindUuid wallet_id; BindText currency] =>
      Ok (length (List.filter (lock_credit_grant (pe_now env) tenant_id wallet_id currency) (db_credit_grants db)), db)
  | KLockBudgets, [BindUuid tenant_id; BindOptionalUuid project_id; BindOptionalUuid virtual_key_id;
                   BindText currency] =>
      Ok (length (List.filter (lock_budget tenant_id project_id virtual_key_id currency) (db_budgets db)), db)
  | KLockLedgerEntries, [BindUuid tenant_id; BindOptionalUuid request_id; BindOptionalUuid source_id;
                         BindOptionalUuid related_id; BindOperationKey key] =>
      Ok (length (List.filter (lock_ledger_entry tenant_id request_id source_id related_id key)
                    (db_ledger_entries db)), db)
  | KAssertBalanceWindow, [BindUuid _; BindText _; BindDecimalText available; BindDecimalText required] =>
      Ok (if numeric required <=? numeric available then 1%nat else 0%nat, db)
  | KAssertBudgetWindow, [BindUuid tenant_id; BindUuid budget_id; BindText currency; BindDecimalText required] =>
      Ok (length (List.filter (assert_budget tenant_id budget_id currency required) (db_budgets db)), db)
  | KInsertLedgerEntry,
    [BindUuid tenant_id; BindOptionalUuid project_id; BindOptionalUuid virtual_key_id; BindUuid wallet_id;
     BindOptionalUuid request_id; BindOptionalUuid related_id; BindText entry_type; BindDecimalText amount;
     BindText currency; BindText status; BindOperationKey key; BindJson metadata] =>
      amount ← numeric_20_8 amount;
      entry_type ← ok_or (entry_type_of_sql entry_type) CheckViolation;
      status ← ok_or (status_of_sql status) CheckViolation;
      '(count, rows) ← insert_ledger_row env
        {| l_tenant_id := tenant_id;
           l_project_id := project_id;
           l_virtual_key_id := virtual_key_id;
           l_wallet_id := Some wallet_id;
           l_record :=
             {| er_id := pe_new_id env;
                er_request_id := request_id;
                er_related_ledger_entry_id := related_id;
                er_entry_type := entry_type;
                er_amount := amount;
                er_currency := currency;
                er_status := status;
                er_idempotency_key := key |};
           l_metadata := metadata |}
        (db_ledger_entries db);
      Ok (count, with_ledger_entries db rows)
  | KUpdateLedgerStatus, [BindUuid tenant_id; BindUuid id; BindText from; BindText to] =>
      from ← ok_or (status_of_sql from) Unknown;
      to ← ok_or (status_of_sql to) CheckViolation;
      let update := update_row tenant_id id from to in
      Ok (length (omap update (db_ledger_entries db)),
          with_ledger_entries db ((λ row, default row (update row)) <$> db_ledger_entries db))
  | _, _ => Err Unknown
  end.

(** ** The sqlx executor *)

Section sqlx.
Context (env : PostgresEnv).

(** [execute_sqlx_executable_statement]; the rows have the columns of the
    statement, so the check of the returned schema passes. *)
Definition execute_sqlx_executable_statement (statement : ConsistentLedgerPostgresStatement)
    (executable : ConsistentLedgerPostgresSqlxExecutableStatement) (db : Database)
    : result ConsistentLedgerPostgresExecutorError (ConsistentLedgerPostgresStatementResult * Database) :=
  '(rows, db) ←
    map_err map_consistent_ledger_postgres_db_error
      match pe_statement env (ps_order statement) with
      | Some kind => Err kind
      | None => run_statement env (xs_kind executable) (xs_binds executable) db
      end;
  Ok ({| sr_order := ps_order statement;
         sr_kind := ps_kind statement;
         sr_target := ps_target statement;
         sr_outcome := Executed;
         sr_rows_affected := Z.of_nat rows |}, db).

(** The loop of [execute_consistent_ledger_postgres_sqlx_plan] and the commit.
    [db] is the database before the transaction, [working] what the transaction
    has made of it. The panic of [expect], which the validation rules out, drops
    the transaction. *)
Fixpoint execute_sqlx_statements (plan : ConsistentLedgerPostgresExecutionPlan)
    (executable_statements : list ConsistentLedgerPostgresSqlxExecutableStatement) (db working : Database)
    (statement_results : list ConsistentLedgerPostgresStatementResult)
    (statements : list ConsistentLedgerPostgresStatement) : ConsistentLedgerPostgresExecutorResult * Database :=
  let rolled_back results error :=
    (executor_result plan PgRolledBack false (pe_rollback env) results (Some error), db) in
  match statements with
  | [] =>
      match pe_commit env with
      | Some kind =>
          (executor_result plan PgRolledBack false false statement_results
             (Some (map_consistent_ledger_postgres_db_error kind)), db)
      | None => (executor_result plan (committed_outcome plan) true false statement_results None, working)
      end
  | statement :: statements =>
      match List.find (λ executable, xs_order executable =? ps_order statement) executable_statements with
      | None => rolled_back statement_results (statement_refused "executable statement set was validated")
      | Some executable =>
          match execute_sqlx_executable_statement statement executable working with
          | Ok (result, working) =>
              let result := sanitized_statement_result statement result in
              match enforce_statement_row_count statement (sr_rows_affected result) with
              | Some error => rolled_back (statement_results ++ [mark_refused result]) error
              | None =>
                  execute_sqlx_statements plan executable_statements db working
                    (statement_results ++ [result]) statements
              end
          | Err error => rolled_back (statement_results ++ [refused_statement_result statement]) error
          end
      end
  end.

Definition execute_consistent_ledger_postgres_sqlx_plan (plan : ConsistentLedgerPostgresExecutionPlan)
    (executable_statements : list ConsistentLedgerPostgresSqlxExecutableStatement) (db : Database)
    : ConsistentLedgerPostgresExecutorResult * Database :=
  match validate_sqlx_executable_statement_set plan executable_statements with
  | Some error => (executor_result plan PgRolledBack false false [] (Some error), db)
  | None =>
      match pe_begin env with
      | Some kind =>
          (executor_result plan PgRolledBack false false [] (Some (map_consistent_ledger_postgres_db_error kind)), db)
      | None => execute_sqlx_statements plan executable_statements db db [] (pp_sql_statements plan)
      end
  end.

Definition execute_consistent_ledger_postgres_sqlx_writer_plan (writer_plan : ConsistentLedgerWriterPlan)
    (plan : ConsistentLedgerPostgresExecutionPlan) (db : Database) : ConsistentLedgerPostgresExecutorResult * Database :=
  match plan_consistent_ledger_postgres_sqlx_executable_statements writer_plan plan with
  | Err error => (executor_result plan PgRolledBack false false [] (Some error), db)
  | Ok executable_statements => execute_consistent_ledger_postgres_sqlx_plan plan executable_statements db
  end.
End sqlx.

(** ** Running the statements of a plan *)

(** The statements one after the other, while each finds the rows it expects. *)
Fixpoint runs {A : Type} (f : A → Database → option Database) (items : list A) (db : Database) : option Database :=
  match items with
  | [] => Some db
  | item :: items => match f item db with Some db' => runs f items db' | None => None end
  end.

Lemma runs_app {A} (f : A → Database → option Database) l1 l2 db :
  runs f (l1 ++ l2) db = match runs f l1 db with Some db' => runs f l2 db' | None => None end.
Proof. revert db. induction l1 as [|x l1 IH]; intros db; cbn; [done|]. by destruct (f x db). Qed.

Lemma runs_Forall2 {A B} (f : A → Database → option Database) (g : B → Database → option Database) l l' db :
  Forall2 (λ x y, ∀ db, f x db = g y db) l l' → runs f l db = runs g l' db.
Proof. intros HF. revert db. induction HF as [|x y l l' Hxy _ IH]; intros db; cbn; [done|]. rewrite Hxy. by destruct (g y db). Qed.

(** Statements that only test the database. *)
Lemma runs_tests {A} (test : A → Database → bool) l db :
  runs (λ x db, if test x db then Some db else None) l db = if forallb (λ x, test x db) l then Some db else None.
Proof. induction l as [|x l IH]; cbn; [done|]. by destruct (test x db). Qed.

Section running.
Context (env : PostgresEnv) (writer_plan : ConsistentLedgerWriterPlan).

(** A connection without errors, and references that exist. *)
Record healthy : Prop := {
  he_begin : pe_begin env = None;
  he_statement order : pe_statement env order = None;
  he_commit : pe_commit env = None;
  he_references row : pe_references env row = true;
}.

Definition run_one (statement : ConsistentLedgerPostgresStatement) (db : Database) : option Database :=
  match sqlx_executable_statement writer_plan statement with
  | Err _ => None
  | Ok executable =>
      match run_statement env (xs_kind executable) (xs_binds executable) db with
      | Err _ => None
      | Ok (rows, db') =>
          match enforce_statement_row_count statement (Z.of_nat rows) with Some _ => None | None => Some db' end
      end
  end.

(** What the executor reports of a run. *)
Definition run_report (plan : ConsistentLedgerPostgresExecutionPlan) (db : Database) (run : option Database)
    (report : ConsistentLedgerPostgresExecutorResult * Database) : Prop :=
  match run with
  | Some final => er_committed report.1 = true ∧ er_outcome report.1 = committed_outcome plan ∧ report.2 = final
  | None =>
      er_committed report.1 = false ∧ er_outcome report.1 = PgRolledBack ∧ er_error report.1 ≠ None ∧ report.2 = db
  end.

Lemma execute_sqlx_statements_runs plan executables db working results statements :
  healthy →
  Forall (λ statement, ∃ executable,
    sqlx_executable_statement writer_plan statement = Ok executable ∧
    List.find (λ executable, xs_order executable =? ps_order statement) executables = Some executable) statements →
  run_report plan db (runs run_one statements working)
    (execute_sqlx_statements env plan executables db working results statements).
Proof.
  intros Henv HF. revert working results.
  induction HF as [|statement statements (executable & Hx & Hfind) _ IH]; intros working results.
  - cbn. by rewrite (he_commit Henv).
  - cbn [runs execute_sqlx_statements]. unfold run_one at 1. rewrite Hfind, Hx.
    unfold execute_sqlx_executable_statement. rewrite (he_statement Henv).
    destruct (run_statement _ _ _ _) as [[rows db']|kind]; cbn; [|done].
    destruct (enforce_statement_row_count statement (Z.of_nat rows)); [done|]. apply IH.
Qed.

(** *** The executable statements *)

Lemma executable_fields statement executable :
  sqlx_executable_statement writer_plan statement = Ok executable →
  xs_order executable = ps_order statement ∧ xs_kind executable = ps_kind statement ∧
  xs_sql executable = sqlx_statement_sql (ps_kind statement) ∧
  xs_bind_markers executable = sqlx_bind_markers_for_statement (ps_kind statement) ∧
  xs_returning_columns executable = sqlx_returning_columns_for_statement (ps_kind statement) ∧
  length (xs_binds executable) = length (xs_bind_markers executable).
Proof.
  unfold sqlx_executable_statement. intros (binds & Hbinds%try_map_Ok & [= <-])%bind_Ok. cbn.
  split_and!; try done. symmetry. by eapply Forall2_length.
Qed.

Lemma filter_order_unique (executables : list ConsistentLedgerPostgresSqlxExecutableStatement) executable :
  NoDup (xs_order <$> executables) → executable ∈ executables →
  List.filter (λ other, xs_order other =? xs_order executable) executables = [executable].
Proof.
  induction executables as [|x l IH]; intros Hnd Hin; [by apply not_elem_of_nil in Hin|].
  rewrite fmap_cons in Hnd. apply NoDup_cons in Hnd as [Hx Hnd]. cbn.
  apply elem_of_cons in Hin as [->|Hin].
  - rewrite Z.eqb_refl. f_equal.
    clear IH Hnd. induction l as [|y l IH]; [done|]. rewrite fmap_cons, not_elem_of_cons in Hx. destruct Hx as [Hy Hl].
    cbn. rewrite (proj2 (Z.eqb_neq _ _)) by congruence. by apply IH.
  - destruct (Z.eqb_spec (xs_order x) (xs_order executable)) as [He|]; [|by apply IH].
    exfalso. apply Hx. rewrite He. by apply list_elem_of_fmap_2.
Qed.

Lemma find_of_filter {A} (f : A → bool) l x : List.filter f l = [x] → List.find f l = Some x.
Proof.
  induction l as [|y l IH]; cbn; [done|]. destruct (f y); [by intros [= -> _]|done].
Qed.

Lemma executables_found statements executables :
  try_map (sqlx_executable_statement writer_plan) statements = Ok executables → NoDup (ps_order <$> statements) →
  Forall (λ statement, ∃ executable,
    sqlx_executable_statement writer_plan statement = Ok executable ∧
    List.filter (λ other, xs_order other =? ps_order statement) executables = [executable]) statements.
Proof.
  intros HF%try_map_Ok Hnd. assert (xs_order <$> executables = ps_order <$> statements) as Horders.
  { symmetry. apply list_eq_Forall2. apply Forall2_fmap. eapply Forall2_impl; [exact HF|].
    intros st x Hx. by apply executable_fields in Hx as [-> _]. }
  rewrite <-Horders in Hnd. apply Forall_forall. intros statement Hin.
  apply list_elem_of_lookup in Hin as [i Hi]. destruct (Forall2_lookup_l _ _ _ _ _ HF Hi) as (x & Hx & Hst).
  exists x. split; [done|]. destruct (executable_fields _ _ Hst) as [<- _].
  apply filter_order_unique; [done|]. by eapply list_elem_of_lookup_2.
Qed.

Lemma statement_sql_concrete kind :
  bool_decide (str_trim (sqlx_statement_sql kind) = "") || contains_sql_template_placeholder (sqlx_statement_sql kind)
  = false.
Proof. destruct kind; vm_compute; reflexivity. Qed.

Lemma validation_passes plan executables :
  try_map (sqlx_executable_statement writer_plan) (pp_sql_statements plan) = Ok executables →
  NoDup (ps_order <$> pp_sql_statements plan) → validate_sqlx_executable_statement_set plan executables = None.
Proof.
  intros Htry Hnd. unfold validate_sqlx_executable_statement_set.
  assert (omap (validate_statement executables) (pp_sql_statements plan) = []) as ->.
  { pose proof (executables_found _ _ Htry Hnd) as HF. clear Htry Hnd.
    induction HF as [|statement statements (x & Hx & Hfilter) _ IH]; [done|]. cbn. unfold validate_statement at 1.
    rewrite Hfilter. destruct (executable_fields _ _ Hx) as (_ & Hk & Hsql & Hm & Hr & Hl).
    rewrite Hl, Hk, Hsql, Hm, Hr, statement_sql_concrete, !bool_decide_true by done. cbn.
    by rewrite andb_negb_r. }
  assert (List.existsb _ executables = false) as ->; [|done].
  apply not_true_iff_false. rewrite List.existsb_exists. intros (x & Hx & Hnot).
  apply negb_true_iff, not_true_iff_false in Hnot. apply Hnot, List.existsb_exists.
  apply try_map_Ok in Htry. apply list_elem_of_In, list_elem_of_lookup in Hx as [i Hi].
  destruct (Forall2_lookup_r _ _ _ _ _ Htry Hi) as (statement & Hst & Hok).
  exists statement. split; [by eapply list_elem_of_In, list_elem_of_lookup_2|].
  destruct (executable_fields _ _ Hok) as [-> _]. apply Z.eqb_refl.
Qed.

(** The executor, whole: with every statement executable and numbered apart, the
    transaction is the run of the statements. *)
Lemma sqlx_writer_plan_runs plan executables db :
  healthy → wp_operation writer_plan = pp_operation plan → wp_scope writer_plan = pp_scope plan →
  str_trim (wp_idempotency_key writer_plan) ≠ "" →
  try_map (sqlx_executable_statement writer_plan) (pp_sql_statements plan) = Ok executables →
  NoDup (ps_order <$> pp_sql_statements plan) →
  run_report plan db (runs run_one (pp_sql_statements plan) db)
    (execute_consistent_ledger_postgres_sqlx_writer_plan env writer_plan plan db).
Proof.
  intros Henv Hop Hscope Hkey Htry Hnd. unfold execute_consistent_ledger_postgres_sqlx_writer_plan,
    plan_consistent_ledger_postgres_sqlx_executable_statements, execute_consistent_ledger_postgres_sqlx_plan.
  rewrite !(bool_decide_true (_ = _ plan)), bool_decide_false, Htry by done. cbn.
  rewrite (validation_passes _ _ Htry Hnd), (he_begin Henv). apply execute_sqlx_statements_runs; [done|].
  eapply Forall_impl; [by eapply executables_found|]. intros statement (x & Hx & Hfind). exists x.
  split; [done|]. by apply find_of_filter.
Qed.
End running.

Lemma command_statements_orders n commands :
  0 <= n → n + Z.of_nat (length commands) < 2 ^ 16 →
  ps_order <$> command_statements n commands = seqZ n (Z.of_nat (length commands)).
Proof.
  revert n. induction commands as [|command commands IH]; intros n H0 Hlt; [done|].
  cbn [length] in *. cbn [command_statements]. rewrite fmap_cons, (seqZ_cons n) by lia. f_equal.
  - unfold command_statement. by destruct (cmd_kind command).
  - unfold wrap_u16. rewrite Z.mod_small by lia. rewrite IH by lia. f_equal; lia.
Qed.

Lemma planned_orders_NoDup writer_plan command_plan :
  Z.of_nat (length (cp_commands command_plan)) < 2 ^ 16 - 5 →
  NoDup (ps_order <$> pp_sql_statements (plan_consistent_ledger_postgres_execution writer_plan command_plan)).
Proof.
  intros Hlt. cbn [pp_sql_statements plan_consistent_ledger_postgres_execution].
  change (wrap_u16 _) with 5. rewrite fmap_app, command_statements_orders by lia.
  change (ps_order <$> ordered_lock_statements writer_plan) with (seqZ 1 4).
  rewrite <-seqZ_app by lia. apply NoDup_seqZ.
Qed.

(** *** The commands of a plan *)

Lemma push_commands_items {A} (command : Z → A → ConsistentLedgerBoundedCommand) items commands order :
  ∃ new order', push_commands command items (commands, order) = (commands ++ new, order') ∧
    Forall2 (λ c item, ∃ n, c = command n item) new items.
Proof.
  revert commands order. induction items as [|item items IH]; intros commands order.
  - exists [], order. by rewrite app_nil_r.
  - unfold push_commands in *. cbn [fold_left].
    destruct (IH (commands ++ [command order item]) (wrap_u16 (order + 1))) as (new & order' & -> & HF).
    exists (command order item :: new), order'. rewrite <-app_assoc. split; [done|]. constructor; [by exists order|done].
Qed.

Lemma bounded_commands_items plan :
  ∃ budgets entries updates,
    bounded_commands_for_plan plan = balance_assert_command 1 plan :: budgets ++ entries ++ updates ∧
    Forall2 (λ c check, ∃ n, c = budget_assert_command n check) budgets (wp_budget_checks plan) ∧
    Forall2 (λ c draft, ∃ n, c = insert_ledger_command n draft) entries (lp_entries (wp_ledger_plan plan)) ∧
    Forall2 (λ c update, ∃ n, c = status_update_command n (su_ledger_entry_id update)) updates
      (lp_status_updates (wp_ledger_plan plan)).
Proof.
  unfold bounded_commands_for_plan.
  destruct (push_commands_items budget_assert_command (wp_budget_checks plan)
    [balance_assert_command 1 plan] (wrap_u16 (1 + 1))) as (c1 & o1 & -> & H1).
  destruct (push_commands_items insert_ledger_command (lp_entries (wp_ledger_plan plan))
    ([balance_assert_command 1 plan] ++ c1) o1) as (c2 & o2 & -> & H2).
  destruct (push_commands_items (λ order update, status_update_command order (su_ledger_entry_id update))
    (lp_status_updates (wp_ledger_plan plan)) (([balance_assert_command 1 plan] ++ c1) ++ c2) o2)
    as (c3 & o3 & -> & H3).
  exists c1, c2, c3. cbn [fst]. by rewrite <-!app_assoc.
Qed.

Section commands.
Context (env : PostgresEnv) (plan : ConsistentLedgerWriterPlan).
Let tenant := sc_tenant_id (wp_scope plan).
Let currency := bw_currency (wp_balance_window plan).

(** The rows the statements look for. *)
Definition wallet_locks (db : Database) : bool :=
  (length (List.filter (lock_wallet tenant (sc_project_id (wp_scope plan)) currency) (db_wallets db)) =? 1)%nat.

Definition balance_stands : bool :=
  numeric (bw_required_debit (wp_balance_window plan)) <=? numeric (bw_available_before_write (wp_balance_window plan)).

Definition budget_stands (check : ConsistentBudgetCheck) (db : Database) : bool :=
  (length (List.filter (assert_budget tenant (bc_budget_id check) currency (bc_required_debit check)) (db_budgets db))
   =? 1)%nat.

Definition draft_row (draft : LedgerEntryDraft) : LedgerRow := {|
  l_tenant_id := tenant;
  l_project_id := sc_project_id (wp_scope plan);
  l_virtual_key_id := sc_virtual_key_id (wp_scope plan);
  l_wallet_id := Some (wc_wallet_id (wp_wallet_check plan));
  l_record := record_of_draft (pe_new_id env) draft;
  l_metadata := ed_metadata draft;
|}.

Definition run_update (update : LedgerStatusUpdate) (db : Database) : option Database :=
  let f := update_row tenant (su_ledger_entry_id update) Pending Reversed in
  if (length (omap f (db_ledger_entries db)) =? 1)%nat
  then Some (with_ledger_entries db ((λ row, default row (f row)) <$> db_ledger_entries db))
  else None.

Lemma row_count_test statement n (db : Database) :
  ps_row_count_expectation statement = ExactlyOne →
  match enforce_statement_row_count statement (Z.of_nat n) with Some _ => None | None => Some db end
  = if (n =? 1)%nat then Some db else None.
Proof.
  intros He. unfold enforce_statement_row_count. rewrite He.
  destruct (Nat.eqb_spec n 1) as [->|Hn]; [done|]. by rewrite (proj2 (Z.eqb_neq _ _)) by lia.
Qed.

Lemma run_locks db : runs (run_one env plan) (ordered_lock_statements plan) db = if wallet_locks db then Some db else None.
Proof.
  unfold ordered_lock_statements. cbn [runs]. unfold run_one at 1. cbn -[enforce_statement_row_count].
  rewrite row_count_test by done.
  fold tenant currency. change (length _ =? 1)%nat with (wallet_locks db). by destruct (wallet_locks db).
Qed.

Lemma run_balance k n db :
  run_one env plan (command_statement k (balance_assert_command n plan)) db = if balance_stands then Some db else None.
Proof. unfold run_one, balance_stands. cbn. by destruct (_ <=? _). Qed.

Lemma run_budget k n check db :
  run_one env plan (command_statement k (budget_assert_command n check)) db =
  if budget_stands check db then Some db else None.
Proof. unfold run_one. cbn -[enforce_statement_row_count]. by rewrite row_count_test by done. Qed.

Lemma run_status_update k n update db :
  run_one env plan (command_statement k (status_update_command n (su_ledger_entry_id update))) db = run_update update db.
Proof.
  unfold run_one. cbn -[enforce_statement_row_count status_of_sql].
  change (status_of_sql "pending") with (Some Pending). change (status_of_sql "reversed") with (Some Reversed).
  cbn -[enforce_statement_row_count]. by rewrite row_count_test by done.
Qed.

(** Amounts that fit the column [numeric(20, 8)] as they are. *)
Definition storable (draft : LedgerEntryDraft) : Prop :=
  scale (ed_amount draft) = DEFAULT_MONEY_SCALE ∧ Z.abs (units (ed_amount draft)) < 10 ^ 20.

Lemma numeric_20_8_exact amount :
  scale amount = DEFAULT_MONEY_SCALE → Z.abs (units amount) < 10 ^ 20 → numeric_20_8 amount = Ok amount.
Proof.
  destruct amount as [u s]. cbn. intros -> Hu. unfold numeric_20_8, numeric. cbn [units scale].
  change (MAX_MONEY_SCALE - DEFAULT_MONEY_SCALE) with 10.
  assert (Z.sgn (u * 10 ^ 10) * ((2 * Z.abs (u * 10 ^ 10) + 10 ^ 10) / (2 * 10 ^ 10)) = u) as ->.
  { replace ((2 * Z.abs (u * 10 ^ 10) + 10 ^ 10) / (2 * 10 ^ 10)) with (Z.abs u); [lia|].
    apply (Z.div_unique_pos _ _ _ (10 ^ 10)); lia. }
  by rewrite (proj2 (Z.ltb_lt _ _)).
Qed.

Lemma entry_type_of_sql_of entry_type : entry_type_of_sql (ledger_entry_type_sql entry_type) = Some entry_type.
Proof. by destruct entry_type. Qed.

Lemma status_of_sql_of status : status_of_sql (ledger_entry_status_sql status) = Some status.
Proof. by destruct status. Qed.

Lemma run_insert k n draft db :
  storable draft → wp_idempotency_key plan = ed_idempotency_key draft → lp_entries (wp_ledger_plan plan) = [draft] →
  insert_ledger_row env (draft_row draft) (db_ledger_entries db)
    = Ok (1%nat, db_ledger_entries db ++ [draft_row draft]) →
  run_one env plan (command_statement k (insert_ledger_command n draft)) db =
  Some (with_ledger_entries db (db_ledger_entries db ++ [draft_row draft])).
Proof.
  intros [Hs Hu] Hkey Hentries Hinsert. unfold run_one.
  cbn -[enforce_statement_row_count status_of_sql entry_type_of_sql numeric_20_8 insert_ledger_row].
  rewrite numeric_20_8_exact, entry_type_of_sql_of, status_of_sql_of by done.
  cbn -[enforce_statement_row_count insert_ledger_row].
  unfold first_ledger_entry_request_id, source_ledger_entry_id. rewrite Hentries.
  cbn -[enforce_statement_row_count insert_ledger_row].
  unfold draft_row, record_of_draft in *. rewrite Hkey.
  destruct (ed_request_id draft), (ed_related_ledger_entry_id draft); cbn -[insert_ledger_row] in Hinsert |- *;
    unfold tenant in Hinsert; rewrite Hinsert; done.
Qed.
End commands.

(** *** The rows of a tenant *)

Definition row_id (row : LedgerRow) : Uuid := er_id (l_record row).

Definition tenant_records (tenant_id : Uuid) (rows : list LedgerRow) : list LedgerEntryRecord :=
  l_record <$> List.filter (λ row, l_tenant_id row =? tenant_id) rows.

Definition with_record (row : LedgerRow) (record : LedgerEntryRecord) : LedgerRow :=
  mkLedgerRow (l_tenant_id row) (l_project_id row) (l_virtual_key_id row) (l_wallet_id row) record (l_metadata row).

Definition release_row (tenant_id : Uuid) (request_id : option Uuid) (row : LedgerRow) : LedgerRow :=
  if l_tenant_id row =? tenant_id then with_record row (release request_id (l_record row)) else row.

Lemma release_row_id tenant r row : row_id (release_row tenant r row) = row_id row.
Proof. unfold release_row, row_id. destruct (_ =? _); [apply release_id|done]. Qed.

Lemma release_row_same tenant r row : release r (l_record row) = l_record row → release_row tenant r row = row.
Proof. unfold release_row. intros ->. destruct (_ =? _); [by destruct row|done]. Qed.

Lemma tenant_records_app tenant rows rows' :
  tenant_records tenant (rows ++ rows') = tenant_records tenant rows ++ tenant_records tenant rows'.
Proof. unfold tenant_records. by rewrite List.filter_app, fmap_app. Qed.

Lemma tenant_records_release tenant r rows :
  tenant_records tenant (release_row tenant r <$> rows) = release r <$> tenant_records tenant rows.
Proof.
  unfold tenant_records. induction rows as [|row rows IH]; [done|]. rewrite fmap_cons. cbn [List.filter].
  unfold release_row at 1 2. destruct (l_tenant_id row =? tenant) eqn:He; cbn [l_tenant_id with_record]; rewrite He; [|done].
  by rewrite !fmap_cons, IH.
Qed.

Lemma elem_of_tenant_records tenant rows record :
  record ∈ tenant_records tenant rows ↔ ∃ row, row ∈ rows ∧ l_tenant_id row = tenant ∧ record = l_record row.
Proof.
  unfold tenant_records. rewrite list_elem_of_fmap. setoid_rewrite list_elem_of_In. setoid_rewrite List.filter_In.
  setoid_rewrite Z.eqb_eq. naive_solver.
Qed.

Lemma tenant_ids_NoDup tenant rows : NoDup (row_id <$> rows) → NoDup (er_id <$> tenant_records tenant rows).
Proof.
  induction rows as [|row rows IH]; intros Hnd; [apply NoDup_nil_2|].
  rewrite fmap_cons in Hnd. apply NoDup_cons in Hnd as [Hrow Hnd]. unfold tenant_records. cbn [List.filter].
  destruct (l_tenant_id row =? tenant); [|by apply IH]. rewrite !fmap_cons. constructor; [|by apply IH].
  rewrite list_elem_of_fmap. intros (record & He & (row' & Hin & _ & ->)%elem_of_tenant_records).
  apply Hrow. apply list_elem_of_fmap. by exists row'.
Qed.

Lemma update_other_rows tenant id rows :
  id ∉ (row_id <$> rows) →
  omap (update_row tenant id Pending Reversed) rows = [] ∧
  (λ row, default row (update_row tenant id Pending Reversed row)) <$> rows = rows.
Proof.
  induction rows as [|row rows IH]; intros Hid; [done|]. rewrite fmap_cons, not_elem_of_cons in Hid.
  destruct Hid as [Hrow Hid]. destruct (IH Hid) as [IH1 IH2]. cbn. rewrite IH1, IH2.
  assert (update_row tenant id Pending Reversed row = None) as ->; [|done]. unfold update_row.
  rewrite (proj2 (Z.eqb_neq (er_id (l_record row)) id)) by (unfold row_id in Hrow; congruence).
  by rewrite andb_false_r.
Qed.

Section updates.
Context (plan : ConsistentLedgerWriterPlan).
Let tenant := sc_tenant_id (wp_scope plan).

Lemma run_update_row db pre row post :
  db_ledger_entries db = pre ++ row :: post → NoDup (row_id <$> (pre ++ row :: post)) →
  l_tenant_id row = tenant → er_status (l_record row) = Pending →
  run_update plan (release_update (l_record row)) db =
  Some (with_ledger_entries db (pre ++ with_record row (Writer.with_status (l_record row) Reversed) :: post)).
Proof.
  intros Hrows Hnd Ht Hs. unfold run_update. rewrite Hrows, omap_app, fmap_app, fmap_cons. cbn -[update_row].
  rewrite fmap_app, fmap_cons in Hnd. apply NoDup_app in Hnd as (_ & Hpre & [Hpost _]%NoDup_cons).
  destruct (update_other_rows tenant (row_id row) pre) as [Ho1 Hm1]; [set_solver|].
  destruct (update_other_rows tenant (row_id row) post) as [Ho2 Hm2]; [done|].
  fold tenant (row_id row). rewrite Ho1, Ho2, Hm1, Hm2.
  unfold update_row at 1 2. rewrite Ht, Hs, !Z.eqb_refl, bool_decide_true by done. cbn. by rewrite <-Ht.
Qed.

Lemma run_updates r db pre post :
  db_ledger_entries db = pre ++ post → NoDup (row_id <$> (pre ++ post)) →
  runs (run_update plan) (release_update <$> List.filter (is_pending_reserve_for r) (tenant_records tenant post)) db
  = Some (with_ledger_entries db (pre ++ (release_row tenant (Some r) <$> post))).
Proof.
  revert db pre. induction post as [|row post IH]; intros db pre Hrows Hnd.
  - cbn. rewrite app_nil_r in *. by destruct db; cbn in *; subst.
  - assert (∀ row', row_id row' = row_id row → NoDup (row_id <$> ((pre ++ [row']) ++ post))) as Hnd'.
    { intros row' He. rewrite <-app_assoc, fmap_app in *. cbn. by rewrite He. }
    change (row :: post) with ([row] ++ post) at 1. rewrite tenant_records_app, List.filter_app, fmap_app, runs_app.
    unfold tenant_records at 1. cbn [List.filter]. rewrite fmap_cons. unfold release_row at 1.
    destruct (Z.eqb_spec (l_tenant_id row) tenant) as [Ht|Ht]; cbn.
    + destruct (is_pending_reserve_for r (l_record row)) eqn:Hp; cbn -[run_update].
      * rewrite (run_update_row db pre row post) by (done || unfold is_pending_reserve_for in Hp; by bool_to_prop).
        erewrite (IH _ (pre ++ [_])); [|by rewrite <-app_assoc|by apply Hnd'].
        by rewrite <-app_assoc.
      * rewrite (IH db (pre ++ [row])); [|by rewrite <-app_assoc|by apply Hnd'].
        rewrite <-app_assoc. by destruct row.
    + rewrite (IH db (pre ++ [row])); [|by rewrite <-app_assoc|by apply Hnd']. by rewrite <-app_assoc.
Qed.
End updates.

(** ** A plan on the tables *)

Lemma command_statements_items n commands :
  Forall2 (λ statement command, ∃ k, statement = command_statement k command) (command_statements n commands) commands.
Proof. revert n. induction commands as [|command commands IH]; intros n; constructor; eauto. Qed.

Lemma run_one_order env plan k command db :
  run_one env plan (command_statement k command) db = run_one env plan (command_statement 0 command) db.
Proof.
  unfold run_one, sqlx_executable_statement.
  assert (sqlx_bind_value plan (command_statement k command) = sqlx_bind_value plan (command_statement 0 command)) as ->
    by (unfold command_statement; by destruct (cmd_kind command)).
  unfold command_statement. destruct (cmd_kind command); cbn [ps_kind]; by destruct (try_map _ _).
Qed.

Lemma run_command_statements env plan n commands db :
  runs (run_one env plan) (command_statements n commands) db =
  runs (λ command, run_one env plan (command_statement 0 command)) commands db.
Proof.
  apply runs_Forall2. eapply Forall2_impl; [apply command_statements_items|].
  intros statement command (k & ->) db'. apply run_one_order.
Qed.

(** What the transaction of a plan finds in the tables when it commits. *)
Definition commits (plan : ConsistentLedgerWriterPlan) (db : Database) : bool :=
  wallet_locks plan db
  && (is_idempotent_outcome (wp_outcome plan)
      || (balance_stands plan && forallb (λ check, budget_stands plan check db) (wp_budget_checks plan))).

Lemma run_bounded_commands env plan draft db final :
  lp_entries (wp_ledger_plan plan) = [draft] →
  (∀ n, run_one env plan (command_statement 0 (insert_ledger_command n draft)) db
        = Some (with_ledger_entries db (db_ledger_entries db ++ [draft_row env plan draft]))) →
  runs (run_update plan) (lp_status_updates (wp_ledger_plan plan))
    (with_ledger_entries db (db_ledger_entries db ++ [draft_row env plan draft])) = Some final →
  runs (λ command, run_one env plan (command_statement 0 command)) (bounded_commands_for_plan plan) db =
  if balance_stands plan && forallb (λ check, budget_stands plan check db) (wp_budget_checks plan)
  then Some final else None.
Proof.
  intros Hentries Hinsert Hupdates.
  destruct (bounded_commands_items plan) as (budgets & entries & updates & -> & Hb & He & Hu).
  cbn [runs]. rewrite run_balance. destruct (balance_stands plan); [|done].
  rewrite runs_app, (runs_Forall2 _ (λ check db, if budget_stands plan check db then Some db else None)
    budgets (wp_budget_checks plan)), runs_tests.
  2:{ eapply Forall2_impl; [exact Hb|]. intros ? check (n & ->) db'. apply run_budget. }
  cbn [andb]. destruct (forallb _ _); [|done]. rewrite Hentries in He.
  apply Forall2_cons_inv_r in He as (entry & ? & (n & ->) & ->%Forall2_nil_inv_r & ->).
  cbn [app runs]. rewrite Hinsert. rewrite (runs_Forall2 _ (run_update plan) updates
    (lp_status_updates (wp_ledger_plan plan))); [done|].
  eapply Forall2_impl; [exact Hu|]. intros ? update (k & ->) db'. apply run_status_update.
Qed.

(** Every planned statement has its parameters. *)
Lemma planned_executable plan :
  let execution := plan_consistent_ledger_postgres_execution plan (plan_consistent_ledger_write_commands plan) in
  ∃ executables, try_map (sqlx_executable_statement plan) (pp_sql_statements execution) = Ok executables.
Proof.
  intros execution. cut (Forall (λ statement, ∃ executable, sqlx_executable_statement plan statement = Ok executable)
    (pp_sql_statements execution)).
  { intros HF. induction HF as [|statement statements (x & Hx) _ (xs & Hxs)]; [by exists []|].
    exists (x :: xs). cbn. by rewrite Hx, Hxs. }
  cbn. repeat (constructor; [by eexists|]). destruct (wp_outcome plan); [|done].
  eapply Forall2_Forall_l; [apply command_statements_items|].
  destruct (bounded_commands_items plan) as (budgets & entries & updates & -> & Hb & He & Hu).
  constructor; [intros ? (k & ->); by eexists|]. rewrite !Forall_app. split_and!; eapply Forall2_Forall_l; try done;
    apply Forall_forall; intros item _ command (n & ->) statement (k & ->); by eexists.
Qed.

(** ** Refinement *)

(** The ledger table holds what the in-memory writer holds for the tenant, and
    hands out the id the writer would. *)
Record mirrors (env : PostgresEnv) (db : Database) (tenant_id : Uuid) (w : InMemoryConsistentLedgerWriter) : Prop := {
  mi_records : tenant_records tenant_id (db_ledger_entries db) = ws_ledger_entries (im_state w);
  mi_ids : NoDup (row_id <$> db_ledger_entries db);
  mi_new_id : pe_new_id env = im_next_ledger_entry_id w;
  mi_fresh : pe_new_id env ∉ (row_id <$> db_ledger_entries db);
}.

(** Everything but the ledger rows of one tenant. *)
Definition elsewhere (tenant_id : Uuid) (db : Database)
    : list WalletRow * list CreditGrantRow * list BudgetRow * list LedgerRow :=
  (db_wallets db, db_credit_grants db, db_budgets db,
   List.filter (λ row, negb (l_tenant_id row =? tenant_id)) (db_ledger_entries db)).

Lemma elsewhere_after tenant r db row :
  l_tenant_id row = tenant →
  elsewhere tenant (with_ledger_entries db (release_row tenant r <$> db_ledger_entries db ++ [row])) =
  elsewhere tenant db.
Proof.
  intros Ht. unfold elsewhere. cbn. f_equal. generalize (db_ledger_entries db). intros rows.
  induction rows as [|x rows IH]; cbn.
  - unfold release_row. by rewrite Ht, Z.eqb_refl; cbn; rewrite Ht, Z.eqb_refl.
  - unfold release_row at 1 2. destruct (l_tenant_id x =? tenant) eqn:He; cbn; rewrite He; cbn; [apply IH|].
    f_equal. apply IH.
Qed.

Section refinement.
Context {U : UuidDisplay}.

Lemma plan_write_fields request state plan :
  plan_consistent_ledger_write request state = Ok plan →
  wp_scope plan = request_scope request ∧ wp_idempotency_key plan = request_idempotency_key request.
Proof.
  unfold plan_consistent_ledger_write. intros H. inv_ok. destruct (List.find _ _); [done|]. by inv_ok.
Qed.

Lemma idempotency_key_head request :
  ∃ c s, request_idempotency_key request = String c s ∧ solid c ∧ c ≠ " "%char.
Proof. destruct request; cbn; eexists _, _; (split; [reflexivity|]); (split; [by split|done]). Qed.

Lemma idempotency_key_trim request : str_trim (request_idempotency_key request) ≠ "".
Proof.
  destruct (idempotency_key_head request) as (c & s & -> & Hc & _). unfold str_trim. cbn [as_bytes].
  pose proof (trim_solid_head c (as_bytes s) Hc). by destruct (trim _).
Qed.

(** The entry of an applied plan satisfies the constraints of the table. *)
Lemma draft_checks request entries lp draft env plan :
  plan_inner_ledger_write request entries = Ok lp → draft_spec request entries draft →
  ed_idempotency_key draft = request_idempotency_key request →
  checks_pass (draft_row env plan draft) = true.
Proof.
  intros Hinner Hd Hkey. unfold checks_pass. cbn. rewrite Hkey.
  destruct (idempotency_key_head request) as (c & s & -> & _ & Hc). cbn. rewrite bool_decide_false by done. cbn.
  destruct request as [sc r a cur|sc r a cur|sc rel cur|sc rel op a cur|sc op r rel a cur];
    cbn [plan_inner_ledger_write] in Hinner.
  - destruct Hd as ((Hv & Hp & _) & -> & _). cbn. rewrite Hv, (proj2 (Z.eqb_neq _ _)) by lia. done.
  - destruct Hd as ((Hv & Hp & _) & -> & _). cbn. rewrite Hv, (proj2 (Z.eqb_neq _ _)) by lia. done.
  - destruct Hd as (refund & source & Hn & Hs). pose proof (plan_refund_currency _ _ _ _ Hinner Hn) as Hv.
    destruct (refund_draft_fields _ _ _ _ _ Hs) as (_ & -> & -> & -> & _). pose proof (rds_positive _ _ _ _ _ Hs).
    rewrite (rds_currency _ _ _ _ _ Hs), Hv, (proj2 (Z.eqb_neq _ _)) by lia. done.
  - destruct Hd as (refund & source & Hn & Hs). pose proof (plan_refund_currency _ _ _ _ Hinner Hn) as Hv.
    destruct (refund_draft_fields _ _ _ _ _ Hs) as (_ & -> & -> & -> & _). pose proof (rds_positive _ _ _ _ _ Hs).
    rewrite (rds_currency _ _ _ _ _ Hs), Hv, (proj2 (Z.eqb_neq _ _)) by lia. done.
  - destruct Hd as (Hv & Hz & ->). cbn. rewrite Hv, (proj2 (Z.eqb_neq _ _)) by done. done.
Qed.

(** No row of the table stands in the way of the new one. *)
Lemma insert_new_row env plan draft rows :
  healthy env → checks_pass (draft_row env plan draft) = true → pe_new_id env ∉ (row_id <$> rows) →
  ed_idempotency_key draft ∉ (er_idempotency_key <$> tenant_records (sc_tenant_id (wp_scope plan)) rows) →
  (∀ row, row ∈ rows → same_settle (draft_row env plan draft) row = false) →
  insert_ledger_row env (draft_row env plan draft) rows = Ok (1%nat, rows ++ [draft_row env plan draft]).
Proof.
  intros Henv Hchecks Hfresh Hkey Hsettle. unfold insert_ledger_row. rewrite Hchecks. cbn [negb].
  assert (∀ f, (∀ row, row ∈ rows → f row = false) → List.existsb f rows = false) as Hnone.
  { intros f Hf. apply not_true_iff_false. rewrite List.existsb_exists. intros (row & Hin & Htrue).
    rewrite Hf in Htrue; [done|by apply list_elem_of_In]. }
  rewrite !Hnone; [by rewrite (he_references _ Henv)| |]; intros row Hin.
  - rewrite Hsettle, orb_false_r by done. apply Z.eqb_neq. intros He. apply Hfresh.
    apply list_elem_of_fmap. exists row. by split.
  - apply not_true_iff_false. cbn [l_tenant_id l_record draft_row]. intros Hs. bool_to_prop. apply Hkey.
    apply list_elem_of_fmap. exists (l_record row). split; [by cbn in *|]. apply elem_of_tenant_records. eauto.
Qed.

Lemma insert_applies env db w request plan draft :
  healthy env → mirrors env db (sc_tenant_id (wp_scope plan)) w →
  find_by_idempotency_key (ws_ledger_entries (im_state w)) (request_idempotency_key request) = None →
  ed_idempotency_key draft = request_idempotency_key request →
  draft_spec request (ws_ledger_entries (im_state w)) draft →
  checks_pass (draft_row env plan draft) = true →
  insert_ledger_row env (draft_row env plan draft) (db_ledger_entries db)
  = Ok (1%nat, db_ledger_entries db ++ [draft_row env plan draft]).
Proof.
  intros Henv [Hrec _ _ Hfresh] Hkey Hk Hd Hchecks. apply find_by_key_None in Hkey.
  apply insert_new_row; [done..|by rewrite Hrec, Hk|]. intros row Hin.
  apply not_true_iff_false. unfold same_settle. cbn. intros Hs. bool_to_prop.
  destruct request; [destruct Hd as (_ & -> & _)|destruct Hd as (_ & -> & Hn & _)|
    destruct Hd as (refund & source & _ & Hs); destruct (refund_draft_fields _ _ _ _ _ Hs) as (_ & _ & ? & _)..|
    destruct Hd as (_ & _ & ->)]; cbn in *; try congruence.
  assert (l_record row ∈ ws_ledger_entries (im_state w)) as Hel
    by (rewrite <-Hrec; apply elem_of_tenant_records; exists row; split_and!; congruence).
  specialize (Hn _ Hel). unfold is_active_for in Hn. rewrite !bool_decide_true in Hn by congruence. cbn in Hn. congruence.
Qed.

Lemma draft_not_pending request entries draft id r :
  draft_spec request entries draft → released_request request = Some r →
  is_pending_reserve_for r (record_of_draft id draft) = false.
Proof.
  destruct request; try done. intros (_ & -> & _) _. unfold is_pending_reserve_for. cbn. by rewrite andb_false_r.
Qed.

Lemma release_draft request entries draft id :
  draft_spec request entries draft →
  release (released_request request) (record_of_draft id draft) = record_of_draft id draft.
Proof.
  intros Hd. destruct (released_request request) as [r|] eqn:Hr; [|done]. cbn.
  by rewrite (draft_not_pending _ _ _ _ _ Hd Hr).
Qed.

(** The updates of an applied plan, on the table with the new row. *)
Lemma run_planned_updates env db w request plan draft :
  mirrors env db (sc_tenant_id (wp_scope plan)) w →
  draft_spec request (ws_ledger_entries (im_state w)) draft →
  lp_status_updates (wp_ledger_plan plan) = planned_updates request (ws_ledger_entries (im_state w)) →
  runs (run_update plan) (lp_status_updates (wp_ledger_plan plan))
    (with_ledger_entries db (db_ledger_entries db ++ [draft_row env plan draft])) =
  Some (with_ledger_entries db (release_row (sc_tenant_id (wp_scope plan)) (released_request request)
          <$> db_ledger_entries db ++ [draft_row env plan draft])).
Proof.
  intros [Hrec Hnd Hid Hfresh] Hd ->. unfold planned_updates.
  destruct (released_request request) as [r|] eqn:Hr.
  - pose proof (draft_not_pending _ _ _ (pe_new_id env) r Hd Hr) as Hnew.
    pose proof (run_updates plan r (with_ledger_entries db (db_ledger_entries db ++ [draft_row env plan draft])) []
      (db_ledger_entries db ++ [draft_row env plan draft]) eq_refl) as Hrun.
    rewrite tenant_records_app, List.filter_app, Hrec in Hrun.
    replace (List.filter _ (tenant_records _ [_])) with (@nil LedgerEntryRecord) in Hrun
      by (unfold tenant_records; cbn; by rewrite Z.eqb_refl; cbn; rewrite Hnew).
    rewrite app_nil_r in Hrun. rewrite Hrun; [done|]. cbn [app]. rewrite fmap_app. apply NoDup_app.
    split_and!; [done| |apply NoDup_singleton]. intros id Hin ->%list_elem_of_singleton. by apply Hfresh.
  - cbn [runs]. do 2 f_equal. rewrite <-(list_fmap_id (_ ++ _)) at 1. apply list_fmap_ext.
    intros i row _. symmetry. by apply release_row_same.
Qed.

Lemma run_planned env db w request plan :
  healthy env → mirrors env db (sc_tenant_id (wp_scope plan)) w → 0 <= im_next_ledger_entry_id w < u128_max →
  plan_consistent_ledger_write request (im_state w) = Ok plan → Forall storable (lp_entries (wp_ledger_plan plan)) →
  ∃ final,
    runs (run_one env plan) (pp_sql_statements
      (plan_consistent_ledger_postgres_execution plan (plan_consistent_ledger_write_commands plan))) db
      = (if commits plan db then Some final else None) ∧
    tenant_records (sc_tenant_id (wp_scope plan)) (db_ledger_entries final)
      = ws_ledger_entries (im_state (writer_after w request)) ∧
    elsewhere (sc_tenant_id (wp_scope plan)) final = elsewhere (sc_tenant_id (wp_scope plan)) db.
Proof.
  intros Henv Hm Hid Hplan Hst. destruct (plan_write_fields _ _ _ Hplan) as [_ Hkey].
  assert (NoDup (er_id <$> ws_ledger_entries (im_state w))) as Hnd
    by (rewrite <-(mi_records _ _ _ _ Hm); apply tenant_ids_NoDup, (mi_ids _ _ _ _ Hm)).
  pose proof (execute_cases w request) as Hex. unfold writer_after.
  destruct (execute_consistent_ledger_write w request) as [w' ex]. cbn [fst].
  destruct Hex as [(? & ? & _)|(plan' & Hplan' & Hex)]; [congruence|].
  rewrite Hplan in Hplan'. injection Hplan' as <-. unfold commits.
  cbn [pp_sql_statements plan_consistent_ledger_postgres_execution plan_consistent_ledger_write_commands cp_commands].
  rewrite runs_app, run_locks. destruct (wp_outcome plan) eqn:Ho.
  - destruct (execute_apply w request plan Hnd ltac:(lia) Hplan Ho)
      as (wallet & debit & credit & draft & Hs & Hentries & Hfresh & Hk & Hc & Hd & Happ).
    rewrite Happ, (proj2 (Z.ltb_lt _ _)) in Hex by lia. destruct Hex as [-> _].
    rewrite Hentries in Hst. apply Forall_inv in Hst.
    pose proof (wps_outcome _ _ _ _ _ _ Hs) as Hout. rewrite Ho in Hout. symmetry in Hout.
    destruct (plan_inner_apply _ _ _ (wps_inner _ _ _ _ _ _ Hs) Hout) as (draft' & He & Hu & _).
    pose proof (insert_applies env db w request plan draft Henv Hm Hfresh Hk Hd
      (draft_checks _ _ _ _ env plan (wps_inner _ _ _ _ _ _ Hs) Hd Hk)) as Hins.
    eexists. split.
    + destruct (wallet_locks plan db); [|done]. rewrite run_command_statements. cbn [andb orb is_idempotent_outcome].
      apply (run_bounded_commands env plan draft);
        [done| |exact (run_planned_updates env db w request plan draft Hm Hd Hu)].
      intros n. apply run_insert; [done|congruence|done|done].
    + split; [|by apply elsewhere_after].
      cbn [db_ledger_entries with_ledger_entries im_state set_ledger_entries ws_ledger_entries fst].
      rewrite tenant_records_release, tenant_records_app, fmap_app.
      unfold ledger_after. rewrite (mi_records _ _ _ _ Hm), <-(mi_new_id _ _ _ _ Hm). f_equal.
      unfold tenant_records. cbn. rewrite Z.eqb_refl. cbn. by rewrite (release_draft _ _ _ _ Hd).
  - destruct Hex as [-> _]. exists db. destruct (wallet_locks plan db); cbn; (split; [done|]);
      (split; [apply (mi_records _ _ _ _ Hm)|done]).
Qed.

(** With a debit or without, the assertion on the balance asks that it is not
    negative. *)
Lemma balance_stands_iff request state plan :
  plan_consistent_ledger_write request state = Ok plan → wp_outcome plan = OutcomeApply →
  balance_stands plan = (0 <=? units (bw_available_before_write (wp_balance_window plan))).
Proof.
  intros Hplan Ho. destruct (plan_write_Ok _ _ _ Hplan) as (wallet & debit & credit & Hs).
  pose proof (wps_outcome _ _ _ _ _ _ Hs) as Hout. rewrite Ho in Hout. symmetry in Hout.
  destruct (plan_inner_apply _ _ _ (wps_inner _ _ _ _ _ _ Hs) Hout) as (draft & He & _ & _ & _ & _ & Hd).
  destruct (write_effect _ _ _ _ _ _ _ Hs Hout He Hd) as (Hdeb & _ & _).
  destruct (balance_window_Ok _ _ _ _ _ _ (wps_window _ _ _ _ _ _ Hs)) as (Hav & _ & Hsc & Hsd & _ & Hreq & _).
  pose proof (wps_passed _ _ _ _ _ _ Hs) as Hpassed. rewrite <-Hav in Hpassed.
  pose proof (wps_credit _ _ _ _ _ _ Hs) as Hcredit. unfold refund_credit_for_plan in Hcredit.
  apply bind_Ok in Hcredit as (z & [Hmax _]%zero_Ok & _).
  unfold balance_stands, numeric. rewrite Hreq, Hsc, Hsd.
  assert (0 < 10 ^ (MAX_MONEY_SCALE - scale (available_balance wallet))) as Hpos
    by (apply Z.pow_pos_nonneg; lia).
  apply Bool.eq_iff_eq_true. rewrite !Z.leb_le. rewrite <-Z.mul_le_mono_pos_r by done. lia.
Qed.
End refinement.

(** C8: the Postgres writer refines the in-memory writer. Take a plan made from
    what the tables hold for the tenant and run it over a connection without
    errors. The transaction commits exactly when it locks one wallet row and, for
    a plan that applies, the available balance is not negative and each budget of
    the plan is still a row whose limit covers the debit. Committed, it leaves in
    the ledger table what the in-memory execution leaves in its list, and nothing
    else is changed, neither another tenant's entries nor another table;
    otherwise it leaves the whole database as it was and reports an error. *)
Theorem postgres_refines_in_memory `{UuidDisplay} (env : PostgresEnv) (db : Database)
    (w : InMemoryConsistentLedgerWriter) (request : ConsistentLedgerWriteRequest) (plan : ConsistentLedgerWriterPlan)
    (Hplan : plan_consistent_ledger_write request (im_state w) = Ok plan)
    (Henv : healthy env) (Hmirrors : mirrors env db (sc_tenant_id (request_scope request)) w)
    (Hid : 0 <= im_next_ledger_entry_id w < u128_max) (Hstorable : Forall storable (lp_entries (wp_ledger_plan plan)))
    (Hsize : Z.of_nat (length (cp_commands (plan_consistent_ledger_write_commands plan))) < 2 ^ 16 - 5) :
  let tenant_id := sc_tenant_id (request_scope request) in
  let execution := plan_consistent_ledger_postgres_execution plan (plan_consistent_ledger_write_commands plan) in
  let '(result, db') := execute_consistent_ledger_postgres_sqlx_writer_plan env plan execution db in
  er_committed result = commits plan db ∧
  (wp_outcome plan = OutcomeApply →
   balance_stands plan = (0 <=? units (bw_available_before_write (wp_balance_window plan)))) ∧
  if er_committed result then
    tenant_records tenant_id (db_ledger_entries db') = ws_ledger_entries (im_state (writer_after w request)) ∧
    elsewhere tenant_id db' = elsewhere tenant_id db ∧
    er_outcome result = (if is_idempotent_outcome (wp_outcome plan) then PgIdempotent else PgApplied)
  else db' = db ∧ er_outcome result = PgRolledBack ∧ er_error result ≠ None.
Proof.
  cbn zeta. destruct (plan_write_fields _ _ _ Hplan) as [Hscope Hkey]. rewrite <-Hscope in *.
  destruct (run_planned env db w request plan Henv Hmirrors Hid Hplan Hstorable) as (final & Hrun & Hrecords & Helse).
  destruct (planned_executable plan) as (executables & Htry).
  pose proof (sqlx_writer_plan_runs env plan
    (plan_consistent_ledger_postgres_execution plan (plan_consistent_ledger_write_commands plan)) executables db Henv
    eq_refl eq_refl ltac:(rewrite Hkey; apply idempotency_key_trim) Htry (planned_orders_NoDup _ _ Hsize)) as Hreport.
  rewrite Hrun in Hreport. destruct (execute_consistent_ledger_postgres_sqlx_writer_plan _ _ _ _) as [result db'].
  destruct (commits plan db); cbn in Hreport.
  - destruct Hreport as (-> & -> & ->). split_and!; try done. by eapply balance_stands_iff.
  - destruct Hreport as (-> & -> & ? & ->). split_and!; try done. by eapply balance_stands_iff.
Qed.

(** ** A concrete transaction *)

Definition sample_env : PostgresEnv :=
  mkPostgresEnv None (λ _, None) None true 0 2 (λ _, true).

(** The reserve of [sample_reserve], and an entry of another tenant. *)
Definition sample_database : Database :=
  let row tenant_id record := mkLedgerRow tenant_id None None None record (metadata_settle 11) in
  mkDatabase [mkWalletRow 200 100 None "USD" "active"] [] []
    (row 101 (mkLedgerEntryRecord 77 None None EntryAdjust (mkFixedDecimal 1 8) "USD" Confirmed "adjust")
     :: (row 100 <$> ws_ledger_entries (im_state (sample_after [sample_reserve])))).

Lemma sample_settle_planned :
  ∃ plan,
    @plan_consistent_ledger_write uuid_display_model sample_settle_request (im_state (sample_after [sample_reserve]))
      = Ok plan ∧
    Forall storable (lp_entries (wp_ledger_plan plan)) ∧
    length (cp_commands (plan_consistent_ledger_write_commands plan)) = 3%nat ∧
    commits plan sample_database = true.
Proof.
  eexists. split; [vm_compute; reflexivity|].
  split; [repeat constructor|split; vm_compute; reflexivity].
Qed.

Lemma sample_mirrors : mirrors sample_env sample_database 100 (sample_after [sample_reserve]).
Proof.
  constructor; [vm_compute; reflexivity| |vm_compute; reflexivity|].
  - apply (bool_decide_unpack _). vm_compute. exact I.
  - apply (bool_decide_unpack _). vm_compute. exact I.
Qed.

Lemma postgres_refines_in_memory_witness :
  ∃ plan,
    @plan_consistent_ledger_write uuid_display_model sample_settle_request (im_state (sample_after [sample_reserve]))
      = Ok plan ∧
    let '(result, db) :=
      execute_consistent_ledger_postgres_sqlx_writer_plan sample_env plan
        (plan_consistent_ledger_postgres_execution plan (plan_consistent_ledger_write_commands plan)) sample_database in
    er_committed result = true ∧
    tenant_records 100 (db_ledger_entries db)
      = ws_ledger_entries (im_state (sample_after [sample_reserve; sample_settle_request])) ∧
    elsewhere 100 db = elsewhere 100 sample_database.
Proof.
  destruct sample_settle_planned as (plan & Hplan & Hstorable & Hsize & Hcommits). exists plan. split; [done|].
  pose proof (@postgres_refines_in_memory uuid_display_model sample_env sample_database (sample_after [sample_reserve])
    sample_settle_request plan Hplan ltac:(by constructor) sample_mirrors ltac:(vm_compute; by split) Hstorable
    ltac:(rewrite Hsize; done)) as Hrefines.
  cbn zeta in Hrefines. destruct (execute_consistent_ledger_postgres_sqlx_writer_plan _ _ _ _) as [result db].
  rewrite Hcommits in Hrefines. destruct Hrefines as (Hc & _ & Hafter). rewrite Hc in Hafter.
  destruct Hafter as (Hrecords & Helse & _). split; [done|split; [exact Hrecords|exact Helse]].
Defined.

(** ** Plans made from another state *)

(** What the ledger rows of a tenant leave of a wallet. *)
Definition state_of (wallet : ConsistentWalletSnapshot) (grants : list ConsistentCreditGrantSnapshot)
    (budgets : list ConsistentBudgetSnapshot) (tenant_id : Uuid) (db : Database) : ConsistentLedgerWriterState :=
  mkConsistentLedgerWriterState (Some wallet) grants budgets (tenant_records tenant_id (db_ledger_entries db)).

Section stale.
Context {U : UuidDisplay} (env : PostgresEnv).
Variables (state : ConsistentLedgerWriterState) (scope : ConsistentLedgerScope) (request_id : Uuid)
  (amount : FixedDecimal) (currency : string) (plan : ConsistentLedgerWriterPlan).
Let request := WriteReserve scope request_id amount currency.
Let tenant := sc_tenant_id scope.

(** The plan of a reserve that applies inserts one row, and its assertion on
    the balance holds of its own parameters. *)
Lemma reserve_plan_shape :
  plan_consistent_ledger_write request state = Ok plan → wp_outcome plan = OutcomeApply →
  ∃ draft, draft = reserve_draft (mkReserveLedgerRequest request_id amount currency) ∧
    lp_entries (wp_ledger_plan plan) = [draft] ∧ lp_status_updates (wp_ledger_plan plan) = [] ∧
    ed_idempotency_key draft = request_idempotency_key request ∧
    checks_pass (draft_row env plan draft) = true ∧ balance_stands plan = true ∧ 0 < units amount.
Proof.
  intros Hplan Ho. destruct (plan_write_Ok _ _ _ Hplan) as (wallet & debit & credit & Hs).
  pose proof (wps_outcome _ _ _ _ _ _ Hs) as Hout. rewrite Ho in Hout. symmetry in Hout.
  destruct (plan_inner_apply _ _ _ (wps_inner _ _ _ _ _ _ Hs) Hout) as (draft & He & Hu & _ & Hk & _ & Hd).
  pose proof (draft_checks _ _ _ _ env plan (wps_inner _ _ _ _ _ _ Hs) Hd Hk) as Hchecks.
  pose proof (wps_debit _ _ _ _ _ _ Hs) as Hdebit. rewrite Hout in Hdebit. cbn in Hdebit. injection Hdebit as <-.
  pose proof (wps_passed _ _ _ _ _ _ Hs) as Hpassed.
  destruct (balance_window_Ok _ _ _ _ _ _ (wps_window _ _ _ _ _ _ Hs)) as (Hav & _).
  destruct Hd as ((_ & Hpos & _) & Hdraft & _). exists draft. split_and!; try done.
  rewrite (balance_stands_iff _ _ _ Hplan Ho), Hav. apply Z.leb_le. lia.
Qed.

(** The statements of such a plan, on any tables. *)
Lemma run_reserve_plan db :
  plan_consistent_ledger_write request state = Ok plan → wp_outcome plan = OutcomeApply → healthy env →
  Forall storable (lp_entries (wp_ledger_plan plan)) → wallet_locks plan db = true →
  forallb (λ check, budget_stands plan check db) (wp_budget_checks plan) = true →
  pe_new_id env ∉ (row_id <$> db_ledger_entries db) →
  request_idempotency_key request ∉ (er_idempotency_key <$> tenant_records tenant (db_ledger_entries db)) →
  runs (run_one env plan) (pp_sql_statements
    (plan_consistent_ledger_postgres_execution plan (plan_consistent_ledger_write_commands plan))) db
  = Some (with_ledger_entries db (db_ledger_entries db
      ++ [draft_row env plan (reserve_draft (mkReserveLedgerRequest request_id amount currency))])).
Proof.
  intros Hplan Ho Henv Hst Hlocks Hbudgets Hid Hkey.
  destruct (reserve_plan_shape Hplan Ho) as (draft & Hdraft & He & Hu & Hk & Hchecks & Hbal & _). rewrite <-Hdraft.
  destruct (plan_write_fields _ _ _ Hplan) as [Hscope Hpk].
  cbn [pp_sql_statements plan_consistent_ledger_postgres_execution plan_consistent_ledger_write_commands cp_commands].
  rewrite runs_app, run_locks, Hlocks, Ho, run_command_statements.
  rewrite He in Hst. apply Forall_inv in Hst.
  erewrite (run_bounded_commands env plan draft db _ He); [by rewrite Hbal, Hbudgets| |by rewrite Hu].
  intros n. apply run_insert; [done|congruence|done|]. apply insert_new_row; [done..|by rewrite Hscope, Hk|].
  intros row _. by rewrite Hdraft.
Qed.

Lemma reserve_lowers wallet grants budgets db :
  wp_scope plan = scope →
  available_units currency wallet (state_of wallet grants budgets tenant (with_ledger_entries db (db_ledger_entries db
    ++ [draft_row env plan (reserve_draft (mkReserveLedgerRequest request_id amount currency))])))
  = available_units currency wallet (state_of wallet grants budgets tenant db) - units amount.
Proof.
  intros Hscope. unfold available_units, state_of.
  cbn [ws_ledger_entries ws_credit_grants db_ledger_entries with_ledger_entries].
  rewrite tenant_records_app, sum_units_app.
  unfold tenant_records at 2. cbn. unfold tenant. rewrite Hscope, Z.eqb_refl. cbn.
  rewrite sum_units_cons, sum_units_nil. unfold is_active_in. cbn. rewrite bool_decide_true by done. cbn. lia.
Qed.

(** The writer itself, on what the tables hold. *)
Lemma uncovered_reserve_rejected state' wallet plan' :
  plan_consistent_ledger_write request state' = Ok plan' → ws_wallet state' = Some wallet →
  available_units currency wallet state' < units amount → wp_outcome plan' ≠ OutcomeApply.
Proof.
  intros Hplan Hw Hlow Ho. destruct (plan_write_Ok _ _ _ Hplan) as (wallet' & debit & credit & Hs).
  pose proof (wps_outcome _ _ _ _ _ _ Hs) as Hout. rewrite Ho in Hout. symmetry in Hout.
  pose proof (wps_debit _ _ _ _ _ _ Hs) as Hdebit. rewrite Hout in Hdebit. cbn in Hdebit. injection Hdebit as <-.
  destruct (plan_inner_apply _ _ _ (wps_inner _ _ _ _ _ _ Hs) Hout) as (draft & _ & _ & _ & _ & _ & ((_ & Hpos & _) & _)).
  pose proof (wps_passed _ _ _ _ _ _ Hs) as Hpassed. rewrite (wps_wallet _ _ _ _ _ _ Hs) in Hw. injection Hw as ->.
  cbn in Hpassed. lia.
Qed.
End stale.

(** C40: nothing recomputes the windows of a plan once the locks are held, though
    the third step of the transaction and the writer's contract say so. The plan
    of a reserve that applies, made from any state whatever, commits on every
    database in which its wallet row locks, its budgets stand and no row has the
    new id, nor a row of the tenant the key of the request, over a connection
    without errors; the balance the rows of the tenant leave is lower by the
    reserved amount afterwards, also where they did not cover it. Planned from
    those rows instead, a reserve they do not cover is never applied. The amount
    fits its column, and the plan has fewer than 2^16 - 5 commands. *)
Theorem stale_reserve_commits `{UuidDisplay} (env : PostgresEnv) (db : Database) (state : ConsistentLedgerWriterState)
    (scope : ConsistentLedgerScope) (request_id : Uuid) (amount : FixedDecimal) (currency : string)
    (plan : ConsistentLedgerWriterPlan) (wallet : ConsistentWalletSnapshot)
    (grants : list ConsistentCreditGrantSnapshot) (budgets : list ConsistentBudgetSnapshot)
    (Hplan : plan_consistent_ledger_write (WriteReserve scope request_id amount currency) state = Ok plan)
    (Hout : wp_outcome plan = OutcomeApply) (Henv : healthy env)
    (Hstorable : Forall storable (lp_entries (wp_ledger_plan plan)))
    (Hsize : Z.of_nat (length (cp_commands (plan_consistent_ledger_write_commands plan))) < 2 ^ 16 - 5)
    (Hlocks : wallet_locks plan db = true)
    (Hbudgets : forallb (λ check, budget_stands plan check db) (wp_budget_checks plan) = true)
    (Hid : pe_new_id env ∉ (row_id <$> db_ledger_entries db))
    (Hkey : request_idempotency_key (WriteReserve scope request_id amount currency)
            ∉ (er_idempotency_key <$> tenant_records (sc_tenant_id scope) (db_ledger_entries db))) :
  let execution := plan_consistent_ledger_postgres_execution plan (plan_consistent_ledger_write_commands plan) in
  let '(result, db') := execute_consistent_ledger_postgres_sqlx_writer_plan env plan execution db in
  let rows db := state_of wallet grants budgets (sc_tenant_id scope) db in
  er_committed result = true ∧
  available_units currency wallet (rows db') = available_units currency wallet (rows db) - units amount ∧
  (available_units currency wallet (rows db) < units amount →
   ∀ plan', plan_consistent_ledger_write (WriteReserve scope request_id amount currency) (rows db) = Ok plan' →
     wp_outcome plan' ≠ OutcomeApply).
Proof.
  cbn zeta. destruct (plan_write_fields _ _ _ Hplan) as [Hscope Hpk].
  destruct (planned_executable plan) as (executables & Htry).
  pose proof (sqlx_writer_plan_runs env plan
    (plan_consistent_ledger_postgres_execution plan (plan_consistent_ledger_write_commands plan)) executables db Henv
    eq_refl eq_refl ltac:(rewrite Hpk; apply idempotency_key_trim) Htry (planned_orders_NoDup _ _ Hsize)) as Hreport.
  rewrite (run_reserve_plan env state scope request_id amount currency plan db) in Hreport by done.
  destruct (execute_consistent_ledger_postgres_sqlx_writer_plan _ _ _ _) as [result db'].
  cbn in Hreport. destruct Hreport as (-> & _ & ->). split; [done|]. split; [by apply reserve_lowers|].
  intros Hlow plan' Hplan'. by eapply uncovered_reserve_rejected.
Qed.

(** Two reserves of 8000 planned from one state with a balance of 10000. *)
Definition reserve_8000 (request_id : Uuid) : ConsistentLedgerWriteRequest :=
  WriteReserve sample_scope request_id (mkFixedDecimal 8000 8) "USD".

(** The tables once the first of them is written. *)
Definition reserved_database : Database :=
  mkDatabase [mkWalletRow 200 100 None "USD" "active"] [] []
    ((λ record, mkLedgerRow 100 None None (Some 200) record (metadata_reserve 11))
     <$> ws_ledger_entries (im_state (sample_after [reserve_8000 11]))).

Lemma sample_stale_plan :
  ∃ plan,
    @plan_consistent_ledger_write uuid_display_model (reserve_8000 12) (im_state sample_writer) = Ok plan ∧
    wp_outcome plan = OutcomeApply ∧ Forall storable (lp_entries (wp_ledger_plan plan)) ∧
    length (cp_commands (plan_consistent_ledger_write_commands plan)) = 2%nat ∧
    wallet_locks plan reserved_database = true ∧
    forallb (λ check, budget_stands plan check reserved_database) (wp_budget_checks plan) = true.
Proof.
  eexists. split; [vm_compute; reflexivity|]. split; [reflexivity|].
  split; [repeat constructor|split_and!; vm_compute; reflexivity].
Qed.

Lemma stale_reserve_commits_witness :
  ∃ plan,
    @plan_consistent_ledger_write uuid_display_model (reserve_8000 12) (im_state sample_writer) = Ok plan ∧
    let '(result, db) :=
      execute_consistent_ledger_postgres_sqlx_writer_plan sample_env plan
        (plan_consistent_ledger_postgres_execution plan (plan_consistent_ledger_write_commands plan)) reserved_database in
    er_committed result = true ∧
    available_units "USD" sample_wallet (state_of sample_wallet [] [] 100 db) = -6000 ∧
    ∀ plan', @plan_consistent_ledger_write uuid_display_model (reserve_8000 12)
      (state_of sample_wallet [] [] 100 reserved_database) = Ok plan' → wp_outcome plan' ≠ OutcomeApply.
Proof.
  destruct sample_stale_plan as (plan & Hplan & Hout & Hstorable & Hsize & Hlocks & Hbudgets). exists plan. split; [done|].
  pose proof (@stale_reserve_commits uuid_display_model sample_env reserved_database (im_state sample_writer) sample_scope
    12 (mkFixedDecimal 8000 8) "USD" plan sample_wallet [] [] Hplan Hout ltac:(by constructor) Hstorable
    ltac:(rewrite Hsize; done) Hlocks Hbudgets
    ltac:(apply (bool_decide_unpack _); vm_compute; exact I) ltac:(apply (bool_decide_unpack _); vm_compute; exact I)) as Hstale.
  cbn zeta in Hstale. destruct (execute_consistent_ledger_postgres_sqlx_writer_plan _ _ _ _) as [result db].
  destruct Hstale as (Hc & Hbalance & Hfresh). split; [exact Hc|].
  assert (available_units "USD" sample_wallet (state_of sample_wallet [] [] 100 reserved_database) = 2000) as Hbefore
    by (vm_compute; reflexivity).
  change (sc_tenant_id sample_scope) with 100 in *. rewrite Hbefore in Hbalance, Hfresh.
  split; [exact Hbalance|]. apply Hfresh. reflexivity.
Defined.
