(* ===== verification/ExactCache.v ===== *)
(** crates/billing-ledger/src/exact_cache.rs and pre_authorize.rs: pricing of a
    request answered from the exact cache and its settle plan, and the balance
    test a request passes before it is sent upstream. *)

From S2P Require Export Ledger.

#[local] Open Scope string_scope.
#[local] Open Scope list_scope.
#[local] Open Scope Z_scope.

(** ** Data *)

Inductive ExactCacheBillingError : Type :=
| XE_InvalidCacheKeyHash
| XE_CacheHitEntryIdRequired
| XE_CacheReadTokensExceedInputTokens
| XE_InvalidHitTokenSplit
| XE_InvalidMissTokenSplit
| XE_InvalidPartialHitTokenSplit
| XE_NegativeMoney (field : string)
| XE_Rating (error : RatingError)
| XE_Ledger (error : LedgerContractError).

Record ExactCachePricingRules : Type := mkExactCachePricingRules {
  xp_currency : string;
  xp_scale : Z;
  xp_input_token_rate_per_million : FixedDecimal;
  xp_output_token_rate_per_million : FixedDecimal;
  xp_cache_read_token_rate_per_million : FixedDecimal;
  xp_cache_write_token_rate_per_million : FixedDecimal;
  xp_fixed_cache_read_cost : FixedDecimal;
  xp_fixed_cache_write_cost : FixedDecimal;
  xp_fixed_request_cost : FixedDecimal;
}.

Record ExactCacheBillingRequest : Type := mkExactCacheBillingRequest {
  xr_request_id : Uuid;
  xr_cache_status : ExactCacheStatus;
  xr_cache_key_hash : string;
  xr_cache_entry_id : option Uuid;
  xr_input_tokens : Z;
  xr_output_tokens : Z;
  xr_cache_read_tokens : Z;
  xr_cache_write_tokens : Z;
  xr_read_policy : ExactCacheReadPolicy;
  xr_write_policy : ExactCacheWritePolicy;
}.

Record ExactCacheDecisionInput : Type := mkExactCacheDecisionInput {
  di_cache_entry_id : option Uuid;
  di_input_tokens : Z;
  di_matched_input_tokens : Z;
}.

Record ExactCacheDecision : Type := mkExactCacheDecision {
  cd_cache_status : ExactCacheStatus;
  cd_cache_entry_id : option Uuid;
  cd_input_tokens : Z;
  cd_cached_input_tokens : Z;
  cd_billable_input_tokens : Z;
  cd_cache_read_tokens : Z;
  cd_cache_write_tokens : Z;
}.

Record ExactCacheRatingResult : Type := mkExactCacheRatingResult {
  xq_cache_status : ExactCacheStatus;
  xq_input_tokens : Z;
  xq_cached_input_tokens : Z;
  xq_billable_input_tokens : Z;
  xq_output_tokens : Z;
  xq_cache_read_tokens : Z;
  xq_cache_write_tokens : Z;
  xq_read_policy : ExactCacheReadPolicy;
  xq_write_policy : ExactCacheWritePolicy;
  xq_input_cost : FixedDecimal;
  xq_output_cost : FixedDecimal;
  xq_cache_read_cost : FixedDecimal;
  xq_cache_write_cost : FixedDecimal;
  xq_fixed_request_cost : FixedDecimal;
  xq_total_cost : FixedDecimal;
  xq_currency : string;
  xq_scale : Z;
}.

Record ExactCacheBillingPlan : Type := mkExactCacheBillingPlan {
  xb_cache_status : ExactCacheStatus;
  xb_cache_operation_idempotency_key : option string;
  xb_cache_read_idempotency_key : option string;
  xb_cache_write_idempotency_key : option string;
  xb_ledger_idempotency_key : option string;
  xb_rating : ExactCacheRatingResult;
  xb_ledger_plan : option LedgerOperationPlan;
}.

(** ** Operations *)

Definition decide_exact_cache_request (input : ExactCacheDecisionInput)
    : result ExactCacheBillingError ExactCacheDecision :=
  fail_if di_input_tokens input <? di_matched_input_tokens input
  with XE_CacheReadTokensExceedInputTokens ;;
  fail_if (0 <? di_matched_input_tokens input) && bool_decide (di_cache_entry_id input = None)
  with XE_CacheHitEntryIdRequired ;;
  let billable_input_tokens := di_input_tokens input - di_matched_input_tokens input in
  let cache_status :=
    if di_matched_input_tokens input =? 0 then CacheMiss
    else if billable_input_tokens =? 0 then CacheHit
    else CachePartialHit in
  Ok {|
    cd_cache_status := cache_status;
    cd_cache_entry_id :=
      match cache_status with CacheHit | CachePartialHit => di_cache_entry_id input | CacheMiss => None end;
    cd_input_tokens := di_input_tokens input;
    cd_cached_input_tokens := di_matched_input_tokens input;
    cd_billable_input_tokens := billable_input_tokens;
    cd_cache_read_tokens := di_matched_input_tokens input;
    cd_cache_write_tokens := billable_input_tokens;
  |}.

Definition validate_cache_key_hash (cache_key_hash : string) : result ExactCacheBillingError () :=
  match strip_prefix (as_bytes "sha256:") (as_bytes cache_key_hash) with
  | None => Err XE_InvalidCacheKeyHash
  | Some digest =>
      if (length digest =? 64)%nat && List.forallb is_ascii_hexdigit digest
      then Ok () else Err XE_InvalidCacheKeyHash
  end.

Definition validate_cache_request_shape (request : ExactCacheBillingRequest)
    : result ExactCacheBillingError () :=
  fail_if xr_input_tokens request <? xr_cache_read_tokens request
  with XE_CacheReadTokensExceedInputTokens ;;
  match xr_cache_status request with
  | CacheHit =>
      fail_if bool_decide (xr_cache_entry_id request = None) with XE_CacheHitEntryIdRequired ;;
      fail_if negb (xr_cache_read_tokens request =? xr_input_tokens request) with XE_InvalidHitTokenSplit ;;
      Ok ()
  | CacheMiss =>
      fail_if negb (xr_cache_read_tokens request =? 0) with XE_InvalidMissTokenSplit ;;
      Ok ()
  | CachePartialHit =>
      fail_if bool_decide (xr_cache_entry_id request = None) with XE_CacheHitEntryIdRequired ;;
      fail_if (xr_cache_read_tokens request =? 0) || (xr_cache_read_tokens request =? xr_input_tokens request)
      with XE_InvalidPartialHitTokenSplit ;;
      Ok ()
  end.

Definition ensure_non_negative_money (field : string) (amount : FixedDecimal) : result ExactCacheBillingError () :=
  if 0 <=? units amount then Ok () else Err (XE_NegativeMoney field).

Definition ensure_pricing_is_non_negative (pricing : ExactCachePricingRules) : result ExactCacheBillingError () :=
  _ ← ensure_non_negative_money "input_token_rate_per_million" (xp_input_token_rate_per_million pricing);
  _ ← ensure_non_negative_money "output_token_rate_per_million" (xp_output_token_rate_per_million pricing);
  _ ← ensure_non_negative_money "cache_read_token_rate_per_million" (xp_cache_read_token_rate_per_million pricing);
  _ ← ensure_non_negative_money "cache_write_token_rate_per_million" (xp_cache_write_token_rate_per_million pricing);
  _ ← ensure_non_negative_money "fixed_cache_read_cost" (xp_fixed_cache_read_cost pricing);
  _ ← ensure_non_negative_money "fixed_cache_write_cost" (xp_fixed_cache_write_cost pricing);
  _ ← ensure_non_negative_money "fixed_request_cost" (xp_fixed_request_cost pricing);
  Ok ().

(** The unchecked [u64] subtraction wraps in a release build. *)
Definition rate_exact_cache_request (request : ExactCacheBillingRequest) (pricing : ExactCachePricingRules)
    : result ExactCacheBillingError ExactCacheRatingResult :=
  _ ← ensure_pricing_is_non_negative pricing;
  zero ← map_err XE_Rating (fd_zero (xp_scale pricing));
  let cached_input_tokens :=
    match xr_cache_status request with CacheHit | CachePartialHit => xr_cache_read_tokens request | CacheMiss => 0 end in
  let billable_input_tokens := wrap_u64 (xr_input_tokens request - cached_input_tokens) in
  '(input_cost, output_cost, fixed_request_cost) ←
    match xr_cache_status request with
    | CacheHit => Ok (zero, zero, zero)
    | CacheMiss | CachePartialHit =>
        input_cost ← map_err XE_Rating (rate_tokens billable_input_tokens (xp_input_token_rate_per_million pricing));
        output_cost ← map_err XE_Rating
          (rate_tokens (xr_output_tokens request) (xp_output_token_rate_per_million pricing));
        Ok (input_cost, output_cost, xp_fixed_request_cost pricing)
    end;
  cache_read_cost ←
    match xr_cache_status request, xr_read_policy request with
    | (CacheHit | CachePartialHit), ReadDiscountedInputTokens =>
        map_err XE_Rating
          (rate_tokens (xr_cache_read_tokens request) (xp_cache_read_token_rate_per_million pricing))
    | (CacheHit | CachePartialHit), ReadFixedCost => Ok (xp_fixed_cache_read_cost pricing)
    | _, _ => Ok zero
    end;
  cache_write_cost ←
    match xr_cache_status request, xr_write_policy request with
    | (CacheMiss | CachePartialHit), WriteTokenRate =>
        map_err XE_Rating
          (rate_tokens (xr_cache_write_tokens request) (xp_cache_write_token_rate_per_million pricing))
    | (CacheMiss | CachePartialHit), WriteFixedCost => Ok (xp_fixed_cache_write_cost pricing)
    | _, _ => Ok zero
    end;
  total_cost ← map_err XE_Rating (
    total ← fd_checked_add input_cost output_cost;
    total ← fd_checked_add total cache_read_cost;
    total ← fd_checked_add total cache_write_cost;
    fd_checked_add total fixed_request_cost);
  Ok {|
    xq_cache_status := xr_cache_status request;
    xq_input_tokens := xr_input_tokens request;
    xq_cached_input_tokens := cached_input_tokens;
    xq_billable_input_tokens := billable_input_tokens;
    xq_output_tokens := xr_output_tokens request;
    xq_cache_read_tokens := xr_cache_read_tokens request;
    xq_cache_write_tokens := xr_cache_write_tokens request;
    xq_read_policy := xr_read_policy request;
    xq_write_policy := xr_write_policy request;
    xq_input_cost := input_cost;
    xq_output_cost := output_cost;
    xq_cache_read_cost := cache_read_cost;
    xq_cache_write_cost := cache_write_cost;
    xq_fixed_request_cost := fixed_request_cost;
    xq_total_cost := total_cost;
    xq_currency := xp_currency pricing;
    xq_scale := xp_scale pricing;
  |}.

Section plan.
Context {U : UuidDisplay}.

Definition exact_cache_read_idempotency_key (request_id : Uuid) (cache_key_hash : string)
    : result ExactCacheBillingError string :=
  _ ← validate_cache_key_hash cache_key_hash;
  Ok ("exact_cache:read:" +:+ uuid_to_string request_id +:+ ":" +:+ cache_key_hash).

Definition exact_cache_write_idempotency_key (request_id : Uuid) (cache_key_hash : string)
    : result ExactCacheBillingError string :=
  _ ← validate_cache_key_hash cache_key_hash;
  Ok ("exact_cache:write:" +:+ uuid_to_string request_id +:+ ":" +:+ cache_key_hash).

Definition plan_exact_cache_billing (request : ExactCacheBillingRequest) (pricing : ExactCachePricingRules)
    (existing_entries : list LedgerEntryRecord) : result ExactCacheBillingError ExactCacheBillingPlan :=
  _ ← validate_cache_key_hash (xr_cache_key_hash request);
  _ ← validate_cache_request_shape request;
  cache_read_idempotency_key ←
    match xr_cache_status request with
    | CacheHit | CachePartialHit =>
        key ← exact_cache_read_idempotency_key (xr_request_id request) (xr_cache_key_hash request);
        Ok (Some key)
    | CacheMiss => Ok None
    end;
  cache_write_idempotency_key ←
    match xr_cache_status request with
    | CacheMiss | CachePartialHit =>
        if negb (bool_decide (xr_write_policy request = WriteDisabled)) then
          key ← exact_cache_write_idempotency_key (xr_request_id request) (xr_cache_key_hash request);
          Ok (Some key)
        else Ok None
    | CacheHit => Ok None
    end;
  cache_operation_idempotency_key ←
    match xr_cache_status request with
    | CacheHit | CachePartialHit =>
        key ← exact_cache_read_idempotency_key (xr_request_id request) (xr_cache_key_hash request);
        Ok (Some key)
    | CacheMiss => Ok cache_write_idempotency_key
    end;
  rating ← rate_exact_cache_request request pricing;
  let ledger_idempotency_key :=
    if is_zero (xq_total_cost rating) then None else Some (settle_ledger_idempotency_key (xr_request_id request)) in
  ledger_plan ←
    (if is_zero (xq_total_cost rating) then Ok None
     else
       plan ← map_err XE_Ledger (plan_ledger_settle_with_metadata
         {| st_request_id := xr_request_id request; st_final_cost := xq_total_cost rating;
            st_currency := xq_currency rating |}
         existing_entries
         (metadata_settle_with_exact_cache (xr_request_id request) {|
            cm_status := xr_cache_status request;
            cm_cache_key_hash := xr_cache_key_hash request;
            cm_cache_entry_id := xr_cache_entry_id request;
            cm_read_policy := xr_read_policy request;
            cm_write_policy := xr_write_policy request;
            cm_usage_summary := {|
              us_input_tokens := xr_input_tokens request;
              us_cached_input_tokens := xq_cached_input_tokens rating;
              us_billable_input_tokens := xq_billable_input_tokens rating;
              us_output_tokens := xr_output_tokens request;
              us_cache_read_tokens := xr_cache_read_tokens request;
              us_cache_write_tokens := xr_cache_write_tokens request;
            |};
         |}));
       Ok (Some plan));
  Ok {|
    xb_cache_status := xr_cache_status request;
    xb_cache_operation_idempotency_key := cache_operation_idempotency_key;
    xb_cache_read_idempotency_key := cache_read_idempotency_key;
    xb_cache_write_idempotency_key := cache_write_idempotency_key;
    xb_ledger_idempotency_key := ledger_idempotency_key;
    xb_rating := rating;
    xb_ledger_plan := ledger_plan;
  |}.
End plan.

(** ** Pre-authorization (pre_authorize.rs) *)

Record PreAuthorizeEstimate : Type := mkPreAuthorizeEstimate {
  minimum_cost : FixedDecimal;
  billable_if_usage_present : bool;
}.

Record PreAuthorizeBalance : Type := mkPreAuthorizeBalance { pa_available : FixedDecimal }.

Record PreAuthorizeBudget : Type := mkPreAuthorizeBudget { pa_remaining : FixedDecimal }.

Inductive PreAuthorizeRejectReason : Type := InsufficientWalletBalance | InsufficientBudget.

Inductive PreAuthorizeDecision : Type := Allow | Reject (reason : PreAuthorizeRejectReason).

Definition amount_is_insufficient (available : FixedDecimal) (estimate : PreAuthorizeEstimate) : bool :=
  if negb (scale available =? scale (minimum_cost estimate)) then false
  else if 0 <? units (minimum_cost estimate) then units available <? units (minimum_cost estimate)
  else billable_if_usage_present estimate && (units available <=? 0).

Definition pre_authorize (estimate : PreAuthorizeEstimate) (wallet : option PreAuthorizeBalance)
    (budgets : list PreAuthorizeBudget) : PreAuthorizeDecision :=
  if match wallet with
     | Some wallet => amount_is_insufficient (pa_available wallet) estimate
     | None => false
     end
  then Reject InsufficientWalletBalance
  else if List.existsb (λ budget, amount_is_insufficient (pa_remaining budget) estimate) budgets
  then Reject InsufficientBudget
  else Allow.

(** ** Cost of a cached request *)

Lemma rate_tokens_Ok tokens rate cost :
  in_u64 tokens → 0 <= units rate → rate_tokens tokens rate = Ok cost →
  cost = mkFixedDecimal (token_cost tokens rate) (scale rate).
Proof.
  intros Ht Hr H. assert (scale rate <= MAX_MONEY_SCALE) as Hs.
  { unfold rate_tokens in H. inv_ok. by apply from_units_Ok in H as [? _]. }
  rewrite rate_tokens_eq in H by done. by inv_ok.
Qed.

(** What the request costs, in units: input, output and the fixed charge unless
    it is a full hit, the read charge of a (partial) hit and the write charge of a
    (partial) miss, each by its policy. *)
Definition exact_cache_cost (request : ExactCacheBillingRequest) (pricing : ExactCachePricingRules) : Z :=
  let cached := match xr_cache_status request with CacheMiss => 0 | _ => xr_cache_read_tokens request end in
  let upstream :=
    match xr_cache_status request with
    | CacheHit => 0
    | _ => token_cost (xr_input_tokens request - cached) (xp_input_token_rate_per_million pricing)
           + token_cost (xr_output_tokens request) (xp_output_token_rate_per_million pricing)
           + units (xp_fixed_request_cost pricing)
    end in
  let read :=
    match xr_cache_status request, xr_read_policy request with
    | CacheMiss, _ | _, ReadDisabled => 0
    | _, ReadDiscountedInputTokens =>
        token_cost (xr_cache_read_tokens request) (xp_cache_read_token_rate_per_million pricing)
    | _, ReadFixedCost => units (xp_fixed_cache_read_cost pricing)
    end in
  let write :=
    match xr_cache_status request, xr_write_policy request with
    | CacheHit, _ | _, WriteDisabled => 0
    | _, WriteTokenRate =>
        token_cost (xr_cache_write_tokens request) (xp_cache_write_token_rate_per_million pricing)
    | _, WriteFixedCost => units (xp_fixed_cache_write_cost pricing)
    end in
  upstream + read + write.

Definition exact_cache_request_wf (request : ExactCacheBillingRequest) : Prop :=
  in_u64 (xr_input_tokens request) ∧ in_u64 (xr_output_tokens request) ∧
  in_u64 (xr_cache_read_tokens request) ∧ in_u64 (xr_cache_write_tokens request).

Lemma ensure_non_negative_Ok field amount u : ensure_non_negative_money field amount = Ok u → 0 <= units amount.
Proof. unfold ensure_non_negative_money. destruct (Z.leb_spec 0 (units amount)); done. Qed.

Lemma cache_shape_Ok request u :
  validate_cache_request_shape request = Ok u →
  xr_cache_read_tokens request <= xr_input_tokens request ∧
  match xr_cache_status request with
  | CacheHit => xr_cache_read_tokens request = xr_input_tokens request
  | CacheMiss => xr_cache_read_tokens request = 0
  | CachePartialHit => xr_cache_read_tokens request ≠ 0 ∧ xr_cache_read_tokens request ≠ xr_input_tokens request
  end.
Proof.
  unfold validate_cache_request_shape. intros H. inv_ok. bool_to_prop.
  destruct (xr_cache_status request); inv_ok; bool_to_prop; done.
Qed.

(** Turn each successful rating step into the cost it computed. *)
Ltac rate_ok :=
  repeat match goal with
  | H : ensure_non_negative_money _ _ = Ok _ |- _ => apply ensure_non_negative_Ok in H
  | H : rate_tokens ?t _ = Ok _ |- _ => apply rate_tokens_Ok in H; [subst|first [done|lia]..]
  | H : fd_checked_add _ _ = Ok _ |- _ => apply fd_checked_add_Ok in H as (? & ? & ->)
  | H : fd_zero _ = Ok _ |- _ => apply from_units_Ok in H as [? ->]
  end.

Lemma rate_exact_cache_Ok request pricing rating :
  exact_cache_request_wf request → validate_cache_request_shape request = Ok () →
  rate_exact_cache_request request pricing = Ok rating →
  units (xq_total_cost rating) = exact_cache_cost request pricing ∧
  units (xq_total_cost rating) =
    units (xq_input_cost rating) + units (xq_output_cost rating) + units (xq_cache_read_cost rating)
    + units (xq_cache_write_cost rating) + units (xq_fixed_request_cost rating) ∧
  xq_cached_input_tokens rating + xq_billable_input_tokens rating = xr_input_tokens request ∧
  0 <= units (xq_total_cost rating) ∧ xq_currency rating = xp_currency pricing.
Proof.
  intros (Hi & Ho & Hr & Hw) [Hle Hshape]%cache_shape_Ok H.
  unfold rate_exact_cache_request, ensure_pricing_is_non_negative in H.
  assert (wrap_u64 (xr_input_tokens request - xr_cache_read_tokens request)
    = xr_input_tokens request - xr_cache_read_tokens request) as Hwrap1
    by (unfold wrap_u64; rewrite Z.mod_small; width_lia).
  assert (wrap_u64 (xr_input_tokens request - 0) = xr_input_tokens request - 0) as Hwrap2
    by (unfold wrap_u64; rewrite Z.mod_small; width_lia).
  unfold exact_cache_cost.
  destruct (xr_cache_status request) eqn:Hst, (xr_read_policy request), (xr_write_policy request);
    rewrite ?Hwrap1, ?Hwrap2 in H; inv_ok; destruct_and?; inv_ok; rate_ok; cbn in *;
    rewrite ?Hwrap1, ?Hwrap2;
    repeat match goal with
    | |- context [token_cost ?t ?r] =>
        lazymatch goal with
        | _ : 0 <= token_cost t r |- _ => fail
        | _ => assert (0 <= token_cost t r) by (apply token_cost_nonneg; lia)
        end
    end; split_and!; done || lia.
Qed.

(** ** Properties *)

(** C28: billing of a cached request is exact. A planned request costs the sum of
    its five charges, which is the price list applied to its token split: a full
    hit pays for nothing but the cache read, a miss pays no cache read; cached and
    billable input tokens add up to the input. The plan carries a ledger settle
    exactly when the cost is not zero, and a settle that applies debits exactly
    that cost, in the pricing currency, under the settle key of the request. *)
Theorem exact_cache_billing_correct `{UuidDisplay} (request : ExactCacheBillingRequest)
    (pricing : ExactCachePricingRules) (existing : list LedgerEntryRecord) (plan : ExactCacheBillingPlan)
    (Hwf : exact_cache_request_wf request)
    (Hplan : plan_exact_cache_billing request pricing existing = Ok plan) :
  let rating := xb_rating plan in
  units (xq_total_cost rating) = exact_cache_cost request pricing ∧
  units (xq_total_cost rating) =
    units (xq_input_cost rating) + units (xq_output_cost rating) + units (xq_cache_read_cost rating)
    + units (xq_cache_write_cost rating) + units (xq_fixed_request_cost rating) ∧
  xq_cached_input_tokens rating + xq_billable_input_tokens rating = xr_input_tokens request ∧
  (xb_ledger_plan plan = None ↔ exact_cache_cost request pricing = 0) ∧
  (∀ lp, xb_ledger_plan plan = Some lp → lp_outcome lp = OutcomeApply →
    ∃ draft, lp_entries lp = [draft] ∧
      units (ed_amount draft) = - exact_cache_cost request pricing ∧
      ed_currency draft = xp_currency pricing ∧
      ed_idempotency_key draft = settle_ledger_idempotency_key (xr_request_id request)).
Proof.
  unfold plan_exact_cache_billing in Hplan.
  apply bind_Ok in Hplan as (? & _ & Hplan). apply bind_Ok in Hplan as ([] & Hshape & Hplan).
  apply bind_Ok in Hplan as (? & _ & Hplan). apply bind_Ok in Hplan as (? & _ & Hplan).
  apply bind_Ok in Hplan as (? & _ & Hplan). apply bind_Ok in Hplan as (rating & Hrate & Hplan).
  apply bind_Ok in Hplan as (lp & Hlp & Hplan). inv_ok. cbn.
  destruct (rate_exact_cache_Ok _ _ _ Hwf Hshape Hrate) as (Htot & Hsum & Htok & _ & Hcur).
  split_and!; try done.
  - unfold is_zero in Hlp. rewrite Htot in Hlp.
    destruct (Z.eqb_spec (exact_cache_cost request pricing) 0); inv_ok; naive_solver.
  - intros lp' -> Hout. destruct (is_zero (xq_total_cost rating)) in Hlp; [done|]. inv_ok.
    match goal with H : plan_ledger_settle_with_metadata _ _ _ = Ok _ |- _ =>
      pose proof (plan_ledger_settle_Ok _ _ _ _ H) as Hok; rewrite plan_ledger_settle_eq in H by done end.
    destruct (find_by_idempotency_key _ _); inv_ok; [done|].
    eexists. split_and!; [reflexivity|cbn; lia|done|done].
Qed.

Definition sample_cache_pricing : ExactCachePricingRules :=
  let money u := mkFixedDecimal u 8 in
  mkExactCachePricingRules "USD" 8 (money 300000000) (money 600000000) (money 30000000) (money 50000000)
    (money 10) (money 20) (money 5).

Definition sample_cache_request : ExactCacheBillingRequest :=
  mkExactCacheBillingRequest 11 CachePartialHit
    "sha256:0123456789abcdef0123456789abcdef0123456789abcdef0123456789abcdef"
    (Some 12) 1000 200 400 600 ReadDiscountedInputTokens WriteFixedCost.

Lemma exact_cache_billing_correct_witness :
  ∃ plan,
    @plan_exact_cache_billing uuid_display_model sample_cache_request sample_cache_pricing [] = Ok plan ∧
    units (xq_total_cost (xb_rating plan)) = 312025 ∧
    exact_cache_cost sample_cache_request sample_cache_pricing = 312025.
Proof.
  destruct (@plan_exact_cache_billing uuid_display_model sample_cache_request sample_cache_pricing [])
    as [plan|error] eqn:Hplan; [|vm_compute in Hplan; discriminate Hplan].
  exists plan. split; [done|].
  assert (exact_cache_request_wf sample_cache_request) as Hwf by (repeat split; vm_compute; discriminate).
  destruct (@exact_cache_billing_correct uuid_display_model _ _ _ _ Hwf Hplan) as (Htot & _).
  assert (exact_cache_cost sample_cache_request sample_cache_pricing = 312025) as E by (vm_compute; reflexivity).
  split; [|exact E]. rewrite Htot. exact E.
Defined.

(** The cache decision and the billing check agree: whatever input passes
    [decide_exact_cache_request], a billing request built from the decision passes
    [validate_cache_request_shape], for every policy, output and key; and the
    decision splits the input into cached and billable tokens. *)
Theorem cache_decision_is_billable (input : ExactCacheDecisionInput) (decision : ExactCacheDecision)
    (Hin : in_u64 (di_input_tokens input)) (Hmatched : in_u64 (di_matched_input_tokens input))
    (Hd : decide_exact_cache_request input = Ok decision)
    (request_id : Uuid) (key : string) (output : Z) (read_policy : ExactCacheReadPolicy)
    (write_policy : ExactCacheWritePolicy) :
  validate_cache_request_shape
    (mkExactCacheBillingRequest request_id (cd_cache_status decision) key (cd_cache_entry_id decision)
       (cd_input_tokens decision) output (cd_cache_read_tokens decision) (cd_cache_write_tokens decision)
       read_policy write_policy) = Ok () ∧
  cd_cached_input_tokens decision + cd_billable_input_tokens decision = di_input_tokens input ∧
  0 <= cd_billable_input_tokens decision.
Proof.
  unfold decide_exact_cache_request in Hd. inv_ok. bool_to_prop. cbn.
  split; [|lia]. unfold validate_cache_request_shape. cbn.
  rewrite (proj2 (Z.ltb_ge _ _)) by lia.
  destruct (Z.eqb_spec (di_matched_input_tokens input) 0) as [E|E]; cbn.
  - done.
  - rewrite (proj2 (Z.ltb_lt _ _)) in * by lia. cbn in *. bool_to_prop.
    destruct (Z.eqb_spec (di_input_tokens input - di_matched_input_tokens input) 0); cbn;
      rewrite bool_decide_false by done.
    + by rewrite (proj2 (Z.eqb_eq _ _)) by lia.
    + by rewrite (proj2 (Z.eqb_neq _ _)) by lia.
Qed.

Lemma cache_decision_is_billable_witness :
  validate_cache_request_shape
    (mkExactCacheBillingRequest 1 CachePartialHit "k" (Some 12) 1000 5 400 600 ReadFixedCost WriteTokenRate)
    = Ok ().
Proof.
  apply (cache_decision_is_billable (mkExactCacheDecisionInput (Some 12) 1000 400)
    (mkExactCacheDecision CachePartialHit (Some 12) 1000 400 600 400 600));
    [cbn; width_lia..|vm_compute; reflexivity].
Defined.

(** Pre-authorization admits a request exactly when the wallet (if any) and
    every budget that uses the scale of the estimate can pay for it: at least the
    minimum cost when that is positive, a positive balance when only usage will
    tell. Balances kept at another scale are not compared at all. *)
Theorem pre_authorize_allows_iff (estimate : PreAuthorizeEstimate) (wallet : option PreAuthorizeBalance)
    (budgets : list PreAuthorizeBudget) :
  let sufficient a :=
    scale a = scale (minimum_cost estimate) →
    if 0 <? units (minimum_cost estimate) then units (minimum_cost estimate) <= units a
    else billable_if_usage_present estimate = true → 0 < units a in
  pre_authorize estimate wallet budgets = Allow ↔
  (∀ w, wallet = Some w → sufficient (pa_available w)) ∧
  (∀ b, b ∈ budgets → sufficient (pa_remaining b)).
Proof.
  intros sufficient.
  assert (∀ a, amount_is_insufficient a estimate = false ↔ sufficient a) as Hiff.
  { intros a. unfold amount_is_insufficient, sufficient.
    destruct (Z.eqb_spec (scale a) (scale (minimum_cost estimate))); cbn; [|naive_solver].
    destruct (0 <? units (minimum_cost estimate)).
    - rewrite Z.ltb_ge. naive_solver.
    - rewrite andb_false_iff, Z.leb_gt. destruct (billable_if_usage_present estimate); naive_solver. }
  setoid_rewrite <-Hiff. unfold pre_authorize. clear Hiff. split.
  - intros H. destruct wallet as [w|]; [destruct (amount_is_insufficient (pa_available w) estimate) eqn:Hw; [done|]|];
      destruct (List.existsb _ _) eqn:Hb; try done; rewrite existsb_elem_false in Hb; naive_solver.
  - intros [Hw Hb]. rewrite (proj2 (existsb_elem_false _ _)) by done.
    destruct wallet as [w|]; [|done]. by rewrite (Hw w eq_refl).
Qed.
