(* ===== verification/Selection.v ===== *)
(** crates/routing/src/selection.rs: channel selection. Candidates are filtered
    by status, rate limit, health and weight, sorted, and one is picked: the
    channel that last served the trace when affinity applies, otherwise a
    weighted draw among the candidates of the best priority. *)

From Stdlib Require String.
From S2P Require Export RustStr.

#[local] Open Scope string_scope.
#[local] Open Scope list_scope.
#[local] Open Scope Z_scope.

(** ** Data *)

Definition ROUTE_DECISION_SNAPSHOT_VERSION : Z := 1.

Inductive ChannelStatus : Type :=
| StatusEnabled | StatusDegraded | StatusDisabled | StatusCoolingDown | StatusRecoveryProbe
| StatusAuthFailed | StatusQuotaExhausted | StatusManualDisabled | StatusDeleted.

Inductive ChannelHealth : Type := HealthHealthy | HealthDegraded | HealthUnhealthy.

Inductive CandidateFilterReason : Type :=
| FilterCanonicalModelDisabled
| FilterCanonicalModelDeleted
| FilterModelVisibilityDenied
| FilterProfileModelDenied
| FilterAssociationDisabled
| FilterAssociationDeleted
| FilterProfileChannelTagDenied
| FilterProfileProviderDenied
| FilterDisabled
| FilterCoolingDown
| FilterRecoveryProbe
| FilterAuthFailed
| FilterQuotaExhausted
| FilterManualDisabled
| FilterDeleted
| FilterRateLimitExceeded
| FilterUnhealthy
| FilterZeroWeight.

#[export] Instance ChannelStatus_eq_dec : EqDecision ChannelStatus.
Proof. solve_decision. Defined.
#[export] Instance ChannelHealth_eq_dec : EqDecision ChannelHealth.
Proof. solve_decision. Defined.
#[export] Instance CandidateFilterReason_eq_dec : EqDecision CandidateFilterReason.
Proof. solve_decision. Defined.

Record RouteCandidate : Type := mkRouteCandidate {
  channel_id : string;
  provider_id : string;
  provider_model : string;
  priority : Z;
  weight : Z;
  status : ChannelStatus;
  health : ChannelHealth;
  rate_limit_available : bool;
}.

Definition route_candidate_new (channel_id provider_id provider_model : string) (priority weight : Z)
    : RouteCandidate :=
  mkRouteCandidate channel_id provider_id provider_model priority weight StatusEnabled HealthHealthy true.

Definition with_status (self : RouteCandidate) (status : ChannelStatus) : RouteCandidate :=
  mkRouteCandidate (channel_id self) (provider_id self) (provider_model self) (priority self) (weight self)
    status (health self) (rate_limit_available self).

Definition with_health (self : RouteCandidate) (health : ChannelHealth) : RouteCandidate :=
  mkRouteCandidate (channel_id self) (provider_id self) (provider_model self) (priority self) (weight self)
    (status self) health (rate_limit_available self).

Definition with_rate_limit_available (self : RouteCandidate) (available : bool) : RouteCandidate :=
  mkRouteCandidate (channel_id self) (provider_id self) (provider_model self) (priority self) (weight self)
    (status self) (health self) available.

Record EvaluatedCandidate : Type := mkEvaluatedCandidate {
  candidate : RouteCandidate;
  filter_reason : option CandidateFilterReason;
}.

Definition is_selectable (self : EvaluatedCandidate) : bool :=
  match filter_reason self with None => true | Some _ => false end.

Record SelectionPolicy : Type := mkSelectionPolicy { seed : Z }.

Record TraceAffinity : Type := mkTraceAffinity {
  affinity_enabled : bool;
  affinity_previous_channel_id : option string;
}.

Definition trace_affinity_disabled : TraceAffinity := mkTraceAffinity false None.

Definition prefer_channel (channel_id : string) : TraceAffinity := mkTraceAffinity true (Some channel_id).

Record RouteSelectionContext : Type := mkRouteSelectionContext {
  context_trace_id : option string;
  context_trace_affinity : TraceAffinity;
}.

Definition context_default : RouteSelectionContext := mkRouteSelectionContext None trace_affinity_disabled.

Definition context_for_trace (trace_id : string) : RouteSelectionContext :=
  mkRouteSelectionContext (Some trace_id) trace_affinity_disabled.

Definition with_trace_id (self : RouteSelectionContext) (trace_id : string) : RouteSelectionContext :=
  mkRouteSelectionContext (Some trace_id) (context_trace_affinity self).

Definition with_trace_affinity_channel (self : RouteSelectionContext) (channel_id : string)
    : RouteSelectionContext :=
  mkRouteSelectionContext (context_trace_id self) (prefer_channel channel_id).

Inductive TraceAffinityStatus : Type :=
| AffinityDisabled | AffinityNoTraceId | AffinityNoPreviousSuccess
| AffinityPreviousChannelNotCandidate | AffinityPreviousChannelFiltered | AffinityApplied.

Record TraceAffinityDecision : Type := mkTraceAffinityDecision {
  tad_status : TraceAffinityStatus;
  tad_trace_id : option string;
  tad_previous_successful_channel_id : option string;
  tad_applied_channel_id : option string;
}.

Definition trace_affinity_decision_disabled : TraceAffinityDecision :=
  mkTraceAffinityDecision AffinityDisabled None None None.

Record RouteRequest : Type := mkRouteRequest {
  rq_requested_model : string;
  rq_canonical_model : option string;
  rq_policy : SelectionPolicy;
}.

Definition route_request_new (requested_model : string) (seed : Z) : RouteRequest :=
  mkRouteRequest requested_model None (mkSelectionPolicy seed).

Definition with_canonical_model (self : RouteRequest) (canonical_model : string) : RouteRequest :=
  mkRouteRequest (rq_requested_model self) (Some canonical_model) (rq_policy self).

Record SelectedRoute : Type := mkSelectedRoute {
  sr_channel_id : string;
  sr_provider_id : string;
  sr_provider_model : string;
  sr_priority : Z;
  sr_weight : Z;
}.

Record RouteDecision : Type := mkRouteDecision {
  rd_requested_model : string;
  rd_canonical_model : option string;
  rd_policy : SelectionPolicy;
  rd_trace_id : option string;
  rd_trace_affinity : TraceAffinityDecision;
  rd_selected_channel_id : option string;
  rd_selected : option SelectedRoute;
  rd_candidates : list EvaluatedCandidate;
}.

Definition route_decision_empty (requested_model : string) : RouteDecision :=
  mkRouteDecision requested_model None (mkSelectionPolicy 0) None trace_affinity_decision_disabled None None [].

Record RouteCandidateScore : Type := mkRouteCandidateScore {
  score_priority : Z;
  score_weight : Z;
  score_trace_affinity_bonus : Z;
  score_total : Z;
}.

Record RouteDecisionSnapshotCandidate : Type := mkRouteDecisionSnapshotCandidate {
  sc_channel_id : string;
  sc_provider_id : string;
  sc_provider_model : string;
  sc_priority : Z;
  sc_weight : Z;
  sc_status : ChannelStatus;
  sc_health : ChannelHealth;
  sc_rate_limit_available : bool;
  sc_filtered : bool;
  sc_filter_reason : option CandidateFilterReason;
  sc_score : option RouteCandidateScore;
  sc_selected : bool;
  sc_trace_affinity_match : bool;
}.

Record RouteDecisionSnapshot : Type := mkRouteDecisionSnapshot {
  sn_version : Z;
  sn_requested_model : string;
  sn_canonical_model : option string;
  sn_policy : SelectionPolicy;
  sn_trace_id : option string;
  sn_trace_affinity : TraceAffinityDecision;
  sn_selected_channel_id : option string;
  sn_selected : option SelectedRoute;
  sn_candidates : list RouteDecisionSnapshotCandidate;
}.

Record RouteDecisionSnapshotSummary : Type := mkRouteDecisionSnapshotSummary {
  sm_version : Z;
  sm_requested_model : string;
  sm_canonical_model : option string;
  sm_selected_channel_id : option string;
  sm_selected_provider_model : option string;
  sm_candidate_count : nat;
  sm_filtered_count : nat;
  sm_filter_reasons : list CandidateFilterReason;
  sm_selected_score_total : option Z;
  sm_trace_affinity_status : TraceAffinityStatus;
}.

(** ** Evaluation and ordering *)

Definition selection_filter_reason_for (candidate : RouteCandidate) : option CandidateFilterReason :=
  match status candidate with
  | StatusDisabled => Some FilterDisabled
  | StatusCoolingDown => Some FilterCoolingDown
  | StatusRecoveryProbe => Some FilterRecoveryProbe
  | StatusAuthFailed => Some FilterAuthFailed
  | StatusQuotaExhausted => Some FilterQuotaExhausted
  | StatusManualDisabled => Some FilterManualDisabled
  | StatusDeleted => Some FilterDeleted
  | StatusEnabled | StatusDegraded =>
      if negb (rate_limit_available candidate) then Some FilterRateLimitExceeded
      else if bool_decide (health candidate = HealthUnhealthy) then Some FilterUnhealthy
      else if weight candidate =? 0 then Some FilterZeroWeight
      else None
  end.

(** [Ordering::then_with]. *)
Definition then_with (first second : comparison) : comparison :=
  match first with Eq => second | _ => first end.

(** Priority ascending, weight descending, channel id ascending (strings compare
    by their bytes). *)
Definition compare_evaluated_candidates (left right : EvaluatedCandidate) : comparison :=
  then_with
    (then_with (priority (candidate left) ?= priority (candidate right))
               (weight (candidate right) ?= weight (candidate left)))
    (String.compare (channel_id (candidate left)) (channel_id (candidate right))).

Definition evaluated_leb (left right : EvaluatedCandidate) : bool :=
  match compare_evaluated_candidates left right with Gt => false | _ => true end.

Definition evaluate_candidate (candidate : RouteCandidate) : EvaluatedCandidate :=
  mkEvaluatedCandidate candidate (selection_filter_reason_for candidate).

Definition evaluate_candidates (candidates : list RouteCandidate) : list EvaluatedCandidate :=
  sort_by evaluated_leb (evaluate_candidate <$> candidates).

(** ** Picking *)

Definition selected_route_from_candidate (evaluated : EvaluatedCandidate) : SelectedRoute :=
  mkSelectedRoute (channel_id (candidate evaluated)) (provider_id (candidate evaluated))
    (provider_model (candidate evaluated)) (priority (candidate evaluated)) (weight (candidate evaluated)).

(** [Iterator::min] on priorities. *)
Fixpoint iter_min (values : list Z) : option Z :=
  match values with
  | [] => None
  | value :: values =>
      match iter_min values with
      | None => Some value
      | Some other => Some (Z.min value other)
      end
  end.

(** [Iterator::sum::<u64>()]: the additions wrap in a release build. *)
Definition sum_weights (group : list EvaluatedCandidate) : Z :=
  fold_left (λ total evaluated, wrap_u64 (total + weight (candidate evaluated))) group 0.

(** The loop over the priority group. *)
Fixpoint draw_ticket (ticket : Z) (group : list EvaluatedCandidate) : option SelectedRoute :=
  match group with
  | [] => None
  | evaluated :: group =>
      let w := weight (candidate evaluated) in
      if ticket <? w then Some (selected_route_from_candidate evaluated)
      else draw_ticket (ticket - w) group
  end.

Definition in_priority_group (best_priority : Z) (evaluated : EvaluatedCandidate) : bool :=
  is_selectable evaluated && (priority (candidate evaluated) =? best_priority).

Definition pick_by_priority_then_weight (candidates : list EvaluatedCandidate) (seed : Z) : option SelectedRoute :=
  match iter_min ((λ evaluated, priority (candidate evaluated)) <$> List.filter is_selectable candidates) with
  | None => None
  | Some best_priority =>
      let priority_group := List.filter (in_priority_group best_priority) candidates in
      let total_weight := sum_weights priority_group in
      if total_weight =? 0 then None
      else draw_ticket (seed mod total_weight) priority_group
  end.

Definition has_channel_id (id : string) (evaluated : EvaluatedCandidate) : bool :=
  bool_decide (channel_id (candidate evaluated) = id).

Definition evaluate_trace_affinity (context : RouteSelectionContext) (candidates : list EvaluatedCandidate)
    : TraceAffinityDecision :=
  let previous := affinity_previous_channel_id (context_trace_affinity context) in
  if negb (affinity_enabled (context_trace_affinity context)) then
    mkTraceAffinityDecision AffinityDisabled (context_trace_id context) previous None
  else if bool_decide (context_trace_id context = None) then
    mkTraceAffinityDecision AffinityNoTraceId None previous None
  else
    match previous with
    | None => mkTraceAffinityDecision AffinityNoPreviousSuccess (context_trace_id context) previous None
    | Some previous_channel_id =>
        match List.find (has_channel_id previous_channel_id) candidates with
        | None =>
            mkTraceAffinityDecision AffinityPreviousChannelNotCandidate (context_trace_id context) previous None
        | Some previous_candidate =>
            if negb (is_selectable previous_candidate) then
              mkTraceAffinityDecision AffinityPreviousChannelFiltered (context_trace_id context) previous None
            else
              mkTraceAffinityDecision AffinityApplied (context_trace_id context)
                (Some previous_channel_id) (Some previous_channel_id)
        end
    end.

Definition pick_by_trace_affinity (candidates : list EvaluatedCandidate) (trace_affinity : TraceAffinityDecision)
    : option SelectedRoute :=
  match tad_applied_channel_id trace_affinity with
  | None => None
  | Some id =>
      selected_route_from_candidate <$>
        List.find (λ evaluated, is_selectable evaluated && has_channel_id id evaluated) candidates
  end.

Definition select_from_evaluated_candidates (request : RouteRequest) (evaluated : list EvaluatedCandidate)
    (context : RouteSelectionContext) : RouteDecision :=
  let trace_affinity := evaluate_trace_affinity context evaluated in
  let selected :=
    match pick_by_trace_affinity evaluated trace_affinity with
    | Some route => Some route
    | None => pick_by_priority_then_weight evaluated (seed (rq_policy request))
    end in
  {|
    rd_requested_model := rq_requested_model request;
    rd_canonical_model := rq_canonical_model request;
    rd_policy := rq_policy request;
    rd_trace_id := context_trace_id context;
    rd_trace_affinity := trace_affinity;
    rd_selected_channel_id := sr_channel_id <$> selected;
    rd_selected := selected;
    rd_candidates := evaluated;
  |}.

Definition select_route_from_evaluated (request : RouteRequest) (candidates : list EvaluatedCandidate)
    (context : RouteSelectionContext) : RouteDecision :=
  select_from_evaluated_candidates request (sort_by evaluated_leb candidates) context.

Definition select_route_with_context (request : RouteRequest) (candidates : list RouteCandidate)
    (context : RouteSelectionContext) : RouteDecision :=
  select_from_evaluated_candidates request (evaluate_candidates candidates) context.

Definition select_route (request : RouteRequest) (candidates : list RouteCandidate) : RouteDecision :=
  select_route_with_context request candidates context_default.

(** ** Snapshots *)

(** The [i64] sum of an [i32] and two [u32] values cannot overflow. *)
Definition score_candidate (candidate : RouteCandidate) (trace_affinity_match : bool) : RouteCandidateScore :=
  let bonus := if trace_affinity_match then 1 else 0 in
  {|
    score_priority := priority candidate;
    score_weight := weight candidate;
    score_trace_affinity_bonus := bonus;
    score_total := (i32_max - priority candidate) + weight candidate + bonus;
  |}.

Definition is_some_and_eq (id : option string) (channel : string) : bool :=
  match id with Some id => bool_decide (id = channel) | None => false end.

Definition snapshot_candidate (selected_channel_id affinity_channel_id : option string)
    (evaluated : EvaluatedCandidate) : RouteDecisionSnapshotCandidate :=
  let c := candidate evaluated in
  let trace_affinity_match := is_some_and_eq affinity_channel_id (channel_id c) in
  {|
    sc_channel_id := channel_id c;
    sc_provider_id := provider_id c;
    sc_provider_model := provider_model c;
    sc_priority := priority c;
    sc_weight := weight c;
    sc_status := status c;
    sc_health := health c;
    sc_rate_limit_available := rate_limit_available c;
    sc_filtered := negb (is_selectable evaluated);
    sc_filter_reason := filter_reason evaluated;
    sc_score := if is_selectable evaluated then Some (score_candidate c trace_affinity_match) else None;
    sc_selected := is_some_and_eq selected_channel_id (channel_id c);
    sc_trace_affinity_match := trace_affinity_match;
  |}.

Definition snapshot_from_decision (decision : RouteDecision) : RouteDecisionSnapshot := {|
  sn_version := ROUTE_DECISION_SNAPSHOT_VERSION;
  sn_requested_model := rd_requested_model decision;
  sn_canonical_model := rd_canonical_model decision;
  sn_policy := rd_policy decision;
  sn_trace_id := rd_trace_id decision;
  sn_trace_affinity := rd_trace_affinity decision;
  sn_selected_channel_id := rd_selected_channel_id decision;
  sn_selected := rd_selected decision;
  sn_candidates :=
    snapshot_candidate (rd_selected_channel_id decision)
      (tad_previous_successful_channel_id (rd_trace_affinity decision)) <$> rd_candidates decision;
|}.

Definition snapshot_summary (snapshot : RouteDecisionSnapshot) : RouteDecisionSnapshotSummary := {|
  sm_version := sn_version snapshot;
  sm_requested_model := sn_requested_model snapshot;
  sm_canonical_model := sn_canonical_model snapshot;
  sm_selected_channel_id := sn_selected_channel_id snapshot;
  sm_selected_provider_model := sr_provider_model <$> sn_selected snapshot;
  sm_candidate_count := length (sn_candidates snapshot);
  sm_filtered_count := length (List.filter sc_filtered (sn_candidates snapshot));
  sm_filter_reasons := omap sc_filter_reason (sn_candidates snapshot);
  sm_selected_score_total :=
    score_total <$> (List.find sc_selected (sn_candidates snapshot) ≫= sc_score);
  sm_trace_affinity_status := tad_status (sn_trace_affinity snapshot);
|}.

(** ** The order on candidates *)

Lemma then_with_Gt a b : then_with a b = Gt ↔ a = Gt ∨ (a = Eq ∧ b = Gt).
Proof. destruct a; cbn; naive_solver. Qed.

Lemma compare_evaluated_flip a b :
  compare_evaluated_candidates b a = CompOpp (compare_evaluated_candidates a b).
Proof.
  unfold compare_evaluated_candidates.
  rewrite (Z.compare_antisym (priority (candidate a))), (Z.compare_antisym (weight (candidate b))),
    (String.compare_antisym (channel_id (candidate b))).
  destruct (priority (candidate a) ?= _), (weight (candidate b) ?= _); done.
Qed.

Lemma evaluated_leb_total a b : evaluated_leb a b = false → evaluated_leb b a = true.
Proof.
  unfold evaluated_leb. rewrite (compare_evaluated_flip a b).
  destruct (compare_evaluated_candidates a b); done.
Qed.

(** Candidates that compare equal have the same channel id. *)
Lemma evaluated_leb_antisym a b :
  evaluated_leb a b = true → evaluated_leb b a = true →
  channel_id (candidate a) = channel_id (candidate b).
Proof.
  unfold evaluated_leb. rewrite (compare_evaluated_flip a b). intros H1 H2.
  assert (compare_evaluated_candidates a b = Eq) as H by (destruct (compare_evaluated_candidates a b); done).
  apply String.compare_eq_iff. unfold compare_evaluated_candidates, then_with in H.
  destruct (priority (candidate a) ?= _); try done. destruct (weight (candidate b) ?= _); done.
Qed.

Lemma evaluated_leb_trans a b c :
  evaluated_leb a b = true → evaluated_leb b c = true → evaluated_leb a c = true.
Proof.
  unfold evaluated_leb, compare_evaluated_candidates, then_with.
  destruct (Z.compare_spec (priority (candidate a)) (priority (candidate b))),
    (Z.compare_spec (priority (candidate b)) (priority (candidate c))),
    (Z.compare_spec (priority (candidate a)) (priority (candidate c))); try done; try lia;
  destruct (Z.compare_spec (weight (candidate b)) (weight (candidate a))),
    (Z.compare_spec (weight (candidate c)) (weight (candidate b))),
    (Z.compare_spec (weight (candidate c)) (weight (candidate a))); try done; try lia.
  pose proof (string_compare_trans (channel_id (candidate a)) (channel_id (candidate b))
    (channel_id (candidate c))) as Ht.
  destruct (String.compare (channel_id (candidate a)) (channel_id (candidate b))),
    (String.compare (channel_id (candidate b)) (channel_id (candidate c))),
    (String.compare (channel_id (candidate a)) (channel_id (candidate c)));
    done || (exfalso; by apply Ht).
Qed.

#[export] Instance evaluated_leb_transitive : Transitive (λ a b, evaluated_leb a b = true).
Proof. intros a b c. apply evaluated_leb_trans. Qed.

Lemma sorted_candidates l : StronglySorted (λ a b, evaluated_leb a b = true) (sort_by evaluated_leb l).
Proof. apply Sorted_StronglySorted; [apply _|]. apply sort_by_sorted, evaluated_leb_total. Qed.

(** ** The weighted draw *)

(** The weights of a group, added without wrapping. *)
Definition group_weight (group : list EvaluatedCandidate) : Z :=
  foldr (λ evaluated total, weight (candidate evaluated) + total) 0 group.

#[global] Arguments group_weight : simpl never.

Lemma group_weight_nil : group_weight [] = 0.
Proof. done. Qed.

Lemma group_weight_cons e group : group_weight (e :: group) = weight (candidate e) + group_weight group.
Proof. done. Qed.

Definition weights_wf (group : list EvaluatedCandidate) : Prop :=
  Forall (λ evaluated, in_u32 (weight (candidate evaluated))) group.

Lemma group_weight_bound group :
  weights_wf group → 0 <= group_weight group <= Z.of_nat (length group) * u32_max.
Proof.
  induction 1 as [|e group He _ IH]; [done|]. rewrite group_weight_cons. cbn [length]. width_lia.
Qed.

Lemma sum_weights_from group start :
  weights_wf group → 0 <= start → start + group_weight group <= u64_max →
  fold_left (λ total evaluated, wrap_u64 (total + weight (candidate evaluated))) group start
    = start + group_weight group.
Proof.
  intros HF. revert start. induction HF as [|e group He HF IH]; intros start H0 Hmax; cbn.
  { rewrite group_weight_nil. lia. }
  rewrite group_weight_cons in *. pose proof (group_weight_bound group HF).
  assert (wrap_u64 (start + weight (candidate e)) = start + weight (candidate e)) as ->.
  { unfold wrap_u64. rewrite Z.mod_small; width_lia. }
  rewrite IH; lia.
Qed.

(** The wrapping sum is exact for fewer than 2^32 candidates. *)
Lemma sum_weights_exact group :
  weights_wf group → Z.of_nat (length group) <= u32_max → sum_weights group = group_weight group.
Proof.
  intros Hwf Hlen. pose proof (group_weight_bound group Hwf).
  unfold sum_weights. rewrite sum_weights_from; [lia|done|lia|].
  assert (Z.of_nat (length group) * u32_max <= u32_max * u32_max) by (apply Z.mul_le_mono_nonneg_r; width_lia).
  unfold_widths. lia.
Qed.

(** A ticket below the total weight falls into the interval of one member. *)
Lemma draw_ticket_interval group ticket :
  weights_wf group → 0 <= ticket < group_weight group →
  ∃ i evaluated, group !! i = Some evaluated ∧
    draw_ticket ticket group = Some (selected_route_from_candidate evaluated) ∧
    group_weight (take i group) <= ticket < group_weight (take i group) + weight (candidate evaluated).
Proof.
  intros HF. revert ticket. induction HF as [|e group He HF IH]; intros ticket Ht; cbn.
  { rewrite group_weight_nil in Ht. lia. }
  rewrite group_weight_cons in Ht. destruct (Z.ltb_spec ticket (weight (candidate e))).
  - exists 0%nat, e. cbn. rewrite group_weight_nil. split_and!; [done|done|lia|lia].
  - destruct (IH (ticket - weight (candidate e))) as (i & e' & Hi & Hd & ?); [lia|].
    exists (S i), e'. cbn. rewrite group_weight_cons. split_and!; [done|done|lia|lia].
Qed.

(** The tickets of [0, total) that draw a given channel. *)
Definition tickets_for (draw : Z → option SelectedRoute) (total : Z) (id : string) : Z :=
  Z.of_nat (length (List.filter (λ ticket, bool_decide (sr_channel_id <$> draw ticket = Some id)) (seqZ 0 total))).

Lemma filter_const {A} (p : A → bool) b (l : list A) :
  (∀ x, x ∈ l → p x = b) → List.filter p l = if b then l else [].
Proof.
  induction l as [|x l IH]; intros H; cbn; [by destruct b|].
  rewrite (H x) by set_solver. rewrite IH by set_solver. by destruct b.
Qed.

Lemma draw_tickets_count group id :
  weights_wf group →
  tickets_for (λ ticket, draw_ticket ticket group) (group_weight group) id
    = group_weight (List.filter (has_channel_id id) group).
Proof.
  unfold tickets_for. induction 1 as [|e group He HF IH]; [done|]. rewrite group_weight_cons.
  pose proof (group_weight_bound group HF). set (w := weight (candidate e)) in *.
  rewrite seqZ_app by lia. rewrite List.filter_app, length_app, Nat2Z.inj_add.
  rewrite (filter_const _ (has_channel_id id e) (seqZ 0 w)).
  2:{ intros ticket Ht%elem_of_seqZ. cbn. fold w. rewrite (proj2 (Z.ltb_lt _ _)) by lia. cbn.
      apply bool_decide_ext. naive_solver. }
  replace (seqZ (0 + w) (group_weight group)) with (Z.add w <$> seqZ 0 (group_weight group))
    by (rewrite fmap_add_seqZ; f_equal; lia).
  rewrite (filter_fmap_length _ _ (λ ticket, bool_decide (sr_channel_id <$> draw_ticket ticket group = Some id))).
  2:{ intros ticket Ht%elem_of_seqZ. cbn. fold w. rewrite (proj2 (Z.ltb_ge _ _)) by lia.
      by replace (w + ticket - w) with ticket by lia. }
  rewrite IH. cbn [List.filter]. destruct (has_channel_id id e).
  - rewrite group_weight_cons, length_seqZ. fold w. lia.
  - cbn. lia.
Qed.

(** ** The best priority *)

Lemma iter_min_Some l m : iter_min l = Some m → m ∈ l ∧ ∀ x, x ∈ l → m <= x.
Proof.
  revert m. induction l as [|x l IH]; intros m; cbn; [done|].
  destruct (iter_min l) as [m'|] eqn:E; intros [= <-].
  - destruct (IH m' eq_refl) as [Hin Hle]. split.
    + destruct (Z.min_spec x m') as [[_ ->]|[_ ->]]; set_solver.
    + intros y [->|Hy%Hle]%elem_of_cons; lia.
  - destruct l as [|y l]; [|cbn in E; by destruct (iter_min l)]. split; [set_solver|].
    intros y Hy%list_elem_of_singleton. lia.
Qed.

Lemma iter_min_None l : iter_min l = None ↔ l = [].
Proof. destruct l as [|x l]; cbn; [done|]. by destruct (iter_min l). Qed.

(** A candidate that survives the filter is usable. *)
Lemma selectable_iff c :
  is_selectable (evaluate_candidate c) = true ↔
  (status c = StatusEnabled ∨ status c = StatusDegraded) ∧ rate_limit_available c = true ∧
  health c ≠ HealthUnhealthy ∧ weight c ≠ 0.
Proof.
  unfold is_selectable, evaluate_candidate, selection_filter_reason_for. cbn.
  destruct (status c); try (split; [done|by intros ([?|?] & _)]);
    (destruct (rate_limit_available c); cbn; [|split; [done|by intros (_ & ? & _)]]);
    destruct (bool_decide (health c = HealthUnhealthy)) eqn:E; bool_to_prop;
    (split; [|intros (_ & _ & ? & ?); by rewrite ?(proj2 (Z.eqb_neq _ _))]); try done;
    destruct (Z.eqb_spec (weight c) 0); try done; auto.
Qed.

Definition candidates_wf (candidates : list EvaluatedCandidate) : Prop :=
  weights_wf candidates ∧ Z.of_nat (length candidates) <= u32_max ∧
  (∀ e, e ∈ candidates → is_selectable e = true → weight (candidate e) ≠ 0).

Lemma length_filter_le {A} (p : A → bool) l : (length (List.filter p l) <= length l)%nat.
Proof. induction l as [|x l IH]; cbn; [done|]. destruct (p x); cbn; lia. Qed.

Lemma weights_wf_filter p group : weights_wf group → weights_wf (List.filter p group).
Proof. unfold weights_wf. rewrite !Forall_forall. intros H e [_ He]%elem_of_filter_b. auto. Qed.

Lemma group_weight_pos group e :
  weights_wf group → e ∈ group → weight (candidate e) ≠ 0 → 0 < group_weight group.
Proof.
  induction 1 as [|x group Hx HF IH]; intros He Hw; [by apply elem_of_nil in He|].
  rewrite group_weight_cons. pose proof (group_weight_bound group HF).
  apply elem_of_cons in He as [->|He]; [lia|]. specialize (IH He Hw). lia.
Qed.

(** What the priority pick returns on a list with a selectable candidate. *)
Lemma pick_priority_spec candidates e :
  candidates_wf candidates → e ∈ candidates → is_selectable e = true →
  ∃ best group,
    group = List.filter (in_priority_group best) candidates ∧
    (∃ e', e' ∈ candidates ∧ is_selectable e' = true ∧ priority (candidate e') = best) ∧
    (∀ e', e' ∈ candidates → is_selectable e' = true → best <= priority (candidate e')) ∧
    weights_wf group ∧ 0 < group_weight group ∧
    ∀ seed, pick_by_priority_then_weight candidates seed = draw_ticket (seed mod group_weight group) group.
Proof.
  intros (Hwf & Hlen & Hpos) He Hsel. unfold pick_by_priority_then_weight.
  destruct (iter_min _) as [best|] eqn:Hmin.
  2:{ apply iter_min_None in Hmin. apply fmap_nil_inv in Hmin.
      assert (e ∈ List.filter is_selectable candidates) as Hin by (by apply elem_of_filter_b).
      rewrite Hmin in Hin. by apply elem_of_nil in Hin. }
  apply iter_min_Some in Hmin as [Hin Hle].
  apply list_elem_of_fmap in Hin as (e' & -> & [Hs' He']%elem_of_filter_b).
  set (best := priority (candidate e')) in *.
  set (group := List.filter (in_priority_group best) candidates).
  assert (weights_wf group) as Hgwf by (by apply weights_wf_filter).
  assert (0 < group_weight group) as Hgpos.
  { apply (group_weight_pos _ e'); [done| |auto]. apply elem_of_filter_b. unfold in_priority_group.
    rewrite Hs'. unfold best. by rewrite Z.eqb_refl. }
  exists best, group. split_and!; [done|eauto| |done|done|].
  - intros x Hx Hsx. apply Hle. apply list_elem_of_fmap. exists x. by rewrite elem_of_filter_b.
  - intros sd. assert (Z.of_nat (length group) <= u32_max) as Hgl.
    { pose proof (length_filter_le (in_priority_group best) candidates). fold group in H. lia. }
    rewrite (sum_weights_exact group Hgwf Hgl). by rewrite (proj2 (Z.eqb_neq _ _)) by lia.
Qed.

(** ** Properties *)

(** A channel that can serve a request. *)
Definition usable (c : RouteCandidate) : Prop :=
  (status c = StatusEnabled ∨ status c = StatusDegraded) ∧ rate_limit_available c = true ∧
  health c ≠ HealthUnhealthy ∧ weight c ≠ 0.

(** The values a [Vec<RouteCandidate>] can hold that is shorter than 2^32. *)
Definition route_candidates_wf (candidates : list RouteCandidate) : Prop :=
  Forall (λ c, in_u32 (weight c)) candidates ∧ Z.of_nat (length candidates) <= u32_max.

Lemma elem_of_evaluated candidates e :
  e ∈ evaluate_candidates candidates ↔ ∃ c, c ∈ candidates ∧ e = evaluate_candidate c.
Proof. unfold evaluate_candidates. rewrite elem_of_sort_by, list_elem_of_fmap. naive_solver. Qed.

Lemma evaluated_wf candidates :
  route_candidates_wf candidates → candidates_wf (evaluate_candidates candidates).
Proof.
  intros [HF Hlen]. split_and!.
  - apply Forall_forall. intros e (c & Hc & ->)%elem_of_evaluated.
    by apply (proj1 (Forall_forall _ _) HF c Hc).
  - unfold evaluate_candidates. rewrite (sort_by_perm evaluated_leb). by rewrite length_fmap.
  - by intros e (c & Hc & ->)%elem_of_evaluated (_ & _ & _ & ?)%selectable_iff.
Qed.

Lemma pick_none candidates :
  (∀ e, e ∈ candidates → is_selectable e = false) → ∀ seed, pick_by_priority_then_weight candidates seed = None.
Proof.
  intros H sd. unfold pick_by_priority_then_weight.
  by rewrite (filter_const is_selectable false) by done.
Qed.

(** The priority pick, on evaluated candidates. *)
Lemma pick_priority_best candidates sd :
  candidates_wf candidates →
  match pick_by_priority_then_weight candidates sd with
  | None => ∀ e, e ∈ candidates → is_selectable e = false
  | Some route => ∃ e, e ∈ candidates ∧ is_selectable e = true ∧ route = selected_route_from_candidate e ∧
      ∀ e', e' ∈ candidates → is_selectable e' = true → priority (candidate e) <= priority (candidate e')
  end.
Proof.
  intros Hwf. destruct (List.find is_selectable candidates) as [e|] eqn:Hfind.
  - apply find_Some_elem in Hfind as [He Hs].
    destruct (pick_priority_spec _ _ Hwf He Hs) as (best & group & -> & _ & Hle & Hgwf & Hpos & ->).
    destruct (draw_ticket_interval _ (sd mod group_weight (List.filter (in_priority_group best) candidates)) Hgwf)
      as (i & e' & Hi & -> & _); [by apply Z.mod_pos_bound|].
    apply list_elem_of_lookup_2, elem_of_filter_b in Hi as [Hg Hin]. unfold in_priority_group in Hg.
    bool_to_prop. exists e'. split_and!; [done|done|done|]. intros x Hx Hsx.
    by match goal with H : priority _ = best |- _ => rewrite H end; auto.
  - rewrite find_None_iff in Hfind. by rewrite pick_none.
Qed.

(** A route is selected exactly when some candidate is usable (enabled or
    degraded, within its rate limit, not unhealthy, with a positive weight); the
    selected route is a usable candidate, and no usable candidate has a better
    (smaller) priority. *)
Theorem select_route_picks_best (request : RouteRequest) (candidates : list RouteCandidate)
    (Hwf : route_candidates_wf candidates) :
  match rd_selected (select_route request candidates) with
  | None => ∀ c, c ∈ candidates → ¬ usable c
  | Some route => ∃ c, c ∈ candidates ∧ usable c ∧
      route = selected_route_from_candidate (evaluate_candidate c) ∧
      ∀ c', c' ∈ candidates → usable c' → priority c <= priority c'
  end.
Proof.
  unfold select_route, select_route_with_context, select_from_evaluated_candidates. cbn.
  pose proof (pick_priority_best _ (seed (rq_policy request)) (evaluated_wf _ Hwf)) as H.
  destruct (pick_by_priority_then_weight _ _) as [route|].
  - destruct H as (e & (c & Hc & ->)%elem_of_evaluated & Hs & -> & Hle). exists c.
    split_and!; [done|by apply selectable_iff|done|]. intros c' Hc' Hu'.
    apply (Hle (evaluate_candidate c')); [apply elem_of_evaluated; eauto|by apply selectable_iff].
  - intros c Hc Hu. specialize (H (evaluate_candidate c) ltac:(apply elem_of_evaluated; eauto)).
    apply selectable_iff in Hu. congruence.
Qed.

Definition sample_candidates : list RouteCandidate := [
  route_candidate_new "ch-b" "p1" "gpt" 1 30;
  route_candidate_new "ch-a" "p2" "gpt" 1 70;
  with_health (route_candidate_new "ch-c" "p3" "gpt" 0 50) HealthUnhealthy ].

Lemma sample_candidates_wf : route_candidates_wf sample_candidates.
Proof. split; [repeat constructor; vm_compute; discriminate|vm_compute; discriminate]. Qed.

Lemma select_route_picks_best_witness :
  ∃ c, c ∈ sample_candidates ∧ usable c ∧
    rd_selected (select_route (route_request_new "m" 75) sample_candidates)
      = Some (selected_route_from_candidate (evaluate_candidate c)).
Proof.
  pose proof (select_route_picks_best (route_request_new "m" 75) sample_candidates sample_candidates_wf) as H.
  destruct (rd_selected (select_route (route_request_new "m" 75) sample_candidates)) as [route|] eqn:E;
    [|vm_compute in E; discriminate E].
  destruct H as (c & Hc & Hu & -> & _). exists c. split_and!; [exact Hc|exact Hu|reflexivity].
Defined.

(** The best priority among the usable candidates. *)
Definition is_best_priority (candidates : list RouteCandidate) (best : Z) : Prop :=
  (∃ c, c ∈ candidates ∧ usable c ∧ priority c = best) ∧
  (∀ c, c ∈ candidates → usable c → best <= priority c).

(** The total weight of the usable candidates of a priority that satisfy [p]. *)
Definition usable_weight (best : Z) (p : EvaluatedCandidate → bool) (candidates : list RouteCandidate) : Z :=
  group_weight (List.filter p (List.filter (in_priority_group best) (evaluate_candidates candidates))).

(** C25: the weighted draw is fair. Over one period of seeds (as many seeds as
    the total weight of the usable candidates of the best priority), each channel
    is selected by exactly as many seeds as its weight; other seeds repeat the
    period. *)
Theorem weighted_selection_is_fair (candidates : list RouteCandidate) (best : Z) (model : string)
    (Hwf : route_candidates_wf candidates) (Hbest : is_best_priority candidates best) :
  let total := usable_weight best (λ _, true) candidates in
  let draw seed := rd_selected (select_route (route_request_new model seed) candidates) in
  0 < total ∧
  (∀ seed, draw seed = draw (seed mod total)) ∧
  (∀ id, tickets_for draw total id = usable_weight best (has_channel_id id) candidates).
Proof.
  destruct Hbest as [(c & Hc & Hu & Hprio) Hle].
  destruct (pick_priority_spec (evaluate_candidates candidates) (evaluate_candidate c) (evaluated_wf _ Hwf))
    as (best' & group & Hgroup & (e' & (c' & Hc' & ->)%elem_of_evaluated & Hs' & Hb') & Hle' & Hgwf & Hpos & Hdraw);
    [apply elem_of_evaluated; eauto|by apply selectable_iff|].
  assert (best' = best) as ->.
  { specialize (Hle' (evaluate_candidate c) ltac:(apply elem_of_evaluated; eauto) (proj2 (selectable_iff c) Hu)).
    specialize (Hle c' Hc' (proj1 (selectable_iff c') Hs')). cbn in *. lia. }
  unfold usable_weight. rewrite <-Hgroup, (filter_const _ true group) by done. cbn zeta.
  unfold select_route, select_route_with_context, select_from_evaluated_candidates. cbn.
  split_and!; [done|intros sd; by rewrite !Hdraw, Zmod_mod|].
  intros id. rewrite <-(draw_tickets_count group id Hgwf). unfold tickets_for. do 2 f_equal.
  apply filter_ext_elem. intros t Ht%elem_of_seqZ. rewrite Hdraw, Z.mod_small by lia. done.
Qed.

Lemma weighted_selection_is_fair_witness :
  usable_weight 1 (λ _, true) sample_candidates = 100 ∧
  tickets_for (λ seed, rd_selected (select_route (route_request_new "m" seed) sample_candidates)) 100 "ch-a" = 70.
Proof.
  assert (is_best_priority sample_candidates 1) as Hbest.
  { split.
    - exists (route_candidate_new "ch-a" "p2" "gpt" 1 70). split_and!; [set_solver| |done].
      split_and!; [by left|done|done|done].
    - intros c Hc Hu. unfold sample_candidates in Hc. rewrite !elem_of_cons, elem_of_nil in Hc.
      destruct Hc as [->|[->|[->|[]]]]; [done|done|by destruct Hu as (_ & _ & [] & _)]. }
  destruct (weighted_selection_is_fair sample_candidates 1 "m" sample_candidates_wf Hbest) as (_ & _ & Hfair).
  assert (usable_weight 1 (λ _, true) sample_candidates = 100) as E by (vm_compute; reflexivity).
  split; [exact E|]. rewrite <-E, (Hfair "ch-a"). vm_compute. reflexivity.
Defined.

(** Trace affinity. When the context carries a trace id and the channel that
    last served it, and the first candidate of that channel is usable, that
    channel is selected whatever its priority, its weight and the seed; in every
    other case the selection is the one made without affinity. *)
Theorem trace_affinity_selects_previous (request : RouteRequest) (candidates : list RouteCandidate)
    (context : RouteSelectionContext) :
  let decision := select_route_with_context request candidates context in
  let previous := affinity_previous_channel_id (context_trace_affinity context) in
  let applies id :=
    affinity_enabled (context_trace_affinity context) = true ∧ is_Some (context_trace_id context) ∧
    previous = Some id ∧
    ∃ e, List.find (has_channel_id id) (evaluate_candidates candidates) = Some e ∧ is_selectable e = true in
  (∀ id, applies id →
    rd_selected_channel_id decision = Some id ∧ tad_status (rd_trace_affinity decision) = AffinityApplied) ∧
  ((∀ id, ¬ applies id) →
    rd_selected decision = rd_selected (select_route request candidates) ∧
    tad_applied_channel_id (rd_trace_affinity decision) = None).
Proof.
  cbn zeta. unfold select_route, select_route_with_context, select_from_evaluated_candidates,
    evaluate_trace_affinity, pick_by_trace_affinity.
  destruct context as [[trace|] [[] [prev|]]]; cbn; rewrite ?bool_decide_false, ?bool_decide_true by done; cbn.
  all: try (split; [intros id (? & [? ?] & ? & _); discriminate|done]).
  split.
  - intros id (_ & _ & [= ->] & e & Hfind & Hs). rewrite Hfind. cbn. rewrite Hs. cbn.
    apply find_Some_elem in Hfind as [He Hid].
    assert (is_Some (List.find (λ x, is_selectable x && has_channel_id id x) (evaluate_candidates candidates)))
      as [x Hx] by (apply find_is_Some; exists e; by rewrite Hs, Hid).
    rewrite Hx. apply find_Some_elem in Hx as [_ Hx]. unfold has_channel_id in Hx. bool_to_prop.
    split; [|done]. cbn. by f_equal.
  - intros Hnot. destruct (List.find (has_channel_id prev) (evaluate_candidates candidates)) as [e|] eqn:Hfind;
      [|done]. destruct (is_selectable e) eqn:Hs; [|done].
    destruct (Hnot prev). split_and!; [done|eauto|done|eauto].
Qed.

Lemma evaluated_ids candidates :
  (λ e, channel_id (candidate e)) <$> evaluate_candidates candidates ≡ₚ channel_id <$> candidates.
Proof.
  unfold evaluate_candidates. rewrite (sort_by_perm evaluated_leb). by rewrite <-list_fmap_compose.
Qed.

Lemma fmap_NoDup_inj {A B} (f : A → B) (l : list A) x y :
  NoDup (f <$> l) → x ∈ l → y ∈ l → f x = f y → x = y.
Proof.
  induction l as [|z l IH]; intros Hnd Hx Hy Heq; [by apply elem_of_nil in Hx|].
  rewrite fmap_cons in Hnd. apply NoDup_cons in Hnd as [Hz Hnd].
  apply elem_of_cons in Hx as [->|Hx]; apply elem_of_cons in Hy as [->|Hy]; try done.
  - destruct Hz. rewrite Heq. by apply list_elem_of_fmap_2.
  - destruct Hz. rewrite <-Heq. by apply list_elem_of_fmap_2.
  - by apply IH.
Qed.

(** The decision does not depend on the order in which the candidates are
    listed: with distinct channel ids, any permutation of the candidates gives
    the same decision, candidate list included. *)
Theorem selection_order_independent (request : RouteRequest) (context : RouteSelectionContext)
    (candidates candidates' : list RouteCandidate)
    (Hids : NoDup (channel_id <$> candidates)) (Hperm : candidates ≡ₚ candidates') :
  select_route_with_context request candidates context =
  select_route_with_context request candidates' context.
Proof.
  unfold select_route_with_context. f_equal. unfold evaluate_candidates.
  apply (StronglySorted_unique_strong (λ a b, evaluated_leb a b = true)).
  - intros a b Ha Hb Hab Hba. apply elem_of_sort_by, list_elem_of_fmap in Ha as (ca & -> & Ha).
    apply elem_of_sort_by, list_elem_of_fmap in Hb as (cb & -> & Hb). f_equal.
    apply (fmap_NoDup_inj channel_id candidates); [done|done|by rewrite Hperm|].
    by apply (evaluated_leb_antisym (evaluate_candidate ca) (evaluate_candidate cb)).
  - apply sorted_candidates.
  - apply sorted_candidates.
  - rewrite !(sort_by_perm evaluated_leb). by rewrite Hperm.
Qed.

Lemma selection_order_independent_witness :
  rd_selected_channel_id (select_route_with_context (route_request_new "m" 75) sample_candidates context_default)
    = Some "ch-b" ∧
  select_route_with_context (route_request_new "m" 75) sample_candidates context_default =
  select_route_with_context (route_request_new "m" 75) (reverse sample_candidates) context_default.
Proof.
  split; [vm_compute; reflexivity|]. apply selection_order_independent.
  - vm_compute. repeat constructor; rewrite ?elem_of_cons, elem_of_nil; naive_solver.
  - symmetry. apply reverse_Permutation.
Defined.

Lemma pick_selected_elem request candidates context route :
  candidates_wf candidates →
  rd_selected (select_from_evaluated_candidates request candidates context) = Some route →
  ∃ e, e ∈ candidates ∧ is_selectable e = true ∧ route = selected_route_from_candidate e.
Proof.
  unfold select_from_evaluated_candidates. cbn. intros Hwf.
  destruct (pick_by_trace_affinity _ _) as [r|] eqn:Ht.
  - intros [= ->]. unfold pick_by_trace_affinity in Ht.
    destruct (tad_applied_channel_id _) as [id|]; [|done].
    apply fmap_Some in Ht as (e & [He Hs]%find_Some_elem & ->). bool_to_prop. eauto.
  - intros Hp. pose proof (pick_priority_best candidates (seed (rq_policy request)) Hwf) as H.
    rewrite Hp in H. naive_solver.
Qed.

Section snapshots.
Context (decision : RouteDecision).
Hypothesis Hid : rd_selected_channel_id decision = sr_channel_id <$> rd_selected decision.
Hypothesis Helem : ∀ route, rd_selected decision = Some route →
  ∃ e, e ∈ rd_candidates decision ∧ is_selectable e = true ∧ route = selected_route_from_candidate e.
Hypothesis Hids : NoDup ((λ e, channel_id (candidate e)) <$> rd_candidates decision).

Lemma snapshot_reasons :
  length (sm_filter_reasons (snapshot_summary (snapshot_from_decision decision))) =
  sm_filtered_count (snapshot_summary (snapshot_from_decision decision)).
Proof.
  clear Hid Helem Hids. cbn. induction (rd_candidates decision) as [|e l IH]; [done|]. cbn.
  unfold is_selectable at 1. destruct (filter_reason e); cbn; by rewrite IH.
Qed.

Lemma flagged_selected e :
  e ∈ rd_candidates decision →
  is_some_and_eq (rd_selected_channel_id decision) (channel_id (candidate e)) = true →
  is_selectable e = true ∧ rd_selected_channel_id decision = Some (channel_id (candidate e)).
Proof.
  rewrite Hid. intros He Hs. destruct (rd_selected decision) as [route|] eqn:Hr; [|done].
  destruct (Helem route eq_refl) as (e' & He' & Hs' & ->). cbn in *. bool_to_prop.
  assert (e = e') as ->; [|done]. by apply (fmap_NoDup_inj (λ e, channel_id (candidate e)) (rd_candidates decision)).
Qed.

Lemma snapshot_filtered sc :
  sc ∈ sn_candidates (snapshot_from_decision decision) →
  (sc_filtered sc = true ↔ is_Some (sc_filter_reason sc)) ∧ (sc_filtered sc = true ↔ sc_score sc = None) ∧
  (sc_selected sc = true → sc_filtered sc = false).
Proof.
  cbn. intros (e & -> & He)%list_elem_of_fmap. cbn.
  pose proof (flagged_selected e He) as Hflag. split_and!.
  - unfold is_selectable. destruct (filter_reason e); cbn; split; [eauto|done|done|by intros []].
  - by destruct (is_selectable e).
  - intros Hs. by destruct (Hflag Hs) as [-> _].
Qed.

Lemma snapshot_flagged :
  sc_channel_id <$> List.filter sc_selected (sn_candidates (snapshot_from_decision decision)) =
  option_list (rd_selected_channel_id decision).
Proof.
  cbn. rewrite Hid. destruct (rd_selected decision) as [route|] eqn:Hr; cbn.
  - destruct (Helem route eq_refl) as (e & He & _ & ->). clear Helem Hr Hid. cbn.
    induction (rd_candidates decision) as [|x l IH]; [by apply not_elem_of_nil in He|].
    cbn in Hids |- *. apply NoDup_cons in Hids as [Hx Hl]. apply elem_of_cons in He as [<-|He].
    + decide_refl. cbn. f_equal. rewrite filter_none; [done|].
      intros y (e' & -> & He')%list_elem_of_fmap. cbn. apply bool_decide_false.
      intros Heq. apply Hx. rewrite Heq. by apply (list_elem_of_fmap_2 (λ e, channel_id (candidate e))).
    + rewrite bool_decide_false; [by apply IH|]. intros Heq. apply Hx. rewrite <- Heq.
      by apply (list_elem_of_fmap_2 (λ e, channel_id (candidate e))).
  - clear. induction (rd_candidates decision) as [|x l IH]; [done|]. done.
Qed.

Lemma snapshot_score :
  is_Some (sm_selected_score_total (snapshot_summary (snapshot_from_decision decision))) ↔
  is_Some (rd_selected decision).
Proof.
  cbn. rewrite fmap_is_Some. split.
  - intros [score (x & Hx & _)%bind_Some]. apply find_Some_elem in Hx as [(e & -> & He)%list_elem_of_fmap Hs]. cbn in Hs.
    rewrite Hid in Hs. by destruct (rd_selected decision).
  - intros [route Hr]. destruct (Helem route Hr) as (e & He & Hsel & ->).
    destruct (find_is_Some sc_selected (snapshot_candidate (rd_selected_channel_id decision)
      (tad_previous_successful_channel_id (rd_trace_affinity decision)) <$> rd_candidates decision)) as [_ [x Hx]].
    { eexists. split; [by apply list_elem_of_fmap_2|]. cbn. rewrite Hid, Hr. cbn. by decide_refl. }
    rewrite Hx. apply find_Some_elem in Hx as [(e' & -> & He')%list_elem_of_fmap Hs].
    cbn in Hs |- *. destruct (flagged_selected e' He' Hs) as [-> _]. eauto.
Qed.
End snapshots.

(** The persisted snapshot is consistent with the decision. It lists every
    candidate; a candidate is filtered exactly when it carries a reason and
    exactly when it has no score, and the summary collects the reasons. With
    distinct channel ids the flagged candidates are the selected channel and
    nothing else, the flagged one is not filtered, and the summary has a score
    exactly when a route was selected. *)
Theorem snapshot_summary_consistent (request : RouteRequest) (candidates : list RouteCandidate)
    (context : RouteSelectionContext)
    (Hwf : route_candidates_wf candidates) (Hids : NoDup (channel_id <$> candidates)) :
  let decision := select_route_with_context request candidates context in
  let snapshot := snapshot_from_decision decision in
  let summary := snapshot_summary snapshot in
  sm_candidate_count summary = length candidates ∧
  length (sm_filter_reasons summary) = sm_filtered_count summary ∧
  (is_Some (sm_selected_score_total summary) ↔ is_Some (rd_selected decision)) ∧
  sc_channel_id <$> List.filter sc_selected (sn_candidates snapshot) =
    option_list (rd_selected_channel_id decision) ∧
  (∀ sc, sc ∈ sn_candidates snapshot →
    (sc_filtered sc = true ↔ is_Some (sc_filter_reason sc)) ∧
    (sc_filtered sc = true ↔ sc_score sc = None) ∧
    (sc_selected sc = true → sc_filtered sc = false)).
Proof.
  cbn zeta. pose proof (evaluated_ids candidates) as Hperm.
  assert (NoDup ((λ e, channel_id (candidate e)) <$>
    rd_candidates (select_route_with_context request candidates context))) as Hnd by (cbn; by rewrite Hperm).
  pose proof (λ route, pick_selected_elem request _ context route (evaluated_wf _ Hwf)) as Helem.
  split; [|split; [|split; [|split]]].
  - cbn. rewrite length_fmap. apply Permutation_length in Hperm. by rewrite !length_fmap in Hperm.
  - apply snapshot_reasons.
  - by apply snapshot_score.
  - by apply snapshot_flagged.
  - by apply snapshot_filtered.
Qed.

Lemma snapshot_summary_consistent_witness :
  let decision := select_route_with_context (route_request_new "m" 75) sample_candidates context_default in
  sm_candidate_count (snapshot_summary (snapshot_from_decision decision)) = 3%nat ∧
  sm_filter_reasons (snapshot_summary (snapshot_from_decision decision)) = [FilterUnhealthy] ∧
  is_Some (sm_selected_score_total (snapshot_summary (snapshot_from_decision decision))).
Proof.
  assert (NoDup (channel_id <$> sample_candidates)) as Hids
    by (vm_compute; repeat constructor; rewrite ?elem_of_cons, elem_of_nil; naive_solver).
  destruct (snapshot_summary_consistent (route_request_new "m" 75) sample_candidates context_default
    sample_candidates_wf Hids) as (Hn & _ & Hscore & _).
  split_and!; [exact Hn|vm_compute; reflexivity|]. apply Hscore. vm_compute. eexists. reflexivity.
Defined.
