(* ===== verification/RateLimit.v ===== *)
(** crates/routing/src/rate_limit.rs: rate-limit windows. Availability of a
    channel for a request, the token estimate a reservation is made for, and the
    plan of acquiring and releasing a reservation. *)

From stdpp Require Import relations.
From S2P Require Export Selection.

#[local] Open Scope string_scope.
#[local] Open Scope list_scope.
#[local] Open Scope Z_scope.

(** ** Data *)

Inductive RateLimitDimension : Type := RequestsPerMinute | TokensPerMinute | Concurrency.

Inductive RateLimitDimensionStatus : Type :=
  DimUnlimited | DimWindowMissing | DimAvailable | DimExceeded | DimInvalidLimit | DimInvalidRequired.

#[export] Instance RateLimitDimension_eq_dec : EqDecision RateLimitDimension.
Proof. solve_decision. Defined.
#[export] Instance RateLimitDimensionStatus_eq_dec : EqDecision RateLimitDimensionStatus.
Proof. solve_decision. Defined.

Record RateLimitWindow : Type := mkRateLimitWindow {
  w_limit : option Z;
  w_used : option Z;
  w_required : Z;
}.

Definition window_unlimited : RateLimitWindow := mkRateLimitWindow None None 0.
Definition window_limited (limit used required : Z) : RateLimitWindow :=
  mkRateLimitWindow (Some limit) (Some used) required.
Definition window_missing (limit required : Z) : RateLimitWindow :=
  mkRateLimitWindow (Some limit) None required.

Record RateLimitAvailabilityInput : Type := mkRateLimitAvailabilityInput {
  ai_requests_per_minute : RateLimitWindow;
  ai_tokens_per_minute : RateLimitWindow;
  ai_concurrency : RateLimitWindow;
}.

Record RateLimitDimensionSummary : Type := mkRateLimitDimensionSummary {
  ds_dimension : RateLimitDimension;
  ds_status : RateLimitDimensionStatus;
  ds_selectable : bool;
  ds_limit : option Z;
  ds_used : Z;
  ds_required : Z;
  ds_remaining : option Z;
  ds_window_present : bool;
  ds_sanitized_negative_used : bool;
}.

Record RateLimitAvailability : Type := mkRateLimitAvailability {
  av_selectable : bool;
  av_filter_reason : option CandidateFilterReason;
  av_blocking_dimensions : list RateLimitDimension;
  av_dimensions : list RateLimitDimensionSummary;
}.

Definition RATE_LIMIT_DEFAULT_TPM_FALLBACK_TOKENS : Z := 1024.
Definition RATE_LIMIT_MIN_TPM_RESERVATION_TOKENS : Z := 1.

Inductive RateLimitTpmEstimateSource : Type :=
| TotalTokens | PromptAndCompletion | PromptAndMaxCompletion
| PartialEstimateWithConservativeFallback | ConservativeFallback.

Record RateLimitTpmEstimateInput : Type := mkRateLimitTpmEstimateInput {
  ti_prompt_tokens : option Z;
  ti_completion_tokens : option Z;
  ti_max_completion_tokens : option Z;
  ti_total_tokens : option Z;
  ti_conservative_fallback_tokens : Z;
}.

Definition tpm_estimate_input_default : RateLimitTpmEstimateInput :=
  mkRateLimitTpmEstimateInput None None None None RATE_LIMIT_DEFAULT_TPM_FALLBACK_TOKENS.

Record RateLimitTpmReservationEstimate : Type := mkRateLimitTpmReservationEstimate {
  te_required_tokens : Z;
  te_source : RateLimitTpmEstimateSource;
  te_prompt_tokens : option Z;
  te_completion_tokens : option Z;
  te_max_completion_tokens : option Z;
  te_completion_reservation_tokens : option Z;
  te_fallback_tokens : Z;
  te_used_conservative_fallback : bool;
  te_sanitized_negative_estimate : bool;
  te_clamped_to_i64_max : bool;
  te_body_material_in_output : bool;
}.

Definition required_tokens_i64 (self : RateLimitTpmReservationEstimate) : Z :=
  Z.min (te_required_tokens self) i64_max.

Inductive RateLimitReservationOperation : Type := Acquire | Release.

Inductive RateLimitReservationStatus : Type := Acquired | ReservationRejected | Released | ReleaseNoop.

Inductive RateLimitCounterUpdate : Type := NoUpdate | Increment | Decrement.

#[export] Instance RateLimitReservationStatus_eq_dec : EqDecision RateLimitReservationStatus.
Proof. solve_decision. Defined.
#[export] Instance RateLimitCounterUpdate_eq_dec : EqDecision RateLimitCounterUpdate.
Proof. solve_decision. Defined.

Record RateLimitCounterWindow : Type := mkRateLimitCounterWindow {
  cw_limit : option Z;
  cw_used : option Z;
}.

Definition counter_unlimited : RateLimitCounterWindow := mkRateLimitCounterWindow None None.
Definition counter_limited (limit used : Z) : RateLimitCounterWindow :=
  mkRateLimitCounterWindow (Some limit) (Some used).
Definition counter_missing (limit : Z) : RateLimitCounterWindow := mkRateLimitCounterWindow (Some limit) None.

Record RateLimitRequiredCapacity : Type := mkRateLimitRequiredCapacity {
  rc_requests_per_minute : Z;
  rc_tokens_per_minute : Z;
  rc_concurrency : Z;
}.

Definition from_tpm_estimate (requests_per_minute : Z) (tpm_estimate : RateLimitTpmReservationEstimate)
    (concurrency : Z) : RateLimitRequiredCapacity :=
  mkRateLimitRequiredCapacity requests_per_minute (required_tokens_i64 tpm_estimate) concurrency.

Record RateLimitReservationInput : Type := mkRateLimitReservationInput {
  ri_requests_per_minute : RateLimitCounterWindow;
  ri_tokens_per_minute : RateLimitCounterWindow;
  ri_concurrency : RateLimitCounterWindow;
  ri_required : RateLimitRequiredCapacity;
  ri_operation : RateLimitReservationOperation;
  ri_reservation_acquired : bool;
}.

Definition reservation_acquire (rpm tpm concurrency : RateLimitCounterWindow)
    (required : RateLimitRequiredCapacity) : RateLimitReservationInput :=
  mkRateLimitReservationInput rpm tpm concurrency required Acquire false.

Definition reservation_release (rpm tpm concurrency : RateLimitCounterWindow)
    (required : RateLimitRequiredCapacity) (reservation_acquired : bool) : RateLimitReservationInput :=
  mkRateLimitReservationInput rpm tpm concurrency required Release reservation_acquired.

Record RateLimitReservationDimensionPlan : Type := mkRateLimitReservationDimensionPlan {
  dp_dimension : RateLimitDimension;
  dp_status : RateLimitDimensionStatus;
  dp_selectable_for_acquire : bool;
  dp_limit : option Z;
  dp_used_before : Z;
  dp_required : Z;
  dp_used_after : Z;
  dp_remaining_before : option Z;
  dp_remaining_after : option Z;
  dp_window_present : bool;
  dp_sanitized_negative_used : bool;
  dp_counter_update : RateLimitCounterUpdate;
  dp_saturated_release : bool;
}.

Record RateLimitReservationPlan : Type := mkRateLimitReservationPlan {
  rp_operation : RateLimitReservationOperation;
  rp_status : RateLimitReservationStatus;
  rp_filter_reason : option CandidateFilterReason;
  rp_blocking_dimensions : list RateLimitDimension;
  rp_dimensions : list RateLimitReservationDimensionPlan;
  rp_conservative_reject : bool;
  rp_counter_updates_planned : nat;
  rp_window_material_in_output : bool;
}.

(** ** Availability *)

(** [non_negative_u64]; an [i64] that is not negative casts to itself. *)
Definition non_negative_u64 (value : Z) : option Z := if 0 <=? value then Some value else None.

(** [used.unwrap_or_default().max(0) as u64]. *)
Definition used_or_zero (used : option Z) : Z := Z.max (default 0 used) 0.

(** [used.is_some_and(|used| used < 0)]. *)
Definition used_is_negative (used : option Z) : bool :=
  match used with Some used => used <? 0 | None => false end.

Definition evaluate_rate_limit_dimension (dimension : RateLimitDimension) (window : RateLimitWindow)
    : RateLimitDimensionSummary :=
  let required := Z.max (w_required window) 0 in
  if w_required window <? 0 then
    {| ds_dimension := dimension; ds_status := DimInvalidRequired; ds_selectable := false;
       ds_limit := w_limit window ≫= non_negative_u64; ds_used := used_or_zero (w_used window);
       ds_required := required; ds_remaining := None; ds_window_present := is_some (w_used window);
       ds_sanitized_negative_used := used_is_negative (w_used window) |}
  else
    match w_limit window with
    | None =>
        {| ds_dimension := dimension; ds_status := DimUnlimited; ds_selectable := true;
           ds_limit := None; ds_used := used_or_zero (w_used window);
           ds_required := required; ds_remaining := None; ds_window_present := is_some (w_used window);
           ds_sanitized_negative_used := used_is_negative (w_used window) |}
    | Some raw_limit =>
        if raw_limit <? 0 then
          {| ds_dimension := dimension; ds_status := DimInvalidLimit; ds_selectable := false;
             ds_limit := None; ds_used := used_or_zero (w_used window);
             ds_required := required; ds_remaining := None; ds_window_present := is_some (w_used window);
             ds_sanitized_negative_used := used_is_negative (w_used window) |}
        else
          match w_used window with
          | None =>
              {| ds_dimension := dimension; ds_status := DimWindowMissing; ds_selectable := false;
                 ds_limit := Some raw_limit; ds_used := 0; ds_required := required;
                 ds_remaining := Some raw_limit; ds_window_present := false;
                 ds_sanitized_negative_used := false |}
          | Some raw_used =>
              let used := Z.max raw_used 0 in
              let remaining := saturating_sub_u64 raw_limit used in
              let selectable := (used <=? raw_limit) && (required <=? remaining) in
              {| ds_dimension := dimension; ds_status := if selectable then DimAvailable else DimExceeded;
                 ds_selectable := selectable; ds_limit := Some raw_limit; ds_used := used;
                 ds_required := required; ds_remaining := Some remaining; ds_window_present := true;
                 ds_sanitized_negative_used := raw_used <? 0 |}
          end
    end.

Definition evaluate_rate_limit_availability (input : RateLimitAvailabilityInput) : RateLimitAvailability :=
  let dimensions := [
    evaluate_rate_limit_dimension RequestsPerMinute (ai_requests_per_minute input);
    evaluate_rate_limit_dimension TokensPerMinute (ai_tokens_per_minute input);
    evaluate_rate_limit_dimension Concurrency (ai_concurrency input) ] in
  let blocking_dimensions := map ds_dimension (List.filter (λ d, negb (ds_selectable d)) dimensions) in
  let selectable := match blocking_dimensions with [] => true | _ => false end in
  {|
    av_selectable := selectable;
    av_filter_reason := if negb selectable then Some FilterRateLimitExceeded else None;
    av_blocking_dimensions := blocking_dimensions;
    av_dimensions := dimensions;
  |}.

Definition apply_rate_limit_availability_to_candidate (candidate : RouteCandidate)
    (availability : RateLimitAvailability) : RouteCandidate :=
  with_rate_limit_available candidate (av_selectable availability).

(** ** The token estimate *)

Definition sanitize_optional_token_estimate (value : option Z) : option Z * bool :=
  match value with
  | Some value => if 0 <=? value then (Some value, false) else (None, true)
  | None => (None, false)
  end.

Definition sanitize_conservative_fallback_tokens (value : Z) : Z * bool :=
  if 0 <? value then (value, false) else (RATE_LIMIT_DEFAULT_TPM_FALLBACK_TOKENS, true).

Definition completion_reservation_tokens (completion_tokens max_completion_tokens : option Z) : option Z :=
  match completion_tokens, max_completion_tokens with
  | Some completion_tokens, Some max_completion_tokens => Some (Z.max completion_tokens max_completion_tokens)
  | Some completion_tokens, None => Some completion_tokens
  | None, Some max_completion_tokens => Some max_completion_tokens
  | None, None => None
  end.

Definition estimate_tpm_reservation (input : RateLimitTpmEstimateInput) : RateLimitTpmReservationEstimate :=
  let '(prompt_tokens, prompt_negative) := sanitize_optional_token_estimate (ti_prompt_tokens input) in
  let '(completion_tokens, completion_negative) :=
    sanitize_optional_token_estimate (ti_completion_tokens input) in
  let '(max_completion_tokens, max_completion_negative) :=
    sanitize_optional_token_estimate (ti_max_completion_tokens input) in
  let '(total_tokens, total_negative) := sanitize_optional_token_estimate (ti_total_tokens input) in
  let '(fallback_tokens, fallback_sanitized) :=
    sanitize_conservative_fallback_tokens (ti_conservative_fallback_tokens input) in
  let completion_reservation := completion_reservation_tokens completion_tokens max_completion_tokens in
  let '(required_tokens, source, used_conservative_fallback) :=
    match total_tokens with
    | Some total_tokens =>
        (Z.max total_tokens RATE_LIMIT_MIN_TPM_RESERVATION_TOKENS, TotalTokens, false)
    | None =>
        match prompt_tokens, completion_reservation with
        | Some prompt, Some reservation =>
            let max_completion_drives_reservation :=
              match completion_tokens, max_completion_tokens with
              | Some completion, Some max_completion => completion <? max_completion
              | None, Some _ => true
              | _, _ => false
              end in
            (Z.max (saturating_add_u64 prompt reservation) RATE_LIMIT_MIN_TPM_RESERVATION_TOKENS,
             if max_completion_drives_reservation then PromptAndMaxCompletion else PromptAndCompletion,
             false)
        | None, None =>
            (Z.max fallback_tokens RATE_LIMIT_MIN_TPM_RESERVATION_TOKENS, ConservativeFallback, true)
        | _, _ =>
            (Z.max (saturating_add_u64 (default fallback_tokens prompt_tokens)
                      (default fallback_tokens completion_reservation))
               RATE_LIMIT_MIN_TPM_RESERVATION_TOKENS,
             PartialEstimateWithConservativeFallback, true)
        end
    end in
  {|
    te_required_tokens := required_tokens;
    te_source := source;
    te_prompt_tokens := prompt_tokens;
    te_completion_tokens := completion_tokens;
    te_max_completion_tokens := max_completion_tokens;
    te_completion_reservation_tokens := completion_reservation;
    te_fallback_tokens := fallback_tokens;
    te_used_conservative_fallback := used_conservative_fallback;
    te_sanitized_negative_estimate :=
      prompt_negative || completion_negative || max_completion_negative || total_negative || fallback_sanitized;
    te_clamped_to_i64_max := i64_max <? required_tokens;
    te_body_material_in_output := false;
  |}.

(** ** Reservations *)

Definition reservation_window (window : RateLimitCounterWindow) (required : Z) : RateLimitWindow :=
  mkRateLimitWindow (cw_limit window) (cw_used window) required.

Definition reservation_availability_input (input : RateLimitReservationInput) : RateLimitAvailabilityInput :=
  mkRateLimitAvailabilityInput
    (reservation_window (ri_requests_per_minute input) (rc_requests_per_minute (ri_required input)))
    (reservation_window (ri_tokens_per_minute input) (rc_tokens_per_minute (ri_required input)))
    (reservation_window (ri_concurrency input) (rc_concurrency (ri_required input))).

Definition counter_update_for_dimension (operation : RateLimitReservationOperation)
    (reservation_status : RateLimitReservationStatus) (summary : RateLimitDimensionSummary)
    : RateLimitCounterUpdate :=
  if negb (is_some (ds_limit summary)) || negb (ds_window_present summary) || (ds_required summary =? 0)
  then NoUpdate
  else
    match operation, reservation_status with
    | Acquire, Acquired => Increment
    | Release, Released => Decrement
    | _, _ => NoUpdate
    end.

Definition reservation_dimension_plan (operation : RateLimitReservationOperation)
    (reservation_status : RateLimitReservationStatus) (summary : RateLimitDimensionSummary)
    : RateLimitReservationDimensionPlan :=
  let counter_update := counter_update_for_dimension operation reservation_status summary in
  let used_after :=
    match counter_update with
    | Increment => saturating_add_u64 (ds_used summary) (ds_required summary)
    | Decrement => saturating_sub_u64 (ds_used summary) (ds_required summary)
    | NoUpdate => ds_used summary
    end in
  {|
    dp_dimension := ds_dimension summary;
    dp_status := ds_status summary;
    dp_selectable_for_acquire := ds_selectable summary;
    dp_limit := ds_limit summary;
    dp_used_before := ds_used summary;
    dp_required := ds_required summary;
    dp_used_after := used_after;
    dp_remaining_before := ds_remaining summary;
    dp_remaining_after := (λ limit, saturating_sub_u64 limit used_after) <$> ds_limit summary;
    dp_window_present := ds_window_present summary;
    dp_sanitized_negative_used := ds_sanitized_negative_used summary;
    dp_counter_update := counter_update;
    dp_saturated_release :=
      bool_decide (counter_update = Decrement) && (ds_used summary <? ds_required summary);
  |}.

Definition plan_rate_limit_reservation (input : RateLimitReservationInput) : RateLimitReservationPlan :=
  let availability := evaluate_rate_limit_availability (reservation_availability_input input) in
  let invalid_required :=
    List.existsb (λ d, bool_decide (ds_status d = DimInvalidRequired)) (av_dimensions availability) in
  let status :=
    match ri_operation input with
    | Acquire => if av_selectable availability then Acquired else ReservationRejected
    | Release =>
        if negb (ri_reservation_acquired input) then ReleaseNoop
        else if invalid_required then ReservationRejected
        else Released
    end in
  let blocking_dimensions :=
    match status with
    | ReservationRejected =>
        map ds_dimension (List.filter (λ d, negb (ds_selectable d)) (av_dimensions availability))
    | Acquired | Released | ReleaseNoop => []
    end in
  let conservative_reject :=
    bool_decide (status = ReservationRejected)
    && List.existsb (λ d, bool_decide (ds_status d = DimWindowMissing)) (av_dimensions availability) in
  let dimensions := map (reservation_dimension_plan (ri_operation input) status) (av_dimensions availability) in
  {|
    rp_operation := ri_operation input;
    rp_status := status;
    rp_filter_reason := if bool_decide (status = ReservationRejected) then Some FilterRateLimitExceeded else None;
    rp_blocking_dimensions := blocking_dimensions;
    rp_dimensions := dimensions;
    rp_conservative_reject := conservative_reject;
    rp_counter_updates_planned :=
      length (List.filter (λ d, negb (bool_decide (dp_counter_update d = NoUpdate))) dimensions);
    rp_window_material_in_output := false;
  |}.

(** ** One window *)

(** A window admits its requirement: the requirement is not negative and, when
    there is a limit, the counter is known and stays within it. *)
Definition window_fits (window : RateLimitWindow) : Prop :=
  0 <= w_required window ∧
  match w_limit window with
  | None => True
  | Some limit =>
      0 <= limit ∧ ∃ used, w_used window = Some used ∧ Z.max used 0 + w_required window <= limit
  end.

(** Limits are [i64] values. *)
Definition window_wf (window : RateLimitWindow) : Prop :=
  match w_limit window with Some limit => limit <= i64_max | None => True end.

Lemma dimension_selectable_iff dimension window :
  ds_selectable (evaluate_rate_limit_dimension dimension window) = true ↔ window_fits window.
Proof.
  unfold evaluate_rate_limit_dimension, window_fits, saturating_sub_u64.
  destruct (Z.ltb_spec (w_required window) 0); cbn; [split; [done|lia]|].
  destruct (w_limit window) as [limit|]; cbn; [|done].
  destruct (Z.ltb_spec limit 0); cbn; [split; [done|lia]|].
  destruct (w_used window) as [used|]; cbn; [|naive_solver].
  rewrite andb_true_iff, !Z.leb_le. split.
  - intros. split_and!; [lia|lia|]. exists used. split; [done|lia].
  - intros (_ & _ & ? & [= <-] & ?). lia.
Qed.

(** The summary of a window that is not negative. *)
Lemma dimension_summary dimension window :
  let summary := evaluate_rate_limit_dimension dimension window in
  0 <= w_required window →
  ds_dimension summary = dimension ∧ ds_required summary = w_required window ∧
  ds_used summary = used_or_zero (w_used window) ∧
  ds_status summary ≠ DimInvalidRequired ∧
  ds_limit summary = w_limit window ≫= non_negative_u64 ∧
  ds_window_present summary = is_some (w_used window).
Proof.
  cbn zeta. intros Hr. unfold evaluate_rate_limit_dimension, non_negative_u64.
  rewrite (proj2 (Z.ltb_ge _ _) Hr).
  destruct (w_limit window) as [limit|]; [|cbn; split_and!; done || lia].
  destruct (Z.ltb_spec limit 0); cbn.
  { rewrite (proj2 (Z.leb_gt _ _)) by lia. split_and!; done || lia. }
  rewrite (proj2 (Z.leb_le _ _)) by lia.
  destruct (w_used window); cbn; [|split_and!; done || lia].
  destruct (_ && _); split_and!; done || lia.
Qed.

Lemma availability_selectable_iff input :
  av_selectable (evaluate_rate_limit_availability input) = true ↔
  window_fits (ai_requests_per_minute input) ∧ window_fits (ai_tokens_per_minute input) ∧
  window_fits (ai_concurrency input).
Proof.
  rewrite <-(dimension_selectable_iff RequestsPerMinute), <-(dimension_selectable_iff TokensPerMinute),
    <-(dimension_selectable_iff Concurrency).
  unfold evaluate_rate_limit_availability. cbn -[evaluate_rate_limit_dimension].
  destruct (ds_selectable (evaluate_rate_limit_dimension RequestsPerMinute _)),
    (ds_selectable (evaluate_rate_limit_dimension TokensPerMinute _)),
    (ds_selectable (evaluate_rate_limit_dimension Concurrency _)); cbn; naive_solver.
Qed.

(** What an acquired reservation does to one dimension. *)
Lemma acquired_dimension dimension window :
  window_wf window → window_fits window →
  let plan := reservation_dimension_plan Acquire Acquired (evaluate_rate_limit_dimension dimension window) in
  dp_required plan = w_required window ∧ dp_used_before plan = used_or_zero (w_used window) ∧
  match w_limit window with
  | None => dp_used_after plan = dp_used_before plan
  | Some limit => dp_used_after plan = dp_used_before plan + w_required window ∧ dp_used_after plan <= limit
  end.
Proof.
  intros Hwf [Hr Hfit]. cbn zeta.
  destruct (dimension_summary dimension window Hr) as (_ & Hreq & Hused & _ & Hlim & Hpres).
  unfold reservation_dimension_plan, counter_update_for_dimension. cbn [dp_required dp_used_before dp_used_after].
  rewrite Hreq, Hused, Hlim, Hpres. split_and!; [done|done|]. unfold window_wf in Hwf.
  destruct (w_limit window) as [limit|]; [|done]. destruct Hfit as (Hl & used & -> & Hle). cbn.
  unfold non_negative_u64, used_or_zero. rewrite (proj2 (Z.leb_le _ _) Hl). cbn.
  destruct (Z.eqb_spec (w_required window) 0); [lia|]. unfold saturating_add_u64. width_lia.
Qed.

(** What a release does to one limited dimension. *)
Lemma released_dimension dimension limit used required :
  0 <= required <= used → 0 <= limit →
  dp_used_after (reservation_dimension_plan Release Released
    (evaluate_rate_limit_dimension dimension (mkRateLimitWindow (Some limit) (Some used) required)))
  = used - required.
Proof.
  intros Hr Hl.
  destruct (dimension_summary dimension (mkRateLimitWindow (Some limit) (Some used) required) (proj1 Hr))
    as (_ & Hreq & Hused & _ & Hlim & Hpres).
  unfold reservation_dimension_plan, counter_update_for_dimension. cbn [dp_used_after].
  rewrite Hreq, Hused, Hlim, Hpres. unfold used_or_zero, non_negative_u64. cbn.
  rewrite (proj2 (Z.leb_le _ _) Hl). cbn.
  destruct (Z.eqb_spec required 0); [lia|]. unfold saturating_sub_u64. lia.
Qed.

(** ** Properties of a reservation plan *)

Definition input_windows (input : RateLimitReservationInput) : list RateLimitWindow :=
  let i := reservation_availability_input input in
  [ai_requests_per_minute i; ai_tokens_per_minute i; ai_concurrency i].

Lemma acquire_status input :
  ri_operation input = Acquire →
  rp_status (plan_rate_limit_reservation input) =
    if av_selectable (evaluate_rate_limit_availability (reservation_availability_input input))
    then Acquired else ReservationRejected.
Proof. intros H. unfold plan_rate_limit_reservation. cbn [rp_status]. by rewrite H. Qed.

Lemma rejected_dimension operation summary :
  dp_used_after (reservation_dimension_plan operation ReservationRejected summary) =
  dp_used_before (reservation_dimension_plan operation ReservationRejected summary) ∧
  dp_counter_update (reservation_dimension_plan operation ReservationRejected summary) = NoUpdate.
Proof.
  unfold reservation_dimension_plan, counter_update_for_dimension. cbn.
  destruct (_ || _ || _); [done|]. by destruct operation.
Qed.

(** An acquire succeeds exactly when every dimension admits the request:
    the requirement is not negative and, where a limit exists, it is not
    negative, the counter is known, and used plus required stays within it. An
    acquired reservation adds the requirement exactly to each limited counter,
    without saturation and never beyond the limit; a rejected one plans no
    counter update at all. *)
Theorem acquire_respects_limits (input : RateLimitReservationInput)
    (Hop : ri_operation input = Acquire) (Hwf : Forall window_wf (input_windows input)) :
  let plan := plan_rate_limit_reservation input in
  (rp_status plan = Acquired ↔ Forall window_fits (input_windows input)) ∧
  (rp_status plan = Acquired →
    Forall2 (λ window d,
      dp_required d = w_required window ∧ dp_used_before d = used_or_zero (w_used window) ∧
      match w_limit window with
      | None => dp_used_after d = dp_used_before d
      | Some limit => dp_used_after d = dp_used_before d + w_required window ∧ dp_used_after d <= limit
      end) (input_windows input) (rp_dimensions plan)) ∧
  (rp_status plan ≠ Acquired →
    rp_counter_updates_planned plan = 0%nat ∧
    Forall (λ d, dp_used_after d = dp_used_before d) (rp_dimensions plan)).
Proof.
  cbn zeta. rewrite acquire_status by done.
  set (av := evaluate_rate_limit_availability (reservation_availability_input input)).
  assert (av_selectable av = true ↔ Forall window_fits (input_windows input)) as Hsel.
  { unfold av. rewrite availability_selectable_iff. unfold input_windows.
    rewrite !Forall_cons, Forall_nil. tauto. }
  assert (rp_dimensions (plan_rate_limit_reservation input) =
    map (reservation_dimension_plan Acquire (if av_selectable av then Acquired else ReservationRejected))
      (av_dimensions av)) as Hdims.
  { unfold plan_rate_limit_reservation. cbn [rp_dimensions]. fold av. by rewrite Hop. }
  split_and!.
  - rewrite <-Hsel. destruct (av_selectable av); naive_solver.
  - destruct (av_selectable av); [|done]. intros _. rewrite Hdims.
    pose proof (proj1 Hsel eq_refl) as HF. unfold input_windows in *.
    rewrite !Forall_cons in HF, Hwf. destruct HF as (? & ? & ? & _), Hwf as (? & ? & ? & _).
    unfold av. cbn [map evaluate_rate_limit_availability av_dimensions].
    repeat (constructor; [by apply acquired_dimension|]). constructor.
  - intros Hne. destruct (av_selectable av); [done|].
    change (rp_counter_updates_planned (plan_rate_limit_reservation input)) with
      (length (List.filter (λ d, negb (bool_decide (dp_counter_update d = NoUpdate)))
        (rp_dimensions (plan_rate_limit_reservation input)))).
    rewrite Hdims. split.
    + rewrite (filter_const _ false); [done|]. intros d (s & -> & _)%list_elem_of_fmap.
      by rewrite (proj2 (rejected_dimension Acquire s)).
    + apply Forall_map, Forall_true. intros s. apply (rejected_dimension Acquire s).
Qed.

Lemma acquire_respects_limits_witness :
  let input := reservation_acquire (counter_limited 10 4) (counter_limited 1000 950) counter_unlimited
                 (mkRateLimitRequiredCapacity 1 60 1) in
  rp_status (plan_rate_limit_reservation input) = ReservationRejected ∧
  rp_counter_updates_planned (plan_rate_limit_reservation input) = 0%nat.
Proof.
  split; [vm_compute; reflexivity|].
  apply (acquire_respects_limits (reservation_acquire (counter_limited 10 4) (counter_limited 1000 950)
    counter_unlimited (mkRateLimitRequiredCapacity 1 60 1))); [reflexivity| |vm_compute; discriminate].
  repeat constructor; vm_compute; discriminate.
Defined.

(** ** Sequences of reservations

    The counters of a channel, the reservations currently held on it, and the
    steps that follow a planned acquire or the release of a held reservation. *)

Record rate_counters : Type := mkRateCounters { ct_rpm : Z; ct_tpm : Z; ct_concurrency : Z }.

Record rate_limits : Type := mkRateLimits { lm_rpm : option Z; lm_tpm : option Z; lm_concurrency : option Z }.

Definition reservation_plan_for (limits : rate_limits) (counters : rate_counters)
    (operation : RateLimitReservationOperation) (required : RateLimitRequiredCapacity) (acquired : bool)
    : RateLimitReservationPlan :=
  plan_rate_limit_reservation (mkRateLimitReservationInput
    (mkRateLimitCounterWindow (lm_rpm limits) (Some (ct_rpm counters)))
    (mkRateLimitCounterWindow (lm_tpm limits) (Some (ct_tpm counters)))
    (mkRateLimitCounterWindow (lm_concurrency limits) (Some (ct_concurrency counters)))
    required operation acquired).

Definition counters_after (plan : RateLimitReservationPlan) : rate_counters :=
  match map dp_used_after (rp_dimensions plan) with
  | [rpm; tpm; concurrency] => mkRateCounters rpm tpm concurrency
  | _ => mkRateCounters 0 0 0
  end.

Definition reservation_state : Type := rate_counters * list RateLimitRequiredCapacity.

Inductive reservation_step (limits : rate_limits) : reservation_state → reservation_state → Prop :=
| step_acquire counters held required :
    rp_status (reservation_plan_for limits counters Acquire required false) = Acquired →
    reservation_step limits (counters, held)
      (counters_after (reservation_plan_for limits counters Acquire required false), required :: held)
| step_release counters held1 required held2 :
    reservation_step limits (counters, held1 ++ required :: held2)
      (counters_after (reservation_plan_for limits counters Release required true), held1 ++ held2).

Definition held_sum (f : RateLimitRequiredCapacity → Z) (held : list RateLimitRequiredCapacity) : Z :=
  foldr (λ required total, f required + total) 0 held.

Definition dimension_ok (limit : option Z) (counter : Z) (f : RateLimitRequiredCapacity → Z)
    (held : list RateLimitRequiredCapacity) : Prop :=
  match limit with Some l => counter = held_sum f held ∧ counter <= l | None => True end.

Definition limit_wf (limit : option Z) : Prop :=
  match limit with Some l => 0 <= l <= i64_max | None => True end.

Definition capacity_ok (required : RateLimitRequiredCapacity) : Prop :=
  0 <= rc_requests_per_minute required ∧ 0 <= rc_tokens_per_minute required ∧ 0 <= rc_concurrency required.

Record reservation_inv (limits : rate_limits) (state : reservation_state) : Prop := {
  ri_held : Forall capacity_ok state.2;
  ri_rpm : dimension_ok (lm_rpm limits) (ct_rpm state.1) rc_requests_per_minute state.2;
  ri_tpm : dimension_ok (lm_tpm limits) (ct_tpm state.1) rc_tokens_per_minute state.2;
  ri_conc : dimension_ok (lm_concurrency limits) (ct_concurrency state.1) rc_concurrency state.2;
}.

Lemma held_sum_app f held1 held2 : held_sum f (held1 ++ held2) = held_sum f held1 + held_sum f held2.
Proof. unfold held_sum. induction held1; cbn; lia. Qed.

Lemma held_sum_cons f required held : held_sum f (required :: held) = f required + held_sum f held.
Proof. done. Qed.

Lemma held_sum_nonneg f held : Forall (λ required, 0 <= f required) held → 0 <= held_sum f held.
Proof. unfold held_sum. induction 1; cbn; lia. Qed.

(** One dimension of an acquire and of a release. *)
Lemma dimension_ok_acquire dimension limit counter f held required :
  limit_wf limit → 0 <= held_sum f held → dimension_ok limit counter f held →
  window_fits (mkRateLimitWindow limit (Some counter) (f required)) →
  dimension_ok limit
    (dp_used_after (reservation_dimension_plan Acquire Acquired
       (evaluate_rate_limit_dimension dimension (mkRateLimitWindow limit (Some counter) (f required)))))
    f (required :: held).
Proof.
  intros Hwf H0 Hok Hfit. assert (window_wf (mkRateLimitWindow limit (Some counter) (f required))) as Hw.
  { unfold window_wf. cbn. destruct limit; cbn in *; [lia|done]. }
  destruct (acquired_dimension dimension _ Hw Hfit) as (_ & Hb & Hafter).
  cbn [w_limit w_required w_used] in Hb, Hafter. destruct limit as [l|]; cbn [dimension_ok] in *; [|done]. rewrite held_sum_cons.
  destruct Hafter as [-> ?]. rewrite Hb in *. unfold used_or_zero in *. cbn in *. lia.
Qed.

Lemma dimension_ok_release dimension limit counter f held1 required held2 :
  limit_wf limit → 0 <= f required → 0 <= held_sum f held1 → 0 <= held_sum f held2 →
  dimension_ok limit counter f (held1 ++ required :: held2) →
  dimension_ok limit
    (dp_used_after (reservation_dimension_plan Release Released
       (evaluate_rate_limit_dimension dimension (mkRateLimitWindow limit (Some counter) (f required)))))
    f (held1 ++ held2).
Proof.
  intros Hwf Hr H1 H2. destruct limit as [l|]; cbn [dimension_ok limit_wf] in *; [|done].
  rewrite !held_sum_app, held_sum_cons. intros [Hc Hle]. rewrite released_dimension by lia. lia.
Qed.

Lemma capacity_sums held :
  Forall capacity_ok held →
  0 <= held_sum rc_requests_per_minute held ∧ 0 <= held_sum rc_tokens_per_minute held ∧
  0 <= held_sum rc_concurrency held.
Proof.
  intros HF. split_and!; apply held_sum_nonneg; eapply Forall_impl; try exact HF; intros ? (? & ? & ?); done.
Qed.

(** The plan of a release whose requirements are not negative. *)
Lemma release_status limits counters required :
  capacity_ok required →
  rp_status (reservation_plan_for limits counters Release required true) = Released.
Proof.
  intros (H1 & H2 & H3). unfold reservation_plan_for, plan_rate_limit_reservation.
  cbn -[evaluate_rate_limit_dimension].
  pose proof (dimension_summary RequestsPerMinute
    (mkRateLimitWindow (lm_rpm limits) (Some (ct_rpm counters)) (rc_requests_per_minute required)) H1)
    as (_ & _ & _ & Hs1 & _).
  pose proof (dimension_summary TokensPerMinute
    (mkRateLimitWindow (lm_tpm limits) (Some (ct_tpm counters)) (rc_tokens_per_minute required)) H2)
    as (_ & _ & _ & Hs2 & _).
  pose proof (dimension_summary Concurrency
    (mkRateLimitWindow (lm_concurrency limits) (Some (ct_concurrency counters)) (rc_concurrency required)) H3)
    as (_ & _ & _ & Hs3 & _).
  unfold reservation_window. cbn [cw_limit cw_used]. by rewrite !bool_decide_false by done.
Qed.

(** The counters after a plan, dimension by dimension. *)
Lemma counters_after_eq limits counters operation required acquired status :
  rp_status (reservation_plan_for limits counters operation required acquired) = status →
  counters_after (reservation_plan_for limits counters operation required acquired) =
  mkRateCounters
    (dp_used_after (reservation_dimension_plan operation status (evaluate_rate_limit_dimension RequestsPerMinute
      (mkRateLimitWindow (lm_rpm limits) (Some (ct_rpm counters)) (rc_requests_per_minute required)))))
    (dp_used_after (reservation_dimension_plan operation status (evaluate_rate_limit_dimension TokensPerMinute
      (mkRateLimitWindow (lm_tpm limits) (Some (ct_tpm counters)) (rc_tokens_per_minute required)))))
    (dp_used_after (reservation_dimension_plan operation status (evaluate_rate_limit_dimension Concurrency
      (mkRateLimitWindow (lm_concurrency limits) (Some (ct_concurrency counters)) (rc_concurrency required))))).
Proof. by intros <-. Qed.

Lemma reservation_step_inv limits state state' :
  limit_wf (lm_rpm limits) → limit_wf (lm_tpm limits) → limit_wf (lm_concurrency limits) →
  reservation_inv limits state → reservation_step limits state state' → reservation_inv limits state'.
Proof.
  intros Hl1 Hl2 Hl3 Hinv Hstep. destruct Hstep as [counters held required Hst|counters held1 required held2].
  - destruct Hinv as [Hh H1 H2 H3]; cbn [fst snd] in *. destruct (capacity_sums held Hh) as (? & ? & ?).
    pose proof Hst as Hsel. unfold reservation_plan_for in Hsel. rewrite acquire_status in Hsel by done.
    destruct (av_selectable _) eqn:Hav in Hsel; [|done].
    apply availability_selectable_iff in Hav as (Hf1 & Hf2 & Hf3).
    rewrite (counters_after_eq _ _ _ _ _ _ Hst). constructor; cbn [fst snd ct_rpm ct_tpm ct_concurrency].
    + constructor; [|done]. split_and!; [apply Hf1|apply Hf2|apply Hf3].
    + by apply dimension_ok_acquire.
    + by apply dimension_ok_acquire.
    + by apply dimension_ok_acquire.
  - destruct Hinv as [Hh H1 H2 H3]; cbn [fst snd] in *.
    apply Forall_app in Hh as [Hh1 [Hr Hh2]%Forall_cons].
    destruct (capacity_sums held1 Hh1) as (? & ? & ?), (capacity_sums held2 Hh2) as (? & ? & ?).
    rewrite (counters_after_eq _ _ _ _ _ _ (release_status _ _ _ Hr)). destruct Hr as (? & ? & ?).
    constructor; cbn [fst snd ct_rpm ct_tpm ct_concurrency]; [by apply Forall_app|by apply dimension_ok_release..].
Qed.

Lemma dimension_ok_zero limit f : limit_wf limit → dimension_ok limit 0 f [].
Proof. unfold limit_wf, dimension_ok, held_sum. destruct limit; cbn; lia || done. Qed.

(** C29: counters never leak and never exceed a limit. Along every sequence of
    acquired reservations and releases of held ones, starting from zero counters,
    each limited counter equals the sum of the requirements currently held and
    stays within its limit; once everything is released it is back at zero. *)
Theorem reservations_never_exceed_limits (limits : rate_limits) (state : reservation_state)
    (Hl1 : limit_wf (lm_rpm limits)) (Hl2 : limit_wf (lm_tpm limits)) (Hl3 : limit_wf (lm_concurrency limits))
    (Hrun : rtc (reservation_step limits) (mkRateCounters 0 0 0, []) state) :
  dimension_ok (lm_rpm limits) (ct_rpm state.1) rc_requests_per_minute state.2 ∧
  dimension_ok (lm_tpm limits) (ct_tpm state.1) rc_tokens_per_minute state.2 ∧
  dimension_ok (lm_concurrency limits) (ct_concurrency state.1) rc_concurrency state.2.
Proof.
  assert (reservation_inv limits (mkRateCounters 0 0 0, [])) as Hinv.
  { constructor; [apply Forall_nil_2|by apply dimension_ok_zero..]. }
  assert (reservation_inv limits state) as []; [|done].
  induction Hrun as [|s1 s2 s3 Hstep _ IH]; [done|]. by apply IH, (reservation_step_inv _ s1).
Qed.

Lemma reservations_never_exceed_limits_witness :
  let required := mkRateLimitRequiredCapacity 1 60 1 in
  dimension_ok (Some 100) 60 rc_tokens_per_minute [required] ∧
  rp_status (reservation_plan_for (mkRateLimits None (Some 100) None) (mkRateCounters 0 60 0) Acquire required false)
    = ReservationRejected.
Proof.
  split; [|vm_compute; reflexivity].
  apply (reservations_never_exceed_limits (mkRateLimits None (Some 100) None)
    (mkRateCounters 0 60 0, [mkRateLimitRequiredCapacity 1 60 1])); [done|cbn; width_lia|done|].
  apply rtc_once. exact (step_acquire (mkRateLimits None (Some 100) None) (mkRateCounters 0 0 0) []
    (mkRateLimitRequiredCapacity 1 60 1) eq_refl).
Defined.

(** ** The token estimate *)

Definition tpm_input_wf (input : RateLimitTpmEstimateInput) : Prop :=
  Forall (λ tokens, match tokens with Some t => in_i64 t | None => True end)
    [ti_prompt_tokens input; ti_completion_tokens input; ti_max_completion_tokens input; ti_total_tokens input] ∧
  in_i64 (ti_conservative_fallback_tokens input).

(** A token count that was given and is not negative. *)
Definition known (tokens : option Z) : option Z :=
  match tokens with Some t => if 0 <=? t then Some t else None | None => None end.

(** The estimate on mathematical integers: the total when it is known, else the
    prompt plus the larger of the two completion figures, with the fallback for
    what is missing; at least one token. *)
Definition tpm_required (input : RateLimitTpmEstimateInput) : Z :=
  let fallback :=
    if 0 <? ti_conservative_fallback_tokens input then ti_conservative_fallback_tokens input
    else RATE_LIMIT_DEFAULT_TPM_FALLBACK_TOKENS in
  let completion :=
    match known (ti_completion_tokens input), known (ti_max_completion_tokens input) with
    | Some a, Some b => Some (Z.max a b)
    | Some a, None | None, Some a => Some a
    | None, None => None
    end in
  match known (ti_total_tokens input), known (ti_prompt_tokens input), completion with
  | Some total, _, _ => Z.max 1 total
  | None, None, None => fallback
  | None, prompt, completion => Z.max 1 (default fallback prompt + default fallback completion)
  end.

Lemma known_nonneg tokens t : known tokens = Some t → 0 <= t ∧ tokens = Some t.
Proof. unfold known. destruct tokens as [x|]; [|done]. destruct (Z.leb_spec 0 x); naive_solver. Qed.

Lemma sanitize_known tokens : fst (sanitize_optional_token_estimate tokens) = known tokens.
Proof. unfold sanitize_optional_token_estimate, known. destruct tokens as [t|]; [|done]. by destruct (0 <=? t). Qed.

(** Token counts as the estimate uses them. *)
Definition token_range (tokens : option Z) : Prop :=
  match tokens with Some t => 0 <= t <= i64_max | None => True end.

Lemma known_range tokens :
  match tokens with Some t => in_i64 t | None => True end → token_range (known tokens).
Proof. unfold known, token_range. destruct tokens as [t|]; [|done]. destruct (Z.leb_spec 0 t); [lia|done]. Qed.

Lemma estimate_required input :
  tpm_input_wf input →
  te_required_tokens (estimate_tpm_reservation input) = tpm_required input ∧
  1 <= tpm_required input <= u64_max ∧
  te_clamped_to_i64_max (estimate_tpm_reservation input) = (i64_max <? tpm_required input).
Proof.
  intros [HF Hfb]. rewrite !Forall_cons in HF. destruct HF as (Hp & Hc & Hm & Ht & _).
  apply known_range in Hp, Hc, Hm, Ht.
  unfold estimate_tpm_reservation, tpm_required, sanitize_conservative_fallback_tokens.
  rewrite <-!sanitize_known in *.
  destruct (sanitize_optional_token_estimate (ti_prompt_tokens input)) as [p bp],
    (sanitize_optional_token_estimate (ti_completion_tokens input)) as [c bc],
    (sanitize_optional_token_estimate (ti_max_completion_tokens input)) as [m bm],
    (sanitize_optional_token_estimate (ti_total_tokens input)) as [t bt]; cbn in *.
  unfold completion_reservation_tokens, RATE_LIMIT_MIN_TPM_RESERVATION_TOKENS,
    RATE_LIMIT_DEFAULT_TPM_FALLBACK_TOKENS, saturating_add_u64, token_range in *.
  destruct (Z.ltb_spec 0 (ti_conservative_fallback_tokens input)), t as [t|], p as [p|], c as [c|], m as [m|];
    cbn -[Z.max Z.min Z.add Z.ltb i64_max u64_max];
    match goal with |- ?a = ?b ∧ _ => assert (a = b) as -> by width_lia end;
    (split_and!; [done|width_lia|width_lia|done]).
Qed.

(** The token estimate of a reservation is the intended sum, computed
    without saturation: it is at least 1, the value handed to the reservation is
    an [i64] of at least 1, and the clamp flag says exactly whether the estimate
    had to be cut to [i64::MAX]. *)
Theorem tpm_estimate_exact (input : RateLimitTpmEstimateInput) (Hwf : tpm_input_wf input) :
  let estimate := estimate_tpm_reservation input in
  te_required_tokens estimate = tpm_required input ∧
  1 <= te_required_tokens estimate <= u64_max ∧
  1 <= required_tokens_i64 estimate <= i64_max ∧
  (te_clamped_to_i64_max estimate = true ↔ required_tokens_i64 estimate ≠ te_required_tokens estimate).
Proof.
  destruct (estimate_required input Hwf) as (Hr & Hb & Hcl).
  cbn zeta. unfold required_tokens_i64. rewrite Hr, Hcl, Z.ltb_lt. width_lia.
Qed.

Lemma tpm_estimate_exact_witness :
  let input := mkRateLimitTpmEstimateInput (Some 300) None (Some 500) (Some (-1)) 1024 in
  te_required_tokens (estimate_tpm_reservation input) = 800 ∧ tpm_required input = 800.
Proof.
  set (input := mkRateLimitTpmEstimateInput (Some 300) None (Some 500) (Some (-1)) 1024).
  assert (tpm_input_wf input) as Hwf by (split; [repeat constructor; vm_compute; discriminate|cbn; width_lia]).
  pose proof (proj1 (tpm_estimate_exact input Hwf)) as H.
  split; [rewrite H|]; vm_compute; reflexivity.
Defined.

(** ** Rate limits in the selection *)

(** A candidate with the windows its channel was evaluated on. *)
Definition limit_candidate (pair : RouteCandidate * RateLimitAvailabilityInput) : RouteCandidate :=
  apply_rate_limit_availability_to_candidate pair.1 (evaluate_rate_limit_availability pair.2).

(** No route is selected beyond a rate limit. When availability is applied
    to the candidates before the selection, the selected route belongs to a
    channel whose request, token and concurrency windows all admit the request,
    also when trace affinity picks it. *)
Theorem selected_route_within_limits (request : RouteRequest)
    (pairs : list (RouteCandidate * RateLimitAvailabilityInput)) (context : RouteSelectionContext)
    (route : SelectedRoute) (Hwf : route_candidates_wf pairs.*1)
    (Hsel : rd_selected (select_route_with_context request (limit_candidate <$> pairs) context) = Some route) :
  ∃ candidate windows, (candidate, windows) ∈ pairs ∧ sr_channel_id route = channel_id candidate ∧
    window_fits (ai_requests_per_minute windows) ∧ window_fits (ai_tokens_per_minute windows) ∧
    window_fits (ai_concurrency windows).
Proof.
  assert (route_candidates_wf (limit_candidate <$> pairs)) as Hwf'.
  { destruct Hwf as [HF Hlen]. rewrite length_fmap in Hlen. split; [|by rewrite length_fmap].
    rewrite Forall_fmap in *. eapply Forall_impl; [exact HF|]. by intros [c w]. }
  destruct (pick_selected_elem _ _ _ _ (evaluated_wf _ Hwf') Hsel) as (e & He & Hs & ->).
  apply elem_of_evaluated in He as (c & ([candidate windows] & -> & Hin)%list_elem_of_fmap & ->).
  apply selectable_iff in Hs as (_ & Hav & _). cbn -[evaluate_rate_limit_availability] in Hav.
  apply availability_selectable_iff in Hav. exists candidate, windows. done.
Qed.

Lemma selected_route_within_limits_witness :
  let full := mkRateLimitAvailabilityInput (window_limited 10 10 1) window_unlimited window_unlimited in
  let free := mkRateLimitAvailabilityInput (window_limited 10 3 1) window_unlimited window_unlimited in
  let pairs := [(route_candidate_new "ch-a" "p1" "gpt" 0 10, full);
                (route_candidate_new "ch-b" "p2" "gpt" 5 10, free)] in
  ∃ candidate windows, (candidate, windows) ∈ pairs ∧ channel_id candidate = "ch-b" ∧
    window_fits (ai_requests_per_minute windows).
Proof.
  set (full := mkRateLimitAvailabilityInput (window_limited 10 10 1) window_unlimited window_unlimited).
  set (free := mkRateLimitAvailabilityInput (window_limited 10 3 1) window_unlimited window_unlimited).
  set (pairs := [(route_candidate_new "ch-a" "p1" "gpt" 0 10, full);
                 (route_candidate_new "ch-b" "p2" "gpt" 5 10, free)]). cbn zeta.
  destruct (selected_route_within_limits (route_request_new "m" 0) pairs context_default
    (mkSelectedRoute "ch-b" "p2" "gpt" 5 10)) as (candidate & windows & Hin & Hid & Hfit & _).
  - split; [repeat constructor; vm_compute; discriminate|vm_compute; discriminate].
  - vm_compute. reflexivity.
  - exists candidate, windows. split_and!; [exact Hin|symmetry; exact Hid|exact Hfit].
Defined.
