(* ===== verification/ModelMapping.v ===== *)
(** crates/routing/src/model_mapping.rs: the model name sent upstream. An explicit
    mapping wins; otherwise the longest configured provider prefix is trimmed and
    the case policy of the channel applied. *)

From S2P Require Export RustStr.

#[local] Open Scope string_scope.
#[local] Open Scope list_scope.
#[local] Open Scope Z_scope.

Inductive ModelNameCasePolicy : Type := CasePreserve | CaseLower | CaseUpper.

(** [ModelNameCasePolicy::parse]. *)
Definition case_policy_parse (value : string) : ModelNameCasePolicy :=
  let value := to_ascii_lowercase (str_trim value) in
  if bool_decide (value ∈ ["lower"; "lowercase"]) then CaseLower
  else if bool_decide (value ∈ ["upper"; "uppercase"]) then CaseUpper
  else CasePreserve.

(** [ModelNameCasePolicy::apply]. *)
Definition case_policy_apply (self : ModelNameCasePolicy) (value : string) : string :=
  match self with
  | CasePreserve => value
  | CaseLower => to_ascii_lowercase value
  | CaseUpper => to_ascii_uppercase value
  end.

Record ExplicitModelMapping : Type := mkExplicitModelMapping {
  em_requested_model : string;
  em_upstream_model : string;
}.

Record ChannelModelMappingPolicy : Type := mkChannelModelMappingPolicy {
  explicit_mappings : list ExplicitModelMapping;
  trim_prefixes : list string;
  case_policy : ModelNameCasePolicy;
}.

Definition mapping_policy_new : ChannelModelMappingPolicy := mkChannelModelMappingPolicy [] [] CasePreserve.

Definition with_explicit_mapping (self : ChannelModelMappingPolicy) (requested_model upstream_model : string)
    : ChannelModelMappingPolicy :=
  mkChannelModelMappingPolicy
    (explicit_mappings self ++ [mkExplicitModelMapping requested_model upstream_model])
    (trim_prefixes self) (case_policy self).

Definition with_trim_prefix (self : ChannelModelMappingPolicy) (prefix : string) : ChannelModelMappingPolicy :=
  mkChannelModelMappingPolicy (explicit_mappings self) (trim_prefixes self ++ [prefix]) (case_policy self).

Definition with_case_policy (self : ChannelModelMappingPolicy) (case_policy : ModelNameCasePolicy)
    : ChannelModelMappingPolicy :=
  mkChannelModelMappingPolicy (explicit_mappings self) (trim_prefixes self) case_policy.

(** The text a prefix has to match: the trimmed prefix with its separator. *)
Definition prefix_with_separator (prefix : string) : string :=
  if str_ends_with prefix "/" then prefix else prefix +:+ "/".

Definition normalized_trim_prefix (model prefix : string) : option string :=
  let prefix := str_trim prefix in
  if bool_decide (prefix = "") then None
  else
    trimmed ← str_strip_prefix (prefix_with_separator prefix) model;
    if bool_decide (trimmed = "") then None else Some trimmed.

(** [Iterator::max_by_key]: the last of the elements with the greatest key. *)
Definition max_by_key {A} (key : A → nat) (l : list A) : option A :=
  fold_left (λ best x,
    match best with
    | None => Some x
    | Some b => if (key b <=? key x)%nat then Some x else Some b
    end) l None.

Definition trim_model_prefix (model : string) (prefixes : list string) : string :=
  default model
    (max_by_key (λ candidate, str_len model - str_len candidate)%nat (omap (normalized_trim_prefix model) prefixes)).

Definition map_upstream_model_name (requested_model : string) (policy : ChannelModelMappingPolicy) : string :=
  let mapped :=
    match List.find (λ mapping, bool_decide (em_requested_model mapping = requested_model))
            (explicit_mappings policy) with
    | Some mapping => if bool_decide (em_upstream_model mapping = "") then None else Some (em_upstream_model mapping)
    | None => None
    end in
  match mapped with
  | Some upstream_model => upstream_model
  | None => case_policy_apply (case_policy policy) (trim_model_prefix requested_model (trim_prefixes policy))
  end.

(** ** Lemmas *)

Lemma max_by_key_from {A} (key : A → nat) (l : list A) (b : A) :
  ∃ x, fold_left (λ best x, match best with None => Some x | Some b => if (key b <=? key x)%nat then Some x else Some b end)
         l (Some b) = Some x ∧ (x = b ∨ x ∈ l) ∧ (key b ≤ key x)%nat ∧ ∀ y, y ∈ l → (key y ≤ key x)%nat.
Proof.
  revert b. induction l as [|y l IH]; intros b; cbn.
  { exists b. split_and!; auto. intros y Hy. by apply not_elem_of_nil in Hy. }
  destruct (Nat.leb_spec (key b) (key y)); [destruct (IH y) as (x & -> & Hx & Hk & Hl)|destruct (IH b) as (x & -> & Hx & Hk & Hl)];
    exists x; (split; [done|]); (split; [|split; [lia|]]);
    try (intros z [->|Hz]%elem_of_cons; [lia|by apply Hl]); rewrite elem_of_cons; naive_solver.
Qed.

(** The maximum exists for a non-empty list and is one of its elements. *)
Lemma max_by_key_spec {A} (key : A → nat) (l : list A) :
  match max_by_key key l with
  | None => l = []
  | Some x => x ∈ l ∧ ∀ y, y ∈ l → (key y ≤ key x)%nat
  end.
Proof.
  destruct l as [|y l]; [done|]. unfold max_by_key. cbn [fold_left].
  destruct (max_by_key_from key l y) as (x & -> & Hx & Hk & Hl). split.
  - rewrite elem_of_cons. naive_solver.
  - by intros z [->|Hz]%elem_of_cons; [|apply Hl].
Qed.

Lemma normalized_trim_prefix_Some model prefix rest :
  normalized_trim_prefix model prefix = Some rest ↔
  str_trim prefix ≠ "" ∧ rest ≠ "" ∧ model = prefix_with_separator (str_trim prefix) +:+ rest.
Proof.
  unfold normalized_trim_prefix. cbn zeta. case_bool_decide as H1; [split; [done|naive_solver]|].
  rewrite bind_Some. setoid_rewrite str_strip_prefix_Some. split.
  - intros (trimmed & -> & H). case_bool_decide; naive_solver.
  - intros (_ & Hr & ->). exists rest. split; [done|]. by rewrite bool_decide_false.
Qed.

Lemma case_policy_apply_len policy value : str_len (case_policy_apply policy value) = str_len value.
Proof.
  destruct policy; cbn [case_policy_apply]; [done|..]; unfold to_ascii_lowercase, to_ascii_uppercase;
    by rewrite from_bytes_len, length_fmap.
Qed.

(** [rest] is what a configured prefix leaves of [model]. *)
Definition prefix_leaves (policy : ChannelModelMappingPolicy) (model rest : string) : Prop :=
  ∃ prefix, prefix ∈ trim_prefixes policy ∧ str_trim prefix ≠ "" ∧ rest ≠ "" ∧
    model = prefix_with_separator (str_trim prefix) +:+ rest.

Lemma elem_of_trimmed policy model rest :
  rest ∈ omap (normalized_trim_prefix model) (trim_prefixes policy) ↔ prefix_leaves policy model rest.
Proof.
  rewrite list_elem_of_omap. unfold prefix_leaves. by setoid_rewrite normalized_trim_prefix_Some.
Qed.

Lemma prefix_leaves_len policy model rest : prefix_leaves policy model rest → (str_len rest ≤ str_len model)%nat.
Proof. intros (prefix & _ & _ & _ & ->). rewrite str_len_app. lia. Qed.

(** The trimmed name: the shortest of what the prefixes leave, the model itself
    if no prefix applies. *)
Lemma trim_model_prefix_spec policy model :
  let rest := trim_model_prefix model (trim_prefixes policy) in
  (prefix_leaves policy model rest ∧ ∀ other, prefix_leaves policy model other → (str_len rest ≤ str_len other)%nat)
  ∨ rest = model ∧ ∀ other, ¬ prefix_leaves policy model other.
Proof.
  cbn zeta. unfold trim_model_prefix.
  pose proof (max_by_key_spec (λ c, str_len model - str_len c)%nat
                (omap (normalized_trim_prefix model) (trim_prefixes policy))) as H.
  destruct (max_by_key _ _) as [rest|]; cbn [default].
  - destruct H as [Hrest%elem_of_trimmed Hmax]. left. split; [done|]. intros other Hother.
    specialize (Hmax other (proj2 (elem_of_trimmed _ _ _) Hother)).
    cbn beta in Hmax. apply prefix_leaves_len in Hrest, Hother. unfold id. lia.
  - right. split; [done|]. intros other Hother%elem_of_trimmed. rewrite H in Hother. by apply not_elem_of_nil in Hother.
Qed.

(** The model name sent upstream. If the first explicit mapping of the requested
    name has a target, that target is sent. Otherwise the longest configured
    provider prefix that leaves a name (a prefix counts after trimming and with
    its separator) is removed, nothing if no prefix applies, and the case policy
    is applied to the rest. A non-empty name is never mapped to the empty one. *)
Theorem mapped_model_name (model : string) (policy : ChannelModelMappingPolicy) :
  let explicit :=
    List.find (λ mapping, bool_decide (em_requested_model mapping = model)) (explicit_mappings policy) in
  let mapped := map_upstream_model_name model policy in
  (∀ mapping, explicit = Some mapping → em_upstream_model mapping ≠ "" → mapped = em_upstream_model mapping) ∧
  ((∀ mapping, explicit = Some mapping → em_upstream_model mapping = "") →
   ∃ rest, mapped = case_policy_apply (case_policy policy) rest ∧
     ((prefix_leaves policy model rest ∧
       ∀ other, prefix_leaves policy model other → (str_len rest ≤ str_len other)%nat)
      ∨ rest = model ∧ ∀ other, ¬ prefix_leaves policy model other)) ∧
  (mapped = "" → model = "").
Proof.
  cbn zeta. unfold map_upstream_model_name. pose proof (trim_model_prefix_spec policy model) as Htrim. cbn zeta in Htrim.
  set (rest := trim_model_prefix _ _) in *.
  assert (case_policy_apply (case_policy policy) rest = "" → model = "") as Hempty.
  { rewrite <- str_len_zero, case_policy_apply_len, str_len_zero. intros Hr. rewrite Hr in Htrim.
    destruct Htrim as [[(? & _ & _ & ? & _) _]|[<- _]]; done. }
  destruct (List.find _ _) as [mapping|] eqn:E.
  - case_bool_decide as Hu; (split; [|split]).
    + intros m' [= <-]. done.
    + intros _. exists rest. done.
    + done.
    + by intros m' [= <-].
    + intros H. by destruct Hu; apply H.
    + done.
  - split; [done|]. split; [|done]. intros _. exists rest. done.
Qed.
