(* ===== verification/CandidateGeneration.v ===== *)
(** crates/routing/src/candidate_generation.rs: the candidates of a request. Every
    association of the canonical model is combined with the channels it matches;
    the model, the association, the profile of the caller and the state of the
    channel may filter the result, which is then sorted and handed to the
    selection of Selection.v. The [regex] crate is a parameter. *)

From Stdlib Require String.
From S2P Require Export Selection ModelMapping.

#[local] Open Scope string_scope.
#[local] Open Scope list_scope.
#[local] Open Scope Z_scope.

(** ** Data *)

Definition ROUTE_PRIORITY_ASSOCIATION_MULTIPLIER : Z := 1_000_000.

Inductive CanonicalModelStatus : Type := ModelActive | ModelDeprecated | ModelDisabled | ModelDeleted.

Inductive CanonicalModelVisibility : Type := VisibilityPublic | VisibilityInternal | VisibilityHidden.

#[export] Instance CanonicalModelVisibility_eq_dec : EqDecision CanonicalModelVisibility.
Proof. solve_decision. Defined.

Record CanonicalModelRouteInput : Type := mkCanonicalModelRouteInput {
  cm_id : string;
  cm_model_key : string;
  cm_status : CanonicalModelStatus;
  cm_visibility : CanonicalModelVisibility;
}.

Definition canonical_model_new (id model_key : string) : CanonicalModelRouteInput :=
  mkCanonicalModelRouteInput id model_key ModelActive VisibilityInternal.

Definition canonical_with_status (self : CanonicalModelRouteInput) (status : CanonicalModelStatus) :=
  mkCanonicalModelRouteInput (cm_id self) (cm_model_key self) status (cm_visibility self).

Definition canonical_with_visibility (self : CanonicalModelRouteInput) (visibility : CanonicalModelVisibility) :=
  mkCanonicalModelRouteInput (cm_id self) (cm_model_key self) (cm_status self) visibility.

Inductive ModelAssociationStatus : Type := AssociationEnabled | AssociationDisabled | AssociationDeleted.

Inductive ModelAssociationType : Type := TypeExplicitChannel | TypeChannelTag | TypeModelPattern | TypeGlobal.

Inductive ModelAssociationTarget : Type :=
| TargetExplicitChannel (channel_id : string)
| TargetChannelTag (tag : string)
| TargetModelPattern (pattern : string)
| TargetGlobal.

(** [ModelAssociationTarget::association_type]. *)
Definition association_type (self : ModelAssociationTarget) : ModelAssociationType :=
  match self with
  | TargetExplicitChannel _ => TypeExplicitChannel
  | TargetChannelTag _ => TypeChannelTag
  | TargetModelPattern _ => TypeModelPattern
  | TargetGlobal => TypeGlobal
  end.

Record ModelAssociationRouteInput : Type := mkModelAssociationRouteInput {
  ma_id : string;
  ma_canonical_model_id : string;
  ma_target : ModelAssociationTarget;
  ma_upstream_model_name : option string;
  ma_priority : Z;
  ma_fallback_allowed : bool;
  ma_status : ModelAssociationStatus;
}.

Definition association_new (id canonical_model_id : string) (target : ModelAssociationTarget) (priority : Z)
    : ModelAssociationRouteInput :=
  mkModelAssociationRouteInput id canonical_model_id target None priority true AssociationEnabled.

Definition association_explicit_channel (id canonical_model_id channel_id : string) (priority : Z) :=
  association_new id canonical_model_id (TargetExplicitChannel channel_id) priority.

Definition association_channel_tag (id canonical_model_id tag : string) (priority : Z) :=
  association_new id canonical_model_id (TargetChannelTag tag) priority.

Definition association_model_pattern (id canonical_model_id pattern : string) (priority : Z) :=
  association_new id canonical_model_id (TargetModelPattern pattern) priority.

Definition association_global (id canonical_model_id : string) (priority : Z) :=
  association_new id canonical_model_id TargetGlobal priority.

Definition association_with_upstream_model_name (self : ModelAssociationRouteInput) (upstream_model_name : string) :=
  mkModelAssociationRouteInput (ma_id self) (ma_canonical_model_id self) (ma_target self) (Some upstream_model_name)
    (ma_priority self) (ma_fallback_allowed self) (ma_status self).

Definition association_with_fallback_allowed (self : ModelAssociationRouteInput) (fallback_allowed : bool) :=
  mkModelAssociationRouteInput (ma_id self) (ma_canonical_model_id self) (ma_target self)
    (ma_upstream_model_name self) (ma_priority self) fallback_allowed (ma_status self).

Definition association_with_status (self : ModelAssociationRouteInput) (status : ModelAssociationStatus) :=
  mkModelAssociationRouteInput (ma_id self) (ma_canonical_model_id self) (ma_target self)
    (ma_upstream_model_name self) (ma_priority self) (ma_fallback_allowed self) status.

Record ChannelRouteInput : Type := mkChannelRouteInput {
  ch_id : string;
  ch_provider_id : string;
  ch_tags : list string;
  ch_model_mapping_policy : ChannelModelMappingPolicy;
  ch_priority : Z;
  ch_weight : Z;
  ch_status : ChannelStatus;
  ch_health : ChannelHealth;
  ch_rate_limit_available : bool;
}.

Definition channel_new (id provider_id : string) (priority weight : Z) : ChannelRouteInput :=
  mkChannelRouteInput id provider_id [] mapping_policy_new priority weight StatusEnabled HealthHealthy true.

Definition non_empty_string (value : string) : option string :=
  let trimmed := str_trim value in
  if bool_decide (trimmed = "") then None else Some trimmed.

Definition push_non_empty (values : list string) (value : string) : list string :=
  match non_empty_string value with
  | Some value => values ++ [value]
  | None => values
  end.

Definition channel_set_tags (self : ChannelRouteInput) (tags : list string) : ChannelRouteInput :=
  mkChannelRouteInput (ch_id self) (ch_provider_id self) tags (ch_model_mapping_policy self) (ch_priority self)
    (ch_weight self) (ch_status self) (ch_health self) (ch_rate_limit_available self).

Definition channel_with_tag (self : ChannelRouteInput) (tag : string) : ChannelRouteInput :=
  channel_set_tags self (push_non_empty (ch_tags self) tag).

Definition channel_with_tags (self : ChannelRouteInput) (tags : list string) : ChannelRouteInput :=
  channel_set_tags self (ch_tags self ++ omap non_empty_string tags).

Definition channel_with_model_mapping_policy (self : ChannelRouteInput) (policy : ChannelModelMappingPolicy) :=
  mkChannelRouteInput (ch_id self) (ch_provider_id self) (ch_tags self) policy (ch_priority self)
    (ch_weight self) (ch_status self) (ch_health self) (ch_rate_limit_available self).

Definition channel_with_status (self : ChannelRouteInput) (status : ChannelStatus) :=
  mkChannelRouteInput (ch_id self) (ch_provider_id self) (ch_tags self) (ch_model_mapping_policy self)
    (ch_priority self) (ch_weight self) status (ch_health self) (ch_rate_limit_available self).

Definition channel_with_health (self : ChannelRouteInput) (health : ChannelHealth) :=
  mkChannelRouteInput (ch_id self) (ch_provider_id self) (ch_tags self) (ch_model_mapping_policy self)
    (ch_priority self) (ch_weight self) (ch_status self) health (ch_rate_limit_available self).

Definition channel_with_rate_limit_available (self : ChannelRouteInput) (available : bool) :=
  mkChannelRouteInput (ch_id self) (ch_provider_id self) (ch_tags self) (ch_model_mapping_policy self)
    (ch_priority self) (ch_weight self) (ch_status self) (ch_health self) available.

Record ProfileRouteConstraints : Type := mkProfileRouteConstraints {
  visible_model_visibilities : list CanonicalModelVisibility;
  allowed_models : list string;
  denied_models : list string;
  allowed_channel_tags : list string;
  denied_channel_tags : list string;
  blocked_provider_ids : list string;
}.

Definition profile_unrestricted : ProfileRouteConstraints := mkProfileRouteConstraints [] [] [] [] [] [].

Definition with_visible_model_visibility (self : ProfileRouteConstraints) (visibility : CanonicalModelVisibility) :=
  mkProfileRouteConstraints (visible_model_visibilities self ++ [visibility]) (allowed_models self)
    (denied_models self) (allowed_channel_tags self) (denied_channel_tags self) (blocked_provider_ids self).

Definition with_allowed_model (self : ProfileRouteConstraints) (model : string) :=
  mkProfileRouteConstraints (visible_model_visibilities self) (push_non_empty (allowed_models self) model)
    (denied_models self) (allowed_channel_tags self) (denied_channel_tags self) (blocked_provider_ids self).

Definition with_denied_model (self : ProfileRouteConstraints) (model : string) :=
  mkProfileRouteConstraints (visible_model_visibilities self) (allowed_models self)
    (push_non_empty (denied_models self) model) (allowed_channel_tags self) (denied_channel_tags self)
    (blocked_provider_ids self).

Definition with_allowed_channel_tag (self : ProfileRouteConstraints) (tag : string) :=
  mkProfileRouteConstraints (visible_model_visibilities self) (allowed_models self) (denied_models self)
    (push_non_empty (allowed_channel_tags self) tag) (denied_channel_tags self) (blocked_provider_ids self).

Definition with_denied_channel_tag (self : ProfileRouteConstraints) (tag : string) :=
  mkProfileRouteConstraints (visible_model_visibilities self) (allowed_models self) (denied_models self)
    (allowed_channel_tags self) (push_non_empty (denied_channel_tags self) tag) (blocked_provider_ids self).

Definition with_blocked_provider_id (self : ProfileRouteConstraints) (provider_id : string) :=
  mkProfileRouteConstraints (visible_model_visibilities self) (allowed_models self) (denied_models self)
    (allowed_channel_tags self) (denied_channel_tags self) (push_non_empty (blocked_provider_ids self) provider_id).

Record RouteCandidateGenerationInput : Type := mkRouteCandidateGenerationInput {
  gi_requested_model : string;
  gi_canonical_model : CanonicalModelRouteInput;
  gi_associations : list ModelAssociationRouteInput;
  gi_channels : list ChannelRouteInput;
  gi_profile : ProfileRouteConstraints;
}.

Definition generation_input_new (requested_model : string) (canonical_model : CanonicalModelRouteInput) :=
  mkRouteCandidateGenerationInput requested_model canonical_model [] [] profile_unrestricted.

Definition with_association (self : RouteCandidateGenerationInput) (association : ModelAssociationRouteInput) :=
  mkRouteCandidateGenerationInput (gi_requested_model self) (gi_canonical_model self)
    (gi_associations self ++ [association]) (gi_channels self) (gi_profile self).

Definition with_channel (self : RouteCandidateGenerationInput) (channel : ChannelRouteInput) :=
  mkRouteCandidateGenerationInput (gi_requested_model self) (gi_canonical_model self)
    (gi_associations self) (gi_channels self ++ [channel]) (gi_profile self).

Definition with_profile (self : RouteCandidateGenerationInput) (profile : ProfileRouteConstraints) :=
  mkRouteCandidateGenerationInput (gi_requested_model self) (gi_canonical_model self)
    (gi_associations self) (gi_channels self) profile.

Record GeneratedRouteCandidate : Type := mkGeneratedRouteCandidate {
  gc_association_id : string;
  gc_association_type : ModelAssociationType;
  gc_association_priority : Z;
  gc_channel_priority : Z;
  gc_fallback_allowed : bool;
  gc_candidate : RouteCandidate;
  gc_filter_reason : option CandidateFilterReason;
}.

Definition generated_is_selectable (self : GeneratedRouteCandidate) : bool :=
  match gc_filter_reason self with None => true | Some _ => false end.

Definition evaluated_candidate (self : GeneratedRouteCandidate) : EvaluatedCandidate :=
  mkEvaluatedCandidate (gc_candidate self) (gc_filter_reason self).

Record RouteCandidateGenerationResult : Type := mkRouteCandidateGenerationResult {
  gr_requested_model : string;
  gr_canonical_model : CanonicalModelRouteInput;
  gr_candidates : list GeneratedRouteCandidate;
}.

Definition evaluated_candidates (self : RouteCandidateGenerationResult) : list EvaluatedCandidate :=
  evaluated_candidate <$> gr_candidates self.

Definition selectable_route_candidates (candidates : list GeneratedRouteCandidate) : list RouteCandidate :=
  gc_candidate <$> List.filter generated_is_selectable candidates.

(** ** Filters *)

Definition string_list_contains (values : list string) (expected : string) : bool :=
  existsb (λ value, bool_decide (value = expected)) values.

Definition channel_has_tag (channel : ChannelRouteInput) (tag : string) : bool :=
  existsb (λ channel_tag, bool_decide (channel_tag = tag)) (ch_tags channel).

Definition has_any_tag (channel : ChannelRouteInput) (tags : list string) : bool :=
  existsb (channel_has_tag channel) tags.

(** [Vec::is_empty]. *)
Definition is_empty {A} (l : list A) : bool := match l with [] => true | _ => false end.

Definition model_filter_reason (canonical_model : CanonicalModelRouteInput) (profile : ProfileRouteConstraints)
    : option CandidateFilterReason :=
  match cm_status canonical_model with
  | ModelDisabled => Some FilterCanonicalModelDisabled
  | ModelDeleted => Some FilterCanonicalModelDeleted
  | ModelActive | ModelDeprecated =>
      if string_list_contains (denied_models profile) (cm_model_key canonical_model)
         || (negb (is_empty (allowed_models profile))
             && negb (string_list_contains (allowed_models profile) (cm_model_key canonical_model)))
      then Some FilterProfileModelDenied
      else if negb (is_empty (visible_model_visibilities profile))
              && negb (existsb (λ v, bool_decide (v = cm_visibility canonical_model))
                         (visible_model_visibilities profile))
      then Some FilterModelVisibilityDenied
      else None
  end.

Definition association_filter_reason (association : ModelAssociationRouteInput) : option CandidateFilterReason :=
  match ma_status association with
  | AssociationEnabled => None
  | AssociationDisabled => Some FilterAssociationDisabled
  | AssociationDeleted => Some FilterAssociationDeleted
  end.

Definition profile_channel_filter_reason (channel : ChannelRouteInput) (profile : ProfileRouteConstraints)
    : option CandidateFilterReason :=
  if has_any_tag channel (denied_channel_tags profile)
     || (negb (is_empty (allowed_channel_tags profile)) && negb (has_any_tag channel (allowed_channel_tags profile)))
  then Some FilterProfileChannelTagDenied
  else if string_list_contains (blocked_provider_ids profile) (ch_provider_id channel)
  then Some FilterProfileProviderDenied
  else None.

(** [Option::or] and [Option::or_else]. *)
Definition option_or {A} (a b : option A) : option A := match a with Some _ => a | None => b end.

(** ** Generation *)

Definition saturating_i32 (z : Z) : Z := Z.max i32_min (Z.min i32_max z).

Definition route_priority_for_generation (association_priority channel_priority : Z) : Z :=
  saturating_i32
    (saturating_i32 (association_priority * ROUTE_PRIORITY_ASSOCIATION_MULTIPLIER) + channel_priority).

Definition upstream_model_name (association : ModelAssociationRouteInput) (channel : ChannelRouteInput)
    (canonical_model : CanonicalModelRouteInput) : string :=
  match ma_upstream_model_name association ≫= non_empty_string with
  | Some name => name
  | None => map_upstream_model_name (cm_model_key canonical_model) (ch_model_mapping_policy channel)
  end.

Definition association_type_rank (association_type : ModelAssociationType) : Z :=
  match association_type with
  | TypeExplicitChannel => 0
  | TypeChannelTag => 1
  | TypeModelPattern => 2
  | TypeGlobal => 3
  end.

Definition compare_generated_route_candidates (left right : GeneratedRouteCandidate) : comparison :=
  let l := gc_candidate left in
  let r := gc_candidate right in
  then_with (priority l ?= priority r)
  (then_with (weight r ?= weight l)
  (then_with (String.compare (channel_id l) (channel_id r))
  (then_with (String.compare (provider_id l) (provider_id r))
  (then_with (String.compare (provider_model l) (provider_model r))
  (then_with (String.compare (gc_association_id left) (gc_association_id right))
             (association_type_rank (gc_association_type left) ?= association_type_rank (gc_association_type right))))))).

Definition generated_leb (left right : GeneratedRouteCandidate) : bool :=
  match compare_generated_route_candidates left right with Gt => false | _ => true end.

(** The route candidate of an association and a channel. *)
Definition generated_route_candidate (canonical_model : CanonicalModelRouteInput)
    (association : ModelAssociationRouteInput) (channel : ChannelRouteInput) : RouteCandidate :=
  with_rate_limit_available
    (with_health
       (with_status
          (route_candidate_new (ch_id channel) (ch_provider_id channel)
             (upstream_model_name association channel canonical_model)
             (route_priority_for_generation (ma_priority association) (ch_priority channel))
             (ch_weight channel))
          (ch_status channel))
       (ch_health channel))
    (ch_rate_limit_available channel).

(** The body of the inner loop. *)
Definition generated_candidate (canonical_model : CanonicalModelRouteInput) (profile : ProfileRouteConstraints)
    (association : ModelAssociationRouteInput) (channel : ChannelRouteInput) : GeneratedRouteCandidate :=
  let route_candidate := generated_route_candidate canonical_model association channel in
  let filter_reason :=
    option_or (model_filter_reason canonical_model profile)
      (option_or (association_filter_reason association)
         (option_or (profile_channel_filter_reason channel profile)
            (selection_filter_reason_for route_candidate))) in
  {|
    gc_association_id := ma_id association;
    gc_association_type := association_type (ma_target association);
    gc_association_priority := ma_priority association;
    gc_channel_priority := ch_priority channel;
    gc_fallback_allowed := ma_fallback_allowed association;
    gc_candidate := route_candidate;
    gc_filter_reason := filter_reason;
  |}.

Section generate.
(** [Regex::new(pattern).is_ok_and(|regex| regex.is_match(model))] of the regex
    crate, as a function of the pattern and the model. *)
Context (regex_is_match : string → string → bool).

Definition model_pattern_matches (model pattern : string) : bool :=
  let pattern := str_trim pattern in
  if bool_decide (pattern = "") then false else regex_is_match pattern model.

Definition association_matches_channel (association : ModelAssociationRouteInput) (channel : ChannelRouteInput)
    (canonical_model_key : string) : bool :=
  match ma_target association with
  | TargetExplicitChannel channel_id => bool_decide (ch_id channel = channel_id)
  | TargetChannelTag tag => channel_has_tag channel tag
  | TargetModelPattern pattern => model_pattern_matches canonical_model_key pattern
  | TargetGlobal => true
  end.

Definition generate_route_candidates (input : RouteCandidateGenerationInput) : RouteCandidateGenerationResult :=
  let canonical_model := gi_canonical_model input in
  let candidates :=
    flat_map
      (λ association,
        generated_candidate canonical_model (gi_profile input) association <$>
          List.filter (λ channel, association_matches_channel association channel (cm_model_key canonical_model))
            (gi_channels input))
      (List.filter (λ association, bool_decide (ma_canonical_model_id association = cm_id canonical_model))
         (gi_associations input)) in
  mkRouteCandidateGenerationResult (gi_requested_model input) canonical_model (sort_by generated_leb candidates).
End generate.

(** ** What a candidate has to satisfy *)

(** The profile and the state of model, association and channel admit the pair. *)
Record permitted (model : CanonicalModelRouteInput) (profile : ProfileRouteConstraints)
    (association : ModelAssociationRouteInput) (channel : ChannelRouteInput) : Prop := {
  pm_model : cm_status model = ModelActive ∨ cm_status model = ModelDeprecated;
  pm_not_denied : cm_model_key model ∉ denied_models profile;
  pm_allowed : allowed_models profile = [] ∨ cm_model_key model ∈ allowed_models profile;
  pm_visible : visible_model_visibilities profile = [] ∨ cm_visibility model ∈ visible_model_visibilities profile;
  pm_association : ma_status association = AssociationEnabled;
  pm_no_denied_tag : ∀ tag, tag ∈ ch_tags channel → tag ∉ denied_channel_tags profile;
  pm_allowed_tag : allowed_channel_tags profile = [] ∨ ∃ tag, tag ∈ ch_tags channel ∧ tag ∈ allowed_channel_tags profile;
  pm_provider : ch_provider_id channel ∉ blocked_provider_ids profile;
  pm_channel : (ch_status channel = StatusEnabled ∨ ch_status channel = StatusDegraded) ∧
    ch_rate_limit_available channel = true ∧ ch_health channel ≠ HealthUnhealthy ∧ ch_weight channel ≠ 0;
}.

Lemma string_list_contains_iff values s : string_list_contains values s = true ↔ s ∈ values.
Proof.
  unfold string_list_contains. rewrite existsb_elem. setoid_rewrite bool_decide_eq_true. naive_solver.
Qed.

Lemma has_any_tag_iff channel tags : has_any_tag channel tags = true ↔ ∃ tag, tag ∈ ch_tags channel ∧ tag ∈ tags.
Proof.
  unfold has_any_tag, channel_has_tag. rewrite existsb_elem. setoid_rewrite existsb_elem.
  setoid_rewrite bool_decide_eq_true. naive_solver.
Qed.

Lemma is_empty_iff {A} (l : list A) : is_empty l = true ↔ l = [].
Proof. by destruct l. Qed.

(** A list restricts nothing when it is empty. *)
Lemma restricts_iff {A} (l : list A) (b : bool) (P : Prop) :
  (b = true ↔ P) → (negb (is_empty l) && negb b = false ↔ l = [] ∨ P).
Proof.
  intros Hb. rewrite andb_false_iff, !negb_false_iff, is_empty_iff, Hb. done.
Qed.

Lemma model_filter_reason_None model profile :
  model_filter_reason model profile = None ↔
  (cm_status model = ModelActive ∨ cm_status model = ModelDeprecated) ∧
  (cm_model_key model ∉ denied_models profile) ∧
  (allowed_models profile = [] ∨ cm_model_key model ∈ allowed_models profile) ∧
  (visible_model_visibilities profile = [] ∨ cm_visibility model ∈ visible_model_visibilities profile).
Proof.
  unfold model_filter_reason.
  pose proof (restricts_iff (allowed_models profile) _ _ (string_list_contains_iff (allowed_models profile) (cm_model_key model))) as Ha.
  assert (existsb (λ v, bool_decide (v = cm_visibility model)) (visible_model_visibilities profile) = true ↔
          cm_visibility model ∈ visible_model_visibilities profile) as Hv.
  { rewrite existsb_elem. setoid_rewrite bool_decide_eq_true. naive_solver. }
  apply (restricts_iff (visible_model_visibilities profile)) in Hv.
  pose proof (string_list_contains_iff (denied_models profile) (cm_model_key model)) as Hd.
  destruct (cm_status model); try (split; [done|by intros ([?|?] & _)]);
  (destruct (string_list_contains (denied_models profile) _); cbn;
    [split; [done|intros (_ & H & _); by destruct H; apply Hd]|]);
  (destruct (negb (is_empty (allowed_models profile)) && _); [split; [done|by intros (_ & _ & ?%Ha & _)]|]);
  (destruct (negb (is_empty (visible_model_visibilities profile)) && _); [split; [done|by intros (_ & _ & _ & ?%Hv)]|]);
  (split; [|done]); intros _; (split; [auto|]); (split; [by intros ?%Hd|]); tauto.
Qed.

Lemma profile_channel_filter_reason_None channel profile :
  profile_channel_filter_reason channel profile = None ↔
  (∀ tag, tag ∈ ch_tags channel → tag ∉ denied_channel_tags profile) ∧
  (allowed_channel_tags profile = [] ∨ ∃ tag, tag ∈ ch_tags channel ∧ tag ∈ allowed_channel_tags profile) ∧
  (ch_provider_id channel ∉ blocked_provider_ids profile).
Proof.
  unfold profile_channel_filter_reason.
  pose proof (restricts_iff (allowed_channel_tags profile) _ _ (has_any_tag_iff channel (allowed_channel_tags profile))) as Ha.
  pose proof (has_any_tag_iff channel (denied_channel_tags profile)) as Hd.
  pose proof (string_list_contains_iff (blocked_provider_ids profile) (ch_provider_id channel)) as Hb.
  destruct (has_any_tag channel (denied_channel_tags profile)); cbn.
  { split; [done|]. intros (H & _). destruct (proj1 Hd eq_refl) as (tag & ? & ?). by destruct (H tag). }
  destruct (negb (is_empty _) && _); [split; [done|by intros (_ & ?%Ha & _)]|].
  destruct (string_list_contains _ _); [split; [done|intros (_ & _ & H); by destruct H; apply Hb]|].
  split; [|done]. intros _. split; [|split; [tauto|by intros ?%Hb]].
  intros tag H1 H2. assert (false = true) by (apply Hd; eauto). done.
Qed.

Lemma option_or_None {A} (a b : option A) : option_or a b = None ↔ a = None ∧ b = None.
Proof. destruct a; cbn; naive_solver. Qed.

Lemma generated_permitted model profile association channel :
  gc_filter_reason (generated_candidate model profile association channel) = None ↔
  permitted model profile association channel.
Proof.
  cbn. rewrite !option_or_None, model_filter_reason_None, profile_channel_filter_reason_None.
  assert (selection_filter_reason_for (generated_route_candidate model association channel) = None ↔
    (ch_status channel = StatusEnabled ∨ ch_status channel = StatusDegraded) ∧
    ch_rate_limit_available channel = true ∧ ch_health channel ≠ HealthUnhealthy ∧ ch_weight channel ≠ 0) as Hs.
  { rewrite <- (selectable_iff (generated_route_candidate model association channel)).
    unfold is_selectable, evaluate_candidate. cbn [filter_reason]. by destruct (selection_filter_reason_for _). }
  assert (association_filter_reason association = None ↔ ma_status association = AssociationEnabled) as Ha
    by (unfold association_filter_reason; by destruct (ma_status association)).
  rewrite Hs, Ha. split; [intros (? & ? & ? & ?); destruct_and?; by constructor|].
  intros []. tauto.
Qed.

Section routes.
Context (regex_is_match : string → string → bool) (input : RouteCandidateGenerationInput).

(** An association of the canonical model with a channel it matches. *)
Definition serves (association : ModelAssociationRouteInput) (channel : ChannelRouteInput) : Prop :=
  association ∈ gi_associations input ∧ ma_canonical_model_id association = cm_id (gi_canonical_model input) ∧
  channel ∈ gi_channels input ∧
  association_matches_channel regex_is_match association channel (cm_model_key (gi_canonical_model input)) = true.

Lemma elem_of_generated c :
  c ∈ gr_candidates (generate_route_candidates regex_is_match input) ↔
  ∃ association channel, serves association channel ∧
    c = generated_candidate (gi_canonical_model input) (gi_profile input) association channel.
Proof.
  cbn. rewrite elem_of_sort_by, list_elem_of_In, in_flat_map. setoid_rewrite <-list_elem_of_In.
  setoid_rewrite list_elem_of_fmap. setoid_rewrite elem_of_filter_b. setoid_rewrite bool_decide_eq_true.
  unfold serves. naive_solver.
Qed.

Lemma length_generated :
  (length (gr_candidates (generate_route_candidates regex_is_match input)) ≤
   length (gi_associations input) * length (gi_channels input))%nat.
Proof.
  cbn. rewrite (Permutation_length (sort_by_perm generated_leb _)).
  induction (gi_associations input) as [|a l IH]; [done|]. cbn [List.filter].
  case_bool_decide; cbn [flat_map length]; [|lia]. rewrite length_app, length_fmap.
  pose proof (length_filter_le (λ channel, association_matches_channel regex_is_match a channel
    (cm_model_key (gi_canonical_model input))) (gi_channels input)). lia.
Qed.

(** The weights are [u32] and the number of pairs fits one. *)
Definition generation_input_wf : Prop :=
  Forall (λ channel, in_u32 (ch_weight channel)) (gi_channels input) ∧
  Z.of_nat (length (gi_associations input)) * Z.of_nat (length (gi_channels input)) <= u32_max.

Lemma generated_wf :
  generation_input_wf →
  candidates_wf (sort_by evaluated_leb (evaluated_candidates (generate_route_candidates regex_is_match input))).
Proof.
  intros [Hw Hlen]. rewrite Forall_forall in Hw. unfold candidates_wf.
  assert (∀ e, e ∈ sort_by evaluated_leb (evaluated_candidates (generate_route_candidates regex_is_match input)) →
    ∃ association channel, serves association channel ∧
      e = evaluated_candidate (generated_candidate (gi_canonical_model input) (gi_profile input) association channel))
    as Hin.
  { intros e. unfold evaluated_candidates. rewrite elem_of_sort_by, list_elem_of_fmap.
    intros (c & -> & (a & ch & ? & ->)%elem_of_generated). eauto. }
  split; [|split].
  - apply Forall_forall. intros e (a & ch & (_ & _ & Hch & _) & ->)%Hin. by apply Hw.
  - rewrite (Permutation_length (sort_by_perm evaluated_leb _)). unfold evaluated_candidates. rewrite length_fmap.
    pose proof length_generated. nia.
  - intros e (a & ch & _ & ->)%Hin. unfold is_selectable. cbn [filter_reason evaluated_candidate].
    destruct (gc_filter_reason _) eqn:E; [done|]. apply generated_permitted in E as []. intros _. tauto.
Qed.

Lemma selectable_permitted association channel :
  is_selectable (evaluated_candidate
    (generated_candidate (gi_canonical_model input) (gi_profile input) association channel)) = true ↔
  permitted (gi_canonical_model input) (gi_profile input) association channel.
Proof.
  rewrite <- generated_permitted. unfold is_selectable, evaluated_candidate. cbn [filter_reason].
  by destruct (gc_filter_reason _).
Qed.
End routes.

(** C35: routing respects the profile. The route selected among the generated
    candidates comes from an association of the requested canonical model and a
    channel it matches, such that the model is active or deprecated, visible and
    allowed to the profile, the association enabled, no tag of the channel denied
    and one allowed, the provider not blocked and the channel usable; it carries
    the model name of that pair. A request is left without route only when no such
    pair exists, whatever the affinity of the trace. The weights are 32-bit and
    there are at most 2^32 - 1 pairs. *)
Theorem generated_route_is_permitted (regex_is_match : string → string → bool)
    (input : RouteCandidateGenerationInput) (request : RouteRequest) (context : RouteSelectionContext)
    (Hwf : generation_input_wf input) :
  let generated := generate_route_candidates regex_is_match input in
  let model := gi_canonical_model input in
  match rd_selected (select_route_from_evaluated request (evaluated_candidates generated) context) with
  | None => ∀ association channel, serves regex_is_match input association channel →
      ¬ permitted model (gi_profile input) association channel
  | Some route => ∃ association channel,
      serves regex_is_match input association channel ∧ permitted model (gi_profile input) association channel ∧
      sr_channel_id route = ch_id channel ∧ sr_provider_id route = ch_provider_id channel ∧
      sr_provider_model route = upstream_model_name association channel model
  end.
Proof.
  cbn zeta. unfold select_route_from_evaluated.
  pose proof (generated_wf regex_is_match input Hwf) as Hcwf.
  set (candidates := sort_by evaluated_leb _) in *.
  assert (∀ e, e ∈ candidates ↔ ∃ association channel, serves regex_is_match input association channel ∧
    e = evaluated_candidate (generated_candidate (gi_canonical_model input) (gi_profile input) association channel))
    as Hin.
  { intros e. unfold candidates, evaluated_candidates. rewrite elem_of_sort_by, list_elem_of_fmap.
    setoid_rewrite elem_of_generated. naive_solver. }
  clearbody candidates. destruct (rd_selected _) as [route|] eqn:Hsel.
  - destruct (pick_selected_elem _ _ _ _ Hcwf Hsel) as (e & (a & ch & Hs & ->)%Hin & Hp%selectable_permitted & ->).
    exists a, ch. done.
  - intros a ch Hs Hp%selectable_permitted. cbn in Hsel.
    destruct (pick_by_trace_affinity _ _); [done|].
    pose proof (pick_priority_best candidates (seed (rq_policy request)) Hcwf) as H. rewrite Hsel in H.
    rewrite H in Hp; [done|]. apply Hin. eauto.
Qed.

Definition sample_generation_input : RouteCandidateGenerationInput :=
  with_profile
    (with_channel (with_channel
      (with_association (generation_input_new "gpt" (canonical_model_new "m1" "openai/gpt"))
        (association_global "a1" "m1" 10))
      (channel_with_tag (channel_new "c1" "p1" 5 100) "beta"))
      (channel_with_model_mapping_policy (channel_new "c2" "p2" 7 100) (with_trim_prefix mapping_policy_new "openai")))
    (with_denied_channel_tag profile_unrestricted "beta").

Lemma generated_route_is_permitted_witness :
  let decision := select_route_from_evaluated (route_request_new "gpt" 3)
    (evaluated_candidates (generate_route_candidates (λ _ _, false) sample_generation_input)) context_default in
  ∃ route association channel, rd_selected decision = Some route ∧
    sr_channel_id route = "c2" ∧ sr_provider_model route = "gpt" ∧
    permitted (gi_canonical_model sample_generation_input) (gi_profile sample_generation_input) association channel ∧
    ch_id channel = "c2".
Proof.
  assert (generation_input_wf sample_generation_input) as Hwf.
  { split; [repeat constructor; cbn; width_lia|vm_compute; discriminate]. }
  pose proof (generated_route_is_permitted (λ _ _, false) sample_generation_input (route_request_new "gpt" 3)
    context_default Hwf) as H.
  cbn zeta in H |- *. destruct (rd_selected _) as [route|] eqn:E; [|by vm_compute in E].
  assert (sr_channel_id route = "c2" ∧ sr_provider_model route = "gpt") as [Hid Hname].
  { vm_compute in E. injection E as <-. done. }
  destruct H as (a & ch & _ & Hp & Hc & _ & _). exists route, a, ch. by rewrite <- Hc.
Defined.

(** The priority of a candidate orders first by association, then by channel,
    as long as the association priority is between -2147 and 2146 and the
    channel priority between 0 and 999,999. Beyond that range the encoding loses
    the order: all association priorities from 2148 on give the same value. *)
Theorem route_priority_lexicographic (a1 c1 a2 c2 : Z) :
  ((-2147 <= a1 <= 2146 ∧ -2147 <= a2 <= 2146) ∧ (0 <= c1 < 1_000_000 ∧ 0 <= c2 < 1_000_000) →
   route_priority_for_generation a1 c1 <= route_priority_for_generation a2 c2 ↔ a1 < a2 ∨ a1 = a2 ∧ c1 <= c2) ∧
  (2148 <= a1 ∧ 2148 <= a2 ∧ 0 <= c1 ∧ 0 <= c2 →
   route_priority_for_generation a1 c1 = route_priority_for_generation a2 c2).
Proof.
  unfold route_priority_for_generation, saturating_i32, ROUTE_PRIORITY_ASSOCIATION_MULTIPLIER.
  split; intros H; width_lia.
Qed.
