(* ===== verification/Stream.v ===== *)
(** crates/stream/src/lib.rs: server-sent events. The incremental decoder of the
    upstream stream, the detection of the terminal event of each protocol (by a
    scan for JSON keys, without building a value), and the reason a stream is
    recorded to have ended with. *)

From S2P Require Export RustStr.

#[local] Open Scope string_scope.
#[local] Open Scope list_scope.
#[local] Open Scope Z_scope.

(** ** Data *)

Inductive StreamEndReason : Type :=
| EndCompleted | EndClientCancel | EndUpstreamEof | EndUpstreamError | EndParserError | EndTimeout
| EndGatewayAbort.

Definition stream_end_reason_as_str (reason : StreamEndReason) : string :=
  match reason with
  | EndCompleted => "completed"
  | EndClientCancel => "client_cancel"
  | EndUpstreamEof => "upstream_eof"
  | EndUpstreamError => "upstream_error"
  | EndParserError => "parser_error"
  | EndTimeout => "timeout"
  | EndGatewayAbort => "gateway_abort"
  end.

Inductive StreamProtocol : Type :=
  OpenAiChatCompletions | OpenAiResponses | AnthropicMessages | GeminiGenerateContent.

Inductive TerminalEventKind : Type := TerminalNone | TerminalCompleted | TerminalFailed.

Definition is_terminal (kind : TerminalEventKind) : bool :=
  match kind with TerminalNone => false | _ => true end.

Inductive StreamEndSignal : Type :=
| SignalTerminalEvent | SignalUpstreamEof | SignalUpstreamError | SignalParserError | SignalClientCancel
| SignalTimeout | SignalGatewayAbort.

Record SseEvent : Type := mkSseEvent {
  event : option bytes;
  data : bytes;
}.

Inductive SseParseError : Type := EventTooLarge.

Inductive SseDecodeError : Type := DecodeParse (error : SseParseError) | BufferTooLarge.

Record SseParser : Type := mkSseParser { max_event_bytes : nat }.

Record SseDecoder : Type := mkSseDecoder {
  parser : SseParser;
  buffer : bytes;
}.

Definition sse_decoder_new (max_event_bytes : nat) : SseDecoder :=
  mkSseDecoder (mkSseParser max_event_bytes) [].

(** ** Parsing a block *)

Abbreviation LF := "010"%char.
Abbreviation CR := "013"%char.

Definition trim_cr (line : bytes) : bytes := default line (strip_suffix [CR] line).

Definition trim_one_leading_space (line : bytes) : bytes := default line (strip_prefix [" "%char] line).

(** The two loops of [trim_ascii]: drop white space at the start, then at the end. *)
Fixpoint trim_ascii_start (value : bytes) : bytes :=
  match value with
  | [] => []
  | b :: rest => if is_ascii_whitespace b then trim_ascii_start rest else value
  end.

Definition trim_ascii (value : bytes) : bytes := rev (trim_ascii_start (rev (trim_ascii_start value))).

(** One line of the loop of [parse_block]. *)
Definition parse_line (acc : option bytes * bytes) (line : bytes) : option bytes * bytes :=
  let '(event, data) := acc in
  let line := trim_cr line in
  match strip_prefix (as_bytes "event:") line with
  | Some value => (Some (trim (from_utf8_lossy value)), data)
  | None =>
      match strip_prefix (as_bytes "data:") line with
      | Some value =>
          let data := match data with [] => data | _ => data ++ [LF] end in
          (event, data ++ trim_one_leading_space value)
      | None => (event, data)
      end
  end.

Definition parse_block (self : SseParser) (block : bytes) : result SseParseError SseEvent :=
  fail_if (max_event_bytes self <? length block)%nat with EventTooLarge ;;
  let '(event, data) := fold_left parse_line (split_on LF block) (None, []) in
  Ok (mkSseEvent event data).

(** ** The decoder *)

(** [buffer.windows(n).position(|window| window == pattern)]. *)
Fixpoint position_of (pattern l : bytes) : option nat :=
  match l with
  | [] => None
  | _ :: rest => if starts_with pattern l then Some 0%nat else S <$> position_of pattern rest
  end.

Definition find_sse_boundary (buffer : bytes) : option (nat * nat) :=
  let lf := (λ index, (index, 2%nat)) <$> position_of [LF; LF] buffer in
  let crlf := (λ index, (index, 4%nat)) <$> position_of [CR; LF; CR; LF] buffer in
  match lf, crlf with
  | Some lf, Some crlf => Some (if (lf.1 <=? crlf.1)%nat then lf else crlf)
  | Some lf, None => Some lf
  | None, Some crlf => Some crlf
  | None, None => None
  end.

(** The loop of [push]; [fuel] bounds the iterations, each of which drains the
    buffer. The buffer is returned also when a block is rejected. *)
Fixpoint drain_events (fuel : nat) (parser : SseParser) (buffer : bytes) (events : list SseEvent)
    : bytes * result SseDecodeError (list SseEvent) :=
  match fuel with
  | O => (buffer, Ok events)
  | S fuel =>
      match find_sse_boundary buffer with
      | None => (buffer, Ok events)
      | Some (boundary, boundary_len) =>
          let block := take boundary buffer in
          let buffer := drop (boundary + boundary_len) buffer in
          match trim_ascii block with
          | [] => drain_events fuel parser buffer events
          | _ =>
              match parse_block parser block with
              | Ok event => drain_events fuel parser buffer (events ++ [event])
              | Err error => (buffer, Err (DecodeParse error))
              end
          end
      end
  end.

Definition push (self : SseDecoder) (chunk : bytes) : SseDecoder * result SseDecodeError (list SseEvent) :=
  let buffer := buffer self ++ chunk in
  if (max_event_bytes (parser self) <? length buffer)%nat && bool_decide (find_sse_boundary buffer = None)
  then (mkSseDecoder (parser self) buffer, Err BufferTooLarge)
  else
    let '(buffer, events) := drain_events (length buffer) (parser self) buffer [] in
    (mkSseDecoder (parser self) buffer, events).

Definition finish (self : SseDecoder) : SseDecoder * result SseDecodeError (list SseEvent) :=
  match trim_ascii (buffer self) with
  | [] => (mkSseDecoder (parser self) [], Ok [])
  | _ =>
      if (max_event_bytes (parser self) <? length (buffer self))%nat then (self, Err BufferTooLarge)
      else
        (mkSseDecoder (parser self) [],
         match parse_block (parser self) (buffer self) with
         | Ok event => Ok [event]
         | Err error => Err (DecodeParse error)
         end)
  end.

(** ** Scanning JSON *)

Abbreviation QUOTE := "034"%char.
Abbreviation BACKSLASH := "092"%char.

(** The loop of [json_string_matches]. *)
Fixpoint json_string_loop (fuel : nat) (input expected : bytes) (index expected_index : nat) (matches : bool)
    : option (bool * nat) :=
  match fuel with
  | O => None
  | S fuel =>
      match input !! index with
      | None => None
      | Some byte =>
          if bool_decide (byte = BACKSLASH) then
            if (length input <=? index + 1)%nat then None
            else json_string_loop fuel input expected (index + 2) expected_index false
          else if bool_decide (byte = QUOTE) then
            Some (matches && (expected_index =? length expected)%nat, index + 1)%nat
          else
            json_string_loop fuel input expected (index + 1) (expected_index + 1)
              (matches && bool_decide (expected !! expected_index = Some byte))
      end
  end.

Definition json_string_matches (input : bytes) (start : nat) (expected : bytes) : option (bool * nat) :=
  if bool_decide (input !! start = Some QUOTE)
  then json_string_loop (S (length input)) input expected (start + 1) 0 true
  else None.

Fixpoint skip_json_ws_loop (fuel : nat) (input : bytes) (index : nat) : nat :=
  match fuel with
  | O => index
  | S fuel =>
      match input !! index with
      | Some byte => if is_ascii_whitespace byte then skip_json_ws_loop fuel input (index + 1) else index
      | None => index
      end
  end.

Definition skip_json_ws (input : bytes) (index : nat) : nat := skip_json_ws_loop (length input) input index.

Fixpoint json_string_is_closed_loop (fuel : nat) (input : bytes) (index : nat) : bool :=
  match fuel with
  | O => false
  | S fuel =>
      match input !! index with
      | None => false
      | Some byte =>
          if bool_decide (byte = BACKSLASH) then json_string_is_closed_loop fuel input (index + 2)
          else if bool_decide (byte = QUOTE) then true
          else json_string_is_closed_loop fuel input (index + 1)
      end
  end.

Definition json_string_is_closed (input : bytes) (start : nat) : bool :=
  if bool_decide (input !! start = Some QUOTE)
  then json_string_is_closed_loop (S (length input)) input (start + 1)
  else false.

Definition json_value_is_non_null (input : bytes) (index : nat) : bool :=
  match input !! index with
  | None => false
  | Some byte =>
      if bool_decide (byte = QUOTE) then json_string_is_closed input index
      else bool_decide (byte ∈ as_bytes "{[tf-") || is_ascii_digit byte
  end.

(** The loop of [json_key_string_value_eq]. *)
Fixpoint key_string_value_loop (fuel : nat) (input key value : bytes) (index : nat) : bool :=
  match fuel with
  | O => false
  | S fuel =>
      match input !! index with
      | None => false
      | Some byte =>
          if negb (bool_decide (byte = QUOTE)) then key_string_value_loop fuel input key value (index + 1)
          else
            match json_string_matches input index key with
            | None => false
            | Some (key_matches, string_end) =>
                if negb key_matches then key_string_value_loop fuel input key value string_end
                else
                  let colon := skip_json_ws input string_end in
                  if negb (bool_decide (input !! colon = Some ":"%char))
                  then key_string_value_loop fuel input key value string_end
                  else
                    let value_start := skip_json_ws input (colon + 1) in
                    if negb (bool_decide (input !! value_start = Some QUOTE))
                    then key_string_value_loop fuel input key value string_end
                    else
                      match json_string_matches input value_start value with
                      | None => false
                      | Some (value_matches, _) =>
                          if value_matches then true else key_string_value_loop fuel input key value string_end
                      end
            end
      end
  end.

Definition json_key_string_value_eq (input key value : bytes) : bool :=
  key_string_value_loop (S (length input)) input key value 0.

(** The loop of [json_key_has_non_null_value]. *)
Fixpoint key_non_null_loop (fuel : nat) (input key : bytes) (index : nat) : bool :=
  match fuel with
  | O => false
  | S fuel =>
      match input !! index with
      | None => false
      | Some byte =>
          if negb (bool_decide (byte = QUOTE)) then key_non_null_loop fuel input key (index + 1)
          else
            match json_string_matches input index key with
            | None => false
            | Some (key_matches, string_end) =>
                if negb key_matches then key_non_null_loop fuel input key string_end
                else
                  let colon := skip_json_ws input string_end in
                  if negb (bool_decide (input !! colon = Some ":"%char))
                  then key_non_null_loop fuel input key string_end
                  else json_value_is_non_null input (skip_json_ws input (colon + 1))
            end
      end
  end.

Definition json_key_has_non_null_value (input key : bytes) : bool :=
  key_non_null_loop (S (length input)) input key 0.

(** ** Terminal events and end reasons *)

Definition data_type_is (event : SseEvent) (value : string) : bool :=
  json_key_string_value_eq (data event) (as_bytes "type") (as_bytes value).

Definition event_name_is (event : SseEvent) (name : string) : bool :=
  bool_decide (Stream.event event = Some (as_bytes name)).

Definition responses_terminal_event_kind (event : SseEvent) : TerminalEventKind :=
  if event_name_is event "response.completed" then TerminalCompleted
  else if event_name_is event "response.failed" || event_name_is event "response.incomplete"
          || event_name_is event "response.cancelled" then TerminalFailed
  else if data_type_is event "response.completed" then TerminalCompleted
  else if data_type_is event "response.failed" || data_type_is event "response.incomplete"
          || data_type_is event "response.cancelled" then TerminalFailed
  else TerminalNone.

Definition anthropic_terminal_event_kind (event : SseEvent) : TerminalEventKind :=
  if event_name_is event "message_stop" then TerminalCompleted
  else if event_name_is event "error" then TerminalFailed
  else if data_type_is event "message_stop" then TerminalCompleted
  else if data_type_is event "error" then TerminalFailed
  else TerminalNone.

Definition terminal_event_kind (protocol : StreamProtocol) (event : SseEvent) : TerminalEventKind :=
  match protocol with
  | OpenAiChatCompletions =>
      if bool_decide (trim_ascii (data event) = as_bytes "[DONE]") then TerminalCompleted else TerminalNone
  | OpenAiResponses => responses_terminal_event_kind event
  | AnthropicMessages => anthropic_terminal_event_kind event
  | GeminiGenerateContent =>
      if json_key_has_non_null_value (data event) (as_bytes "finishReason")
         || json_key_has_non_null_value (data event) (as_bytes "finish_reason")
      then TerminalCompleted else TerminalNone
  end.

Definition is_terminal_event (protocol : StreamProtocol) (event : SseEvent) : bool :=
  is_terminal (terminal_event_kind protocol event).

Definition stream_end_reason (terminal_seen : bool) (signal : StreamEndSignal) : StreamEndReason :=
  match signal with
  | SignalTerminalEvent => EndCompleted
  | SignalUpstreamEof => if terminal_seen then EndCompleted else EndUpstreamEof
  | SignalUpstreamError => EndUpstreamError
  | SignalParserError => EndParserError
  | SignalClientCancel => EndClientCancel
  | SignalTimeout => EndTimeout
  | SignalGatewayAbort => EndGatewayAbort
  end.

Definition determine_stream_end_reason (terminal_seen : bool) (signal : StreamEndSignal) : StreamEndReason :=
  stream_end_reason terminal_seen signal.

Definition stream_end_reason_for_terminal_kind (terminal_kind : TerminalEventKind) (signal : StreamEndSignal)
    : StreamEndReason :=
  match signal with
  | SignalTerminalEvent =>
      match terminal_kind with
      | TerminalFailed => EndUpstreamError
      | TerminalCompleted => EndCompleted
      | TerminalNone => EndUpstreamEof
      end
  | SignalUpstreamEof =>
      match terminal_kind with
      | TerminalFailed => EndUpstreamError
      | _ => stream_end_reason (is_terminal terminal_kind) SignalUpstreamEof
      end
  | _ => stream_end_reason (is_terminal terminal_kind) signal
  end.

(** ** Boundaries *)

(** A boundary of length [n] at index [i]. *)
Definition boundary_at (l : bytes) (i n : nat) : Prop :=
  (n = 2 ∧ l !! i = Some LF ∧ l !! (i + 1) = Some LF
   ∨ n = 4 ∧ l !! i = Some CR ∧ l !! (i + 1) = Some LF ∧ l !! (i + 2) = Some CR ∧ l !! (i + 3) = Some LF)%nat.

Lemma starts_with_drop p l i :
  starts_with p (drop i l) = true ↔ ∀ q c, p !! q = Some c → l !! (i + q)%nat = Some c.
Proof.
  rewrite starts_with_iff. split.
  - intros [k Hk] q c Hq. rewrite <- lookup_drop, Hk. by apply lookup_app_l_Some.
  - intros H. exists (drop (length p) (drop i l)). rewrite <- (take_drop (length p) (drop i l)) at 1. f_equal.
    apply list_eq. intros q. destruct (p !! q) as [c|] eqn:E.
    + rewrite lookup_take_lt by (by eapply lookup_lt_Some). rewrite lookup_drop. by apply H.
    + apply lookup_take_ge. by apply lookup_ge_None.
Qed.

Lemma starts_with_lf l i : starts_with [LF; LF] (drop i l) = true ↔ boundary_at l i 2.
Proof.
  rewrite starts_with_drop. unfold boundary_at. split.
  - intros H. left. split; [done|]. split; [|by apply (H 1%nat)].
    rewrite <- (Nat.add_0_r i). by apply (H 0%nat).
  - intros [(_ & H0 & H1)|(? & _)]; [|done]. intros [|[|q]] c Hq; [| |done]; injection Hq as <-; [|done].
    by rewrite Nat.add_0_r.
Qed.

Lemma starts_with_crlf l i : starts_with [CR; LF; CR; LF] (drop i l) = true ↔ boundary_at l i 4.
Proof.
  rewrite starts_with_drop. unfold boundary_at. split.
  - intros H. right. split; [done|].
    split; [rewrite <- (Nat.add_0_r i); by apply (H 0%nat)|].
    split; [by apply (H 1%nat)|]. split; [by apply (H 2%nat)|by apply (H 3%nat)].
  - intros [(? & _)|(_ & H0 & H1 & H2 & H3)]; [done|].
    intros [|[|[|[|q]]]] c Hq; [| | | |done]; injection Hq as <-; [|done..]. by rewrite Nat.add_0_r.
Qed.

Lemma position_of_Some p l i :
  position_of p l = Some i →
  starts_with p (drop i l) = true ∧ ∀ j, (j < i)%nat → starts_with p (drop j l) = false.
Proof.
  revert i. induction l as [|b l IH]; intros i H; [done|]. cbn [position_of] in H.
  destruct (starts_with p (b :: l)) eqn:E.
  - injection H as <-. split; [done|lia].
  - apply fmap_Some in H as (i' & H & ->). destruct (IH _ H) as [H1 H2]. split; [done|].
    intros [|j] Hj; [done|]. apply H2. lia.
Qed.

Lemma position_of_None p l :
  p ≠ [] → position_of p l = None → ∀ j, starts_with p (drop j l) = false.
Proof.
  intros Hp. induction l as [|b l IH]; intros H j.
  - rewrite drop_nil. by destruct p.
  - cbn [position_of] in H. destruct (starts_with p (b :: l)) eqn:E; [done|].
    apply fmap_None in H. destruct j as [|j]; [done|]. by apply IH.
Qed.

Lemma boundary_at_unique l i n m : boundary_at l i n → boundary_at l i m → n = m.
Proof. unfold boundary_at. intros [H|H] [H'|H']; destruct_and!; congruence. Qed.

Lemma boundary_at_length l i n : boundary_at l i n → (i + n ≤ length l)%nat.
Proof.
  intros [(-> & _ & H)|(-> & _ & _ & _ & H)]; apply lookup_lt_Some in H; lia.
Qed.

Lemma find_sse_boundary_cases l :
  (∃ i n, find_sse_boundary l = Some (i, n) ∧ boundary_at l i n ∧ ∀ j m, (j < i)%nat → ¬ boundary_at l j m)
  ∨ (find_sse_boundary l = None ∧ ∀ j m, ¬ boundary_at l j m).
Proof.
  assert (∀ j m, boundary_at l j m →
    m = 2%nat ∧ starts_with [LF; LF] (drop j l) = true ∨
    m = 4%nat ∧ starts_with [CR; LF; CR; LF] (drop j l) = true) as Hb.
  { intros j m H. rewrite starts_with_lf, starts_with_crlf. destruct H as [(-> & H)|(-> & H)]; [left|right];
      (split; [done|]); unfold boundary_at; auto. }
  unfold find_sse_boundary.
  destruct (position_of [LF; LF] l) as [i|] eqn:E1; destruct (position_of [CR; LF; CR; LF] l) as [k|] eqn:E2;
    cbn [fmap option_fmap option_map fst].
  - apply position_of_Some in E1 as [A1 B1]. apply position_of_Some in E2 as [A2 B2]. left.
    destruct (Nat.leb_spec i k); [exists i, 2%nat|exists k, 4%nat]; (split; [done|]);
      (split; [by apply starts_with_lf || by apply starts_with_crlf|]);
      intros j m Hj [(-> & H')|(-> & H')]%Hb; rewrite ?B1, ?B2 in H' by lia; done.
  - apply position_of_Some in E1 as [A1 B1]. left. exists i, 2%nat. split; [done|].
    split; [by apply starts_with_lf|]. intros j m Hj [(-> & H')|(-> & H')]%Hb.
    + by rewrite B1 in H'.
    + by rewrite position_of_None in H'.
  - apply position_of_Some in E2 as [A1 B1]. left. exists k, 4%nat. split; [done|].
    split; [by apply starts_with_crlf|]. intros j m Hj [(-> & H')|(-> & H')]%Hb.
    + by rewrite position_of_None in H'.
    + by rewrite B1 in H'.
  - right. split; [done|]. intros j m [(-> & H')|(-> & H')]%Hb; by rewrite position_of_None in H'.
Qed.

Lemma find_sse_boundary_Some l i n :
  find_sse_boundary l = Some (i, n) ↔ boundary_at l i n ∧ ∀ j m, (j < i)%nat → ¬ boundary_at l j m.
Proof.
  destruct (find_sse_boundary_cases l) as [(i' & n' & -> & Hat & Hmin)|(-> & Hno)].
  - split; [naive_solver|]. intros [Hat' Hmin'].
    destruct (Nat.lt_trichotomy i i') as [Hlt|[->|Hlt]]; [by destruct (Hmin i n Hlt)| |by destruct (Hmin' i' n' Hlt)].
    by rewrite (boundary_at_unique _ _ _ _ Hat Hat').
  - split; [done|]. intros [Hat _]. by destruct (Hno i n).
Qed.

Lemma find_sse_boundary_None l : find_sse_boundary l = None ↔ ∀ j m, ¬ boundary_at l j m.
Proof.
  destruct (find_sse_boundary_cases l) as [(i' & n' & -> & Hat & Hmin)|(-> & Hno)]; [|done].
  split; [done|]. intros H. by destruct (H i' n').
Qed.

Lemma boundary_at_app l k i n : boundary_at l i n → boundary_at (l ++ k) i n.
Proof.
  intros [H|H]; [left|right]; destruct_and!; split_and!; try done; by apply lookup_app_l_Some.
Qed.

Lemma boundary_at_app_inv l k i n :
  (i + n ≤ length l)%nat → boundary_at (l ++ k) i n → boundary_at l i n.
Proof.
  intros Hl [H|H]; [left|right]; destruct_and!; subst; split_and!; try done;
    by rewrite <- (lookup_app_l l k) by lia.
Qed.

(** The first boundary of a buffer stays the first one when bytes arrive. *)
Lemma find_sse_boundary_app l k i n :
  find_sse_boundary l = Some (i, n) → find_sse_boundary (l ++ k) = Some (i, n).
Proof.
  rewrite !find_sse_boundary_Some. intros [Hat Hmin]. split; [by apply boundary_at_app|].
  intros j m Hj Hat'. pose proof (boundary_at_length _ _ _ Hat) as Hlen.
  destruct (decide (j + m ≤ length l)%nat) as [|Hgt].
  { eapply Hmin, boundary_at_app_inv; eauto. }
  apply (boundary_at_app l k) in Hat.
  destruct Hat as [(-> & _ & H1)|(-> & _)]; destruct Hat' as [(-> & H')|(-> & _ & _ & H2 & _)]; try lia.
  replace (j + 2)%nat with (i + 1)%nat in H2 by lia. congruence.
Qed.

(** ** The decode loop *)

(** The events of one block: none for a blank one. *)
Definition block_events (parser : SseParser) (block : bytes) : result SseDecodeError (list SseEvent) :=
  match trim_ascii block with
  | [] => Ok []
  | _ => match parse_block parser block with Ok event => Ok [event] | Err error => Err (DecodeParse error) end
  end.

Definition prepend (events : list SseEvent) (r : bytes * result SseDecodeError (list SseEvent)) :=
  (r.1, match r.2 with Ok later => Ok (events ++ later) | Err e => Err e end).

Definition drained (parser : SseParser) (l : bytes) := drain_events (length l) parser l [].

Lemma prepend_nil r : prepend [] r = r.
Proof. by destruct r as [b [es|e]]. Qed.

Lemma prepend_app es1 es2 r : prepend es1 (prepend es2 r) = prepend (es1 ++ es2) r.
Proof. destruct r as [b [es|e]]; unfold prepend; cbn; [|done]. by rewrite app_assoc. Qed.

Lemma drain_events_step fuel parser l events :
  drain_events (S fuel) parser l events =
  match find_sse_boundary l with
  | None => (l, Ok events)
  | Some (i, n) =>
      match block_events parser (take i l) with
      | Ok es => drain_events fuel parser (drop (i + n) l) (events ++ es)
      | Err e => (drop (i + n) l, Err e)
      end
  end.
Proof.
  cbn [drain_events]. destruct (find_sse_boundary l) as [[i n]|]; [|done].
  unfold block_events. destruct (trim_ascii (take i l)); [by rewrite app_nil_r|].
  by destruct (parse_block _ _).
Qed.

Lemma boundary_drop_length l i n :
  find_sse_boundary l = Some (i, n) → (length (drop (i + n) l) < length l)%nat.
Proof.
  rewrite find_sse_boundary_Some. intros [Hat _]. rewrite length_drop.
  pose proof (boundary_at_length _ _ _ Hat). destruct Hat as [(-> & _)|(-> & _)]; lia.
Qed.

(** The fuel is enough: more of it changes nothing, and the accumulated events
    come first. *)
Lemma drain_events_fuel fuel parser l events :
  (length l ≤ fuel)%nat → drain_events fuel parser l events = prepend events (drained parser l).
Proof.
  unfold drained. revert l events.
  induction fuel as [fuel IH] using (well_founded_induction lt_wf). intros l events Hl.
  destruct fuel as [|fuel].
  { destruct l; [|cbn in Hl; lia]. unfold prepend. cbn. by rewrite app_nil_r. }
  destruct (length l) as [|k] eqn:Ek.
  { apply nil_length_inv in Ek as ->. unfold prepend. cbn. by rewrite app_nil_r. }
  rewrite !drain_events_step. destruct (find_sse_boundary l) as [[i n]|] eqn:E.
  2: { unfold prepend. cbn. by rewrite app_nil_r. }
  pose proof (boundary_drop_length _ _ _ E) as Hd.
  destruct (block_events parser (take i l)) as [es|e]; [|done].
  rewrite (IH fuel), (IH k) by lia. by rewrite prepend_app.
Qed.

Lemma drained_eq parser l :
  drained parser l =
  match find_sse_boundary l with
  | None => (l, Ok [])
  | Some (i, n) =>
      match block_events parser (take i l) with
      | Ok es => prepend es (drained parser (drop (i + n) l))
      | Err e => (drop (i + n) l, Err e)
      end
  end.
Proof.
  rewrite <- (prepend_nil (drained parser l)), <- (drain_events_fuel (S (length l))) by lia.
  rewrite drain_events_step. destruct (find_sse_boundary l) as [[i n]|] eqn:E; [|done].
  destruct (block_events parser (take i l)); [|done]. rewrite drain_events_fuel; [done|].
  pose proof (boundary_drop_length _ _ _ E). lia.
Qed.

(** Induction on the boundaries of a buffer. *)
Lemma drained_ind (P : bytes → Prop) :
  (∀ l, find_sse_boundary l = None → P l) →
  (∀ l i n, find_sse_boundary l = Some (i, n) → P (drop (i + n) l) → P l) →
  ∀ l, P l.
Proof.
  intros Hnone Hsome l. induction l as [l IH] using (induction_ltof1 _ length).
  destruct (find_sse_boundary l) as [[i n]|] eqn:E; [|by apply Hnone].
  eapply Hsome; [done|]. apply IH. by apply boundary_drop_length.
Qed.

Lemma drained_residual parser l r es : drained parser l = (r, Ok es) → find_sse_boundary r = None.
Proof.
  revert r es. induction l as [l Hf|l i n Hf IH] using drained_ind; intros r es;
    rewrite drained_eq, Hf; [naive_solver|].
  destruct (block_events _ _) as [es1|e]; [|done].
  destruct (drained parser (drop (i + n) l)) as [r' [es'|e]] eqn:E; unfold prepend; cbn; [|done].
  intros [= <- <-]. by eapply IH.
Qed.

(** What a buffer decodes to before and after more bytes arrive. *)
Lemma drained_app parser l k :
  drained parser (l ++ k) =
  match drained parser l with
  | (r, Ok es) => prepend es (drained parser (r ++ k))
  | (r, Err e) => (r ++ k, Err e)
  end.
Proof.
  induction l as [l Hf|l i n Hf IH] using drained_ind.
  { rewrite (drained_eq parser l), Hf. by rewrite prepend_nil. }
  rewrite (drained_eq parser l), (drained_eq parser (l ++ k)), Hf, (find_sse_boundary_app _ _ _ _ Hf).
  apply find_sse_boundary_Some in Hf as [Hat%boundary_at_length _].
  rewrite take_app_le, drop_app_le by lia.
  destruct (block_events parser (take i l)) as [es|e]; [|done]. rewrite IH.
  destruct (drained parser (drop (i + n) l)) as [r [es'|e]]; [|done].
  by rewrite prepend_app.
Qed.

Lemma push_eq d c :
  push d c =
  let l := buffer d ++ c in
  if (max_event_bytes (parser d) <? length l)%nat && bool_decide (find_sse_boundary l = None)
  then (mkSseDecoder (parser d) l, Err BufferTooLarge)
  else (mkSseDecoder (parser d) (drained (parser d) l).1, (drained (parser d) l).2).
Proof.
  unfold push, drained. cbn zeta. destruct (_ && _); [done|]. by destruct (drain_events _ _ _ _).
Qed.

(** ** Blocks

    A body as the blocks its boundaries close, and what follows the last one. *)

Definition no_boundary (l : bytes) : Prop := ∀ j m, ¬ boundary_at l j m.

Inductive blocks_of : bytes → list bytes → bytes → Prop :=
| last_block l : no_boundary l → blocks_of l [] l
| next_block l i n blocks rest :
    boundary_at l i n → (∀ j m, (j < i)%nat → ¬ boundary_at l j m) →
    blocks_of (drop (i + n) l) blocks rest → blocks_of l (take i l :: blocks) rest.

Definition blank (block : bytes) : Prop := Forall (λ c, is_ascii_whitespace c = true) block.

(** The events of blocks: one for each that is not blank. *)
Inductive decodes_to (parser : SseParser) : list bytes → list SseEvent → Prop :=
| decodes_nil : decodes_to parser [] []
| decodes_blank block blocks events :
    blank block → decodes_to parser blocks events → decodes_to parser (block :: blocks) events
| decodes_event block blocks event events :
    ¬ blank block → parse_block parser block = Ok event → decodes_to parser blocks events →
    decodes_to parser (block :: blocks) (event :: events).

Lemma trim_ascii_start_nil l : trim_ascii_start l = [] → Forall (λ c, is_ascii_whitespace c = true) l.
Proof.
  induction l as [|c l IH]; cbn; [constructor|]. destruct (is_ascii_whitespace c) eqn:E; [|done].
  intros H. constructor; auto.
Qed.

Lemma trim_ascii_start_blank l : Forall (λ c, is_ascii_whitespace c = true) l → trim_ascii_start l = [].
Proof. induction 1 as [|c l Hc Hl IH]; cbn; [done|]. by rewrite Hc. Qed.

(** A block is blank iff it holds white space only. *)
Lemma trim_ascii_nil l : trim_ascii l = [] ↔ Forall (λ c, is_ascii_whitespace c = true) l.
Proof.
  unfold trim_ascii. split.
  - intros H. apply (f_equal (@rev ascii)) in H. rewrite rev_involutive in H.
    apply trim_ascii_start_nil in H. apply List.Forall_rev in H. rewrite rev_involutive in H.
    destruct (trim_ascii_start l) as [|c k] eqn:E; [by apply trim_ascii_start_nil|].
    exfalso. apply Forall_inv in H. revert E. induction l as [|b l IH]; cbn; [done|].
    destruct (is_ascii_whitespace b) eqn:Eb; [done|]. intros [= -> ->]. congruence.
  - intros H. by rewrite (trim_ascii_start_blank l).
Qed.

Lemma blocks_of_none l : find_sse_boundary l = None → blocks_of l [] l.
Proof. intros Hno. apply last_block. unfold no_boundary. by apply find_sse_boundary_None. Qed.

Lemma blocks_of_found l i n blocks rest :
  find_sse_boundary l = Some (i, n) → blocks_of (drop (i + n) l) blocks rest → blocks_of l (take i l :: blocks) rest.
Proof. intros [Hat Hmin]%find_sse_boundary_Some. by apply next_block. Qed.

Lemma blocks_of_inv l blocks rest :
  blocks_of l blocks rest →
  match find_sse_boundary l with
  | None => blocks = [] ∧ rest = l
  | Some (i, n) => ∃ later, blocks = take i l :: later ∧ blocks_of (drop (i + n) l) later rest
  end.
Proof.
  intros [l' Hno%find_sse_boundary_None|l' i n later rest' Hat Hmin Hlater]; [by rewrite Hno|].
  rewrite (proj2 (find_sse_boundary_Some l' i n)) by done. eauto.
Qed.

Lemma blocks_of_det l blocks rest blocks' rest' :
  blocks_of l blocks rest → blocks_of l blocks' rest' → blocks = blocks' ∧ rest = rest'.
Proof.
  revert blocks rest blocks' rest'.
  induction l as [l Hf|l i n Hf IH] using drained_ind; intros blocks rest blocks' rest' H H';
    apply blocks_of_inv in H, H'; rewrite Hf in H, H'; [naive_solver|].
  destruct H as (later & -> & H), H' as (later' & -> & H'). by destruct (IH _ _ _ _ H H') as [-> ->].
Qed.

Lemma blocks_of_app l k blocks rest blocks' rest' :
  blocks_of l blocks rest → blocks_of (rest ++ k) blocks' rest' → blocks_of (l ++ k) (blocks ++ blocks') rest'.
Proof.
  intros Hl Hk. induction Hl as [l _|l i n blocks rest Hat Hmin _ IH]; [exact Hk|].
  assert (find_sse_boundary (l ++ k) = Some (i, n)) as Hf
    by (apply find_sse_boundary_app, find_sse_boundary_Some; done).
  pose proof (boundary_at_length _ _ _ Hat). cbn [app].
  rewrite <-(take_app_le l k i) by lia. eapply blocks_of_found; [done|]. rewrite drop_app_le by lia. by apply IH.
Qed.

Lemma block_events_cases parser block :
  match block_events parser block with
  | Ok events => ∀ blocks later, decodes_to parser blocks later → decodes_to parser (block :: blocks) (events ++ later)
  | Err (DecodeParse error) => ¬ blank block ∧ parse_block parser block = Err error
  | Err BufferTooLarge => False
  end.
Proof.
  unfold block_events. pose proof (trim_ascii_nil block) as Hblank.
  destruct (trim_ascii block) as [|c l].
  - intros blocks later. apply decodes_blank. by apply Hblank.
  - assert (¬ blank block) as Hnot by (by intros Hb; apply Hblank in Hb).
    destruct (parse_block parser block) eqn:Hparse; [|done]. intros blocks later. by apply decodes_event.
Qed.

(** What a decoder makes of a buffer. *)
Definition drain_spec (parser : SseParser) (blocks : list bytes) (rest buffer' : bytes)
    (answer : result SseDecodeError (list SseEvent)) : Prop :=
  match answer with
  | Ok events => buffer' = rest ∧ decodes_to parser blocks events
  | Err (DecodeParse error) =>
      ∃ before block after events, blocks = before ++ block :: after ∧ decodes_to parser before events ∧
        ¬ blank block ∧ parse_block parser block = Err error
  | Err BufferTooLarge => False
  end.

Lemma drained_spec parser l :
  ∃ blocks rest, blocks_of l blocks rest ∧ drain_spec parser blocks rest (drained parser l).1 (drained parser l).2.
Proof.
  induction l as [l Hf|l i n Hf (blocks & rest & Hblocks & Hspec)] using drained_ind; rewrite drained_eq, Hf.
  { exists [], l. split; [by apply blocks_of_none|]. split; [done|constructor]. }
  exists (take i l :: blocks), rest. split; [by eapply blocks_of_found|].
  pose proof (block_events_cases parser (take i l)) as Hcases.
  destruct (block_events parser (take i l)) as [es|[error|]]; [| |done].
  2:{ exists [], (take i l), blocks, []. destruct Hcases. split_and!; [done|apply decodes_nil|done..]. }
  destruct (drained parser (drop (i + n) l)) as [r [later|[error|]]]; cbn in *; [| |done].
  - destruct Hspec as [-> Hlater]. split; [done|]. by apply Hcases.
  - destruct Hspec as (before & block & after & events & -> & Hbefore & Hblank & Hparse).
    exists (take i l :: before), block, after, (es ++ events). split_and!; [done|by apply Hcases|done..].
Qed.

(** ** Chunks *)

(** The chunks of a response body pushed one after the other, up to an error. *)
Fixpoint push_all (d : SseDecoder) (chunks : list bytes) : SseDecoder * result SseDecodeError (list SseEvent) :=
  match chunks with
  | [] => (d, Ok [])
  | c :: chunks =>
      match push d c with
      | (d', Ok es) =>
          match push_all d' chunks with
          | (d'', Ok es') => (d'', Ok (es ++ es'))
          | (d'', Err e) => (d'', Err e)
          end
      | (d', Err e) => (d', Err e)
      end
  end.

Lemma push_all_snoc d chunks c :
  push_all d (chunks ++ [c]) =
  match push_all d chunks with
  | (d', Ok es) =>
      match push d' c with
      | (d'', Ok es') => (d'', Ok (es ++ es'))
      | (d'', Err e) => (d'', Err e)
      end
  | (d', Err e) => (d', Err e)
  end.
Proof.
  revert d. induction chunks as [|c0 chunks IH]; intros d; cbn [app push_all].
  - destruct (push d c) as [d' [es|e]]; [|done]. by rewrite app_nil_r.
  - destruct (push d c0) as [d' [es|e]]; [|done]. rewrite IH.
    destruct (push_all d' chunks) as [d1 [es1|e]]; [|done].
    destruct (push d1 c) as [d2 [es2|e]]; [|done]. by rewrite app_assoc.
Qed.

Lemma find_sse_boundary_app_None l k : find_sse_boundary (l ++ k) = None → find_sse_boundary l = None.
Proof.
  intros H. destruct (find_sse_boundary l) as [[i n]|] eqn:E; [|done].
  by rewrite (find_sse_boundary_app _ _ _ _ E) in H.
Qed.

(** One more chunk, against pushing it together with what came before. *)
Lemma push_push d c1 d1 es c2 :
  push d c1 = (d1, Ok es) →
  (push d1 c2).2 = Err BufferTooLarge ∨
  push d (c1 ++ c2) =
  ((push d1 c2).1, match (push d1 c2).2 with Ok es' => Ok (es ++ es') | Err e => Err e end).
Proof.
  rewrite !push_eq. cbn zeta. destruct (_ && _) eqn:G1; [done|]. intros [= <- Hes]. cbn [buffer parser].
  destruct (drained (parser d) (buffer d ++ c1)) as [r res] eqn:E. cbn in Hes. subst res. cbn [fst].
  pose proof (drained_residual _ _ _ _ E) as Hr.
  destruct ((max_event_bytes (parser d) <? length (r ++ c2))%nat && bool_decide (find_sse_boundary (r ++ c2) = None))
    eqn:G2; [by left|]. right.
  rewrite app_assoc, drained_app, E.
  replace (_ && _) with false; [by destruct (drained (parser d) (r ++ c2)) as [r' [es'|e]]|].
  symmetry. apply andb_false_iff. rewrite andb_false_iff in G2.
  destruct (find_sse_boundary ((buffer d ++ c1) ++ c2)) eqn:F; [by right|].
  pose proof (find_sse_boundary_app_None _ _ F) as F1.
  rewrite drained_eq, F1 in E. injection E as <- <-. rewrite F in G2. destruct G2; [by left|done].
Qed.

Lemma push_error_app d c1 d1 e c2 :
  push d c1 = (d1, Err (DecodeParse e)) → (push d (c1 ++ c2)).2 = Err (DecodeParse e).
Proof.
  rewrite !push_eq. cbn zeta. destruct (_ && _) eqn:G1; [done|]. intros [= <- Hes].
  destruct (drained (parser d) (buffer d ++ c1)) as [r res] eqn:E. cbn in Hes. subst res.
  rewrite app_assoc. destruct (find_sse_boundary ((buffer d ++ c1) ++ c2)) eqn:F.
  - rewrite andb_false_r, drained_app, E. done.
  - apply find_sse_boundary_app_None in F. by rewrite drained_eq, F in E.
Qed.

(** Some chunk leaves the decoder with more bytes than the limit and without a
    boundary among those that are not decoded yet. *)
Definition overflows (max : nat) (chunks : list bytes) : Prop :=
  ∃ before chunk after blocks rest, chunks = before ++ chunk :: after ∧ blocks_of (concat before) blocks rest ∧
    no_boundary (rest ++ chunk) ∧ (max < length (rest ++ chunk))%nat.

Lemma push_too_large d c :
  (push d c).2 = Err BufferTooLarge ↔
  no_boundary (buffer d ++ c) ∧ (max_event_bytes (parser d) < length (buffer d ++ c))%nat.
Proof.
  rewrite push_eq. cbn zeta. unfold no_boundary. rewrite <-find_sse_boundary_None.
  destruct (Nat.ltb_spec (max_event_bytes (parser d)) (length (buffer d ++ c))) as [Hlong|Hshort]; cbn [andb].
  - case_bool_decide as Hf; [done|]. split; [|naive_solver].
    destruct (drained_spec (parser d) (buffer d ++ c)) as (blocks & rest & _ & Hspec). cbn.
    intros Hres. by rewrite Hres in Hspec.
  - split; [|lia]. destruct (drained_spec (parser d) (buffer d ++ c)) as (blocks & rest & _ & Hspec). cbn.
    intros Hres. by rewrite Hres in Hspec.
Qed.

Lemma push_Ok_blocks d c d' es :
  push d c = (d', Ok es) →
  parser d' = parser d ∧ ∃ blocks, blocks_of (buffer d ++ c) blocks (buffer d') ∧ decodes_to (parser d) blocks es.
Proof.
  rewrite push_eq. cbn zeta. destruct (_ && _); [done|]. intros [= <- Hes]. split; [done|]. cbn [buffer].
  destruct (drained_spec (parser d) (buffer d ++ c)) as (blocks & rest & Hblocks & Hspec). rewrite Hes in Hspec.
  destruct Hspec as [-> ?]. eauto.
Qed.

Lemma push_all_blocks max chunks d es :
  push_all (sse_decoder_new max) chunks = (d, Ok es) →
  parser d = mkSseParser max ∧ ∃ blocks, blocks_of (concat chunks) blocks (buffer d).
Proof.
  revert d es. induction chunks as [|c chunks IH] using rev_ind; intros d es.
  { intros [= <- <-]. split; [done|]. exists []. by apply blocks_of_none. }
  rewrite push_all_snoc, concat_app. cbn [concat]. rewrite app_nil_r.
  destruct (push_all _ chunks) as [d1 [es1|]]; [|done]. destruct (IH _ _ eq_refl) as (Hparser & blocks & Hblocks).
  destruct (push d1 c) as [d2 [es2|]] eqn:Hpush; [|done]. intros [= <- <-].
  apply push_Ok_blocks in Hpush as (-> & later & Hlater & _). split; [done|]. eexists. by eapply blocks_of_app.
Qed.

Lemma push_all_app_Ok d before after d' es :
  push_all d (before ++ after) = (d', Ok es) → ∃ d1 es1, push_all d before = (d1, Ok es1) ∧ is_ok (push_all d1 after).2 = true.
Proof.
  revert d d' es. induction before as [|c before IH]; intros d d' es; cbn [app push_all].
  { intros Hall. eexists _, _. split; [done|]. by rewrite Hall. }
  destruct (push d c) as [d1 [es1|]]; [|done]. destruct (push_all d1 (before ++ after)) as [d2 [es2|]] eqn:Hall; [|done].
  intros _. destruct (IH _ _ _ Hall) as (d3 & es3 & -> & Hafter). eauto.
Qed.

Lemma push_all_Ok_fits max chunks d es : push_all (sse_decoder_new max) chunks = (d, Ok es) → ¬ overflows max chunks.
Proof.
  intros Hall (before & chunk & after & blocks & rest & -> & Hblocks & Hno & Hlong).
  apply push_all_app_Ok in Hall as (d1 & es1 & Hbefore & Hafter).
  apply push_all_blocks in Hbefore as (Hparser & blocks' & Hblocks').
  destruct (blocks_of_det _ _ _ _ _ Hblocks Hblocks') as [_ ->].
  assert ((push d1 chunk).2 = Err BufferTooLarge) as Hlarge by (apply push_too_large; by rewrite Hparser).
  cbn [push_all] in Hafter. destruct (push d1 chunk) as [d2 r]. cbn in Hlarge. by subst r.
Qed.

Lemma push_all_too_large max chunks :
  (push_all (sse_decoder_new max) chunks).2 = Err BufferTooLarge → overflows max chunks.
Proof.
  induction chunks as [|c chunks IH] using rev_ind; [done|]. rewrite push_all_snoc.
  destruct (push_all _ chunks) as [d1 [es|e]] eqn:Hall.
  - pose proof (push_too_large d1 c) as Hlarge. apply push_all_blocks in Hall as (Hparser & blocks & Hblocks).
    destruct (push d1 c) as [d2 [es2|e]]; [done|]. cbn. intros He. destruct Hlarge as [Hlarge _].
    destruct (Hlarge He) as [Hno Hlong]. rewrite Hparser in Hlong. by exists chunks, c, [], blocks, (buffer d1).
  - intros He. destruct (IH He) as (before & chunk & after & blocks & rest & -> & H).
    exists before, chunk, (after ++ [c]), blocks, rest. split; [|done]. by rewrite <-app_assoc.
Qed.

Lemma push_all_whole max chunks :
  let chunked := push_all (sse_decoder_new max) chunks in
  let whole := push (sse_decoder_new max) (concat chunks) in
  chunked.2 = Err BufferTooLarge
  ∨ chunked.2 = whole.2 ∧ (∀ events, chunked.2 = Ok events → chunked.1 = whole.1).
Proof.
  cbn zeta. induction chunks as [|c chunks IH] using rev_ind.
  { right. rewrite push_eq. cbn [buffer sse_decoder_new concat app length parser max_event_bytes].
    rewrite (proj2 (Nat.ltb_ge _ _)) by lia. done. }
  rewrite push_all_snoc, concat_app. cbn [concat]. rewrite app_nil_r.
  destruct (push_all _ chunks) as [d1 [es|[e|]]]; cbn [fst snd] in *; [| |by left].
  - destruct IH as [?|[IH Hd]]; [done|]. specialize (Hd es eq_refl).
    destruct (push _ (concat chunks)) as [d2 r2] eqn:E. cbn in IH, Hd. subst r2 d2.
    destruct (push_push _ _ _ _ c E) as [H|H]; destruct (push d1 c) as [d3 [es'|e]]; cbn [fst snd] in *.
    + done.
    + left. congruence.
    + right. by rewrite H.
    + right. by rewrite H.
  - destruct IH as [?|[IH _]]; [done|]. right. split; [|done].
    destruct (push _ (concat chunks)) as [d2 r2] eqn:E. cbn in IH. subst r2.
    by rewrite (push_error_app _ _ _ _ _ E).
Qed.

(** C20: decoding does not depend on how the body is cut into chunks. When pushing
    the chunks of a response one after the other succeeds, it gives the events of
    pushing the whole body at once and leaves the same decoder; a parse error is
    the one of the whole body. The chunks end in [BufferTooLarge] only when,
    after some chunk, the bytes behind the last boundary exceed the limit and that
    chunk has not completed a block; when no error occurs this was never so. *)
Theorem decoding_is_chunk_invariant max chunks :
  let chunked := push_all (sse_decoder_new max) chunks in
  let whole := push (sse_decoder_new max) (concat chunks) in
  match chunked.2 with
  | Ok _ => chunked = whole ∧ ¬ overflows max chunks
  | Err (DecodeParse _) => chunked.2 = whole.2
  | Err BufferTooLarge => overflows max chunks
  end.
Proof.
  cbn zeta. pose proof (push_all_whole max chunks) as Hwhole. pose proof (push_all_too_large max chunks) as Hlarge.
  pose proof (push_all_Ok_fits max chunks) as Hfits. cbn zeta in Hwhole.
  destruct (push_all _ chunks) as [d [es|[e|]]]; destruct (push _ (concat chunks)) as [d' r]; cbn in *.
  - destruct Hwhole as [?|[<- Hd]]; [done|]. rewrite (Hd es eq_refl). split; [done|]. by eapply Hfits.
  - by destruct Hwhole as [?|[<- _]].
  - by apply Hlarge.
Qed.

(** C39: [push] decodes exactly the blocks that the bytes it has close. These
    bytes, the buffer and the chunk, are a list of blocks, each up to the first
    boundary (two line feeds, or two pairs of carriage return and line feed), and
    a rest without boundary. A success hands out one event for every block that
    is not blank, in order, and keeps the rest; a parse error is the one of the
    first block that does not parse; [BufferTooLarge] says that no block is
    complete and the bytes exceed the limit, and then they all stay. *)
Theorem push_decodes_blocks d chunk :
  let '(d', answer) := push d chunk in
  parser d' = parser d ∧
  ∃ blocks rest, blocks_of (buffer d ++ chunk) blocks rest ∧
    match answer with
    | Ok events =>
        buffer d' = rest ∧ decodes_to (parser d) blocks events ∧
        (blocks = [] → length rest ≤ max_event_bytes (parser d))%nat
    | Err (DecodeParse error) =>
        ∃ before block after events, blocks = before ++ block :: after ∧ decodes_to (parser d) before events ∧
          ¬ blank block ∧ parse_block (parser d) block = Err error
    | Err BufferTooLarge => blocks = [] ∧ buffer d' = rest ∧ (max_event_bytes (parser d) < length rest)%nat
    end.
Proof.
  pose proof (push_too_large d chunk) as Hlarge. revert Hlarge. rewrite push_eq. cbn zeta.
  destruct (_ && _) eqn:Hguard.
  - intros [[Hno Hlong] _]; [done|]. split; [done|]. exists [], (buffer d ++ chunk).
    split; [by apply last_block|done].
  - intros Hlarge. split; [done|]. destruct (drained_spec (parser d) (buffer d ++ chunk)) as (blocks & rest & Hblocks & Hspec).
    exists blocks, rest. split; [done|]. cbn [fst snd buffer] in *.
    destruct (drained (parser d) (buffer d ++ chunk)) as [r [es|[e|]]]; cbn in *; [|done..].
    destruct Hspec as [-> Hdec]. split_and!; [done..|]. intros ->. apply blocks_of_inv in Hblocks.
    destruct (find_sse_boundary (buffer d ++ chunk)) as [[i n]|] eqn:Hf; [by destruct Hblocks as (? & ? & _)|].
    destruct Hblocks as [_ ->]. rewrite bool_decide_true, andb_true_r in Hguard by done. by apply Nat.ltb_ge in Hguard.
Qed.

(** The limit is applied to the buffered bytes, line ends included, and not to
    the event: an event of exactly [max_event_bytes] is decoded when its blank
    line arrives with it and refused when only the first line feed does. In the
    other direction a chunk that completes an event may leave more than
    [max_event_bytes] behind it in the buffer. *)
Theorem event_limit_depends_on_chunks :
  let event_bytes := as_bytes "data:a" in
  length event_bytes = 6%nat ∧
  (push_all (sse_decoder_new 6) [event_bytes ++ [LF; LF]]).2 = Ok [mkSseEvent None (as_bytes "a")] ∧
  (push_all (sse_decoder_new 6) [event_bytes ++ [LF]; [LF]]).2 = Err BufferTooLarge ∧
  length (buffer (push (sse_decoder_new 6) ([LF; LF] ++ event_bytes ++ event_bytes)).1) = 12%nat ∧
  (push (sse_decoder_new 6) ([LF; LF] ++ event_bytes ++ event_bytes)).2 = Ok [].
Proof. vm_compute. done. Qed.

(** ** Printing and parsing an event *)

Fixpoint join_lines (lines : list bytes) : bytes :=
  match lines with
  | [] => []
  | [line] => line
  | line :: lines => line ++ LF :: join_lines lines
  end.

(** The field lines of an event as the stream format writes them, one [data]
    line per line of the payload. *)
Definition event_lines (e : SseEvent) : list bytes :=
  match event e with Some name => [as_bytes "event: " ++ name] | None => [] end ++
  ((λ line, as_bytes "data: " ++ line) <$> split_on LF (data e)).

Definition print_event (e : SseEvent) : bytes := join_lines (event_lines e) ++ [LF; LF].

Definition ends_in_cr (line : bytes) : Prop := last line = Some CR.

(** An event the format can carry: an ASCII name without line feed or outer white
    space, and no line of the payload ending in a carriage return. *)
Definition printable_event (e : SseEvent) : Prop :=
  (∀ name, event e = Some name →
     Forall (λ c, byte_val c < 128) name ∧ (LF ∉ name) ∧ trim (" "%char :: name) = name ∧ ¬ ends_in_cr name) ∧
  Forall (λ line, ¬ ends_in_cr line) (split_on LF (data e)).

Fixpoint skip_line_feeds (l : bytes) : bytes :=
  match l with
  | [] => []
  | c :: rest => if bool_decide (c = LF) then skip_line_feeds rest else l
  end.

(** A line the boundary search passes over. *)
Definition solid_line (line : bytes) : Prop := line ≠ [] ∧ (LF ∉ line) ∧ ¬ ends_in_cr line.

Lemma boundary_in_line line rest j m :
  LF ∉ line → ¬ ends_in_cr line → boundary_at (line ++ LF :: rest) j m → (length line ≤ j)%nat.
Proof.
  intros Hlf Hcr Hat. destruct (decide (length line ≤ j)%nat) as [|Hj]; [done|]. exfalso.
  destruct Hat as [(_ & H0 & _)|(_ & H0 & H1 & _)]; rewrite lookup_app_l in H0 by lia.
  - by apply list_elem_of_lookup_2 in H0.
  - destruct (decide (j + 1 < length line)%nat).
    + rewrite lookup_app_l in H1 by lia. by apply list_elem_of_lookup_2 in H1.
    + apply Hcr. unfold ends_in_cr. rewrite last_lookup. by replace (pred (length line)) with j by lia.
Qed.

Lemma boundary_at_shift l k j m : boundary_at (l ++ k) (length l + j) m → boundary_at k j m.
Proof.
  unfold boundary_at. rewrite <- !Nat.add_assoc, !lookup_app_r by lia.
  by replace (length l + j - length l)%nat with j by lia;
    rewrite !(Nat.add_comm (length l)), !Nat.add_sub.
Qed.

Lemma find_joined lines :
  lines ≠ [] → Forall solid_line lines →
  find_sse_boundary (join_lines lines ++ [LF; LF]) = Some (length (join_lines lines), 2%nat).
Proof.
  intros Hne Hall. apply find_sse_boundary_Some. split.
  { left. rewrite !lookup_app_r by lia. rewrite Nat.sub_diag, Nat.add_comm, Nat.add_sub. done. }
  induction Hall as [|line lines (Hn & Hlf & Hcr) Hall IH]; [done|].
  intros j m Hj Hat. destruct lines as [|line' lines].
  { apply (boundary_in_line line [LF]) in Hat; [cbn [join_lines] in Hj; lia|done..]. }
  change (join_lines (line :: line' :: lines)) with (line ++ LF :: join_lines (line' :: lines)) in *.
  set (rest := join_lines (line' :: lines)) in *. rewrite <- app_assoc in Hat. cbn [app] in Hat.
  pose proof (boundary_in_line _ _ _ _ Hlf Hcr Hat) as Hge.
  assert (rest !! 0%nat ≠ Some LF ∧ rest ≠ []) as [Hhead Hrest].
  { apply Forall_inv in Hall as (Hn' & Hlf' & _). subst rest.
    destruct line' as [|c line']; [done|].
    destruct lines; cbn; (split; [|done]); intros [= ->]; set_solver. }
  destruct (decide (j = length line)) as [->|].
  { rewrite <- (Nat.add_0_r (length line)) in Hat. apply boundary_at_shift in Hat.
    destruct Hat as [(_ & _ & H)|(_ & H & _)]; [|done]. apply Hhead. by destruct rest. }
  replace j with (length (line ++ [LF]) + (j - length (line ++ [LF])))%nat in Hat
    by (rewrite length_app; cbn; lia).
  replace (line ++ LF :: rest ++ [LF; LF]) with ((line ++ [LF]) ++ rest ++ [LF; LF]) in Hat
    by (by rewrite <- app_assoc).
  apply boundary_at_shift in Hat. revert Hat. apply IH; [done|].
  rewrite !length_app in *. cbn in *. lia.
Qed.

Lemma split_joined lines :
  lines ≠ [] → Forall (λ line, LF ∉ line) lines → split_on LF (join_lines lines) = lines.
Proof.
  intros Hne Hall. induction Hall as [|line lines Hl Hall IH]; [done|].
  destruct lines as [|line' lines]; [by apply split_on_none|].
  cbn [join_lines]. rewrite split_on_app by done. f_equal. by apply IH.
Qed.

(** What the payload lines accumulate to. *)
Definition push_data (data line : bytes) : bytes :=
  match data with [] => data | _ => data ++ [LF] end ++ line.

Lemma push_data_lines_after d l : d ≠ [] → fold_left push_data (split_on LF l) d = d ++ LF :: l.
Proof.
  revert d. pattern l, (split_on LF l). apply split_on_ind; clear l.
  - intros l _ [|c d] Hd; [done|]. cbn. by rewrite <- app_assoc.
  - intros p rest _ IH [|c d] Hd; [done|]. cbn [fold_left push_data]. rewrite IH by done.
    cbn. by rewrite <- !app_assoc.
Qed.

Lemma push_data_lines l : fold_left push_data (split_on LF l) [] = skip_line_feeds l.
Proof.
  pattern l, (split_on LF l). apply split_on_ind; clear l.
  - intros [|c l] Hl; [done|]. cbn. rewrite bool_decide_false by set_solver. done.
  - intros [|c p] rest Hp IH; [done|]. cbn [fold_left push_data app skip_line_feeds].
    rewrite push_data_lines_after by done. rewrite bool_decide_false by set_solver. done.
Qed.

Lemma trim_cr_keeps line : ¬ ends_in_cr line → trim_cr line = line.
Proof.
  intros Hn. unfold trim_cr, strip_suffix. destruct (starts_with _ _) eqn:E; [|done].
  apply starts_with_iff in E as [k Hk]. destruct Hn. unfold ends_in_cr.
  rewrite <- (rev_involutive line), Hk. apply last_snoc.
Qed.

Lemma ends_in_cr_app p line : p ≠ [] → ¬ ends_in_cr p → ¬ ends_in_cr line → ¬ ends_in_cr (p ++ line).
Proof.
  unfold ends_in_cr. intros Hp Hn Hl. rewrite last_app. by destruct (last line).
Qed.

Lemma parse_data_line ev d line :
  ¬ ends_in_cr line → parse_line (ev, d) (as_bytes "data: " ++ line) = (ev, push_data d line).
Proof.
  intros Hn. unfold parse_line. rewrite trim_cr_keeps by (by apply ends_in_cr_app). done.
Qed.

Lemma parse_event_line name d :
  Forall (λ c, byte_val c < 128) name → trim (" "%char :: name) = name → ¬ ends_in_cr name →
  parse_line (None, d) (as_bytes "event: " ++ name) = (Some name, d).
Proof.
  intros Ha Ht Hn. unfold parse_line. rewrite trim_cr_keeps by (by apply ends_in_cr_app).
  change (strip_prefix _ _) with (Some (" "%char :: name)) at 1. cbv iota beta.
  rewrite from_utf8_lossy_ascii by (constructor; done). by rewrite Ht.
Qed.

Lemma parse_data_lines ev d lines :
  Forall (λ line, ¬ ends_in_cr line) lines →
  fold_left parse_line ((λ line, as_bytes "data: " ++ line) <$> lines) (ev, d) = (ev, fold_left push_data lines d).
Proof.
  intros Hall. revert d. induction Hall as [|line lines Hl Hall IH]; intros d; [done|].
  cbn [fmap list_fmap fold_left]. by rewrite parse_data_line.
Qed.

Lemma parse_event_lines e :
  printable_event e → fold_left parse_line (event_lines e) (None, []) = (event e, skip_line_feeds (data e)).
Proof.
  intros [Hname Hdata]. unfold event_lines. rewrite fold_left_app, <- push_data_lines.
  destruct (event e) as [name|]; cbn [fold_left].
  - destruct (Hname name eq_refl) as (Ha & _ & Ht & Hn). rewrite parse_event_line by done. by apply parse_data_lines.
  - by apply parse_data_lines.
Qed.

Lemma event_lines_solid e : printable_event e → Forall solid_line (event_lines e).
Proof.
  intros [Hname Hdata]. unfold event_lines. apply Forall_app. split.
  - destruct (event e) as [name|]; [|constructor]. destruct (Hname name eq_refl) as (_ & Hlf & _ & Hn).
    constructor; [|constructor]. split; [done|]. split; [|by apply ends_in_cr_app].
    cbn. set_solver.
  - apply Forall_fmap. pose proof (split_on_no_sep LF (data e)) as Hsep.
    apply (Forall_impl (λ l, (LF ∉ l) ∧ ¬ ends_in_cr l)); [by apply Forall_and|]. intros l [Hlf Hn]. cbn.
    split; [done|]. split; [cbn; set_solver|by apply (ends_in_cr_app (as_bytes "data: "))].
Qed.

Lemma event_lines_not_blank e : trim_ascii (join_lines (event_lines e)) ≠ [] ∧ event_lines e ≠ [].
Proof.
  destruct (event_lines e) as [|line lines] eqn:E.
  { unfold event_lines in E. apply app_nil in E as [_ E]. apply fmap_nil_inv in E.
    by destruct (split_on_not_nil LF (data e)). }
  split; [|done]. rewrite trim_ascii_nil. intros H.
  assert (∃ c rest, join_lines (line :: lines) = c :: rest ∧ is_ascii_whitespace c = false) as (c & rest & Hj & Hc).
  { unfold event_lines in E. destruct (event e) as [name|].
    - cbn in E. injection E as <- _. destruct lines; by eexists _, _.
    - destruct (split_on LF (data e)) as [|p ps]; [done|]. cbn in E. injection E as <- _.
      destruct lines; by eexists _, _. }
  rewrite Hj in H. apply Forall_inv in H. congruence.
Qed.

(** C34: an event that the stream format can carry is decoded back from its
    printed form, one [data] line per line of the payload: one event, with its
    name and its payload without leading line feeds, and an empty buffer. The
    format can carry an event when its name, if it has one, is ASCII text without
    line feed, outer white space and final carriage return, and no line of its
    payload ends in a carriage return; the printed lines must fit the limit of the
    decoder. Leading line feeds are lost because the line feed between two [data]
    lines is only inserted after a payload that is not empty. *)
Theorem sse_event_roundtrip max e
    (Hprintable : printable_event e) (Hmax : (length (join_lines (event_lines e)) ≤ max)%nat) :
  push (sse_decoder_new max) (print_event e) =
  (sse_decoder_new max, Ok [mkSseEvent (event e) (skip_line_feeds (data e))]).
Proof.
  pose proof (event_lines_not_blank e) as [Hblank Hne].
  pose proof (event_lines_solid e Hprintable) as Hsolid.
  pose proof (find_joined _ Hne Hsolid) as Hfind.
  rewrite push_eq. cbn [buffer sse_decoder_new parser max_event_bytes app]. unfold print_event. cbn zeta.
  rewrite drained_eq, Hfind, andb_false_r.
  rewrite take_app_length, drop_app_ge, Nat.add_comm, Nat.add_sub by lia. cbn [drop].
  unfold block_events. destruct (trim_ascii _) as [|c l] eqn:E; [done|]. unfold parse_block.
  cbn [max_event_bytes]. rewrite (proj2 (Nat.ltb_ge _ _)) by lia.
  rewrite split_joined by (done || (eapply Forall_impl; [done|]; by intros ? (_ & ? & _))).
  cbn. by rewrite parse_event_lines.
Qed.

Definition sample_event : SseEvent :=
  mkSseEvent (Some (as_bytes "message_stop")) (as_bytes "{}" ++ LF :: as_bytes "tail").

Lemma sse_event_roundtrip_witness :
  push (sse_decoder_new 64) (print_event sample_event) =
  (sse_decoder_new 64, Ok [mkSseEvent (event sample_event) (skip_line_feeds (data sample_event))]).
Proof.
  apply (sse_event_roundtrip 64 sample_event); [|vm_compute; lia]. split.
  - intros name [= <-]. split_and!; [by repeat constructor|cbn; set_solver|done|done].
  - by repeat constructor.
Defined.

(** ** The JSON scan against a token-level definition

    A JSON text is a sequence of string literals and of bytes outside them; the
    scanners look at nothing else of its structure. *)

Inductive jtoken : Type := JString (body : bytes) | JByte (b : ascii).

Definition print_token (t : jtoken) : bytes :=
  match t with JString body => QUOTE :: body ++ [QUOTE] | JByte b => [b] end.

Fixpoint print_tokens (ts : list jtoken) : bytes :=
  match ts with [] => [] | t :: ts => print_token t ++ print_tokens ts end.

(** The text between the quotes of a literal: escapes are complete and every
    quote is escaped. *)
Inductive string_body : bytes → Prop :=
| body_nil : string_body []
| body_escape c l : string_body l → string_body (BACKSLASH :: c :: l)
| body_byte c l : c ≠ BACKSLASH → c ≠ QUOTE → string_body l → string_body (c :: l).

Definition token_ok (t : jtoken) : Prop :=
  match t with JString body => string_body body | JByte b => b ≠ QUOTE end.

Fixpoint skip_ws (ts : list jtoken) : list jtoken :=
  match ts with
  | JByte b :: rest => if is_ascii_whitespace b then skip_ws rest else ts
  | _ => ts
  end.

(** What follows a colon, if the next token is one. *)
Definition after_colon (ts : list jtoken) : option (list jtoken) :=
  match skip_ws ts with
  | JByte b :: rest => if bool_decide (b = ":"%char) then Some (skip_ws rest) else None
  | _ => None
  end.

(** Some literal [key] is followed by a colon and the literal [value]. *)
Fixpoint has_string_pair (key value : bytes) (ts : list jtoken) : bool :=
  match ts with
  | [] => false
  | JByte _ :: rest => has_string_pair key value rest
  | JString body :: rest =>
      bool_decide (body = key) &&
        match after_colon rest with Some (JString v :: _) => bool_decide (v = value) | _ => false end
      || has_string_pair key value rest
  end.

Definition value_start_non_null (ts : list jtoken) : bool :=
  match ts with
  | JString _ :: _ => true
  | JByte b :: _ => bool_decide (b ∈ as_bytes "{[tf-") || is_ascii_digit b
  | [] => false
  end.

(** The first literal [key] followed by a colon is followed by the start of a
    value other than [null]. *)
Fixpoint first_value_non_null (key : bytes) (ts : list jtoken) : bool :=
  match ts with
  | [] => false
  | JByte _ :: rest => first_value_non_null key rest
  | JString body :: rest =>
      if bool_decide (body = key) then
        match after_colon rest with
        | Some vs => value_start_non_null vs
        | None => first_value_non_null key rest
        end
      else first_value_non_null key rest
  end.

(** A key or value as the sources write them: no escape, no quote. *)
Definition plain (l : bytes) : Prop := (BACKSLASH ∉ l) ∧ (QUOTE ∉ l).

Lemma lookup_mid (p k : bytes) : (p ++ k) !! length p = head k.
Proof. rewrite lookup_app_r, Nat.sub_diag by lia. by destruct k. Qed.

Lemma drop_cons_eq (l body : bytes) (i : nat) (c : ascii) :
  bool_decide (drop i l = c :: body) = bool_decide (l !! i = Some c) && bool_decide (drop (i + 1) l = body).
Proof.
  apply eq_true_iff_eq. rewrite andb_true_iff, !bool_decide_eq_true. split.
  - intros H. split.
    + rewrite <- (Nat.add_0_r i), <- lookup_drop, H. done.
    + by rewrite <- drop_drop, H.
  - intros [H1 <-]. rewrite (drop_S l c i) by done. by rewrite Nat.add_1_r.
Qed.

(** The inner loop on a literal: it stops at the closing quote and tells whether
    the literal is the expected one. *)
Lemma json_string_loop_body body : string_body body → ∀ fuel p rest expected ei m,
  plain expected → (m = true → (ei ≤ length expected)%nat) → (length body < fuel)%nat →
  json_string_loop fuel (p ++ body ++ QUOTE :: rest) expected (length p) ei m =
  Some (m && bool_decide (drop ei expected = body), (length p + length body + 1)%nat).
Proof.
  induction 1 as [|c l Hl IH|c l Hb Hq Hl IH]; intros [|fuel] p rest expected ei m Hp Hm Hf;
    try (cbn in Hf; lia); cbn [json_string_loop]; rewrite lookup_mid; cbn [head app].
  - rewrite bool_decide_false, bool_decide_true by done. f_equal. f_equal; [|cbn; lia].
    destruct m; [|done]. cbn [andb]. specialize (Hm eq_refl). apply eq_true_iff_eq.
    rewrite Nat.eqb_eq, bool_decide_eq_true. split; [intros ->; apply drop_all|].
    intros H. apply (f_equal length) in H. rewrite length_drop in H. cbn in H. lia.
  - rewrite bool_decide_true by done. rewrite (proj2 (Nat.leb_gt _ _)) by (rewrite length_app; cbn; lia).
    specialize (IH fuel (p ++ [BACKSLASH; c]) rest expected ei false Hp).
    rewrite <- app_assoc, length_app in IH. cbn [app length] in IH.
    rewrite IH by (done || (cbn in Hf; lia)). f_equal. f_equal; [|cbn; lia].
    rewrite drop_cons_eq. cbn [andb]. rewrite bool_decide_false; [by destruct m|].
    intros H%list_elem_of_lookup_2. by apply (proj1 Hp).
  - rewrite !bool_decide_false by done.
    specialize (IH fuel (p ++ [c]) rest expected (ei + 1)%nat
                  (m && bool_decide (expected !! ei = Some c)) Hp).
    rewrite <- app_assoc, length_app in IH. cbn [app length] in IH. rewrite IH.
    + rewrite drop_cons_eq, andb_assoc. do 2 f_equal. cbn. lia.
    + rewrite andb_true_iff, bool_decide_eq_true. intros [_ H%lookup_lt_Some]. lia.
    + cbn in Hf. lia.
Qed.

Lemma json_string_matches_token p body rest expected :
  string_body body → plain expected →
  json_string_matches (p ++ (QUOTE :: body ++ [QUOTE]) ++ rest) (length p) expected =
  Some (bool_decide (body = expected), length (p ++ QUOTE :: body ++ [QUOTE])).
Proof.
  intros Hbody Hplain. unfold json_string_matches. rewrite lookup_mid. cbn [head app].
  rewrite bool_decide_true by done.
  replace (length p + 1)%nat with (length (p ++ [QUOTE])) by (by rewrite length_app).
  replace (p ++ QUOTE :: (body ++ [QUOTE]) ++ rest) with ((p ++ [QUOTE]) ++ body ++ QUOTE :: rest)
    by (by rewrite <- !app_assoc).
  rewrite json_string_loop_body by (done || lia || (rewrite !length_app; cbn; lia)).
  cbn [andb]. rewrite drop_0. f_equal. f_equal; [by apply bool_decide_ext|].
  rewrite !length_app. cbn. rewrite length_app. cbn. lia.
Qed.

Lemma head_print ts :
  head (print_tokens ts) = match ts with [] => None | JByte b :: _ => Some b | JString _ :: _ => Some QUOTE end.
Proof. by destruct ts as [|[body|b] ts]. Qed.

Lemma skip_json_ws_loop_tokens ts : Forall token_ok ts → ∀ fuel p,
  (length (print_tokens ts) ≤ fuel)%nat →
  ∃ ws, print_tokens ts = ws ++ print_tokens (skip_ws ts) ∧
        skip_json_ws_loop fuel (p ++ print_tokens ts) (length p) = length (p ++ ws).
Proof.
  induction 1 as [|t ts Ht Hts IH]; intros fuel p Hf.
  { exists []. cbn [print_tokens skip_ws]. rewrite !app_nil_r. split; [done|]. destruct fuel; [done|].
    cbn [skip_json_ws_loop]. by rewrite lookup_ge_None_2. }
  assert (skip_ws (t :: ts) = t :: ts ∧ (∀ b, t = JByte b → is_ascii_whitespace b = false)
          ∨ ∃ b, t = JByte b ∧ is_ascii_whitespace b = true) as [[Hs Hb]|(b & -> & Hb)].
  { destruct t as [body|b]; [by left|]. destruct (is_ascii_whitespace b) eqn:Eb; [right; by exists b|left].
    cbn. rewrite Eb. split; [done|]. by intros ? [= <-]. }
  - exists []. rewrite Hs, app_nil_r. split; [done|]. destruct fuel as [|fuel]; [done|].
    cbn [skip_json_ws_loop]. rewrite lookup_mid, head_print.
    destruct t as [body|b]; [done|]. by rewrite Hb.
  - destruct fuel as [|fuel]; [cbn in Hf; lia|].
    cbn [print_tokens print_token app skip_json_ws_loop skip_ws] in *. rewrite Hb.
    destruct (IH fuel (p ++ [b])) as (ws & Hws & Hskip); [cbn in Hf; lia|].
    exists (b :: ws). split; [cbn; by rewrite <- Hws|]. rewrite lookup_mid. cbn [head]. rewrite Hb.
    rewrite length_app, <- app_assoc in Hskip. cbn [app length] in Hskip. rewrite Hskip.
    by rewrite <- app_assoc.
Qed.

Lemma skip_json_ws_tokens p ts :
  Forall token_ok ts →
  ∃ ws, print_tokens ts = ws ++ print_tokens (skip_ws ts) ∧
        skip_json_ws (p ++ print_tokens ts) (length p) = length (p ++ ws).
Proof. intros H. apply skip_json_ws_loop_tokens; [done|]. rewrite length_app. lia. Qed.

Lemma skip_ws_ok ts : Forall token_ok ts → Forall token_ok (skip_ws ts).
Proof.
  induction 1 as [|t ts Ht Hts IH]; [constructor|]. destruct t as [body|b]; cbn; [by constructor|].
  destruct (is_ascii_whitespace b); [done|by constructor].
Qed.

(** The colon and the start of the value, as the scanners find them after a
    literal that ends at [length p]. *)
Lemma after_colon_scan p ts :
  Forall token_ok ts →
  let input := p ++ print_tokens ts in
  let colon := skip_json_ws input (length p) in
  match after_colon ts with
  | None => input !! colon ≠ Some ":"%char
  | Some vs =>
      Forall token_ok vs ∧ input !! colon = Some ":"%char ∧
      ∃ q, input = q ++ print_tokens vs ∧ skip_json_ws input (colon + 1) = length q
  end.
Proof.
  intros Hok. cbn zeta. destruct (skip_json_ws_tokens p ts Hok) as (ws & Hws & ->).
  pose proof (skip_ws_ok ts Hok) as Hok1. rewrite Hws, app_assoc, lookup_mid, head_print.
  unfold after_colon. destruct (skip_ws ts) as [|[body|b] rest] eqn:E; [done|done|].
  case_bool_decide as Hb; [subst b|congruence]. apply Forall_inv_tail in Hok1.
  destruct (skip_json_ws_tokens ((p ++ ws) ++ [":"%char]) rest Hok1) as (ws' & Hws' & Hskip).
  split; [by apply skip_ws_ok|]. split; [done|]. exists (((p ++ ws) ++ [":"%char]) ++ ws').
  cbn [print_tokens print_token app]. split.
  - rewrite <- !app_assoc. cbn. by rewrite Hws'.
  - rewrite <- Hskip, (length_app _ [":"%char]), <- (app_assoc (p ++ ws)). done.
Qed.

Lemma json_string_is_closed_body body : string_body body → ∀ fuel p rest,
  (length body < fuel)%nat → json_string_is_closed_loop fuel (p ++ body ++ QUOTE :: rest) (length p) = true.
Proof.
  induction 1 as [|c l Hl IH|c l Hb Hq Hl IH]; intros [|fuel] p rest Hf;
    try (cbn in Hf; lia); cbn [json_string_is_closed_loop]; rewrite lookup_mid; cbn [head app].
  - by rewrite bool_decide_false, bool_decide_true.
  - rewrite bool_decide_true by done. specialize (IH fuel (p ++ [BACKSLASH; c]) rest).
    rewrite <- app_assoc, length_app in IH. cbn [app length] in IH. apply IH. cbn in Hf. lia.
  - rewrite !bool_decide_false by done. specialize (IH fuel (p ++ [c]) rest).
    rewrite <- app_assoc, length_app in IH. cbn [app length] in IH. apply IH. cbn in Hf. lia.
Qed.

Lemma json_value_is_non_null_tokens q vs :
  Forall token_ok vs → json_value_is_non_null (q ++ print_tokens vs) (length q) = value_start_non_null vs.
Proof.
  intros Hok. unfold json_value_is_non_null. rewrite lookup_mid, head_print.
  destruct Hok as [|[body|b] vs Ht Hok]; [done| |by rewrite bool_decide_false].
  rewrite bool_decide_true by done. unfold json_string_is_closed. rewrite lookup_mid, head_print.
  rewrite bool_decide_true by done. cbn [print_tokens print_token value_start_non_null].
  replace (length q + 1)%nat with (length (q ++ [QUOTE])) by (by rewrite length_app).
  replace (q ++ (QUOTE :: body ++ [QUOTE]) ++ print_tokens vs)
    with ((q ++ [QUOTE]) ++ body ++ QUOTE :: print_tokens vs) by (rewrite <- !app_assoc; cbn; by rewrite <- app_assoc).
  apply json_string_is_closed_body; [done|]. rewrite !length_app. cbn. lia.
Qed.

Section Scan.
Context (key : bytes) (Hkey : plain key).

(** The next index after a byte or a literal, with the text before it. *)
Lemma next_byte (p : bytes) b ts :
  p ++ print_tokens (JByte b :: ts) = (p ++ [b]) ++ print_tokens ts ∧ (length p + 1)%nat = length (p ++ [b]).
Proof. rewrite <- app_assoc, length_app. done. Qed.

Lemma next_string p body ts :
  p ++ print_tokens (JString body :: ts) = (p ++ QUOTE :: body ++ [QUOTE]) ++ print_tokens ts.
Proof. by rewrite <- app_assoc. Qed.

Lemma key_string_value_loop_tokens value ts : plain value → Forall token_ok ts → ∀ fuel p,
  (length (print_tokens ts) < fuel)%nat →
  key_string_value_loop fuel (p ++ print_tokens ts) key value (length p) = has_string_pair key value ts.
Proof.
  intros Hvalue. induction 1 as [|t ts Ht Hts IH]; intros [|fuel] p Hf; [lia| |lia|];
    cbn [key_string_value_loop]; rewrite lookup_mid, head_print; [done|].
  destruct t as [body|b]; cbn [has_string_pair].
  2: { rewrite bool_decide_false by done. destruct (next_byte p b ts) as [-> ->]. apply IH. cbn in Hf. lia. }
  rewrite bool_decide_true by done. cbn [negb]. unfold print_tokens at 1. fold print_tokens. cbn [print_token].
  rewrite json_string_matches_token by done. rewrite next_string. set (p' := p ++ QUOTE :: body ++ [QUOTE]).
  assert (length (print_tokens ts) < fuel)%nat as Hf' by (cbn in Hf; rewrite !length_app in Hf; lia).
  specialize (IH fuel p' Hf'). case_bool_decide as Hb; cbn [negb andb orb]; [|done].
  pose proof (after_colon_scan p' ts Hts) as Hscan. cbn zeta in Hscan |- *.
  destruct (after_colon ts) as [vs|].
  2: { rewrite bool_decide_false by done. done. }
  destruct Hscan as (Hvs & -> & q & Hq & ->). rewrite bool_decide_true by done. cbn [negb].
  rewrite Hq, lookup_mid, head_print, <- Hq.
  destruct Hvs as [|[v|b] vs Hv Hvs]; cbn [negb]; [done| |].
  2: { rewrite bool_decide_false by (intros [= ->]; done). done. }
  rewrite bool_decide_true by done. cbn [negb]. rewrite Hq at 1. cbn [print_tokens print_token].
  rewrite json_string_matches_token by done. rewrite IH. by destruct (bool_decide (v = value)).
Qed.

Lemma key_non_null_loop_tokens ts : Forall token_ok ts → ∀ fuel p,
  (length (print_tokens ts) < fuel)%nat →
  key_non_null_loop fuel (p ++ print_tokens ts) key (length p) = first_value_non_null key ts.
Proof.
  induction 1 as [|t ts Ht Hts IH]; intros [|fuel] p Hf; [lia| |lia|];
    cbn [key_non_null_loop]; rewrite lookup_mid, head_print; [done|].
  destruct t as [body|b]; cbn [first_value_non_null].
  2: { rewrite bool_decide_false by done. destruct (next_byte p b ts) as [-> ->]. apply IH. cbn in Hf. lia. }
  rewrite bool_decide_true by done. cbn [negb]. unfold print_tokens at 1. fold print_tokens. cbn [print_token].
  rewrite json_string_matches_token by done. rewrite next_string. set (p' := p ++ QUOTE :: body ++ [QUOTE]).
  assert (length (print_tokens ts) < fuel)%nat as Hf' by (cbn in Hf; rewrite !length_app in Hf; lia).
  specialize (IH fuel p' Hf'). case_bool_decide as Hb; cbn [negb]; [|done].
  pose proof (after_colon_scan p' ts Hts) as Hscan. cbn zeta in Hscan |- *.
  destruct (after_colon ts) as [vs|].
  2: { by rewrite bool_decide_false. }
  destruct Hscan as (Hvs & -> & q & Hq & ->). rewrite bool_decide_true by done. cbn [negb].
  rewrite Hq. by apply json_value_is_non_null_tokens.
Qed.
End Scan.

(** On every text in which string literals are closed, as in every JSON
    document, the one-pass search for a key with a given string value agrees
    with the token-level definition: it answers [true] iff some string literal
    [key] is followed by a colon and the literal [value], with white space
    allowed around the colon. Text inside other literals, escaped quotes
    included, is never mistaken for a key. *)
Theorem json_key_string_value_eq_correct key value ts
    (Hkey : plain key) (Hvalue : plain value) (Hts : Forall token_ok ts) :
  json_key_string_value_eq (print_tokens ts) key value = has_string_pair key value ts.
Proof. apply (key_string_value_loop_tokens key Hkey value ts Hvalue Hts _ []). lia. Qed.

(** The payload [{"note":"\"type\":\"error\"" , "type" : "message_stop"}]. *)
Definition sample_tokens : list jtoken :=
  let escaped s := BACKSLASH :: QUOTE :: as_bytes s ++ [BACKSLASH; QUOTE] in
  [JByte "{"%char; JString (as_bytes "note"); JByte ":"%char;
   JString (escaped "type" ++ ":"%char :: escaped "error"); JByte ","%char; JByte " "%char;
   JString (as_bytes "type"); JByte " "%char; JByte ":"%char; JByte " "%char;
   JString (as_bytes "message_stop"); JByte "}"%char].

Ltac solve_tokens :=
  repeat match goal with
         | |- Forall _ [] => constructor
         | |- Forall _ (_ :: _) => constructor
         | |- token_ok (JByte _) => discriminate
         | |- token_ok (JString _) => cbn
         | |- string_body [] => constructor
         | |- string_body (BACKSLASH :: _) => apply body_escape
         | |- string_body _ => apply body_byte; [discriminate|discriminate|]
         end.

Lemma json_key_string_value_eq_correct_witness :
  json_key_string_value_eq (print_tokens sample_tokens) (as_bytes "type") (as_bytes "error")
  = has_string_pair (as_bytes "type") (as_bytes "error") sample_tokens
  ∧ has_string_pair (as_bytes "type") (as_bytes "error") sample_tokens = false
  ∧ has_string_pair (as_bytes "type") (as_bytes "message_stop") sample_tokens = true.
Proof.
  split; [|done].
  apply (json_key_string_value_eq_correct (as_bytes "type") (as_bytes "error") sample_tokens).
  - split; cbn; set_solver.
  - split; cbn; set_solver.
  - unfold sample_tokens. cbn. solve_tokens.
Defined.

(** On every text in which string literals are closed, the search that
    recognises the last chunk of a Gemini stream agrees with the token-level
    definition: the first literal [key] that is followed by a colon decides, and
    the answer is [true] iff a string, object, array, boolean or number starts
    there (so [null] is not a finish reason). *)
Theorem json_key_has_non_null_value_correct key ts (Hkey : plain key) (Hts : Forall token_ok ts) :
  json_key_has_non_null_value (print_tokens ts) key = first_value_non_null key ts.
Proof. apply (key_non_null_loop_tokens key Hkey ts Hts _ []). lia. Qed.

Lemma json_key_has_non_null_value_correct_witness :
  json_key_has_non_null_value (print_tokens sample_tokens) (as_bytes "type")
  = first_value_non_null (as_bytes "type") sample_tokens
  ∧ first_value_non_null (as_bytes "type") sample_tokens = true.
Proof.
  split; [|done]. apply (json_key_has_non_null_value_correct (as_bytes "type") sample_tokens).
  - split; cbn; set_solver.
  - unfold sample_tokens. cbn. solve_tokens.
Defined.

(** A stream is recorded as completed iff its terminal event was a completion
    and it ended with that event or with the end of the body. A failure event, a
    missing terminal event, a cancellation, a timeout, a parser error or an
    abort are never recorded as completed, and a failure event is reported as an
    upstream error however the body ends. *)
Theorem completed_iff_terminal_completion kind signal :
  (stream_end_reason_for_terminal_kind kind signal = EndCompleted ↔
   kind = TerminalCompleted ∧ (signal = SignalTerminalEvent ∨ signal = SignalUpstreamEof)) ∧
  (stream_end_reason_for_terminal_kind kind signal = EndUpstreamError ↔
   signal = SignalUpstreamError ∨
   kind = TerminalFailed ∧ (signal = SignalTerminalEvent ∨ signal = SignalUpstreamEof)) ∧
  (stream_end_reason_for_terminal_kind kind signal = EndUpstreamEof ↔
   kind = TerminalNone ∧ (signal = SignalTerminalEvent ∨ signal = SignalUpstreamEof)).
Proof. destruct kind, signal; cbn; naive_solver. Qed.
