(* ===== verification/ProviderErrors.v ===== *)
(** Upstream errors (routing/src/errors.rs): from a status code, a transport or
    stream failure or the metadata of an adapter error to a classification that
    says whether to retry, whether to try the next channel and what to do with
    the health of the key. The second part is the use the gateway makes of it
    (apps/gateway/src/main.rs): its own rule for falling back and the status it
    writes to the provider key. *)

From S2P Require Export RustStr.

#[local] Open Scope string_scope.
#[local] Open Scope list_scope.
#[local] Open Scope Z_scope.

(** ** Data *)

Inductive ProviderTransportErrorKind : Type :=
| TransportTimeout
| TransportConnect
| TransportDns
| TransportTls
| TransportConnectionClosed
| TransportBody
| TransportOther.

Inductive ProviderStreamErrorKind : Type := InvalidSse | IncompleteEvent | UnexpectedEof | DecodeError.

Inductive ProviderErrorKind : Type :=
| Authentication
| RateLimited
| KindTimeout
| KindTransport
| ClientRequest
| NotFound
| ProviderServer
| ProviderOverloaded
| ProviderProtocol
| StreamProtocol
| KindUnknown.

Inductive HealthImpact : Type := ImpactNone | Degrade | Cooldown | MarkAuthFailed.

#[export] Instance ProviderErrorKind_eq_dec : EqDecision ProviderErrorKind.
Proof. solve_decision. Defined.
#[export] Instance HealthImpact_eq_dec : EqDecision HealthImpact.
Proof. solve_decision. Defined.

Record ProviderErrorSignal : Type := mkProviderErrorSignal {
  es_status_code : option Z;
  es_transport : option ProviderTransportErrorKind;
  es_stream : option ProviderStreamErrorKind;
  es_retry_after_ms : option Z;
}.

Definition signal_from_status (status_code : Z) : ProviderErrorSignal :=
  mkProviderErrorSignal (Some status_code) None None None.
Definition signal_from_transport (transport : ProviderTransportErrorKind) : ProviderErrorSignal :=
  mkProviderErrorSignal None (Some transport) None None.
Definition signal_from_stream (stream : ProviderStreamErrorKind) : ProviderErrorSignal :=
  mkProviderErrorSignal None None (Some stream) None.

Record ProviderErrorClassification : Type := mkProviderErrorClassification {
  cl_kind : ProviderErrorKind;
  cl_retryable_same_channel : bool;
  cl_can_fallback : bool;
  cl_health_impact : HealthImpact;
  cl_status_code : option Z;
  cl_retry_after_ms : option Z;
  cl_reason_code : string;
}.

Inductive AdapterProviderErrorTransportKind : Type :=
| AdapterTimeout
| AdapterConnect
| AdapterBody
| AdapterOther.

#[export] Instance AdapterProviderErrorTransportKind_eq_dec : EqDecision AdapterProviderErrorTransportKind.
Proof. solve_decision. Defined.

Record AdapterProviderErrorRoutingInput : Type := mkAdapterProviderErrorRoutingInput {
  ai_status_code : option Z;
  ai_transport : option AdapterProviderErrorTransportKind;
  ai_retry_after_ms : option Z;
  ai_owner : option string;
  ai_stage : option string;
  ai_code : option string;
}.

Record ProviderErrorFallbackDecision : Type := mkProviderErrorFallbackDecision {
  retry_same_channel : bool;
  fallback_to_next_channel : bool;
}.

Record AdapterProviderErrorRoutingClassification : Type := mkAdapterProviderErrorRoutingClassification {
  rc_classification : ProviderErrorClassification;
  rc_health_impact : HealthImpact;
  rc_fallback : ProviderErrorFallbackDecision;
}.

(** ** Metadata of an adapter error *)

Definition normalized_eq (actual expected : string) : bool := eq_ignore_ascii_case actual expected.

Definition normalized_contains (actual needle : string) : bool :=
  str_contains (to_ascii_lowercase actual) (to_ascii_lowercase needle).

Definition is_auth_code (code : string) : bool :=
  normalized_eq code "provider_auth_failed"
  || normalized_contains code "invalid_api_key"
  || normalized_contains code "invalid_auth"
  || normalized_contains code "unauthorized".

Definition is_quota_like_code (code : string) : bool :=
  normalized_eq code "provider_429"
  || normalized_contains code "quota"
  || normalized_contains code "rate_limit"
  || normalized_contains code "rate-limit"
  || normalized_contains code "rate_limited"
  || normalized_contains code "resource_exhausted"
  || normalized_contains code "too_many_requests"
  || normalized_contains code "limit_exceeded".

Definition quota_reason_code (status_code : option Z) (code : string) : string :=
  if bool_decide (status_code = Some 429)
     || normalized_eq code "provider_429"
     || normalized_contains code "rate_limit"
     || normalized_contains code "rate-limit"
     || normalized_contains code "rate_limited"
     || normalized_contains code "too_many_requests"
  then "provider_rate_limited"
  else "provider_quota_exhausted".

Definition is_client_request_metadata (owner stage code : string) : bool :=
  eq_ignore_ascii_case owner "client"
  || ((eq_ignore_ascii_case stage "request_parse" || eq_ignore_ascii_case stage "request_validate")
      && (normalized_contains code "invalid_request"
          || normalized_contains code "invalid_json"
          || normalized_contains code "streaming_unsupported"
          || normalized_contains code "streaming_not_implemented")).

Definition is_parser_response_metadata (owner stage : string) : bool :=
  eq_ignore_ascii_case owner "parser" && eq_ignore_ascii_case stage "response_transform".

Definition adapter_transport_from_metadata (input : AdapterProviderErrorRoutingInput)
    : option AdapterProviderErrorTransportKind :=
  let owner := default "" (ai_owner input) in
  let stage := default "" (ai_stage input) in
  let code := default "" (ai_code input) in
  if negb (eq_ignore_ascii_case owner "network") || negb (eq_ignore_ascii_case stage "provider_call") then None
  else if normalized_contains code "timeout" then Some AdapterTimeout
  else if normalized_contains code "connect" then Some AdapterConnect
  else if normalized_contains code "body" || normalized_contains code "read"
          || normalized_contains code "response" then Some AdapterBody
  else if normalized_contains code "request" then Some AdapterOther
  else None.

Definition classify_adapter_error_metadata (input : AdapterProviderErrorRoutingInput)
    : option ProviderErrorClassification :=
  let owner := default "" (ai_owner input) in
  let stage := default "" (ai_stage input) in
  let code := default "" (ai_code input) in
  if is_quota_like_code code then
    Some {|
      cl_kind := RateLimited;
      cl_retryable_same_channel := false;
      cl_can_fallback := true;
      cl_health_impact := Cooldown;
      cl_status_code := ai_status_code input;
      cl_retry_after_ms := ai_retry_after_ms input;
      cl_reason_code := quota_reason_code (ai_status_code input) code;
    |}
  else if is_auth_code code then
    Some {|
      cl_kind := Authentication;
      cl_retryable_same_channel := false;
      cl_can_fallback := true;
      cl_health_impact := MarkAuthFailed;
      cl_status_code := ai_status_code input;
      cl_retry_after_ms := ai_retry_after_ms input;
      cl_reason_code := "provider_auth_failed";
    |}
  else if is_client_request_metadata owner stage code then
    Some {|
      cl_kind := ClientRequest;
      cl_retryable_same_channel := false;
      cl_can_fallback := false;
      cl_health_impact := ImpactNone;
      cl_status_code := ai_status_code input;
      cl_retry_after_ms := ai_retry_after_ms input;
      cl_reason_code := "adapter_rejected_client_request";
    |}
  else if is_parser_response_metadata owner stage then
    Some {|
      cl_kind := ProviderProtocol;
      cl_retryable_same_channel := true;
      cl_can_fallback := true;
      cl_health_impact := Degrade;
      cl_status_code := ai_status_code input;
      cl_retry_after_ms := ai_retry_after_ms input;
      cl_reason_code :=
        if normalized_contains code "invalid_json" then "provider_response_invalid_json"
        else if normalized_contains code "invalid_response" then "provider_response_invalid"
        else "provider_response_parse_error";
    |}
  else None.

(** ** Signals *)

Definition classify_stream_error (signal : ProviderErrorSignal) (stream : ProviderStreamErrorKind)
    : ProviderErrorClassification := {|
  cl_kind := StreamProtocol;
  cl_retryable_same_channel := true;
  cl_can_fallback := true;
  cl_health_impact := Degrade;
  cl_status_code := es_status_code signal;
  cl_retry_after_ms := es_retry_after_ms signal;
  cl_reason_code :=
    match stream with
    | InvalidSse => "provider_stream_invalid_sse"
    | IncompleteEvent => "provider_stream_incomplete_event"
    | UnexpectedEof => "provider_stream_unexpected_eof"
    | DecodeError => "provider_stream_decode_error"
    end;
|}.

Definition classify_transport_error (signal : ProviderErrorSignal) (transport : ProviderTransportErrorKind)
    : ProviderErrorClassification :=
  let '(kind, reason_code) :=
    match transport with
    | TransportTimeout => (KindTimeout, "provider_transport_timeout")
    | TransportConnect => (KindTransport, "provider_transport_connect")
    | TransportDns => (KindTransport, "provider_transport_dns")
    | TransportTls => (KindTransport, "provider_transport_tls")
    | TransportConnectionClosed => (KindTransport, "provider_transport_connection_closed")
    | TransportBody => (KindTransport, "provider_transport_body")
    | TransportOther => (KindTransport, "provider_transport_other")
    end in
  {|
    cl_kind := kind;
    cl_retryable_same_channel := true;
    cl_can_fallback := true;
    cl_health_impact := Degrade;
    cl_status_code := es_status_code signal;
    cl_retry_after_ms := es_retry_after_ms signal;
    cl_reason_code := reason_code;
  |}.

(** A pattern of alternatives [a | b | c] on integers. *)
Definition one_of (values : list Z) (n : Z) : bool := List.existsb (Z.eqb n) values.

Definition classify_status_code (signal : ProviderErrorSignal) (status_code : Z)
    : ProviderErrorClassification :=
  let classification kind retryable fallback impact reason := {|
    cl_kind := kind;
    cl_retryable_same_channel := retryable;
    cl_can_fallback := fallback;
    cl_health_impact := impact;
    cl_status_code := Some status_code;
    cl_retry_after_ms := es_retry_after_ms signal;
    cl_reason_code := reason;
  |} in
  if one_of [401; 403] status_code then
    classification Authentication false true MarkAuthFailed "provider_auth_failed"
  else if one_of [408] status_code then
    classification KindTimeout true true Degrade "provider_http_timeout"
  else if one_of [429] status_code then
    classification RateLimited false true Cooldown "provider_rate_limited"
  else if one_of [400; 422] status_code then
    classification ClientRequest false false ImpactNone "provider_rejected_client_request"
  else if one_of [404] status_code then
    classification NotFound false true ImpactNone "provider_model_or_route_not_found"
  else if one_of [502; 503; 504; 529] status_code then
    classification ProviderOverloaded true true Degrade "provider_overloaded"
  else if one_of [500; 501] status_code || ((505 <=? status_code) && (status_code <=? 599)) then
    classification ProviderServer true true Degrade "provider_server_error"
  else if one_of [402; 409; 410; 423; 424; 425; 426; 428; 431; 451] status_code then
    classification ClientRequest false false ImpactNone "provider_client_error"
  else if (405 <=? status_code) && (status_code <=? 499) then
    classification ClientRequest false false ImpactNone "provider_client_error"
  else
    classification KindUnknown false true Degrade "provider_status_unknown".

Definition classify_provider_error (signal : ProviderErrorSignal) : ProviderErrorClassification :=
  match es_stream signal with
  | Some stream => classify_stream_error signal stream
  | None =>
      match es_transport signal with
      | Some transport => classify_transport_error signal transport
      | None =>
          match es_status_code signal with
          | Some status_code => classify_status_code signal status_code
          | None => {|
              cl_kind := KindUnknown;
              cl_retryable_same_channel := false;
              cl_can_fallback := true;
              cl_health_impact := Degrade;
              cl_status_code := None;
              cl_retry_after_ms := es_retry_after_ms signal;
              cl_reason_code := "provider_error_unknown";
            |}
          end
      end
  end.

(** [From<AdapterProviderErrorTransportKind> for ProviderTransportErrorKind]. *)
Definition transport_from_adapter (transport : AdapterProviderErrorTransportKind) : ProviderTransportErrorKind :=
  match transport with
  | AdapterTimeout => TransportTimeout
  | AdapterConnect => TransportConnect
  | AdapterBody => TransportBody
  | AdapterOther => TransportOther
  end.

Definition adapter_provider_error_signal (input : AdapterProviderErrorRoutingInput) : ProviderErrorSignal := {|
  es_status_code := ai_status_code input;
  es_transport :=
    transport_from_adapter <$>
      match ai_transport input with
      | Some transport => Some transport
      | None => adapter_transport_from_metadata input
      end;
  es_stream := None;
  es_retry_after_ms := ai_retry_after_ms input;
|}.

Definition classify_adapter_provider_error (input : AdapterProviderErrorRoutingInput)
    : AdapterProviderErrorRoutingClassification :=
  let signal := adapter_provider_error_signal input in
  let classification :=
    match classify_adapter_error_metadata input with
    | Some classification => classification
    | None => classify_provider_error signal
    end in
  {|
    rc_classification := classification;
    rc_health_impact := cl_health_impact classification;
    rc_fallback := {|
      retry_same_channel := cl_retryable_same_channel classification;
      fallback_to_next_channel := cl_can_fallback classification;
    |};
  |}.

(** ** Adapter errors and what the gateway does with them

    The signal of an adapter error (adapters/src/lib.rs, openai.rs), the
    gateway's rule for trying the next route and the status it gives to the
    provider key (gateway/src/main.rs). *)

Record AdapterProviderErrorSignal : Type := mkAdapterProviderErrorSignal {
  as_status_code : option Z;
  as_transport : option AdapterProviderErrorTransportKind;
  as_retry_after_ms : option Z;
}.

Record AdapterRetryAfter : Type := mkAdapterRetryAfter {
  header_value : string;
  retry_after_ms : option Z;
}.

Inductive OpenAiAdapterError : Type :=
| InvalidJson (message : string)
| InvalidRequest (message : string) (param : option string)
| RequestSerialize (message : string)
| StreamingNotImplemented
| InvalidUpstreamBaseUrl (message : string)
| HttpClient (message : string)
| ProviderAuthorizationInvalid
| UpstreamTimeout
| UpstreamConnect (message : string)
| UpstreamRequest (message : string)
| UpstreamRead (message : string)
| UpstreamStatus (status : Z) (body : JsonBody) (retry_after : option AdapterRetryAfter)
| UpstreamInvalidJson (status : Z) (message : string) (retry_after : option AdapterRetryAfter)
| UpstreamInvalidResponse (status : Z) (message : string) (retry_after : option AdapterRetryAfter).

Definition http_status (error : OpenAiAdapterError) : Z :=
  match error with
  | InvalidJson _ | InvalidRequest _ _ => 400
  | RequestSerialize _ => 500
  | StreamingNotImplemented => 501
  | InvalidUpstreamBaseUrl _ | HttpClient _ | ProviderAuthorizationInvalid => 500
  | UpstreamTimeout => 504
  | UpstreamConnect _ | UpstreamRequest _ | UpstreamRead _
  | UpstreamInvalidJson _ _ _ | UpstreamInvalidResponse _ _ _ => 502
  | UpstreamStatus status _ _ => status
  end.

(** [AdapterErrorMapping::retryable_for_status]. *)
Definition retryable_for_status (status : Z) : option bool :=
  if one_of [408; 429] status || ((500 <=? status) && (status <=? 599)) then Some true
  else if (400 <=? status) && (status <=? 499) then Some false
  else None.

Definition status_signal (status : Z) (retry_after : option AdapterRetryAfter) : AdapterProviderErrorSignal :=
  mkAdapterProviderErrorSignal (Some status) None (retry_after ≫= retry_after_ms).

Definition to_error_signal (error : OpenAiAdapterError) : option AdapterProviderErrorSignal :=
  let from_transport transport := Some (mkAdapterProviderErrorSignal None (Some transport) None) in
  match error with
  | UpstreamTimeout => from_transport AdapterTimeout
  | UpstreamConnect _ => from_transport AdapterConnect
  | UpstreamRead _ => from_transport AdapterBody
  | UpstreamRequest _ => from_transport AdapterOther
  | UpstreamStatus status _ retry_after => Some (status_signal status retry_after)
  | UpstreamInvalidJson status _ retry_after | UpstreamInvalidResponse status _ retry_after =>
      if negb ((200 <=? status) && (status <? 300)) then Some (status_signal status retry_after) else None
  | _ => None
  end.

Definition error_signal_can_fallback (signal : AdapterProviderErrorSignal) : bool :=
  match as_status_code signal with
  | Some status_code => one_of [408; 429] status_code || ((500 <=? status_code) && (status_code <=? 599))
  | None =>
      match as_transport signal with
      | Some transport =>
          match transport with AdapterTimeout | AdapterConnect | AdapterOther => true | AdapterBody => false end
      | None => false
      end
  end.

Definition provider_error_can_fallback (error : OpenAiAdapterError) : bool :=
  match to_error_signal error with
  | Some signal => error_signal_can_fallback signal
  | None => false
  end.

(** The errors of the Gemini adapter. *)
Inductive GeminiAdapterError : Type :=
| GeminiInvalidJson (message : string)
| GeminiInvalidRequest (message : string) (param : option string)
| GeminiRequestSerialize (message : string)
| GeminiUpstreamStatus (status : Z) (body : JsonBody) (retry_after : option AdapterRetryAfter)
| GeminiUpstreamInvalidJson (status : Z) (message : string) (retry_after : option AdapterRetryAfter)
| GeminiUpstreamInvalidResponse (status : Z) (message : string) (retry_after : option AdapterRetryAfter).

Definition gemini_to_error_signal (error : GeminiAdapterError) : option AdapterProviderErrorSignal :=
  match error with
  | GeminiUpstreamStatus status _ retry_after => Some (status_signal status retry_after)
  | GeminiUpstreamInvalidJson status _ retry_after | GeminiUpstreamInvalidResponse status _ retry_after =>
      if negb ((200 <=? status) && (status <? 300)) then Some (status_signal status retry_after) else None
  | _ => None
  end.

Definition gemini_provider_error_can_fallback (error : GeminiAdapterError) : bool :=
  match gemini_to_error_signal error with
  | Some signal => error_signal_can_fallback signal
  | None => false
  end.

Definition is_quota_like_text (value : string) : bool :=
  let value := to_ascii_lowercase value in
  str_contains value "insufficient_quota"
  || str_contains value "quota_exhausted"
  || str_contains value "quota_exceeded"
  || str_contains value "quota exceeded"
  || str_contains value "exceeded your current quota"
  || str_contains value "billing hard limit".

Fixpoint value_contains_quota_like_text (value : JsonBody) : bool :=
  match value with
  | BodyString value => is_quota_like_text value
  | BodyArray values => List.existsb value_contains_quota_like_text values
  | BodyObject object =>
      List.existsb (λ '(key, value), is_quota_like_text key || value_contains_quota_like_text value) object
  | _ => false
  end.

Definition adapter_error_is_quota_like (error : OpenAiAdapterError) : bool :=
  match error with UpstreamStatus _ body _ => value_contains_quota_like_text body | _ => false end.

Definition gemini_adapter_error_is_quota_like (error : GeminiAdapterError) : bool :=
  match error with GeminiUpstreamStatus _ body _ => value_contains_quota_like_text body | _ => false end.

Definition provider_error_signal_from_adapter_signal (signal : AdapterProviderErrorSignal) : ProviderErrorSignal := {|
  es_status_code := as_status_code signal;
  es_transport := transport_from_adapter <$> as_transport signal;
  es_stream := None;
  es_retry_after_ms := as_retry_after_ms signal;
|}.

Definition provider_key_cooldown_ms_from_now (retry_after_ms : option Z) (default_ms : Z) : Z :=
  let cooldown_ms := Z.min (Z.max (default default_ms retry_after_ms) 1000) 3600000 in
  default i64_max (checked i64_min i64_max cooldown_ms).

Definition provider_key_status_and_cooldown_for_classification (classification : ProviderErrorClassification)
    (quota_like : bool) : option (string * option Z) :=
  if bool_decide (cl_status_code classification = Some 401) then Some ("auth_failed", None)
  else if quota_like then Some ("quota_exhausted", None)
  else
    match cl_health_impact classification with
    | MarkAuthFailed => Some ("auth_failed", None)
    | Cooldown =>
        Some ("cooldown",
          Some (provider_key_cooldown_ms_from_now (cl_retry_after_ms classification) 60000))
    | Degrade =>
        if bool_decide (is_Some (cl_retry_after_ms classification)) then
          Some ("cooldown",
            Some (provider_key_cooldown_ms_from_now (cl_retry_after_ms classification) 30000))
        else Some ("degraded", None)
    | ImpactNone => None
    end.

(** The status and cooldown of [ProviderKeyRuntimeStatusPatch]. *)
Definition provider_key_runtime_status_patch_for_adapter_signal (adapter_signal : AdapterProviderErrorSignal)
    (quota_like : bool) : option (string * option Z) :=
  provider_key_status_and_cooldown_for_classification
    (classify_provider_error (provider_error_signal_from_adapter_signal adapter_signal)) quota_like.

Definition provider_key_runtime_status_patch_for_adapter_error (error : OpenAiAdapterError)
    : option (string * option Z) :=
  adapter_signal ← to_error_signal error;
  provider_key_runtime_status_patch_for_adapter_signal adapter_signal (adapter_error_is_quota_like error).

Definition provider_key_runtime_status_patch_for_gemini_adapter_error (error : GeminiAdapterError)
    : option (string * option Z) :=
  adapter_signal ← gemini_to_error_signal error;
  provider_key_runtime_status_patch_for_adapter_signal adapter_signal (gemini_adapter_error_is_quota_like error).

(** ** Correctness *)

Lemma one_of_true values n : one_of values n = true ↔ n ∈ values.
Proof.
  unfold one_of. rewrite List.existsb_exists. setoid_rewrite <-list_elem_of_In. split.
  - by intros (m & Hm & ->%Z.eqb_eq).
  - intros Hn. exists n. by rewrite Z.eqb_refl.
Qed.

(** The four decisions of a classification depend on each other: only client
    requests are neither retried nor passed on and leave the key alone. *)
Definition classification_wf (c : ProviderErrorClassification) : Prop :=
  (cl_can_fallback c = false ↔ cl_kind c = ClientRequest) ∧
  (cl_retryable_same_channel c = true → cl_can_fallback c = true ∧ cl_health_impact c = Degrade) ∧
  (cl_health_impact c = ImpactNone ↔ cl_kind c = ClientRequest ∨ cl_kind c = NotFound) ∧
  (cl_health_impact c = MarkAuthFailed ↔ cl_kind c = Authentication) ∧
  (cl_health_impact c = Cooldown ↔ cl_kind c = RateLimited).

#[local] Ltac classify := unfold classification_wf; cbn; naive_solver.

Lemma classify_status_code_wf signal code : classification_wf (classify_status_code signal code).
Proof. unfold classify_status_code. repeat case_match; classify. Qed.

Lemma classify_provider_error_wf signal : classification_wf (classify_provider_error signal).
Proof.
  unfold classify_provider_error.
  destruct (es_stream signal); [classify|].
  destruct (es_transport signal) as [[]|]; [classify..|].
  destruct (es_status_code signal); [apply classify_status_code_wf|classify].
Qed.

Lemma classify_metadata_wf input c :
  classify_adapter_error_metadata input = Some c →
  classification_wf c ∧ cl_status_code c = ai_status_code input ∧ cl_retry_after_ms c = ai_retry_after_ms input.
Proof.
  unfold classify_adapter_error_metadata. intros H.
  repeat case_match; simplify_eq; (split; [classify|done]).
Qed.

Lemma classify_provider_error_keeps signal :
  cl_status_code (classify_provider_error signal) = es_status_code signal ∧
  cl_retry_after_ms (classify_provider_error signal) = es_retry_after_ms signal.
Proof.
  unfold classify_provider_error.
  destruct (es_stream signal); [done|]. destruct (es_transport signal) as [[]|]; [done..|].
  destruct (es_status_code signal); [|done]. unfold classify_status_code. repeat case_match; done.
Qed.

(** The classification of any adapter error is consistent and complete.
    Exactly the client's own errors forbid the next channel; an error that may be
    retried on the same channel may also go to the next one and only degrades the
    key; keys are marked as unauthorized or cooled down for exactly the errors of
    that kind. The status code and the retry delay of the error are kept, and a
    quota code in the metadata wins over every other signal. *)
Theorem adapter_error_classification_consistent (input : AdapterProviderErrorRoutingInput) :
  let result := classify_adapter_provider_error input in
  let c := rc_classification result in
  classification_wf c ∧
  cl_status_code c = ai_status_code input ∧ cl_retry_after_ms c = ai_retry_after_ms input ∧
  rc_health_impact result = cl_health_impact c ∧
  rc_fallback result = mkProviderErrorFallbackDecision (cl_retryable_same_channel c) (cl_can_fallback c) ∧
  (is_quota_like_code (default "" (ai_code input)) = true → cl_kind c = RateLimited).
Proof.
  unfold classify_adapter_provider_error. cbn [rc_classification rc_health_impact rc_fallback].
  destruct (classify_adapter_error_metadata input) as [c|] eqn:E; cbn zeta.
  - destruct (classify_metadata_wf _ _ E) as (? & ? & ?). split_and!; try done.
    intros Hq. unfold classify_adapter_error_metadata in E. rewrite Hq in E. by simplify_eq.
  - destruct (classify_provider_error_keeps (adapter_provider_error_signal input)).
    split_and!; try done; [apply classify_provider_error_wf|].
    intros Hq. unfold classify_adapter_error_metadata in E. by rewrite Hq in E.
Qed.

(** What is expected of a status code, as a decidable statement. *)
Definition status_spec (code : Z) (c : ProviderErrorClassification) : Prop :=
  (cl_retryable_same_channel c = true ↔ code = 408 ∨ 500 <= code <= 599) ∧
  (cl_can_fallback c = false ↔ 400 <= code <= 499 ∧ code ∉ [401; 403; 404; 408; 429]) ∧
  (cl_health_impact c = MarkAuthFailed ↔ code = 401 ∨ code = 403) ∧
  (cl_health_impact c = Cooldown ↔ code = 429) ∧
  (cl_kind c = KindUnknown ↔ ¬ 400 <= code <= 599) ∧
  retryable_for_status code =
    (if cl_retryable_same_channel c || bool_decide (cl_kind c = RateLimited) then Some true
     else if bool_decide (cl_kind c = KindUnknown) then None else Some false).

#[local] Instance status_spec_dec code c : Decision (status_spec code c).
Proof. unfold status_spec. apply _. Defined.

Lemma status_spec_table :
  Forall (λ code, status_spec code (classify_provider_error (signal_from_status code))) (seqZ 400 200).
Proof. apply (bool_decide_eq_true_1 _). vm_compute. reflexivity. Qed.

Lemma one_of_false values n : Forall (λ m, n ≠ m) values → one_of values n = false.
Proof.
  intros HF. apply not_true_iff_false. rewrite one_of_true. rewrite Forall_forall in HF.
  intros Hn. by apply (HF n).
Qed.

Lemma status_spec_other code :
  ¬ 400 <= code <= 599 → status_spec code (classify_provider_error (signal_from_status code)).
Proof.
  intros Hout.
  change (classify_provider_error (signal_from_status code))
    with (classify_status_code (signal_from_status code) code).
  assert (∀ lo hi, 400 <= lo → hi <= 599 → (lo <=? code) && (code <=? hi) = false) as Hr.
  { intros. apply andb_false_iff. rewrite !Z.leb_gt. lia. }
  unfold status_spec, classify_status_code, retryable_for_status.
  rewrite !one_of_false by (repeat constructor; lia). rewrite !Hr by lia. cbn.
  split_and!; try done; split; try done; lia.
Qed.

Lemma classify_status_code_spec signal code : status_spec code (classify_status_code signal code).
Proof.
  assert (status_spec code (classify_status_code (signal_from_status code) code)) as Hs.
  { change (classify_status_code (signal_from_status code) code)
      with (classify_provider_error (signal_from_status code)).
    destruct (decide (400 <= code <= 599)); [|by apply status_spec_other].
    pose proof status_spec_table as HF. rewrite Forall_forall in HF. apply HF, elem_of_seqZ. lia. }
  revert Hs. unfold status_spec, classify_status_code. repeat case_match; done.
Qed.

(** The classification of an HTTP status, for every status code: retried are
    408 and the server errors, passed to the next channel is everything but the
    client errors (among which 401, 403, 404, 408 and 429 are not the client's
    fault), the key is marked for 401 and 403 and cooled down for 429; codes
    outside 400 to 599 are unknown. The adapter's own retry flag agrees, except
    that it also counts 429. *)
Theorem status_classification_exact (code : Z) :
  status_spec code (classify_provider_error (signal_from_status code)).
Proof. apply classify_status_code_spec. Qed.

(** The two forms of a signal. *)
Lemma to_error_signal_cases (error : OpenAiAdapterError) signal :
  to_error_signal error = Some signal →
  (∃ status retry, signal = mkAdapterProviderErrorSignal (Some status) None retry) ∨
  ∃ transport, signal = mkAdapterProviderErrorSignal None (Some transport) None.
Proof. destruct error; cbn; intros H; repeat case_match; simplify_eq; eauto. Qed.

Lemma cooldown_bounds retry default_ms :
  1000 <= provider_key_cooldown_ms_from_now retry default_ms <= 3600000.
Proof.
  unfold provider_key_cooldown_ms_from_now.
  rewrite checked_in by width_lia. cbn. lia.
Qed.

(** The gateway passes a failed attempt on only where the classification
    allows it, never after the answer has begun to arrive, and what it writes to
    the key is bounded: a client error without quota text changes nothing, and a
    cooldown lasts between one second and one hour. *)
Theorem gateway_fallback_is_permitted (error : OpenAiAdapterError)
    (signal : AdapterProviderErrorSignal) (Hsignal : to_error_signal error = Some signal) :
  let c := classify_provider_error (provider_error_signal_from_adapter_signal signal) in
  (provider_error_can_fallback error = true → cl_can_fallback c = true) ∧
  (provider_error_can_fallback error = true → as_transport signal ≠ Some AdapterBody) ∧
  (provider_key_status_and_cooldown_for_classification c false = None ↔
     cl_kind c = ClientRequest ∨ cl_kind c = NotFound) ∧
  (∀ quota_like status cooldown,
     provider_key_status_and_cooldown_for_classification c quota_like = Some (status, Some cooldown) →
     status = "cooldown" ∧ 1000 <= cooldown <= 3600000).
Proof.
  cbn zeta. set (c := classify_provider_error _).
  assert (classification_wf c) as (Hfb & _ & Hnone & _) by apply classify_provider_error_wf.
  assert (cl_status_code c = Some 401 → cl_kind c ≠ ClientRequest ∧ cl_kind c ≠ NotFound) as H401.
  { subst c. destruct (to_error_signal_cases _ _ Hsignal) as [(st & ? & ->)|([] & ->)]; try done.
    cbn. intros H. assert (st = 401) as -> by (revert H; unfold classify_status_code; repeat case_match; cbn; congruence).
    done. }
  split_and!.
  - unfold provider_error_can_fallback. rewrite Hsignal. subst c.
    destruct (to_error_signal_cases _ _ Hsignal) as [(st & retry & ->)|([] & ->)]; try done. cbn -[one_of].
    destruct (classify_status_code_spec
      (provider_error_signal_from_adapter_signal (mkAdapterProviderErrorSignal (Some st) None retry)) st)
      as (_ & Hf & _). intros Hst. apply not_false_iff_true. intros [? Hn]%Hf.
    apply orb_true_iff in Hst as [Hst%one_of_true|Hst]; [set_solver|]. bool_to_prop. lia.
  - unfold provider_error_can_fallback. rewrite Hsignal.
    destruct (to_error_signal_cases _ _ Hsignal) as [(st & ? & ->)|([] & ->)]; done.
  - unfold provider_key_status_and_cooldown_for_classification. rewrite <-Hnone.
    destruct (bool_decide_reflect (cl_status_code c = Some 401)) as [H|_].
    + split; [done|]. intros [?|?]%Hnone; by destruct (H401 H).
    + destruct (cl_health_impact c); try done. case_match; done.
  - intros quota status cooldown. unfold provider_key_status_and_cooldown_for_classification.
    intros H. repeat case_match; simplify_eq; (split; [done|apply cooldown_bounds]).
Qed.

Lemma gateway_fallback_is_permitted_witness :
  let error := UpstreamStatus 503 BodyNull (Some (mkAdapterRetryAfter "7200" (Some 7200000))) in
  provider_error_can_fallback error = true ∧
  cl_can_fallback (classify_provider_error (mkProviderErrorSignal (Some 503) None None (Some 7200000))) = true.
Proof.
  split; [reflexivity|].
  apply (gateway_fallback_is_permitted (UpstreamStatus 503 BodyNull (Some (mkAdapterRetryAfter "7200" (Some 7200000))))
    (mkAdapterProviderErrorSignal (Some 503) None (Some 7200000))); reflexivity.
Defined.
