(* ===== verification/GatewayErrors.v ===== *)
(** The errors a request can end with: the bodies and mappings of the adapters'
    errors (adapters/src/openai.rs, gemini.rs), their normalisation, the summary
    written to the request log and the response sent to the client
    (apps/gateway/src/errors.rs). *)

From S2P Require Export ProviderErrors.

#[local] Open Scope string_scope.
#[local] Open Scope list_scope.
#[local] Open Scope Z_scope.

(** ** The adapters' error bodies *)

(** The fields of an error body that the gateway reads back or that the client
    sees; the free text of the message is left out. *)
Record AdapterErrorBody : Type := mkAdapterErrorBody {
  eb_type : string;
  eb_code : string;
  eb_param : option string;
  eb_owner : string;
  eb_stage : string;
}.

Definition status_is_server_error (status : Z) : bool := (500 <=? status) && (status <=? 599).

Definition provider_error_code (status : Z) : string :=
  if status =? 429 then "provider_429"
  else if status_is_server_error status then "provider_5xx"
  else if one_of [401; 403] status then "provider_auth_failed"
  else "provider_http_error".

Definition to_openai_error_body (error : OpenAiAdapterError) : AdapterErrorBody :=
  match error with
  | InvalidJson _ => mkAdapterErrorBody "invalid_request_error" "invalid_json" (Some "body") "client" "request_parse"
  | InvalidRequest _ param =>
      mkAdapterErrorBody "invalid_request_error" "invalid_request" param "client" "request_validate"
  | RequestSerialize _ =>
      mkAdapterErrorBody "gateway_error" "request_serialize_failed" None "gateway" "request_transform"
  | StreamingNotImplemented =>
      mkAdapterErrorBody "invalid_request_error" "streaming_not_implemented" (Some "stream") "gateway"
        "request_validate"
  | InvalidUpstreamBaseUrl _ =>
      mkAdapterErrorBody "gateway_error" "invalid_upstream_base_url" None "gateway" "provider_call"
  | HttpClient _ => mkAdapterErrorBody "gateway_error" "http_client_error" None "gateway" "provider_call"
  | ProviderAuthorizationInvalid =>
      mkAdapterErrorBody "gateway_error" "provider_authorization_invalid" None "gateway" "provider_call"
  | UpstreamTimeout => mkAdapterErrorBody "provider_error" "provider_timeout" None "network" "provider_call"
  | UpstreamConnect _ =>
      mkAdapterErrorBody "provider_error" "provider_connect_failed" None "network" "provider_call"
  | UpstreamRequest _ =>
      mkAdapterErrorBody "provider_error" "provider_request_failed" None "network" "provider_call"
  | UpstreamRead _ =>
      mkAdapterErrorBody "provider_error" "provider_response_read_failed" None "network" "provider_call"
  | UpstreamStatus status _ _ =>
      mkAdapterErrorBody "provider_error" (provider_error_code status) None "provider" "provider_call"
  | UpstreamInvalidJson _ _ _ =>
      mkAdapterErrorBody "provider_error" "provider_invalid_json" None "parser" "response_transform"
  | UpstreamInvalidResponse _ _ _ =>
      mkAdapterErrorBody "provider_error" "provider_invalid_response" None "parser" "response_transform"
  end.

Definition gemini_http_status (error : GeminiAdapterError) : Z :=
  match error with
  | GeminiInvalidJson _ | GeminiInvalidRequest _ _ => 400
  | GeminiRequestSerialize _ => 500
  | GeminiUpstreamInvalidJson _ _ _ => 502
  | GeminiUpstreamInvalidResponse _ _ _ => 502
  | GeminiUpstreamStatus status _ _ => status
  end.

Definition to_adapter_error_body (error : GeminiAdapterError) : AdapterErrorBody :=
  match error with
  | GeminiInvalidJson _ =>
      mkAdapterErrorBody "invalid_request_error" "invalid_json" (Some "body") "client" "request_parse"
  | GeminiInvalidRequest _ param =>
      mkAdapterErrorBody "invalid_request_error" "invalid_request" param "client" "request_validate"
  | GeminiRequestSerialize _ =>
      mkAdapterErrorBody "gateway_error" "request_serialize_failed" None "gateway" "request_transform"
  | GeminiUpstreamStatus status _ _ =>
      mkAdapterErrorBody "provider_error" (provider_error_code status) None "provider" "provider_call"
  | GeminiUpstreamInvalidJson _ _ _ =>
      mkAdapterErrorBody "provider_error" "provider_invalid_json" None "parser" "response_transform"
  | GeminiUpstreamInvalidResponse _ _ _ =>
      mkAdapterErrorBody "provider_error" "provider_invalid_response" None "parser" "response_transform"
  end.

Definition error_retry_after (error : OpenAiAdapterError) : option AdapterRetryAfter :=
  match error with
  | UpstreamStatus _ _ retry_after | UpstreamInvalidJson _ _ retry_after
  | UpstreamInvalidResponse _ _ retry_after => retry_after
  | _ => None
  end.

Definition gemini_error_retry_after (error : GeminiAdapterError) : option AdapterRetryAfter :=
  match error with
  | GeminiUpstreamStatus _ _ retry_after | GeminiUpstreamInvalidJson _ _ retry_after
  | GeminiUpstreamInvalidResponse _ _ retry_after => retry_after
  | _ => None
  end.

Record AdapterErrorMapping : Type := mkAdapterErrorMapping {
  em_http_status : Z;
  em_body : AdapterErrorBody;
  em_retryable : option bool;
  em_retry_after_ms : option Z;
  em_signal : option AdapterProviderErrorSignal;
}.

(** Every field the mapping reads back is present in the body as a string, so
    the fallbacks of [string_field] are never taken. *)
Definition to_adapter_error_mapping (error : OpenAiAdapterError) : AdapterErrorMapping := {|
  em_http_status := http_status error;
  em_body := to_openai_error_body error;
  em_retryable := retryable_for_status (http_status error);
  em_retry_after_ms := to_error_signal error ≫= as_retry_after_ms;
  em_signal := to_error_signal error;
|}.

Definition gemini_to_adapter_error_mapping (error : GeminiAdapterError) : AdapterErrorMapping := {|
  em_http_status := gemini_http_status error;
  em_body := to_adapter_error_body error;
  em_retryable := retryable_for_status (gemini_http_status error);
  em_retry_after_ms := gemini_to_error_signal error ≫= as_retry_after_ms;
  em_signal := gemini_to_error_signal error;
|}.

(** ** Normalisation *)

(** [ProviderErrorNormalization] without its two sentences of text. *)
Record ProviderErrorNormalization : Type := mkProviderErrorNormalization {
  pn_http_status : Z;
  pn_error_type : string;
  pn_code : string;
  pn_param : option string;
  pn_owner : string;
  pn_stage : string;
  pn_retryable : option bool;
  pn_provider_status : option Z;
  pn_category : string;
}.

Definition is_invalid_model_text (value : string) : bool :=
  let value := to_ascii_lowercase value in
  str_contains value "invalid_model"
  || str_contains value "model_not_found"
  || str_contains value "model not found"
  || str_contains value "model does not exist"
  || str_contains value "does not exist".

Fixpoint value_contains_invalid_model_text (value : JsonBody) : bool :=
  match value with
  | BodyString value => is_invalid_model_text value
  | BodyArray values => List.existsb value_contains_invalid_model_text values
  | BodyObject values =>
      List.existsb (λ '(key, value), is_invalid_model_text key || value_contains_invalid_model_text value) values
  | _ => false
  end.

Definition upstream_error_looks_like_invalid_model (status : Z) (body : JsonBody) : bool :=
  if status =? 404 then true
  else one_of [400; 422] status && value_contains_invalid_model_text body.

Definition upstream_timeout_normalization : ProviderErrorNormalization := {|
  pn_http_status := 504;
  pn_error_type := "provider_error";
  pn_code := "upstream_timeout";
  pn_param := None;
  pn_owner := "network";
  pn_stage := "provider_call";
  pn_retryable := Some true;
  pn_provider_status := None;
  pn_category := "timeout";
|}.

Definition upstream_status_normalization (status : Z) (body : JsonBody) : ProviderErrorNormalization :=
  let normalization error_type code param retryable category := {|
    pn_http_status := status;
    pn_error_type := error_type;
    pn_code := code;
    pn_param := param;
    pn_owner := "provider";
    pn_stage := "provider_call";
    pn_retryable := retryable;
    pn_provider_status := Some status;
    pn_category := category;
  |} in
  if upstream_error_looks_like_invalid_model status body then
    normalization "invalid_request_error" "upstream_invalid_model" (Some "model") (Some false) "invalid_model"
  else if one_of [401; 403] status then
    normalization "provider_error" "provider_auth_failed" None (Some false) "authentication"
  else if one_of [429] status then
    normalization "rate_limit_error" "provider_429" None (Some true) "rate_limit"
  else if (500 <=? status) && (status <=? 599) then
    normalization "provider_error" "provider_5xx" None (Some true) "server_error"
  else
    normalization "provider_error" "provider_http_error" None (retryable_for_status status) "http_error".

Definition normalize_openai_provider_error (error : OpenAiAdapterError) : option ProviderErrorNormalization :=
  match error with
  | UpstreamTimeout => Some upstream_timeout_normalization
  | UpstreamStatus status body _ => Some (upstream_status_normalization status body)
  | UpstreamInvalidJson status _ _ =>
      if negb ((200 <=? status) && (status <? 300)) then Some (upstream_status_normalization status BodyNull)
      else None
  | _ => None
  end.

Definition normalize_gemini_provider_error (error : GeminiAdapterError) : option ProviderErrorNormalization :=
  match error with
  | GeminiUpstreamStatus status body _ => Some (upstream_status_normalization status body)
  | GeminiUpstreamInvalidJson status _ _ | GeminiUpstreamInvalidResponse status _ _ =>
      if negb ((200 <=? status) && (status <? 300)) then Some (upstream_status_normalization status BodyNull)
      else None
  | _ => None
  end.

Definition adapter_mapping_normalization (mapping : AdapterErrorMapping) : ProviderErrorNormalization := {|
  pn_http_status := em_http_status mapping;
  pn_error_type := eb_type (em_body mapping);
  pn_code := eb_code (em_body mapping);
  pn_param := None;
  pn_owner := eb_owner (em_body mapping);
  pn_stage := "provider_call";
  pn_retryable := em_retryable mapping;
  pn_provider_status := None;
  pn_category := "gateway_adapter";
|}.

(** ** Log summaries and responses *)

Record ErrorLogSummary : Type := mkErrorLogSummary {
  ls_http_status : Z;
  ls_error_owner : string;
  ls_error_code : string;
  ls_retryable : option bool;
}.

Definition summary_of_normalization (mapping : ProviderErrorNormalization) : ErrorLogSummary :=
  mkErrorLogSummary (pn_http_status mapping) (pn_owner mapping) (pn_code mapping) (pn_retryable mapping).

Definition summary_of_mapping (mapping : AdapterErrorMapping) : ErrorLogSummary :=
  mkErrorLogSummary (em_http_status mapping) (eb_owner (em_body mapping)) (eb_code (em_body mapping))
    (em_retryable mapping).

Definition summarize_adapter_error (error : OpenAiAdapterError) : ErrorLogSummary :=
  match normalize_openai_provider_error error with
  | Some mapping => summary_of_normalization mapping
  | None => summary_of_mapping (to_adapter_error_mapping error)
  end.

Definition summarize_gemini_adapter_error (error : GeminiAdapterError) : ErrorLogSummary :=
  match normalize_gemini_provider_error error with
  | Some mapping => summary_of_normalization mapping
  | None => summary_of_mapping (gemini_to_adapter_error_mapping error)
  end.

Record GatewayApiError : Type := mkGatewayApiError {
  ge_status : Z;
  ge_error_type : string;
  ge_code : string;
  ge_message : string;
  ge_param : option string;
  ge_owner : string;
  ge_stage : string;
  ge_retryable : option bool;
}.

Definition log_summary (error : GatewayApiError) : ErrorLogSummary :=
  mkErrorLogSummary (ge_status error) (ge_owner error) (ge_code error) (ge_retryable error).

Definition api_key_rate_limited (dimension : string) : GatewayApiError := {|
  ge_status := 429;
  ge_error_type := "rate_limit_error";
  ge_code := "api_key_rate_limited";
  ge_message := "API key rate limit exceeded for " +:+ dimension;
  ge_param := Some "authorization";
  ge_owner := "policy";
  ge_stage := "rate_limit";
  ge_retryable := Some true;
|}.

Definition database_query_failed (operation : string) : GatewayApiError := {|
  ge_status := 503;
  ge_error_type := "gateway_error";
  ge_code := "database_query_failed";
  ge_message := "database operation `" +:+ operation +:+ "` failed";
  ge_param := None;
  ge_owner := "gateway";
  ge_stage := "database";
  ge_retryable := Some true;
|}.

Definition rate_limit_reservation_rejected_error : GatewayApiError := {|
  ge_status := 429;
  ge_error_type := "rate_limit_error";
  ge_code := "rate_limit_exceeded";
  ge_message := "Rate-limit capacity is unavailable for the selected model";
  ge_param := Some "model";
  ge_owner := "gateway";
  ge_stage := "route";
  ge_retryable := Some true;
|}.

(** [StatusCode::from_u16(status).unwrap_or(INTERNAL_SERVER_ERROR)]. *)
Definition status_code_or_500 (status : Z) : Z := if (100 <=? status) && (status <? 1000) then status else 500.

(** The answer to the client: a success with its payload, or the error it is
    built from. *)
Inductive Response (Payload : Type) : Type :=
| SuccessResponse (payload : Payload)
| GatewayErrorResponse (error : GatewayApiError)
| AdapterErrorResponse (error : OpenAiAdapterError)
| GeminiErrorResponse (error : GeminiAdapterError).
Arguments SuccessResponse {Payload} payload.
Arguments GatewayErrorResponse {Payload} error.
Arguments AdapterErrorResponse {Payload} error.
Arguments GeminiErrorResponse {Payload} error.

(** The HTTP status of an answer. *)
Definition response_status {Payload} (response : Response Payload) : Z :=
  match response with
  | SuccessResponse _ => 200
  | GatewayErrorResponse error => ge_status error
  | AdapterErrorResponse error => status_code_or_500 (http_status error)
  | GeminiErrorResponse error => status_code_or_500 (gemini_http_status error)
  end.

Definition request_status_for_http (status : Z) : string :=
  if ((400 <=? status) && (status <=? 499)) || (status =? 501) then "rejected" else "failed".

(** ** Correctness *)

Lemma upstream_status_normalization_status status body :
  pn_http_status (upstream_status_normalization status body) = status.
Proof. unfold upstream_status_normalization. by repeat case_match. Qed.

Lemma upstream_status_normalization_owner status body :
  pn_owner (upstream_status_normalization status body) = "provider".
Proof. unfold upstream_status_normalization. by repeat case_match. Qed.

(** The table of the normalisation agrees with the rule on statuses alone. *)
Lemma upstream_status_normalization_retryable status body :
  pn_retryable (upstream_status_normalization status body) = retryable_for_status status.
Proof.
  unfold upstream_status_normalization, upstream_error_looks_like_invalid_model, retryable_for_status.
  repeat case_match; cbn [pn_retryable]; bool_to_prop; unfold one_of in *; cbn in *; bool_to_prop;
    try done; exfalso; lia.
Qed.

Lemma fallback_status_retryable status :
  one_of [408; 429] status || ((500 <=? status) && (status <=? 599)) = true → retryable_for_status status = Some true.
Proof. unfold retryable_for_status. by intros ->. Qed.

(** Errors that report a status of the upstream in a body that could not be read. *)
Definition unreadable_upstream_status (error : OpenAiAdapterError) : option Z :=
  match error with
  | UpstreamInvalidJson status _ _ => if (200 <=? status) && (status <? 300) then None else Some status
  | _ => None
  end.

Definition gemini_unreadable_upstream_status (error : GeminiAdapterError) : option Z :=
  match error with
  | GeminiUpstreamInvalidJson status _ _ | GeminiUpstreamInvalidResponse status _ _ =>
      if (200 <=? status) && (status <? 300) then None else Some status
  | _ => None
  end.

Lemma status_code_valid status : 100 <= status <= 999 → status_code_or_500 status = status.
Proof. intros ?. unfold status_code_or_500. case_match; [done|lia]. Qed.

(** What a summary has to say of an error: the status the client gets (or the
    upstream's, where its body was unreadable), whether that status may be
    retried, and that an error the gateway tries elsewhere is retryable. *)
Definition summary_faithful (summary : ErrorLogSummary) (sent : Z) (unreadable : option Z) (fallback : bool) : Prop :=
  ls_http_status summary = default sent unreadable ∧
  ls_retryable summary = retryable_for_status (ls_http_status summary) ∧
  (fallback = true → ls_retryable summary = Some true).

#[local] Ltac summary_case :=
  unfold summary_faithful; repeat case_match; simplify_eq/=;
  rewrite ?upstream_status_normalization_status, ?upstream_status_normalization_retryable;
  split_and!; eauto using fallback_status_retryable.

Lemma openai_summary_faithful error :
  summary_faithful (summarize_adapter_error error) (http_status error) (unreadable_upstream_status error)
    (provider_error_can_fallback error).
Proof.
  unfold summarize_adapter_error, provider_error_can_fallback.
  destruct error; cbn [normalize_openai_provider_error to_error_signal unreadable_upstream_status]; summary_case.
Qed.

Lemma gemini_summary_faithful error :
  summary_faithful (summarize_gemini_adapter_error error) (gemini_http_status error)
    (gemini_unreadable_upstream_status error) (gemini_provider_error_can_fallback error).
Proof.
  unfold summarize_gemini_adapter_error, gemini_provider_error_can_fallback.
  destruct error; cbn [normalize_gemini_provider_error gemini_to_error_signal gemini_unreadable_upstream_status];
    summary_case.
Qed.

(** An upstream answers with a three-digit status. *)
Definition upstream_statuses (openai : OpenAiAdapterError) (gemini : GeminiAdapterError) : Prop :=
  (∀ status body retry_after, openai = UpstreamStatus status body retry_after → 100 <= status <= 999) ∧
  (∀ status body retry_after, gemini = GeminiUpstreamStatus status body retry_after → 100 <= status <= 999).

(** The status of the answer to an error: of the request of the client 400, an
    upstream's own status, 502 for an upstream's answer that cannot be read, and
    a server error otherwise. *)
Definition openai_answer (error : OpenAiAdapterError) (sent : Z) : Prop :=
  match error with
  | InvalidJson _ | InvalidRequest _ _ => sent = 400
  | UpstreamStatus status _ _ => sent = status
  | UpstreamInvalidJson _ _ _ | UpstreamInvalidResponse _ _ _ => sent = 502
  | _ => 500 <= sent <= 504
  end.

Definition gemini_answer (error : GeminiAdapterError) (sent : Z) : Prop :=
  match error with
  | GeminiInvalidJson _ | GeminiInvalidRequest _ _ => sent = 400
  | GeminiUpstreamStatus status _ _ => sent = status
  | GeminiUpstreamInvalidJson _ _ _ | GeminiUpstreamInvalidResponse _ _ _ => sent = 502
  | GeminiRequestSerialize _ => 500 <= sent <= 504
  end.

Lemma openai_sent {Payload} error :
  (∀ status body retry_after, error = UpstreamStatus status body retry_after → 100 <= status <= 999) →
  response_status (AdapterErrorResponse (Payload := Payload) error) = http_status error.
Proof.
  intros Hvalid. destruct error; try reflexivity. cbn. specialize (Hvalid _ _ _ eq_refl). by apply status_code_valid.
Qed.

Lemma gemini_sent {Payload} error :
  (∀ status body retry_after, error = GeminiUpstreamStatus status body retry_after → 100 <= status <= 999) →
  response_status (GeminiErrorResponse (Payload := Payload) error) = gemini_http_status error.
Proof.
  intros Hvalid. destruct error; try reflexivity. cbn. specialize (Hvalid _ _ _ eq_refl). by apply status_code_valid.
Qed.

(** C30: what is answered and what is logged for an adapter's error agree, for both
    adapters. The answer has the status 400 for the errors of the request itself,
    the upstream's status when the upstream answered with an error that can be
    read, 502 when its answer cannot be read, and a server error otherwise. The
    status in the log is the one of the answer, except that an answer of the
    upstream outside 2xx that cannot be read is logged with the upstream's status;
    the retryable flag is the one of the logged status; an error after which the
    next route is tried is always marked retryable; and the client is blamed for
    exactly the two errors of its own request. Statuses of upstreams are taken to
    have three digits, as HTTP demands. *)
Theorem error_summary_faithful {Payload : Type} (openai : OpenAiAdapterError) (gemini : GeminiAdapterError) :
  upstream_statuses openai gemini →
  let openai_sent := response_status (AdapterErrorResponse (Payload := Payload) openai) in
  let gemini_sent := response_status (GeminiErrorResponse (Payload := Payload) gemini) in
  openai_answer openai openai_sent ∧ gemini_answer gemini gemini_sent ∧
  summary_faithful (summarize_adapter_error openai) openai_sent (unreadable_upstream_status openai)
    (provider_error_can_fallback openai) ∧
  summary_faithful (summarize_gemini_adapter_error gemini) gemini_sent
    (gemini_unreadable_upstream_status gemini) (gemini_provider_error_can_fallback gemini) ∧
  (ls_error_owner (summarize_adapter_error openai) = "client" ↔
    (∃ message, openai = InvalidJson message) ∨ (∃ message param, openai = InvalidRequest message param)) ∧
  (ls_error_owner (summarize_gemini_adapter_error gemini) = "client" ↔
    (∃ message, gemini = GeminiInvalidJson message) ∨
    (∃ message param, gemini = GeminiInvalidRequest message param)).
Proof.
  intros [Hopenai Hgemini]. cbn zeta. rewrite openai_sent, gemini_sent by done.
  split_and!; [by destruct openai|by destruct gemini|apply openai_summary_faithful|apply gemini_summary_faithful| |].
  - unfold summarize_adapter_error.
    destruct openai; cbn [normalize_openai_provider_error]; repeat case_match; simplify_eq/=;
      rewrite ?upstream_status_normalization_owner; naive_solver.
  - unfold summarize_gemini_adapter_error.
    destruct gemini; cbn [normalize_gemini_provider_error]; repeat case_match; simplify_eq/=;
      rewrite ?upstream_status_normalization_owner; naive_solver.
Qed.

(** An upstream that is overloaded, and one that answers 503 with an empty body. *)
Lemma error_summary_faithful_witness :
  response_status (AdapterErrorResponse (Payload := ()) (UpstreamStatus 429 BodyNull None)) = 429 ∧
  response_status (GeminiErrorResponse (Payload := ()) (GeminiUpstreamInvalidJson 503 "" None)) = 502 ∧
  ls_http_status (summarize_gemini_adapter_error (GeminiUpstreamInvalidJson 503 "" None)) = 503.
Proof.
  destruct (error_summary_faithful (Payload := ()) (UpstreamStatus 429 BodyNull None)
    (GeminiUpstreamInvalidJson 503 "" None)) as (Hopenai & Hgemini & _ & [Hlogged _] & _).
  - split; [|discriminate]. intros status body retry_after [= <- _ _]. lia.
  - split_and!; [exact Hopenai|exact Hgemini|exact Hlogged].
Defined.
