(* ===== verification/Reservation.v ===== *)
(** Rate limit reservations in the database (db/src/rate_limit_reservation.rs,
    [execute_provider_key_rate_limit_reservation] of db/src/repository.rs): the
    dry-run plan over a window document, the command that is executed, and the
    two SQL statements that reserve and release capacity on a provider key. A
    statement runs on one locked row, so a run of the system is a sequence of
    statements; it is shown to refine the reservation planner of [RateLimit]. *)

From stdpp Require Import relations.
From S2P Require Export Ledger RateLimit.

#[local] Open Scope string_scope.
#[local] Open Scope list_scope.
#[local] Open Scope Z_scope.

(** ** JSON documents in the database

    What the sources use of [serde_json] beyond [SerdeJson], and of the [jsonb]
    functions of PostgreSQL: [v #> path], [jsonb_typeof(v) = 'number'], the cast
    of a number to [bigint] (which raises when the number is not an integer of
    that width), the text of a value parsed as an [i64], [to_jsonb] and
    [jsonb_set] with [create_missing]. *)
Class Jsonb (J : SerdeJson) : Type := {
  value_as_i64 : Value → option Z;
  jsonb_path : Value → list string → option Value;
  jsonb_is_number : Value → bool;
  jsonb_to_bigint : Value → option Z;
  jsonb_text_as_i64 : Value → option Z;
  to_jsonb : Z → Value;
  jsonb_set : Value → list string → Value → Value;
}.

(** The paths the statements read and write. *)
Definition rpm_path : list string := ["rpm"; "used"].
Definition tpm_path : list string := ["tpm"; "used"].
Definition concurrency_path : list string := ["concurrency"; "used"].
Definition window_paths : list (list string) := [rpm_path; tpm_path; concurrency_path].

(** What the documentation promises: [as_i64] is the integer value of a number
    that has one, the database reads the same number, its text parses to the
    same number, object keys are looked up alike, and [jsonb_set] replaces the
    value at an existing path and nothing else. *)
Class JsonbLaws (J : SerdeJson) (B : Jsonb J) : Prop := {
  value_as_i64_range v n : value_as_i64 v = Some n → in_i64 n;
  value_as_u64_as_i64 v n : value_as_u64 v = Some n → n <= i64_max → value_as_i64 v = Some n;
  jsonb_bigint v n : value_as_i64 v = Some n ↔ jsonb_is_number v = true ∧ jsonb_to_bigint v = Some n;
  jsonb_text v n : value_as_i64 v = Some n → jsonb_text_as_i64 v = Some n;
  to_jsonb_i64 n : in_i64 n → value_as_i64 (to_jsonb n) = Some n;
  jsonb_path_keys v path : path ∈ window_paths → jsonb_path v path = value_at_path v path;
  jsonb_set_same v path x : path ∈ window_paths → is_Some (jsonb_path v path) →
    jsonb_path (jsonb_set v path x) path = Some x;
  jsonb_set_other v path path' x : path ∈ window_paths → path' ∈ window_paths → path ≠ path' →
    jsonb_path (jsonb_set v path x) path' = jsonb_path v path';
}.

(** ** Data *)

Inductive ProviderKeyRateLimitReservationOperation : Type := DbAcquire | DbRelease.

Inductive ProviderKeyRateLimitReservationStatus : Type := SqlReady | DbRefused | DbNoop.

Inductive ProviderKeyRateLimitReservationRefusal : Type :=
| RefInvalidRequired
| RefInvalidLimit
| RefMissingWindow
| RefInvalidWindow
| RefOverLimit.

Inductive ProviderKeyRateLimitDimensionStatus : Type :=
| Unlimited
| WindowReady
| MissingWindow
| InvalidWindow
| InvalidLimit
| InvalidRequired
| OverLimit.

Inductive ProviderKeyRateLimitReservationExecutionStatus : Type := ExApplied | ExNotApplied | ExRefused | ExNoop.

#[export] Instance db_operation_eq_dec : EqDecision ProviderKeyRateLimitReservationOperation.
Proof. solve_decision. Defined.
#[export] Instance db_status_eq_dec : EqDecision ProviderKeyRateLimitReservationStatus.
Proof. solve_decision. Defined.
#[export] Instance db_dimension_status_eq_dec : EqDecision ProviderKeyRateLimitDimensionStatus.
Proof. solve_decision. Defined.
#[export] Instance db_execution_status_eq_dec : EqDecision ProviderKeyRateLimitReservationExecutionStatus.
Proof. solve_decision. Defined.

(** The provider key a statement is scoped to. *)
Record key_scope : Type := mkKeyScope { ks_tenant_id : Uuid; ks_provider_key_id : Uuid; ks_channel_id : Uuid }.

#[export] Instance key_scope_eq_dec : EqDecision key_scope.
Proof. solve_decision. Defined.

(** [ProviderKeyRateLimitReservationExecutionInput]: scope, operation, whether
    the capacity to release was acquired, and the required capacity, which has
    the fields of the planner's [RateLimitRequiredCapacity]. *)
Record ProviderKeyRateLimitReservationExecutionInput : Type := mkExecutionInput {
  xi_scope : key_scope;
  xi_operation : ProviderKeyRateLimitReservationOperation;
  xi_reservation_acquired : bool;
  xi_required : RateLimitRequiredCapacity;
}.

Definition execution_acquire (scope : key_scope) (required : RateLimitRequiredCapacity)
    : ProviderKeyRateLimitReservationExecutionInput :=
  mkExecutionInput scope DbAcquire false required.

Definition execution_release (scope : key_scope) (required : RateLimitRequiredCapacity)
    (reservation_acquired : bool) : ProviderKeyRateLimitReservationExecutionInput :=
  mkExecutionInput scope DbRelease reservation_acquired required.

Record ProviderKeyRateLimitReservationExecutionCommand : Type := mkExecutionCommand {
  xc_input : ProviderKeyRateLimitReservationExecutionInput;
  xc_status : ProviderKeyRateLimitReservationStatus;
  xc_refusal_reason : option ProviderKeyRateLimitReservationRefusal;
  xc_requested_counter_updates : nat;
}.

Record ProviderKeyRateLimitReservationExecutionRow : Type := mkExecutionRow {
  xr_provider_key_id : Uuid;
  xr_channel_id : Uuid;
  xr_rpm_limit : option Z;
  xr_tpm_limit : option Z;
  xr_concurrency_limit : option Z;
  xr_rpm_used : option Z;
  xr_tpm_used : option Z;
  xr_concurrency_used : option Z;
}.

Record ProviderKeyRateLimitReservationExecutionResult : Type := mkExecutionResult {
  xe_operation : ProviderKeyRateLimitReservationOperation;
  xe_status : ProviderKeyRateLimitReservationExecutionStatus;
  xe_refusal_reason : option ProviderKeyRateLimitReservationRefusal;
  xe_affected_rows : nat;
  xe_bounded_rows : nat;
  xe_row : option ProviderKeyRateLimitReservationExecutionRow;
}.

(** ** The command *)

Definition requested_counter_updates (required : RateLimitRequiredCapacity) : nat :=
  length (List.filter (λ required, 0 <? required)
    [rc_requests_per_minute required; rc_tokens_per_minute required; rc_concurrency required]).

Definition execution_command_status (input : ProviderKeyRateLimitReservationExecutionInput)
    : ProviderKeyRateLimitReservationStatus * option ProviderKeyRateLimitReservationRefusal :=
  if (rc_requests_per_minute (xi_required input) <? 0)
     || (rc_tokens_per_minute (xi_required input) <? 0)
     || (rc_concurrency (xi_required input) <? 0)
  then (DbRefused, Some RefInvalidRequired)
  else if (requested_counter_updates (xi_required input) =? 0)%nat then (DbNoop, None)
  else if bool_decide (xi_operation input = DbRelease) && negb (xi_reservation_acquired input)
  then (DbNoop, None)
  else (SqlReady, None).

Definition build_provider_key_rate_limit_reservation_execution_command
    (input : ProviderKeyRateLimitReservationExecutionInput) : ProviderKeyRateLimitReservationExecutionCommand :=
  let '(status, refusal_reason) := execution_command_status input in
  {|
    xc_input := input;
    xc_status := status;
    xc_refusal_reason := refusal_reason;
    xc_requested_counter_updates :=
      if bool_decide (status = SqlReady) then requested_counter_updates (xi_required input) else 0%nat;
  |}.

(** [ProviderKeyRateLimitReservationExecutionResult::new]. *)
Definition execution_result (command : ProviderKeyRateLimitReservationExecutionCommand)
    (status : ProviderKeyRateLimitReservationExecutionStatus)
    (row : option ProviderKeyRateLimitReservationExecutionRow)
    : ProviderKeyRateLimitReservationExecutionResult := {|
  xe_operation := xi_operation (xc_input command);
  xe_status := status;
  xe_refusal_reason := xc_refusal_reason command;
  xe_affected_rows := if bool_decide (is_Some row) then 1%nat else 0%nat;
  xe_bounded_rows := 1%nat;
  xe_row := row;
|}.

Definition from_command_without_query (command : ProviderKeyRateLimitReservationExecutionCommand)
    : ProviderKeyRateLimitReservationExecutionResult :=
  execution_result command
    match xc_status command with
    | DbNoop => ExNoop
    | DbRefused => ExRefused
    | SqlReady => ExNotApplied
    end None.

Definition from_command_row (command : ProviderKeyRateLimitReservationExecutionCommand)
    (row : option ProviderKeyRateLimitReservationExecutionRow) : ProviderKeyRateLimitReservationExecutionResult :=
  execution_result command (if bool_decide (is_Some row) then ExApplied else ExNotApplied) row.

(** ** The dry-run plan *)

Inductive CounterRead : Type := CounterMissing | CounterInvalid | CounterValue (n : Z).

Record DimensionEvaluation : Type := mkDimensionEvaluation {
  de_dimension : RateLimitDimension;
  de_status : ProviderKeyRateLimitDimensionStatus;
  de_limit : option Z;
  de_used : option Z;
  de_required : Z;
  de_window_present : bool;
}.

Record ProviderKeyRateLimitReservationDimensionPlan : Type := mkDbDimensionPlan {
  pd_dimension : RateLimitDimension;
  pd_status : ProviderKeyRateLimitDimensionStatus;
  pd_limit : option Z;
  pd_used_before : option Z;
  pd_required : Z;
  pd_used_after : option Z;
  pd_counter_update : RateLimitCounterUpdate;
  pd_window_present : bool;
  pd_saturated_release : bool;
}.

Definition non_negative_u64_from_i32 (value : Z) : option Z := if 0 <=? value then Some value else None.

Definition counter_present (counter : CounterRead) : bool :=
  match counter with CounterMissing => false | _ => true end.

Definition evaluate_dimension (dimension : RateLimitDimension) (raw_limit : option Z) (counter : CounterRead)
    (raw_required : Z) (operation : ProviderKeyRateLimitReservationOperation) : DimensionEvaluation :=
  let required := Z.max raw_required 0 in
  if raw_required <? 0 then
    mkDimensionEvaluation dimension InvalidRequired (raw_limit ≫= non_negative_u64_from_i32) None required
      (counter_present counter)
  else
    match raw_limit with
    | None => mkDimensionEvaluation dimension Unlimited None None required (counter_present counter)
    | Some limit =>
        if limit <=? 0 then
          mkDimensionEvaluation dimension InvalidLimit None None required (counter_present counter)
        else
          match counter with
          | CounterMissing => mkDimensionEvaluation dimension MissingWindow (Some limit) None required false
          | CounterInvalid => mkDimensionEvaluation dimension InvalidWindow (Some limit) None required true
          | CounterValue used =>
              if used <? 0 then mkDimensionEvaluation dimension InvalidWindow (Some limit) None required true
              else
                let status :=
                  if bool_decide (operation = DbAcquire) && (limit <? saturating_add_u64 used required)
                  then OverLimit else WindowReady in
                mkDimensionEvaluation dimension status (Some limit) (Some used) required true
          end
    end.

Definition any_dimension (status : ProviderKeyRateLimitDimensionStatus) (evaluations : list DimensionEvaluation)
    : bool :=
  List.existsb (λ e, bool_decide (de_status e = status)) evaluations.

Definition persistence_status (operation : ProviderKeyRateLimitReservationOperation) (reservation_acquired : bool)
    (evaluations : list DimensionEvaluation)
    : ProviderKeyRateLimitReservationStatus * option ProviderKeyRateLimitReservationRefusal :=
  if bool_decide (operation = DbRelease) && negb reservation_acquired then (DbNoop, None)
  else if any_dimension InvalidRequired evaluations then (DbRefused, Some RefInvalidRequired)
  else if any_dimension InvalidLimit evaluations then (DbRefused, Some RefInvalidLimit)
  else if any_dimension MissingWindow evaluations then (DbRefused, Some RefMissingWindow)
  else if any_dimension InvalidWindow evaluations then (DbRefused, Some RefInvalidWindow)
  else if bool_decide (operation = DbAcquire) && any_dimension OverLimit evaluations
  then (DbRefused, Some RefOverLimit)
  else (SqlReady, None).

(** [counter_update_for_dimension] of the database crate. *)
Definition db_counter_update (operation : ProviderKeyRateLimitReservationOperation)
    (status : ProviderKeyRateLimitReservationStatus) (evaluation : DimensionEvaluation) : RateLimitCounterUpdate :=
  if negb (bool_decide (status = SqlReady)) || negb (is_some (de_limit evaluation))
     || negb (is_some (de_used evaluation)) || (de_required evaluation =? 0)
  then NoUpdate
  else match operation with DbAcquire => Increment | DbRelease => Decrement end.

Definition db_dimension_plan (operation : ProviderKeyRateLimitReservationOperation)
    (status : ProviderKeyRateLimitReservationStatus) (evaluation : DimensionEvaluation)
    : ProviderKeyRateLimitReservationDimensionPlan :=
  let counter_update := db_counter_update operation status evaluation in
  {|
    pd_dimension := de_dimension evaluation;
    pd_status := de_status evaluation;
    pd_limit := de_limit evaluation;
    pd_used_before := de_used evaluation;
    pd_required := de_required evaluation;
    pd_used_after :=
      match de_used evaluation, counter_update with
      | Some used, Increment => Some (saturating_add_u64 used (de_required evaluation))
      | Some used, Decrement => Some (saturating_sub_u64 used (de_required evaluation))
      | Some used, NoUpdate => Some used
      | None, _ => None
      end;
    pd_counter_update := counter_update;
    pd_window_present := de_window_present evaluation;
    pd_saturated_release :=
      bool_decide (counter_update = Decrement)
      && match de_used evaluation with Some used => used <? de_required evaluation | None => false end;
  |}.

Section db.
Context {J : SerdeJson} {B : Jsonb J}.

Record ProviderKeyRateLimitReservationPersistenceInput : Type := mkPersistenceInput {
  pi_execution : ProviderKeyRateLimitReservationExecutionInput;
  pi_rpm_limit : option Z;
  pi_tpm_limit : option Z;
  pi_concurrency_limit : option Z;
  pi_current_window_state : Value;
}.

Record ProviderKeyRateLimitReservationPersistencePlan : Type := mkPersistencePlan {
  pp_operation : ProviderKeyRateLimitReservationOperation;
  pp_status : ProviderKeyRateLimitReservationStatus;
  pp_refusal_reason : option ProviderKeyRateLimitReservationRefusal;
  pp_scope : key_scope;
  pp_dimensions : list ProviderKeyRateLimitReservationDimensionPlan;
  pp_counter_updates_planned : nat;
}.

Definition parse_counter_value (value : Value) : CounterRead :=
  match value_as_i64 value with
  | Some n => CounterValue n
  | None =>
      match value_as_u64 value with
      | Some n => match checked i64_min i64_max n with Some n => CounterValue n | None => CounterInvalid end
      | None => CounterInvalid
      end
  end.

Fixpoint read_window_counter (state : Value) (paths : list (list string)) : CounterRead :=
  match paths with
  | [] => CounterMissing
  | path :: paths =>
      match value_at_path state path with
      | Some value => parse_counter_value value
      | None => read_window_counter state paths
      end
  end.

Definition build_provider_key_rate_limit_reservation_persistence_plan
    (input : ProviderKeyRateLimitReservationPersistenceInput) : ProviderKeyRateLimitReservationPersistencePlan :=
  let operation := xi_operation (pi_execution input) in
  let required := xi_required (pi_execution input) in
  let state := pi_current_window_state input in
  let evaluations := [
    evaluate_dimension RequestsPerMinute (pi_rpm_limit input)
      (read_window_counter state
        [["rpm"; "used"]; ["requests_per_minute"; "used"]; ["rpm_used"]; ["requests_per_minute_used"]])
      (rc_requests_per_minute required) operation;
    evaluate_dimension TokensPerMinute (pi_tpm_limit input)
      (read_window_counter state
        [["tpm"; "used"]; ["tokens_per_minute"; "used"]; ["tpm_used"]; ["tokens_per_minute_used"]])
      (rc_tokens_per_minute required) operation;
    evaluate_dimension Concurrency (pi_concurrency_limit input)
      (read_window_counter state
        [["concurrency"; "used"]; ["active_concurrency"]; ["in_flight"]; ["concurrency_used"]])
      (rc_concurrency required) operation ] in
  let '(status, refusal_reason) :=
    persistence_status operation (xi_reservation_acquired (pi_execution input)) evaluations in
  let dimensions := map (db_dimension_plan operation status) evaluations in
  let counter_updates_planned :=
    length (List.filter (λ d, negb (bool_decide (pd_counter_update d = NoUpdate))) dimensions) in
  let noop := bool_decide (status = SqlReady) && (counter_updates_planned =? 0)%nat in
  let status := if noop then DbNoop else status in
  {|
    pp_operation := operation;
    pp_status := status;
    pp_refusal_reason := refusal_reason;
    pp_scope := xi_scope (pi_execution input);
    pp_dimensions := if noop then map (db_dimension_plan operation status) evaluations else dimensions;
    pp_counter_updates_planned := counter_updates_planned;
  |}.

(** ** The statements

    A row of [provider_keys]; a limit is a nullable [integer] column. *)

Record ProviderKeyRow : Type := mkProviderKeyRow {
  pk_scope : key_scope;
  pk_deleted : bool;
  pk_status : string;
  pk_rpm_limit : option Z;
  pk_tpm_limit : option Z;
  pk_concurrency_limit : option Z;
  pk_current_window_state : Value;
}.

Inductive DbError : Type := Query.

(** A [bigint] result; a value outside its range raises an error. *)
Definition bigint (n : Z) : result DbError Z := ok_or (checked i64_min i64_max n) Query.

(** [scoped_provider_key]. *)
Definition scoped_provider_key (scope : key_scope) (row : ProviderKeyRow) : bool :=
  bool_decide (pk_scope row = scope) && negb (pk_deleted row)
  && negb (bool_decide (pk_status row ∈ ["manual_disabled"; "deleted"])).

(** A column of [window_values]: null without a limit or without a number. *)
Definition window_value (limit : option Z) (state : Value) (path : list string) : result DbError (option Z) :=
  match limit, jsonb_path state path with
  | Some _, Some v =>
      if jsonb_is_number v then n ← ok_or (jsonb_to_bigint v) Query; Ok (Some n) else Ok None
  | _, _ => Ok None
  end.

(** The conjuncts of [eligible] common to both statements. *)
Definition eligible_request (row : ProviderKeyRow) (required : RateLimitRequiredCapacity) : bool :=
  let rpm := rc_requests_per_minute required in
  let tpm := rc_tokens_per_minute required in
  let concurrency := rc_concurrency required in
  (0 <=? rpm) && (0 <=? tpm) && (0 <=? concurrency)
  && ((is_some (pk_rpm_limit row) && (0 <? rpm))
      || (is_some (pk_tpm_limit row) && (0 <? tpm))
      || (is_some (pk_concurrency_limit row) && (0 <? concurrency))).

(** The conjunct of one dimension: the acquire statement also checks the sum. *)
Definition eligible_dimension (operation : ProviderKeyRateLimitReservationOperation)
    (limit used : option Z) (required : Z) : result DbError bool :=
  match limit with
  | None => Ok true
  | Some limit =>
      match used with
      | None => Ok false
      | Some used =>
          if negb ((0 <? limit) && (0 <=? used)) then Ok false
          else match operation with
               | DbAcquire => sum ← bigint (used + required); Ok (sum <=? limit)
               | DbRelease => Ok true
               end
      end
  end.

(** The new value of a counter and the [jsonb_set] that stores it. *)
Definition updated_window (operation : ProviderKeyRateLimitReservationOperation) (limit used : option Z)
    (required : Z) (path : list string) (state : Value) : result DbError Value :=
  match limit, used with
  | Some _, Some used =>
      new ← match operation with
            | DbAcquire => bigint (used + required)
            | DbRelease => difference ← bigint (used - required); Ok (Z.max difference 0)
            end;
      Ok (jsonb_set state path (to_jsonb new))
  | _, _ => Ok state
  end.

(** Both statements on the row in scope: [None] when it is not eligible. *)
Definition reservation_row (operation : ProviderKeyRateLimitReservationOperation)
    (required : RateLimitRequiredCapacity) (row : ProviderKeyRow) : result DbError (option ProviderKeyRow) :=
  let state := pk_current_window_state row in
  rpm_used ← window_value (pk_rpm_limit row) state rpm_path;
  tpm_used ← window_value (pk_tpm_limit row) state tpm_path;
  concurrency_used ← window_value (pk_concurrency_limit row) state concurrency_path;
  if negb (eligible_request row required) then Ok None else
  rpm_ok ← eligible_dimension operation (pk_rpm_limit row) rpm_used (rc_requests_per_minute required);
  if negb rpm_ok then Ok None else
  tpm_ok ← eligible_dimension operation (pk_tpm_limit row) tpm_used (rc_tokens_per_minute required);
  if negb tpm_ok then Ok None else
  concurrency_ok ←
    eligible_dimension operation (pk_concurrency_limit row) concurrency_used (rc_concurrency required);
  if negb concurrency_ok then Ok None else
  state ← updated_window operation (pk_rpm_limit row) rpm_used (rc_requests_per_minute required) rpm_path state;
  state ← updated_window operation (pk_tpm_limit row) tpm_used (rc_tokens_per_minute required) tpm_path state;
  state ← updated_window operation (pk_concurrency_limit row) concurrency_used (rc_concurrency required)
            concurrency_path state;
  Ok (Some {|
    pk_scope := pk_scope row;
    pk_deleted := pk_deleted row;
    pk_status := pk_status row;
    pk_rpm_limit := pk_rpm_limit row;
    pk_tpm_limit := pk_tpm_limit row;
    pk_concurrency_limit := pk_concurrency_limit row;
    pk_current_window_state := state;
  |}).

(** [parse_non_negative_counter_text] on the text of a counter. *)
Definition returned_counter (state : Value) (path : list string) : option Z :=
  n ← jsonb_path state path ≫= jsonb_text_as_i64;
  if 0 <=? n then Some n else None.

(** The [returning] clause and [provider_key_rate_limit_reservation_execution_row_from_row]. *)
Definition execution_row_from_row (row : ProviderKeyRow) : ProviderKeyRateLimitReservationExecutionRow := {|
  xr_provider_key_id := ks_provider_key_id (pk_scope row);
  xr_channel_id := ks_channel_id (pk_scope row);
  xr_rpm_limit := pk_rpm_limit row;
  xr_tpm_limit := pk_tpm_limit row;
  xr_concurrency_limit := pk_concurrency_limit row;
  xr_rpm_used := returned_counter (pk_current_window_state row) rpm_path;
  xr_tpm_used := returned_counter (pk_current_window_state row) tpm_path;
  xr_concurrency_used := returned_counter (pk_current_window_state row) concurrency_path;
|}.

(** A statement on the table: the rows it leaves and the rows it returns. *)
Definition reservation_statement (operation : ProviderKeyRateLimitReservationOperation)
    (scope : key_scope) (required : RateLimitRequiredCapacity) (table : list ProviderKeyRow)
    : result DbError (list ProviderKeyRow * list ProviderKeyRow) :=
  rows ← try_map
    (λ row,
      if scoped_provider_key scope row then
        updated ← reservation_row operation required row;
        Ok (default row updated, updated)
      else Ok (row, None))
    table;
  Ok (rows.*1, omap snd rows).

Definition execute_provider_key_rate_limit_reservation (table : list ProviderKeyRow)
    (input : ProviderKeyRateLimitReservationExecutionInput)
    : result DbError (list ProviderKeyRow * ProviderKeyRateLimitReservationExecutionResult) :=
  let command := build_provider_key_rate_limit_reservation_execution_command input in
  if negb (bool_decide (xc_status command = SqlReady)) then Ok (table, from_command_without_query command) else
  '(table', rows) ←
    match xi_operation input with
    | DbAcquire => reservation_statement DbAcquire (xi_scope input) (xi_required input) table
    | DbRelease =>
        (* the release statement also asks for [$7 = true] *)
        if xi_reservation_acquired input
        then reservation_statement DbRelease (xi_scope input) (xi_required input) table
        else Ok (table, [])
    end;
  Ok (table', from_command_row command (execution_row_from_row <$> head rows)).
End db.

(** ** Reading and writing counters *)

Section facts.
Context {J : SerdeJson} {B : Jsonb J} {L : JsonbLaws J B}.

(** The integer stored at a path. *)
Definition counter_at (state : Value) (path : list string) : option Z := jsonb_path state path ≫= value_as_i64.

Definition next_counter (operation : ProviderKeyRateLimitReservationOperation) (used required : Z) : Z :=
  match operation with DbAcquire => used + required | DbRelease => Z.max (used - required) 0 end.

(** A limited dimension admits the operation. *)
Definition dimension_ready (operation : ProviderKeyRateLimitReservationOperation) (limit used : option Z)
    (required : Z) : Prop :=
  match limit with
  | None => True
  | Some l => ∃ u, used = Some u ∧ 0 < l ∧ 0 <= u ∧ (operation = DbAcquire → u + required <= l)
  end.

(** The document after the update of one counter, which was read in [state0]. *)
Definition set_counter (operation : ProviderKeyRateLimitReservationOperation) (limit : option Z) (state0 : Value)
    (required : Z) (path : list string) (state : Value) : Value :=
  match limit, counter_at state0 path with
  | Some _, Some u => jsonb_set state path (to_jsonb (next_counter operation u required))
  | _, _ => state
  end.

Definition next_state (operation : ProviderKeyRateLimitReservationOperation)
    (required : RateLimitRequiredCapacity) (row : ProviderKeyRow) : Value :=
  let state := pk_current_window_state row in
  set_counter operation (pk_concurrency_limit row) state (rc_concurrency required) concurrency_path
    (set_counter operation (pk_tpm_limit row) state (rc_tokens_per_minute required) tpm_path
      (set_counter operation (pk_rpm_limit row) state (rc_requests_per_minute required) rpm_path state)).

Definition with_window (row : ProviderKeyRow) (state : Value) : ProviderKeyRow := {|
  pk_scope := pk_scope row;
  pk_deleted := pk_deleted row;
  pk_status := pk_status row;
  pk_rpm_limit := pk_rpm_limit row;
  pk_tpm_limit := pk_tpm_limit row;
  pk_concurrency_limit := pk_concurrency_limit row;
  pk_current_window_state := state;
|}.

Definition row_ready (operation : ProviderKeyRateLimitReservationOperation)
    (required : RateLimitRequiredCapacity) (row : ProviderKeyRow) : Prop :=
  let ready limit path := dimension_ready operation limit (counter_at (pk_current_window_state row) path) in
  ready (pk_rpm_limit row) rpm_path (rc_requests_per_minute required) ∧
  ready (pk_tpm_limit row) tpm_path (rc_tokens_per_minute required) ∧
  ready (pk_concurrency_limit row) concurrency_path (rc_concurrency required).

(** Limits are [integer] columns, required capacities are [i64] values. *)
Definition column_wf (limit : option Z) : Prop := match limit with Some l => l <= i32_max | None => True end.

Definition row_wf (row : ProviderKeyRow) : Prop :=
  column_wf (pk_rpm_limit row) ∧ column_wf (pk_tpm_limit row) ∧ column_wf (pk_concurrency_limit row).

Definition required_wf (required : RateLimitRequiredCapacity) : Prop :=
  in_i64 (rc_requests_per_minute required) ∧ in_i64 (rc_tokens_per_minute required) ∧
  in_i64 (rc_concurrency required).

Lemma bigint_Ok n m : bigint n = Ok m ↔ in_i64 n ∧ m = n.
Proof. unfold bigint. rewrite ok_or_Ok, checked_Some. naive_solver. Qed.

(** A counter column is null without a limit. *)
Definition column_value (limit used : option Z) : option Z :=
  match limit with Some _ => used | None => None end.

Lemma window_value_Ok limit state path u :
  window_value limit state path = Ok u → u = column_value limit (counter_at state path).
Proof.
  unfold window_value, counter_at. intros H. destruct limit as [l|]; [|by inv_ok].
  destruct (jsonb_path state path) as [v|]; cbn in *; [|by inv_ok].
  destruct (jsonb_is_number v) eqn:Hn.
  - apply bind_Ok in H as (n & Hb%ok_or_Ok & H). inv_ok.
    symmetry. apply jsonb_bigint. done.
  - inv_ok. symmetry. apply eq_None_not_Some. intros [n [? _]%jsonb_bigint]. congruence.
Qed.

Lemma window_value_ready operation limit state path required :
  dimension_ready operation limit (counter_at state path) required →
  window_value limit state path = Ok (column_value limit (counter_at state path)).
Proof.
  unfold dimension_ready, window_value, counter_at. destruct limit as [l|]; [|done].
  intros (u & Hu & _). destruct (jsonb_path state path) as [v|]; [|done]. cbn in *.
  rewrite Hu. apply jsonb_bigint in Hu as [-> ->]. done.
Qed.

Lemma eligible_dimension_Ok operation limit used required :
  column_wf limit → in_i64 required → 0 <= required → (∀ u, used = Some u → in_i64 u) →
  eligible_dimension operation limit used required = Ok true ↔ dimension_ready operation limit used required.
Proof.
  intros Hl Hr H0 Hu. unfold eligible_dimension, dimension_ready. destruct limit as [l|]; [|done]. cbn in Hl.
  destruct used as [u|]; [|naive_solver]. specialize (Hu u eq_refl).
  destruct (Z.ltb_spec 0 l); cbn; [|split; [done|naive_solver lia]].
  destruct (Z.leb_spec 0 u); cbn; [|split; [done|naive_solver lia]].
  destruct operation.
  - split.
    + intros (m & [? ->]%bigint_Ok & H')%bind_Ok. inv_ok. bool_to_prop. naive_solver.
    + intros (u' & [= <-] & _ & _ & Hle). specialize (Hle eq_refl).
      unfold bigint. rewrite checked_in by width_lia. cbn. f_equal. by apply Z.leb_le.
  - split; [|done]. intros _. exists u. naive_solver.
Qed.

Lemma counter_at_range state path u : counter_at state path = Some u → in_i64 u.
Proof. unfold counter_at. intros (v & _ & Hv)%bind_Some. by eapply value_as_i64_range. Qed.

Lemma next_counter_range operation limit used required u :
  column_wf limit → in_i64 required → 0 <= required → limit ≠ None →
  dimension_ready operation limit used required → used = Some u → in_i64 u →
  in_i64 (next_counter operation u required).
Proof.
  unfold dimension_ready, next_counter. intros Hl Hr H0 Hn Hready -> Hu. destruct limit as [l|]; [|done].
  destruct Hready as (u' & [= <-] & ? & ? & Hle). destruct operation.
  - specialize (Hle eq_refl). cbn in Hl. width_lia.
  - width_lia.
Qed.

Lemma updated_window_Ok operation limit state0 required path state :
  column_wf limit → in_i64 required → 0 <= required →
  dimension_ready operation limit (counter_at state0 path) required →
  updated_window operation limit (column_value limit (counter_at state0 path)) required path state
  = Ok (set_counter operation limit state0 required path state).
Proof.
  intros Hl Hr H0 Hready. unfold updated_window, set_counter, column_value. destruct limit as [l|]; [|done].
  destruct (counter_at state0 path) as [u|] eqn:Hu; [|done].
  pose proof (counter_at_range _ _ _ Hu) as Hrange.
  destruct Hready as (u' & [= <-] & ? & ? & Hle). unfold bigint.
  destruct operation; cbn [next_counter].
  - specialize (Hle eq_refl). cbn in Hl. rewrite checked_in by width_lia. done.
  - rewrite checked_in by width_lia. done.
Qed.

Lemma eligible_request_iff row required :
  eligible_request row required = true ↔
  capacity_ok required ∧
  (is_Some (pk_rpm_limit row) ∧ 0 < rc_requests_per_minute required ∨
   is_Some (pk_tpm_limit row) ∧ 0 < rc_tokens_per_minute required ∨
   is_Some (pk_concurrency_limit row) ∧ 0 < rc_concurrency required).
Proof.
  unfold eligible_request, capacity_ok.
  rewrite !andb_true_iff, !orb_true_iff, !andb_true_iff, !Z.leb_le, !Z.ltb_lt.
  assert (∀ o : option Z, is_some o = true ↔ is_Some o) as His by (intros []; cbn; naive_solver).
  rewrite !His. naive_solver.
Qed.

(** The effect of a statement on the row in scope. *)
Lemma reservation_row_iff operation required row row' :
  row_wf row → required_wf required →
  reservation_row operation required row = Ok (Some row') ↔
  eligible_request row required = true ∧ row_ready operation required row ∧
  row' = with_window row (next_state operation required row).
Proof.
  intros (Hl1 & Hl2 & Hl3) (Hr1 & Hr2 & Hr3).
  destruct (eligible_request row required) eqn:He; cycle 1.
  { split; [|naive_solver]. unfold reservation_row. rewrite He. intros H. cbn in H. by inv_ok. }
  pose proof He as ((H1 & H2 & H3) & _)%eligible_request_iff.
  split.
  - unfold reservation_row. rewrite He. cbn [negb].
    intros (u1 & E1%window_value_Ok & (u2 & E2%window_value_Ok & (u3 & E3%window_value_Ok & H)%bind_Ok)%bind_Ok)%bind_Ok.
    apply bind_Ok in H as ([] & K1 & H); [|done]. apply bind_Ok in H as ([] & K2 & H); [|done].
    apply bind_Ok in H as ([] & K3 & H); [|done]. cbn [negb] in H.
    assert (row_ready operation required row) as Hready.
    { unfold row_ready. split_and!; [clear -L K1 E1 Hl1 Hr1 H1|clear -L K2 E2 Hl2 Hr2 H2|clear -L K3 E3 Hl3 Hr3 H3].
      - apply eligible_dimension_Ok; try done; [apply counter_at_range|]. by destruct (pk_rpm_limit row); subst.
      - apply eligible_dimension_Ok; try done; [apply counter_at_range|]. by destruct (pk_tpm_limit row); subst.
      - apply eligible_dimension_Ok; try done; [apply counter_at_range|]. by destruct (pk_concurrency_limit row); subst. }
    split_and!; [done|done|]. destruct Hready as (R1 & R2 & R3).
    subst u1 u2 u3.
    do 3 (rewrite updated_window_Ok in H by done; cbn [mbind result_bind] in H). by injection H as <-.
  - intros (_ & (R1 & R2 & R3) & ->). unfold reservation_row.
    rewrite (window_value_ready _ _ _ _ _ R1), (window_value_ready _ _ _ _ _ R2), (window_value_ready _ _ _ _ _ R3).
    cbn [mbind result_bind]. rewrite He. cbn [negb].
    assert (∀ l path r, column_wf l → in_i64 r → 0 <= r →
      dimension_ready operation l (counter_at (pk_current_window_state row) path) r →
      eligible_dimension operation l (column_value l (counter_at (pk_current_window_state row) path)) r
      = Ok true) as Hel.
    { intros l path r ? ? ? Hd. destruct l; [|done]. apply eligible_dimension_Ok; try done. apply counter_at_range. }
    do 3 (rewrite Hel by done; cbn [mbind result_bind negb]).
    do 3 (rewrite updated_window_Ok by done; cbn [mbind result_bind]). done.
Qed.

Lemma set_counter_other operation limit state0 required path path' state :
  path ∈ window_paths → path' ∈ window_paths → path ≠ path' →
  jsonb_path (set_counter operation limit state0 required path state) path' = jsonb_path state path'.
Proof.
  intros. unfold set_counter. destruct limit, (counter_at state0 path); try done. by apply jsonb_set_other.
Qed.

Definition counter_after (operation : ProviderKeyRateLimitReservationOperation) (limit used : option Z)
    (required : Z) : option Z :=
  match limit with Some _ => (λ u, next_counter operation u required) <$> used | None => used end.

Lemma set_counter_same operation limit state0 required path state :
  column_wf limit → in_i64 required → 0 <= required → path ∈ window_paths →
  dimension_ready operation limit (counter_at state0 path) required →
  jsonb_path state path = jsonb_path state0 path →
  counter_at (set_counter operation limit state0 required path state) path
  = counter_after operation limit (counter_at state0 path) required.
Proof.
  intros Hl Hr H0 Hp Hready Hs. unfold set_counter, counter_after.
  destruct limit as [l|]; [|unfold counter_at; by rewrite Hs].
  destruct (counter_at state0 path) as [u|] eqn:Hu; [|by destruct Hready as (? & ? & _)].
  unfold counter_at in *. rewrite jsonb_set_same; [|done|rewrite Hs; destruct (jsonb_path state0 path); done].
  cbn. apply to_jsonb_i64. eapply next_counter_range; try done. by eapply (counter_at_range state0 path).
Qed.

(** The counters after a statement. *)
Lemma next_state_counters operation required row :
  row_wf row → required_wf required → capacity_ok required → row_ready operation required row →
  let used path := counter_at (pk_current_window_state row) path in
  let used' path := counter_at (next_state operation required row) path in
  used' rpm_path = counter_after operation (pk_rpm_limit row) (used rpm_path) (rc_requests_per_minute required) ∧
  used' tpm_path = counter_after operation (pk_tpm_limit row) (used tpm_path) (rc_tokens_per_minute required) ∧
  used' concurrency_path
    = counter_after operation (pk_concurrency_limit row) (used concurrency_path) (rc_concurrency required).
Proof.
  intros (Hl1 & Hl2 & Hl3) (Hr1 & Hr2 & Hr3) (H1 & H2 & H3) (R1 & R2 & R3). cbn zeta. unfold next_state.
  assert (rpm_path ∈ window_paths ∧ tpm_path ∈ window_paths ∧ concurrency_path ∈ window_paths) as (P1 & P2 & P3)
    by (unfold window_paths; set_solver).
  assert (rpm_path ≠ tpm_path ∧ rpm_path ≠ concurrency_path ∧ tpm_path ≠ concurrency_path) as (N1 & N2 & N3) by done.
  split_and!.
  - unfold counter_at at 1. rewrite !set_counter_other by done. by apply set_counter_same.
  - unfold counter_at at 1. rewrite set_counter_other by done. apply set_counter_same; try done.
    by apply set_counter_other.
  - apply set_counter_same; try done. by rewrite !set_counter_other by done.
Qed.

(** ** Statements on the table *)

Definition table_wf (table : list ProviderKeyRow) : Prop := NoDup (pk_scope <$> table) ∧ Forall row_wf table.

Lemma scoped_scope scope row : scoped_provider_key scope row = true → pk_scope row = scope.
Proof. unfold scoped_provider_key. intros H. by bool_to_prop. Qed.

Lemma statement_other operation scope required table :
  (∀ row, row ∈ table → scoped_provider_key scope row = false) →
  try_map
    (λ row,
      if scoped_provider_key scope row then
        updated ← reservation_row operation required row;
        Ok (default row updated, updated)
      else Ok (row, None))
    table = Ok ((λ row, (row, None)) <$> table).
Proof.
  intros Hno. induction table as [|row table IH]; [done|]. cbn. rewrite Hno by set_solver. cbn.
  rewrite IH by (intros; apply Hno; set_solver). done.
Qed.

Lemma unchanged_rows (table : list ProviderKeyRow) :
  ((λ row, (row, @None ProviderKeyRow)) <$> table).*1 = table ∧
  omap snd ((λ row, (row, @None ProviderKeyRow)) <$> table) = [].
Proof. induction table as [|row table [IH1 IH2]]; [done|]. cbn. split; [f_equal; exact IH1|exact IH2]. Qed.

Lemma statement_row operation scope required pre row post :
  NoDup (pk_scope <$> pre ++ row :: post) → scoped_provider_key scope row = true →
  reservation_statement operation scope required (pre ++ row :: post)
  = updated ← reservation_row operation required row;
    Ok (pre ++ default row updated :: post, option_list updated).
Proof.
  intros Hnd Hs. rewrite fmap_app, fmap_cons, (scoped_scope _ _ Hs) in Hnd.
  apply NoDup_app in Hnd as (_ & Hpre & [Hpost _]%NoDup_cons).
  assert (∀ row', pk_scope row' ≠ scope → scoped_provider_key scope row' = false) as Hno.
  { intros row' Hne. apply not_true_iff_false. by intros ?%scoped_scope. }
  unfold reservation_statement. rewrite try_map_app.
  rewrite (statement_other operation scope required pre); cycle 1.
  { intros row' Hin. apply Hno. intros He. apply (Hpre scope); [|set_solver].
    rewrite <-He. by apply list_elem_of_fmap_2. }
  cbn. rewrite Hs. rewrite (statement_other operation scope required post); cycle 1.
  { intros row' Hin. apply Hno. intros <-. apply Hpost. by apply list_elem_of_fmap_2. }
  destruct (reservation_row operation required row) as [updated|]; [|done]. cbn.
  destruct (unchanged_rows pre) as [E1 E2], (unchanged_rows post) as [E3 E4].
  rewrite fmap_app, fmap_cons, omap_app, E1, E2. cbn. rewrite E3, E4. by destruct updated.
Qed.

Lemma statement_none operation scope required table :
  (∀ row, row ∈ table → scoped_provider_key scope row = false) →
  reservation_statement operation scope required table = Ok (table, []).
Proof.
  intros Hno. unfold reservation_statement. rewrite statement_other by done. cbn.
  by destruct (unchanged_rows table) as [-> ->].
Qed.

(** ** Executions *)

(** An input takes effect on a row. *)
Definition takes_effect (input : ProviderKeyRateLimitReservationExecutionInput) (row : ProviderKeyRow) : Prop :=
  eligible_request row (xi_required input) = true ∧
  row_ready (xi_operation input) (xi_required input) row ∧
  (xi_operation input = DbRelease → xi_reservation_acquired input = true).

Definition row_after (input : ProviderKeyRateLimitReservationExecutionInput) (row : ProviderKeyRow) : ProviderKeyRow :=
  with_window row (next_state (xi_operation input) (xi_required input) row).

Lemma requested_positive required :
  0 < rc_requests_per_minute required ∨ 0 < rc_tokens_per_minute required ∨ 0 < rc_concurrency required →
  requested_counter_updates required ≠ 0%nat.
Proof.
  unfold requested_counter_updates. cbn.
  destruct (Z.ltb_spec 0 (rc_requests_per_minute required)), (Z.ltb_spec 0 (rc_tokens_per_minute required)),
    (Z.ltb_spec 0 (rc_concurrency required)); cbn; lia.
Qed.

Lemma command_status input :
  xc_status (build_provider_key_rate_limit_reservation_execution_command input) = SqlReady ↔
  capacity_ok (xi_required input) ∧ requested_counter_updates (xi_required input) ≠ 0%nat ∧
  (xi_operation input = DbRelease → xi_reservation_acquired input = true).
Proof.
  unfold build_provider_key_rate_limit_reservation_execution_command, execution_command_status, capacity_ok.
  destruct (Z.ltb_spec (rc_requests_per_minute (xi_required input)) 0); cbn -[requested_counter_updates];
    [split; [done|lia]|].
  destruct (Z.ltb_spec (rc_tokens_per_minute (xi_required input)) 0); cbn -[requested_counter_updates];
    [split; [done|lia]|].
  destruct (Z.ltb_spec (rc_concurrency (xi_required input)) 0); cbn -[requested_counter_updates];
    [split; [done|lia]|].
  destruct (Nat.eqb_spec (requested_counter_updates (xi_required input)) 0); [naive_solver|].
  destruct (xi_operation input), (xi_reservation_acquired input); naive_solver.
Qed.

Lemma takes_effect_command input row :
  takes_effect input row →
  xc_status (build_provider_key_rate_limit_reservation_execution_command input) = SqlReady.
Proof.
  intros ([Hc Hpos]%eligible_request_iff & _ & Hr). apply command_status. split_and!; try done.
  apply requested_positive. naive_solver.
Qed.

Lemma execute_effect pre row post input :
  table_wf (pre ++ row :: post) → required_wf (xi_required input) →
  scoped_provider_key (xi_scope input) row = true → takes_effect input row →
  execute_provider_key_rate_limit_reservation (pre ++ row :: post) input
  = Ok (pre ++ row_after input row :: post,
        from_command_row (build_provider_key_rate_limit_reservation_execution_command input)
          (Some (execution_row_from_row (row_after input row)))).
Proof.
  intros [Hnd HF] Hr Hs Heff. unfold execute_provider_key_rate_limit_reservation.
  rewrite (takes_effect_command _ _ Heff). decide_refl. cbn [negb].
  destruct Heff as (He & Hready & Hrel). apply Forall_app in HF as [_ [Hwf _]%Forall_cons].
  assert (reservation_row (xi_operation input) (xi_required input) row = Ok (Some (row_after input row))) as Hrow
    by (by apply reservation_row_iff).
  destruct (xi_operation input); [|rewrite Hrel by done];
    rewrite statement_row by done; rewrite Hrow; done.
Qed.

(** A row the input has no effect on keeps the table as it is. *)
Lemma execute_no_effect pre row post input table' res :
  table_wf (pre ++ row :: post) → required_wf (xi_required input) →
  scoped_provider_key (xi_scope input) row = true →
  execute_provider_key_rate_limit_reservation (pre ++ row :: post) input = Ok (table', res) →
  ¬ takes_effect input row → table' = pre ++ row :: post ∧ xe_status res ≠ ExApplied.
Proof.
  intros [Hnd HF] Hr Hs H Hno. unfold execute_provider_key_rate_limit_reservation in H.
  apply Forall_app in HF as [_ [Hwf _]%Forall_cons].
  case_bool_decide as Hst; cbn [negb] in H; cycle 1.
  { inv_ok. split; [done|]. unfold from_command_without_query, execution_result. cbn. by case_match. }
  assert (∀ operation, xi_operation input = operation →
    (operation = DbRelease → xi_reservation_acquired input = true) →
    reservation_statement operation (xi_scope input) (xi_required input) (pre ++ row :: post) ≫=
      (λ '(table', rows), Ok (table', from_command_row
         (build_provider_key_rate_limit_reservation_execution_command input)
         (execution_row_from_row <$> head rows))) = Ok (table', res) →
    table' = pre ++ row :: post ∧ xe_status res ≠ ExApplied) as Hstmt.
  { intros operation Hop Hrel. rewrite statement_row by done.
    destruct (reservation_row operation (xi_required input) row) as [[row'|]|] eqn:E; cbn; intros; simplify_eq.
    - apply reservation_row_iff in E as (? & ? & _); [|done..]. by destruct Hno.
    - done. }
  destruct (xi_operation input) eqn:Hop; [by apply (Hstmt DbAcquire)|].
  destruct (xi_reservation_acquired input) eqn:Hacq; [by apply (Hstmt DbRelease)|].
  inv_ok. done.
Qed.

Lemma execute_unscoped table input :
  (∀ row, row ∈ table → scoped_provider_key (xi_scope input) row = false) →
  ∃ res, execute_provider_key_rate_limit_reservation table input = Ok (table, res) ∧ xe_status res ≠ ExApplied.
Proof.
  intros Hno. unfold execute_provider_key_rate_limit_reservation.
  case_bool_decide; cbn [negb]; cycle 1.
  { eexists. split; [done|]. unfold from_command_without_query, execution_result. cbn. by case_match. }
  destruct (xi_operation input); [|destruct (xi_reservation_acquired input)];
    rewrite ?statement_none by done; eexists; done.
Qed.

(** ** The dry-run plan predicts the statement *)

(** The plan over the row a statement would run on. *)
Definition plan_for (input : ProviderKeyRateLimitReservationExecutionInput) (row : ProviderKeyRow)
    : ProviderKeyRateLimitReservationPersistencePlan :=
  build_provider_key_rate_limit_reservation_persistence_plan
    (mkPersistenceInput input (pk_rpm_limit row) (pk_tpm_limit row) (pk_concurrency_limit row)
       (pk_current_window_state row)).

(** The window document does not use the alternative names of a counter, which
    only the plan reads. *)
Definition canonical_window (state : Value) : Prop :=
  (value_at_path state rpm_path = None →
   read_window_counter state [["requests_per_minute"; "used"]; ["rpm_used"]; ["requests_per_minute_used"]]
   = CounterMissing) ∧
  (value_at_path state tpm_path = None →
   read_window_counter state [["tokens_per_minute"; "used"]; ["tpm_used"]; ["tokens_per_minute_used"]]
   = CounterMissing) ∧
  (value_at_path state concurrency_path = None →
   read_window_counter state [["active_concurrency"]; ["in_flight"]; ["concurrency_used"]] = CounterMissing).

Definition reads (counter : CounterRead) : option Z :=
  match counter with CounterValue n => Some n | _ => None end.

Lemma read_canonical state path paths :
  path ∈ window_paths → (value_at_path state path = None → read_window_counter state paths = CounterMissing) →
  reads (read_window_counter state (path :: paths)) = counter_at state path.
Proof.
  intros Hp Hmiss. unfold counter_at. rewrite jsonb_path_keys by done. cbn.
  destruct (value_at_path state path) as [v|]; [|by rewrite Hmiss]. cbn.
  unfold parse_counter_value. destruct (value_as_i64 v) as [n|] eqn:Hi; [done|].
  destruct (value_as_u64 v) as [n|] eqn:Hu; [|done].
  destruct (checked i64_min i64_max n) as [m|] eqn:Hc; [|done].
  apply checked_Some in Hc as [-> [_ Hle]]. rewrite (value_as_u64_as_i64 v n Hu Hle) in Hi. done.
Qed.

Definition good_status (status : ProviderKeyRateLimitDimensionStatus) : bool :=
  match status with Unlimited | WindowReady => true | _ => false end.

Lemma evaluate_dimension_good dimension limit counter required operation :
  column_wf limit → in_i64 required → (∀ u, reads counter = Some u → in_i64 u) →
  let e := evaluate_dimension dimension limit counter required operation in
  (good_status (de_status e) = true ↔ 0 <= required ∧ dimension_ready operation limit (reads counter) required) ∧
  (good_status (de_status e) = true →
     de_limit e = limit ∧ de_used e = column_value limit (reads counter) ∧ de_required e = required) ∧
  (de_status e = OverLimit → operation = DbAcquire).
Proof.
  intros Hl Hr Hu. unfold evaluate_dimension, dimension_ready.
  destruct (Z.ltb_spec required 0); [cbn; naive_solver lia|].
  destruct limit as [l|]; [|cbn; rewrite Z.max_l by lia; done]. cbn in Hl.
  destruct (Z.leb_spec l 0); [cbn; naive_solver lia|].
  destruct counter as [| |u]; cbn in *; [naive_solver..|]. specialize (Hu u eq_refl).
  destruct (Z.ltb_spec u 0); [cbn; naive_solver lia|].
  rewrite Z.max_l by lia. unfold saturating_add_u64. rewrite Z.min_r by width_lia.
  destruct operation; cbn; [destruct (Z.ltb_spec l (u + required)); cbn|].
  - split_and!; try done. split; [done|]. intros (_ & u' & [= <-] & _ & _ & Hle). specialize (Hle eq_refl). lia.
  - split_and!; try done. split; [|done]. intros _. split; [done|]. by exists u.
  - split_and!; try done. split; [|done]. intros _. split; [done|]. by exists u.
Qed.

Lemma any_dimension_true status evaluations :
  any_dimension status evaluations = true ↔ ∃ e, e ∈ evaluations ∧ de_status e = status.
Proof.
  unfold any_dimension. rewrite List.existsb_exists. setoid_rewrite <-list_elem_of_In.
  by setoid_rewrite bool_decide_eq_true.
Qed.

Lemma persistence_status_ready operation acquired evaluations :
  (∀ e, e ∈ evaluations → de_status e = OverLimit → operation = DbAcquire) →
  fst (persistence_status operation acquired evaluations) = SqlReady ↔
  (operation = DbRelease → acquired = true) ∧ ∀ e, e ∈ evaluations → good_status (de_status e) = true.
Proof.
  intros Hover. unfold persistence_status.
  destruct (decide (operation = DbRelease ∧ acquired = false)) as [[-> ->]|Hno].
  { cbn. split; [done|]. intros [H _]. by specialize (H eq_refl). }
  assert (operation = DbRelease → acquired = true) as Hacq by (destruct acquired; naive_solver).
  replace (bool_decide (operation = DbRelease) && negb acquired) with false by (destruct operation, acquired; naive_solver).
  assert (∀ status, good_status status = false → any_dimension status evaluations = true →
    ¬ ∀ e, e ∈ evaluations → good_status (de_status e) = true) as Hbad.
  { intros status Hs (e & He & <-)%any_dimension_true Hall. by rewrite (Hall e He) in Hs. }
  destruct (any_dimension InvalidRequired evaluations) eqn:E1;
    [cbn; split; [done|]; intros [_ Hall]; by destruct (Hbad InvalidRequired)|].
  destruct (any_dimension InvalidLimit evaluations) eqn:E2;
    [cbn; split; [done|]; intros [_ Hall]; by destruct (Hbad InvalidLimit)|].
  destruct (any_dimension MissingWindow evaluations) eqn:E3;
    [cbn; split; [done|]; intros [_ Hall]; by destruct (Hbad MissingWindow)|].
  destruct (any_dimension InvalidWindow evaluations) eqn:E4;
    [cbn; split; [done|]; intros [_ Hall]; by destruct (Hbad InvalidWindow)|].
  destruct (any_dimension OverLimit evaluations) eqn:E5.
  - pose proof E5 as (e & He & Hst)%any_dimension_true. rewrite bool_decide_true by (by eapply Hover). cbn.
    split; [done|]. intros [_ Hall]. by destruct (Hbad OverLimit).
  - rewrite andb_false_r. cbn. split; [|done]. intros _. split; [done|]. intros e He.
    assert (∀ status, any_dimension status evaluations = false → de_status e ≠ status) as Hne.
    { intros status Hf Heq. by rewrite (proj2 (any_dimension_true status evaluations)) in Hf by eauto. }
    destruct (de_status e) eqn:Est; try done; exfalso; [by apply (Hne MissingWindow)|by apply (Hne InvalidWindow)
      |by apply (Hne InvalidLimit)|by apply (Hne InvalidRequired)|by apply (Hne OverLimit)].
Qed.

(** The evaluation of one dimension of a row. *)
Record evaluation_of (operation : ProviderKeyRateLimitReservationOperation) (limit used : option Z) (required : Z)
    (e : DimensionEvaluation) : Prop := {
  eo_good : good_status (de_status e) = true ↔ 0 <= required ∧ dimension_ready operation limit used required;
  eo_fields : good_status (de_status e) = true →
    de_limit e = limit ∧ de_used e = column_value limit used ∧ de_required e = required;
  eo_over : de_status e = OverLimit → operation = DbAcquire;
}.

Lemma evaluation_of_row operation limit required dimension state path paths :
  column_wf limit → in_i64 required → path ∈ window_paths →
  (value_at_path state path = None → read_window_counter state paths = CounterMissing) →
  evaluation_of operation limit (counter_at state path) required
    (evaluate_dimension dimension limit (read_window_counter state (path :: paths)) required operation).
Proof.
  intros Hl Hr Hp Hmiss. pose proof (read_canonical _ _ _ Hp Hmiss) as Hread.
  destruct (evaluate_dimension_good dimension limit (read_window_counter state (path :: paths)) required operation)
    as (H1 & H2 & H3); [done|done| |].
  { intros u Hu. rewrite Hread in Hu. by eapply counter_at_range. }
  rewrite Hread in *. by constructor.
Qed.

(** The plan of a ready dimension. *)
Lemma ready_dimension_plan operation limit used required e :
  column_wf limit → in_i64 required → (∀ u, used = Some u → in_i64 u) →
  0 <= required → dimension_ready operation limit used required → evaluation_of operation limit used required e →
  pd_used_after (db_dimension_plan operation SqlReady e)
    = column_value limit (counter_after operation limit used required) ∧
  (pd_counter_update (db_dimension_plan operation SqlReady e) ≠ NoUpdate ↔ is_Some limit ∧ 0 < required).
Proof.
  intros Hl Hr Hu H0 Hready [Hg Hf _]. destruct (Hf (proj2 Hg (conj H0 Hready))) as (Elim & Eused & Ereq).
  unfold db_dimension_plan, db_counter_update. cbn [pd_used_after pd_counter_update].
  rewrite Elim, Eused, Ereq. decide_refl. unfold dimension_ready in Hready.
  destruct limit as [l|]; [|cbn; split; [done|]; split; [done|intros [[? ?] _]; done]].
  destruct Hready as (u & -> & ? & ? & Hle). cbn. specialize (Hu u eq_refl).
  destruct (Z.eqb_spec required 0) as [->|].
  - split; [|split; [done|intros [_ ?]; lia]]. f_equal. destruct operation; cbn; lia.
  - destruct operation; cbn; unfold saturating_add_u64, saturating_sub_u64.
    + rewrite Z.min_r by width_lia. split; [done|]. split; [split; [done|lia]|done].
    + split; [f_equal; lia|]. split; [split; [done|lia]|done].
Qed.

Lemma updates_planned (d1 d2 d3 : ProviderKeyRateLimitReservationDimensionPlan) :
  length (List.filter (λ d, negb (bool_decide (pd_counter_update d = NoUpdate))) [d1; d2; d3]) ≠ 0%nat ↔
  pd_counter_update d1 ≠ NoUpdate ∨ pd_counter_update d2 ≠ NoUpdate ∨ pd_counter_update d3 ≠ NoUpdate.
Proof.
  cbn. destruct (pd_counter_update d1), (pd_counter_update d2), (pd_counter_update d3); cbn; naive_solver lia.
Qed.

Lemma plan_status_iff operation acquired l1 l2 l3 u1 u2 u3 r1 r2 r3 e1 e2 e3 :
  evaluation_of operation l1 u1 r1 e1 → evaluation_of operation l2 u2 r2 e2 → evaluation_of operation l3 u3 r3 e3 →
  fst (persistence_status operation acquired [e1; e2; e3]) = SqlReady ↔
  (operation = DbRelease → acquired = true) ∧ (0 <= r1 ∧ dimension_ready operation l1 u1 r1) ∧
  (0 <= r2 ∧ dimension_ready operation l2 u2 r2) ∧ (0 <= r3 ∧ dimension_ready operation l3 u3 r3).
Proof.
  intros [G1 _ O1] [G2 _ O2] [G3 _ O3]. rewrite <-G1, <-G2, <-G3, persistence_status_ready.
  - split; [intros [? Hall]; split_and!; [done|apply Hall; set_solver..]|].
    intros (? & ? & ? & ?). split; [done|].
    by intros e [->|[->|[->|[]%elem_of_nil]%elem_of_cons]%elem_of_cons]%elem_of_cons.
  - by intros e [->|[->|[->|[]%elem_of_nil]%elem_of_cons]%elem_of_cons]%elem_of_cons.
Qed.

Lemma plan_updates operation l1 l2 l3 u1 u2 u3 r1 r2 r3 e1 e2 e3 :
  column_wf l1 → column_wf l2 → column_wf l3 → in_i64 r1 → in_i64 r2 → in_i64 r3 →
  (∀ u, u1 = Some u → in_i64 u) → (∀ u, u2 = Some u → in_i64 u) → (∀ u, u3 = Some u → in_i64 u) →
  evaluation_of operation l1 u1 r1 e1 → evaluation_of operation l2 u2 r2 e2 → evaluation_of operation l3 u3 r3 e3 →
  (0 <= r1 ∧ dimension_ready operation l1 u1 r1) → (0 <= r2 ∧ dimension_ready operation l2 u2 r2) →
  (0 <= r3 ∧ dimension_ready operation l3 u3 r3) →
  let dimensions := map (db_dimension_plan operation SqlReady) [e1; e2; e3] in
  (length (List.filter (λ d, negb (bool_decide (pd_counter_update d = NoUpdate))) dimensions) ≠ 0%nat ↔
   is_Some l1 ∧ 0 < r1 ∨ is_Some l2 ∧ 0 < r2 ∨ is_Some l3 ∧ 0 < r3) ∧
  map pd_used_after dimensions =
    [column_value l1 (counter_after operation l1 u1 r1); column_value l2 (counter_after operation l2 u2 r2);
     column_value l3 (counter_after operation l3 u3 r3)].
Proof.
  intros Hl1 Hl2 Hl3 Hr1 Hr2 Hr3 Hu1 Hu2 Hu3 V1 V2 V3 [? ?] [? ?] [? ?]. cbn [map]. rewrite updates_planned.
  destruct (ready_dimension_plan operation l1 u1 r1 e1) as [-> ->]; try done.
  destruct (ready_dimension_plan operation l2 u2 r2 e2) as [-> ->]; try done.
  destruct (ready_dimension_plan operation l3 u3 r3 e3) as [-> ->]; done.
Qed.

(** The plan is ready exactly when the statement takes effect, and then it
    predicts the counters. *)
Lemma plan_for_ready input row :
  row_wf row → required_wf (xi_required input) → canonical_window (pk_current_window_state row) →
  (pp_status (plan_for input row) = SqlReady ↔ takes_effect input row) ∧
  (takes_effect input row →
   let used path := counter_at (pk_current_window_state row) path in
   let after limit path required :=
     column_value limit (counter_after (xi_operation input) limit (used path) required) in
   map pd_used_after (pp_dimensions (plan_for input row)) =
   [after (pk_rpm_limit row) rpm_path (rc_requests_per_minute (xi_required input));
    after (pk_tpm_limit row) tpm_path (rc_tokens_per_minute (xi_required input));
    after (pk_concurrency_limit row) concurrency_path (rc_concurrency (xi_required input))]).
Proof.
  intros (Hl1 & Hl2 & Hl3) (Hr1 & Hr2 & Hr3) (C1 & C2 & C3).
  assert (rpm_path ∈ window_paths ∧ tpm_path ∈ window_paths ∧ concurrency_path ∈ window_paths) as (P1 & P2 & P3)
    by (unfold window_paths; set_solver).
  unfold plan_for, build_provider_key_rate_limit_reservation_persistence_plan.
  cbn [pi_execution pi_rpm_limit pi_tpm_limit pi_concurrency_limit pi_current_window_state].
  pose proof (evaluation_of_row (xi_operation input) _ _ RequestsPerMinute _ _ _ Hl1 Hr1 P1 C1) as V1.
  pose proof (evaluation_of_row (xi_operation input) _ _ TokensPerMinute _ _ _ Hl2 Hr2 P2 C2) as V2.
  pose proof (evaluation_of_row (xi_operation input) _ _ Concurrency _ _ _ Hl3 Hr3 P3 C3) as V3.
  fold rpm_path tpm_path concurrency_path in *.
  set (e1 := evaluate_dimension RequestsPerMinute _ _ _ _) in *.
  set (e2 := evaluate_dimension TokensPerMinute _ _ _ _) in *.
  set (e3 := evaluate_dimension Concurrency _ _ _ _) in *.
  destruct (persistence_status (xi_operation input) (xi_reservation_acquired input) [e1; e2; e3])
    as [status refusal] eqn:Est.
  pose proof (plan_status_iff _ (xi_reservation_acquired input) _ _ _ _ _ _ _ _ _ _ _ _ V1 V2 V3) as Hstatus.
  rewrite Est in Hstatus. cbn [fst] in Hstatus.
  cbn [pp_status pp_dimensions].
  pose proof (plan_updates _ _ _ _ _ _ _ _ _ _ _ _ _ Hl1 Hl2 Hl3 Hr1 Hr2 Hr3 (counter_at_range _ _)
    (counter_at_range _ _) (counter_at_range _ _) V1 V2 V3) as Hupd.
  unfold takes_effect, row_ready. rewrite eligible_request_iff. unfold capacity_ok. split.
  - case_bool_decide as Hs; cbn [andb]; cycle 1.
    { split; [done|]. intros (((? & ? & ?) & _) & (? & ? & ?) & ?). destruct Hs. by apply Hstatus. }
    destruct (proj1 Hstatus Hs) as (? & R1 & R2 & R3). subst status.
    destruct (Hupd R1 R2 R3) as [Hcount _]. destruct R1, R2, R3.
    destruct (Nat.eqb_spec (length (List.filter (λ d, negb (bool_decide (pd_counter_update d = NoUpdate)))
      (map (db_dimension_plan (xi_operation input) SqlReady) [e1; e2; e3]))) 0) as [E|E].
    + split; [done|]. intros ((_ & Hpos) & _). by apply Hcount in Hpos.
    + split; [|done]. intros _. apply Hcount in E. done.
  - intros (((? & ? & ?) & Hpos) & (? & ? & ?) & ?). cbn zeta.
    assert (status = SqlReady) as -> by (by apply Hstatus).
    destruct Hupd as [Hcount Hmap]; try done.
    rewrite (proj2 (Nat.eqb_neq _ 0)) by (by apply Hcount). by rewrite andb_false_r.
Qed.

Lemma returned_counter_at state path u :
  counter_at state path = Some u → 0 <= u → returned_counter state path = Some u.
Proof.
  unfold counter_at, returned_counter. intros (v & -> & Hv%jsonb_text)%bind_Some Hu. cbn. rewrite Hv. cbn.
  by rewrite (proj2 (Z.leb_le 0 u) Hu).
Qed.

Lemma returned_counter_after operation limit used required state path :
  dimension_ready operation limit used required → 0 <= required →
  counter_at state path = counter_after operation limit used required →
  column_value limit (returned_counter state path) = column_value limit (counter_after operation limit used required).
Proof.
  unfold dimension_ready, counter_after. destruct limit as [l|]; [|done]. cbn.
  intros (u & -> & ? & ? & Hle) Hr Hc. cbn in *. apply returned_counter_at; [done|].
  unfold next_counter. destruct operation; lia.
Qed.

(** C26: the dry-run plan and the SQL statement agree. For a live row whose
    counters have their canonical names, the plan is ready exactly when executing
    the input updates the row, and the counters the statement returns are those
    the plan announced. *)
Theorem persistence_plan_predicts_execution (pre post : list ProviderKeyRow) (row : ProviderKeyRow)
    (input : ProviderKeyRateLimitReservationExecutionInput)
    (Htable : table_wf (pre ++ row :: post)) (Hrequired : required_wf (xi_required input))
    (Hscope : scoped_provider_key (xi_scope input) row = true)
    (Hcanonical : canonical_window (pk_current_window_state row)) :
  let execution := execute_provider_key_rate_limit_reservation (pre ++ row :: post) input in
  (pp_status (plan_for input row) = SqlReady ↔
     ∃ table' res, execution = Ok (table', res) ∧ xe_status res = ExApplied) ∧
  (∀ table' res, execution = Ok (table', res) → xe_status res = ExApplied →
     ∃ returned, xe_row res = Some returned ∧
       map pd_used_after (pp_dimensions (plan_for input row)) =
       [column_value (pk_rpm_limit row) (xr_rpm_used returned);
        column_value (pk_tpm_limit row) (xr_tpm_used returned);
        column_value (pk_concurrency_limit row) (xr_concurrency_used returned)]).
Proof.
  cbn zeta. pose proof Htable as [_ HF]. apply Forall_app in HF as [_ [Hwf _]%Forall_cons].
  destruct (plan_for_ready input row Hwf Hrequired Hcanonical) as [Hready Hafter].
  assert (∀ table' res,
    execute_provider_key_rate_limit_reservation (pre ++ row :: post) input = Ok (table', res) →
    xe_status res = ExApplied → takes_effect input row) as Happlied.
  { intros table' res Hex Hst.
    destruct (decide (pp_status (plan_for input row) = SqlReady)) as [?%Hready|Hno]; [done|].
    rewrite Hready in Hno. by destruct (execute_no_effect _ _ _ _ _ _ Htable Hrequired Hscope Hex Hno). }
  split.
  - rewrite Hready. split; [|intros (table' & res & ? & ?); eauto].
    intros Heff. rewrite execute_effect by done. eauto.
  - intros table' res Hex Hst. pose proof (Happlied _ _ Hex Hst) as Heff.
    rewrite execute_effect in Hex by done. injection Hex as <- <-. cbn [xe_row from_command_row execution_result].
    eexists. split; [done|]. rewrite (Hafter Heff). destruct Heff as ([Hcap _]%eligible_request_iff & Hr & _).
    destruct (next_state_counters _ _ _ Hwf Hrequired Hcap Hr) as (E1 & E2 & E3).
    destruct Hr as (R1 & R2 & R3), Hcap as (? & ? & ?).
    cbn -[rpm_path tpm_path concurrency_path]. unfold row_after. cbn [with_window pk_current_window_state].
    by rewrite !(returned_counter_after _ _ _ _ _ _ R1), !(returned_counter_after _ _ _ _ _ _ R2),
      !(returned_counter_after _ _ _ _ _ _ R3).
Qed.

(** ** Runs

    The table and the reservations the gateways hold. A step is one execution:
    an acquire is held when it was applied, a held reservation is released, a
    statement that fails changes nothing. *)

Definition db_state : Type := list ProviderKeyRow * list (key_scope * RateLimitRequiredCapacity).

Inductive db_step : db_state → db_state → Prop :=
| db_step_acquire table held scope required table' res :
    required_wf required →
    execute_provider_key_rate_limit_reservation table (execution_acquire scope required) = Ok (table', res) →
    db_step (table, held)
      (table', if bool_decide (xe_status res = ExApplied) then (scope, required) :: held else held)
| db_step_release table held1 scope required held2 table' res :
    execute_provider_key_rate_limit_reservation table (execution_release scope required true) = Ok (table', res) →
    db_step (table, held1 ++ (scope, required) :: held2) (table', held1 ++ held2)
| db_step_error table held input :
    execute_provider_key_rate_limit_reservation table input = Err Query →
    db_step (table, held) (table, held).

Definition held_on (scope : key_scope) (held : list (key_scope * RateLimitRequiredCapacity))
    : list RateLimitRequiredCapacity :=
  (filter (λ h, h.1 = scope) held).*2.

Definition key_limits (row : ProviderKeyRow) : rate_limits :=
  mkRateLimits (pk_rpm_limit row) (pk_tpm_limit row) (pk_concurrency_limit row).

(** A limited counter of the row is the counter of the planner. *)
Definition counter_matches (limit used : option Z) (counter : Z) : Prop :=
  match limit with Some l => 0 < l ∧ used = Some counter | None => True end.

(** The relation between the database and the planner's state for one key. *)
Record refines (scope : key_scope) (limits : rate_limits) (state : db_state) (abstract : reservation_state)
    : Prop := {
  rf_table : table_wf state.1;
  rf_required : Forall (λ h, required_wf h.2) state.2;
  rf_held : abstract.2 = held_on scope state.2;
  rf_inv : reservation_inv limits abstract;
  rf_row : ∃ row, row ∈ state.1 ∧ scoped_provider_key scope row = true ∧ key_limits row = limits ∧
    Forall (λ required, eligible_request row required = true) (held_on scope state.2) ∧
    counter_matches (lm_rpm limits) (counter_at (pk_current_window_state row) rpm_path) (ct_rpm abstract.1) ∧
    counter_matches (lm_tpm limits) (counter_at (pk_current_window_state row) tpm_path) (ct_tpm abstract.1) ∧
    counter_matches (lm_concurrency limits) (counter_at (pk_current_window_state row) concurrency_path)
      (ct_concurrency abstract.1);
}.

Lemma held_on_app scope held1 held2 : held_on scope (held1 ++ held2) = held_on scope held1 ++ held_on scope held2.
Proof. unfold held_on. by rewrite filter_app, fmap_app. Qed.

Lemma held_on_cons scope h held :
  held_on scope (h :: held) = if decide (h.1 = scope) then h.2 :: held_on scope held else held_on scope held.
Proof. unfold held_on. rewrite filter_cons. by case_decide. Qed.

Lemma unique_row table row row' :
  table_wf table → row ∈ table → row' ∈ table → pk_scope row = pk_scope row' → row = row'.
Proof.
  intros [Hnd _] (i & Hi)%list_elem_of_lookup (j & Hj)%list_elem_of_lookup Heq.
  assert (i = j) as ->; [|congruence].
  eapply NoDup_lookup; [exact Hnd|..]; rewrite list_lookup_fmap; [by rewrite Hi|rewrite Hj; cbn; by rewrite Heq].
Qed.

Lemma table_wf_update pre row row' post :
  table_wf (pre ++ row :: post) → pk_scope row' = pk_scope row → row_wf row' → table_wf (pre ++ row' :: post).
Proof.
  intros [Hnd HF] Hs Hwf. split.
  - rewrite fmap_app, fmap_cons in *. by rewrite Hs.
  - apply Forall_app in HF as [? [? ?]%Forall_cons]. apply Forall_app. split; [done|]. by constructor.
Qed.

#[local] Instance dimension_ready_dec operation limit used required :
  Decision (dimension_ready operation limit used required).
Proof.
  unfold dimension_ready. destruct limit as [l|]; [|by left]. destruct used as [u|]; [|right; naive_solver].
  destruct (decide (0 < l ∧ 0 <= u ∧ (operation = DbAcquire → u + required <= l))); [left|right]; naive_solver.
Defined.

#[local] Instance takes_effect_dec input row : Decision (takes_effect input row).
Proof. unfold takes_effect, row_ready. apply _. Defined.

(** An execution leaves the table alone or updates the row in scope. *)
Lemma execute_shape table input table' res :
  table_wf table → required_wf (xi_required input) →
  execute_provider_key_rate_limit_reservation table input = Ok (table', res) →
  (table' = table ∧ xe_status res ≠ ExApplied) ∨
  ∃ pre row post, table = pre ++ row :: post ∧ scoped_provider_key (xi_scope input) row = true ∧
    takes_effect input row ∧ table' = pre ++ row_after input row :: post ∧ xe_status res = ExApplied.
Proof.
  intros Htable Hreq Hex.
  destruct (decide (Exists (λ row, scoped_provider_key (xi_scope input) row = true) table)) as [Hin|Hno].
  - apply Exists_exists in Hin as (row & (pre & post & ->)%list_elem_of_split & Hs).
    destruct (decide (takes_effect input row)) as [Heff|Hno]; [|left; by eapply execute_no_effect].
    right. rewrite execute_effect in Hex by done. injection Hex as <- <-. exists pre, row, post. done.
  - left. destruct (execute_unscoped table input) as (res' & Hex' & Hst).
    { intros row Hrow. apply not_true_iff_false. intros Hs. apply Hno, Exists_exists. eauto. }
    rewrite Hex in Hex'. injection Hex' as -> ->. done.
Qed.

Lemma row_after_wf input row : row_wf row → row_wf (row_after input row).
Proof. done. Qed.

(** What happens to other keys does not matter. *)
Lemma refines_frame scope limits table held table' held' abstract :
  refines scope limits (table, held) abstract → table_wf table' → Forall (λ h, required_wf h.2) held' →
  (∀ row, row ∈ table → pk_scope row = scope → row ∈ table') → held_on scope held' = held_on scope held →
  refines scope limits (table', held') abstract.
Proof.
  intros [_ _ Hheld Hinv (row & Hin & Hs & Hlim & Helig & Hc)] Ht Hr Hrows Heq. constructor; try done.
  - cbn [fst snd] in *. by rewrite Heq.
  - exists row. cbn [fst snd] in *. rewrite Heq. split; [|done]. apply Hrows; [done|]. by apply scoped_scope.
Qed.

Lemma execute_frame pre row post input scope row0 :
  xi_scope input ≠ scope → scoped_provider_key (xi_scope input) row = true →
  row0 ∈ pre ++ row :: post → pk_scope row0 = scope → row0 ∈ pre ++ row_after input row :: post.
Proof.
  intros Hne Hs%scoped_scope Hin Hsc. apply elem_of_app in Hin as [?|[->|?]%elem_of_cons]; [set_solver| |set_solver].
  congruence.
Qed.

Lemma matches_limit_wf limit used counter :
  column_wf limit → counter_matches limit used counter → limit_wf limit.
Proof. destruct limit as [l|]; cbn; [|done]. intros ? [? _]. width_lia. Qed.

(** The counter of one dimension after an acquire and after a release. *)
Lemma matches_acquire limit used counter f held required counter' :
  counter_matches limit used counter → dimension_ok limit counter f held →
  dimension_ok limit counter' f (required :: held) →
  counter_matches limit (counter_after DbAcquire limit used (f required)) counter'.
Proof.
  unfold counter_matches, dimension_ok. destruct limit as [l|]; [|done].
  intros [? ->] [? _] [? _]. rewrite held_sum_cons in *.
  split; [done|]. cbn. f_equal. lia.
Qed.

Lemma matches_release limit used counter f held1 required held2 counter' :
  counter_matches limit used counter → dimension_ok limit counter f (held1 ++ required :: held2) →
  dimension_ok limit counter' f (held1 ++ held2) → 0 <= held_sum f (held1 ++ held2) →
  counter_matches limit (counter_after DbRelease limit used (f required)) counter'.
Proof.
  unfold counter_matches, dimension_ok. destruct limit as [l|]; [|done]. intros [? ->] [? _] [? _] ?.
  rewrite !held_sum_app, ?held_sum_cons in *. split; [done|]. cbn. f_equal. lia.
Qed.

Lemma matches_ready_release limit used counter f held required :
  counter_matches limit used counter → dimension_ok limit counter f held → 0 <= held_sum f held →
  dimension_ready DbRelease limit used required.
Proof.
  unfold counter_matches, dimension_ok, dimension_ready. destruct limit as [l|]; [|done].
  intros [? ->] [? _] ?. eexists. split; [done|]. split_and!; [done|lia|done].
Qed.

Lemma matches_fits limit used counter f held required :
  counter_matches limit used counter → dimension_ok limit counter f held → 0 <= held_sum f held →
  0 <= required → dimension_ready DbAcquire limit used required →
  window_fits (mkRateLimitWindow limit (Some counter) required).
Proof.
  unfold window_fits, counter_matches, dimension_ok, dimension_ready. cbn [w_limit w_used w_required].
  destruct limit as [l|]; [|done]. intros [? ->] [? _] ? ? (u & [= <-] & ? & ? & Hle). specialize (Hle eq_refl).
  split_and!; [done|lia|]. eexists. split; [done|]. lia.
Qed.

(** An applied acquire is a step of the planner. *)
Lemma simulate_acquire scope limits table held abstract pre row post required :
  refines scope limits (table, held) abstract → required_wf required →
  table = pre ++ row :: post → scoped_provider_key scope row = true →
  takes_effect (execution_acquire scope required) row →
  ∃ abstract', reservation_step limits abstract abstract' ∧
    refines scope limits
      (pre ++ row_after (execution_acquire scope required) row :: post, (scope, required) :: held) abstract'.
Proof.
  intros [Ht Hr Hheld Hinv (row' & Hin & Hs' & Hlim & Helig & M1 & M2 & M3)] Hreq -> Hs Heff.
  cbn [fst snd] in *. assert (row' = row) as ->.
  { eapply unique_row; [exact Ht|done|set_solver|]. by rewrite (scoped_scope _ _ Hs), (scoped_scope _ _ Hs'). }
  assert (row_wf row) as Hwf by (destruct Ht as [_ HF]; rewrite Forall_forall in HF; apply HF; set_solver).
  destruct abstract as [counters held_abs]. cbn [fst snd] in *. subst held_abs.
  pose proof Hinv as [Hcaps D1 D2 D3]. destruct (capacity_sums _ Hcaps) as (S1 & S2 & S3).
  destruct Heff as (He & Hready & _). cbn [xi_operation xi_required execution_acquire] in He, Hready.
  pose proof He as [Hcap _]%eligible_request_iff. pose proof Hready as (R1 & R2 & R3). pose proof Hcap as (C1 & C2 & C3).
  subst limits. cbn [fst snd lm_rpm lm_tpm lm_concurrency key_limits] in *.
  assert (rp_status (reservation_plan_for (key_limits row) counters Acquire required false) = Acquired) as Hst.
  { unfold reservation_plan_for. rewrite acquire_status by done.
    rewrite (proj2 (availability_selectable_iff _)); [done|]. split_and!; cbn; by eapply matches_fits. }
  pose proof (step_acquire (key_limits row) counters (held_on scope held) required Hst) as Hstep.
  eexists. split; [exact Hstep|]. destruct Hwf as (W1 & W2 & W3).
  apply reservation_step_inv in Hstep as Hinv'; [|by eapply matches_limit_wf..|done].
  pose proof Hinv' as [_ D1' D2' D3'].
  assert (held_on scope ((scope, required) :: held) = required :: held_on scope held) as Hcons.
  { rewrite held_on_cons. by rewrite decide_True. }
  constructor; cbn [fst snd] in *.
  - by eapply table_wf_update.
  - by constructor.
  - done.
  - done.
  - exists (row_after (execution_acquire scope required) row). rewrite Hcons.
    destruct (next_state_counters DbAcquire required row ltac:(done) Hreq Hcap Hready) as (N1 & N2 & N3).
    split_and!; [set_solver|done|done|by constructor|..]; cbn [pk_current_window_state row_after with_window];
      cbn [xi_operation xi_required execution_acquire]; rewrite ?N1, ?N2, ?N3; by eapply matches_acquire.
Qed.

Lemma held_on_middle scope held1 required held2 :
  held_on scope (held1 ++ (scope, required) :: held2) = held_on scope held1 ++ required :: held_on scope held2.
Proof. rewrite held_on_app, held_on_cons. by rewrite decide_True. Qed.

(** A held reservation can always be released. *)
Lemma release_takes_effect scope limits table held1 required held2 abstract row :
  refines scope limits (table, held1 ++ (scope, required) :: held2) abstract →
  row ∈ table → scoped_provider_key scope row = true →
  takes_effect (execution_release scope required true) row ∧ required_wf required.
Proof.
  intros [Ht Hr Hheld Hinv (row' & Hin & Hs' & <- & Helig & M1 & M2 & M3)] Hrow Hs. cbn [fst snd] in *.
  assert (row' = row) as ->.
  { eapply unique_row; [exact Ht|done..|]. by rewrite (scoped_scope _ _ Hs), (scoped_scope _ _ Hs'). }
  destruct Hinv as [Hcaps D1 D2 D3]. destruct (capacity_sums _ Hcaps) as (S1 & S2 & S3).
  apply Forall_app in Hr as [_ [Hreq _]%Forall_cons]. split; [|done].
  rewrite held_on_middle in Helig. apply Forall_app in Helig as [_ [He _]%Forall_cons].
  split; [done|]. split; [|done]. split_and!; by eapply matches_ready_release.
Qed.

Lemma simulate_release scope limits held1 required held2 abstract pre row post :
  refines scope limits (pre ++ row :: post, held1 ++ (scope, required) :: held2) abstract →
  scoped_provider_key scope row = true →
  ∃ abstract', reservation_step limits abstract abstract' ∧
    refines scope limits
      (pre ++ row_after (execution_release scope required true) row :: post, held1 ++ held2) abstract'.
Proof.
  intros Href Hs.
  destruct (release_takes_effect _ _ _ _ _ _ _ row Href ltac:(set_solver) Hs) as [(He & Hready & _) Hreq].
  destruct Href as [Ht Hr Hheld Hinv (row' & Hin & Hs' & <- & Helig & M1 & M2 & M3)]. cbn [fst snd] in *.
  assert (row' = row) as ->.
  { eapply unique_row; [exact Ht|done|set_solver|]. by rewrite (scoped_scope _ _ Hs), (scoped_scope _ _ Hs'). }
  assert (row_wf row) as Hwf by (destruct Ht as [_ HF]; rewrite Forall_forall in HF; apply HF; set_solver).
  destruct abstract as [counters held_abs]. cbn [fst snd] in *. rewrite held_on_middle in *. subst held_abs.
  pose proof Hinv as [Hcaps D1 D2 D3].
  cbn [fst snd xi_operation xi_required execution_release lm_rpm lm_tpm lm_concurrency key_limits] in *.
  pose proof He as [Hcap _]%eligible_request_iff.
  pose proof (step_release (key_limits row) counters (held_on scope held1) required (held_on scope held2)) as Hstep.
  eexists. split; [exact Hstep|]. pose proof Hwf as (W1 & W2 & W3).
  apply reservation_step_inv in Hstep as Hinv'; [|by eapply matches_limit_wf..|done].
  pose proof Hinv' as [Hcaps' D1' D2' D3']. destruct (capacity_sums _ Hcaps') as (S1 & S2 & S3).
  constructor; cbn [fst snd] in *.
  - by eapply table_wf_update.
  - apply Forall_app in Hr as [? [_ ?]%Forall_cons]. by apply Forall_app.
  - by rewrite held_on_app.
  - done.
  - exists (row_after (execution_release scope required true) row). rewrite held_on_app.
    destruct (next_state_counters DbRelease required row Hwf Hreq Hcap Hready) as (N1 & N2 & N3).
    apply Forall_app in Helig as [? [_ ?]%Forall_cons].
    split_and!; [set_solver|done|done|by apply Forall_app|..];
      cbn [pk_current_window_state row_after with_window xi_operation xi_required execution_release];
      rewrite ?N1, ?N2, ?N3; by eapply matches_release.
Qed.

(** An execution on another key. *)
Lemma simulate_other scope limits table held abstract input table' res held' :
  refines scope limits (table, held) abstract → xi_scope input ≠ scope → required_wf (xi_required input) →
  execute_provider_key_rate_limit_reservation table input = Ok (table', res) →
  Forall (λ h, required_wf h.2) held' → held_on scope held' = held_on scope held →
  refines scope limits (table', held') abstract.
Proof.
  intros Href Hne Hreq Hex Hr Hheld. pose proof (rf_table _ _ _ _ Href) as Ht. cbn [fst] in Ht.
  destruct (execute_shape _ _ _ _ Ht Hreq Hex) as [[-> Hst]|(pre & row & post & -> & Hs & Heff & -> & Hst)].
  - by eapply refines_frame.
  - eapply refines_frame; [exact Href| |done| |done].
    + eapply table_wf_update; [exact Ht|done|]. destruct Ht as [_ [_ [? _]%Forall_cons]%Forall_app]. done.
    + intros row1 Hrow1 Hsc1. by eapply execute_frame.
Qed.

(** One step of the database is at most one step of the planner. *)
Lemma simulate_step scope limits state state' abstract :
  db_step state state' → refines scope limits state abstract →
  ∃ abstract', rtc (reservation_step limits) abstract abstract' ∧ refines scope limits state' abstract'.
Proof.
  intros Hstep Href. pose proof Href as [Ht Hr _ _ (row0 & Hin0 & Hs0 & _)].
  destruct Hstep as [table held sc required table' res Hreq Hex|table held1 sc required held2 table' res Hex|];
    cbn [fst snd] in *; [| |by exists abstract].
  - destruct (decide (sc = scope)) as [->|Hne]; cycle 1.
    { exists abstract. split; [done|].
      apply (simulate_other _ _ _ _ _ (execution_acquire sc required) _ res _ Href Hne Hreq Hex);
        case_bool_decide; try done; [by constructor|]. rewrite held_on_cons. by rewrite decide_False. }
    destruct (execute_shape table (execution_acquire scope required) table' res Ht Hreq Hex)
      as [[-> Hst]|(pre & row & post & -> & Hs & Heff & -> & Hst)].
    { rewrite bool_decide_false by done. by exists abstract. }
    rewrite bool_decide_true by done.
    destruct (simulate_acquire _ _ _ _ _ _ _ _ _ Href Hreq eq_refl Hs Heff) as (abstract' & ? & ?).
    exists abstract'. split; [by apply rtc_once|done].
  - apply Forall_app in Hr as Hr'. destruct Hr' as [? [Hreq ?]%Forall_cons]. cbn [snd] in Hreq.
    destruct (decide (sc = scope)) as [->|Hne]; cycle 1.
    { exists abstract. split; [done|].
      apply (simulate_other _ _ _ _ _ (execution_release sc required true) _ res _ Href Hne Hreq Hex);
        [by apply Forall_app|]. rewrite !held_on_app, held_on_cons. by rewrite decide_False. }
    destruct (release_takes_effect _ _ _ _ _ _ _ row0 Href Hin0 Hs0) as [Heff _].
    apply list_elem_of_split in Hin0 as (pre & post & ->).
    rewrite execute_effect in Hex by done. injection Hex as <- <-.
    destruct (simulate_release _ _ _ _ _ _ _ _ _ Href Hs0) as (abstract' & ? & ?).
    exists abstract'. split; [by apply rtc_once|done].
Qed.

Lemma simulate_run scope limits state state' abstract :
  rtc db_step state state' → refines scope limits state abstract →
  ∃ abstract', rtc (reservation_step limits) abstract abstract' ∧ refines scope limits state' abstract'.
Proof.
  intros Hrun. revert abstract. induction Hrun as [|s1 s2 s3 Hstep _ IH]; intros abstract Href; [by exists abstract|].
  destruct (simulate_step _ _ _ _ _ Hstep Href) as (abstract2 & Hs2 & Href2).
  destruct (IH abstract2 Href2) as (abstract3 & Hs3 & Href3). exists abstract3.
  split; [by etrans|done].
Qed.

(** A key without reservations, whose limited counters are zero. *)
Definition fresh_key (scope : key_scope) (row : ProviderKeyRow) (state : db_state) : Prop :=
  table_wf state.1 ∧ Forall (λ h, required_wf h.2) state.2 ∧ held_on scope state.2 = [] ∧
  row ∈ state.1 ∧ scoped_provider_key scope row = true ∧
  counter_matches (pk_rpm_limit row) (counter_at (pk_current_window_state row) rpm_path) 0 ∧
  counter_matches (pk_tpm_limit row) (counter_at (pk_current_window_state row) tpm_path) 0 ∧
  counter_matches (pk_concurrency_limit row) (counter_at (pk_current_window_state row) concurrency_path) 0.

Lemma fresh_refines scope row state :
  fresh_key scope row state → refines scope (key_limits row) state (mkRateCounters 0 0 0, []).
Proof.
  intros (Ht & Hr & Hheld & Hin & Hs & M1 & M2 & M3). constructor; try done.
  - assert (row_wf row) as (W1 & W2 & W3) by (destruct Ht as [_ HF]; rewrite Forall_forall in HF; by apply HF).
    constructor; [apply Forall_nil_2|apply dimension_ok_zero; by eapply matches_limit_wf..].
  - exists row. split_and!; try done. rewrite Hheld. apply Forall_nil_2.
Qed.

(** C10: the database implements the reservation planner. Whatever statements any
    number of gateways execute on any keys, the counters stored for a key and the
    reservations held on it are those of a run of the abstract planner; so each
    limited counter is the sum of what is held and never passes its limit. *)
Theorem database_refines_planner (scope : key_scope) (row : ProviderKeyRow) (state state' : db_state)
    (Hfresh : fresh_key scope row state) (Hrun : rtc db_step state state') :
  ∃ abstract row',
    rtc (reservation_step (key_limits row)) (mkRateCounters 0 0 0, []) abstract ∧
    abstract.2 = held_on scope state'.2 ∧
    row' ∈ state'.1 ∧ scoped_provider_key scope row' = true ∧ key_limits row' = key_limits row ∧
    let window := pk_current_window_state row' in
    counter_matches (pk_rpm_limit row) (counter_at window rpm_path) (ct_rpm abstract.1) ∧
    counter_matches (pk_tpm_limit row) (counter_at window tpm_path) (ct_tpm abstract.1) ∧
    counter_matches (pk_concurrency_limit row) (counter_at window concurrency_path) (ct_concurrency abstract.1) ∧
    dimension_ok (pk_rpm_limit row) (ct_rpm abstract.1) rc_requests_per_minute (held_on scope state'.2) ∧
    dimension_ok (pk_tpm_limit row) (ct_tpm abstract.1) rc_tokens_per_minute (held_on scope state'.2) ∧
    dimension_ok (pk_concurrency_limit row) (ct_concurrency abstract.1) rc_concurrency (held_on scope state'.2).
Proof.
  destruct (simulate_run _ _ _ _ _ Hrun (fresh_refines _ _ _ Hfresh)) as (abstract & Habs & Href).
  destruct Href as [_ _ Hheld [_ D1 D2 D3] (row' & Hin & Hs & Hlim & _ & M1 & M2 & M3)].
  rewrite Hheld in D1, D2, D3. exists abstract, row'. done.
Qed.

(** ** Released capacity comes back *)

Inductive db_release (scope : key_scope) : db_state → db_state → Prop :=
| db_release_held table held1 required held2 table' res :
    execute_provider_key_rate_limit_reservation table (execution_release scope required true) = Ok (table', res) →
    xe_status res = ExApplied →
    db_release scope (table, held1 ++ (scope, required) :: held2) (table', held1 ++ held2).

Definition within_limits (row : ProviderKeyRow) (required : RateLimitRequiredCapacity) : Prop :=
  let within limit r := match limit with Some l => r <= l | None => True end in
  within (pk_rpm_limit row) (rc_requests_per_minute required) ∧
  within (pk_tpm_limit row) (rc_tokens_per_minute required) ∧
  within (pk_concurrency_limit row) (rc_concurrency required).

Lemma held_on_nil_app scope held held' :
  held_on scope held = [] → held_on scope (held ++ held') = held_on scope held'.
Proof. intros H. by rewrite held_on_app, H. Qed.

Lemma held_on_split scope held required rest :
  held_on scope held = required :: rest →
  ∃ held1 held2, held = held1 ++ (scope, required) :: held2 ∧ held_on scope (held1 ++ held2) = rest.
Proof.
  induction held as [|[sc r] held IH]; [done|]. rewrite held_on_cons. cbn [fst snd]. case_decide as Hsc.
  - intros [= -> <-]. subst sc. by exists [], held.
  - intros (held1 & held2 & -> & <-)%IH. exists ((sc, r) :: held1), held2. split; [done|].
    rewrite <-app_comm_cons, held_on_cons. by rewrite decide_False.
Qed.

Lemma release_all scope limits state abstract :
  refines scope limits state abstract →
  ∃ state' abstract', nsteps (db_release scope) (length (held_on scope state.2)) state state' ∧
    refines scope limits state' abstract' ∧ held_on scope state'.2 = [].
Proof.
  remember (held_on scope state.2) as held eqn:Heq. revert state abstract Heq.
  induction held as [|required rest IH]; intros [table held] abstract Heq Href; cbn [fst snd] in *.
  { exists (table, held), abstract. split; [constructor|]. done. }
  symmetry in Heq. apply held_on_split in Heq as (held1 & held2 & -> & Hrest).
  pose proof Href as [Ht _ _ _ (row & Hin & Hs & _)]. cbn [fst snd] in *.
  destruct (release_takes_effect _ _ _ _ _ _ _ row Href Hin Hs) as [Heff Hreq].
  apply list_elem_of_split in Hin as (pre & post & ->).
  destruct (simulate_release _ _ _ _ _ _ _ _ _ Href Hs) as (abstract1 & _ & Href1).
  destruct (IH (pre ++ row_after (execution_release scope required true) row :: post, held1 ++ held2) abstract1)
    as (state' & abstract' & Hsteps & ? & ?); [by rewrite <-Hrest|done|].
  exists state', abstract'. split; [|done]. eapply nsteps_l; [|exact Hsteps].
  eapply db_release_held; [by apply execute_effect|done].
Qed.

Lemma refines_accepts scope limits state abstract row required :
  refines scope limits state abstract → held_on scope state.2 = [] → limits = key_limits row →
  required_wf required → eligible_request row required = true → within_limits row required →
  ∃ table res, execute_provider_key_rate_limit_reservation state.1 (execution_acquire scope required)
    = Ok (table, res) ∧ xe_status res = ExApplied.
Proof.
  intros [Ht _ Hheld [_ D1 D2 D3] (row' & Hin & Hs & Hlim & _ & M1 & M2 & M3)] Hnil -> Hreq He (L1 & L2 & L3).
  injection Hlim as E1 E2 E3. rewrite Hheld, Hnil in D1, D2, D3.
  assert (∀ limit used counter f r, counter_matches limit used counter → dimension_ok limit counter f [] →
    match limit with Some l => r <= l | None => True end → dimension_ready DbAcquire limit used r) as Hdim.
  { intros limit used counter f r. destruct limit as [l|]; [|done]. intros [? ->] [-> _] Hr. cbn in *.
    eexists. split; [done|]. split_and!; [done|done|]. intros _. lia. }
  apply list_elem_of_split in Hin as (pre & post & Heq). rewrite Heq in *.
  assert (takes_effect (execution_acquire scope required) row') as Heff.
  { split; [|split; [|done]].
    - rewrite eligible_request_iff in *. cbn. by rewrite E1, E2, E3.
    - split_and!; rewrite ?E1, ?E2, ?E3; eapply Hdim; done. }
  rewrite execute_effect by done. eauto.
Qed.

(** C33: released capacity is available again. In every reachable state the
    reservations held on a key can be released one after the other, each release
    is applied, and then every request within the limits is accepted. *)
Theorem released_capacity_is_available (scope : key_scope) (row : ProviderKeyRow) (state state' : db_state)
    (Hfresh : fresh_key scope row state) (Hrun : rtc db_step state state') :
  ∃ state'', nsteps (db_release scope) (length (held_on scope state'.2)) state' state'' ∧
    held_on scope state''.2 = [] ∧
    ∀ required, required_wf required → eligible_request row required = true → within_limits row required →
      ∃ table res, execute_provider_key_rate_limit_reservation state''.1 (execution_acquire scope required)
        = Ok (table, res) ∧ xe_status res = ExApplied.
Proof.
  destruct (simulate_run _ _ _ _ _ Hrun (fresh_refines _ _ _ Hfresh)) as (abstract & _ & Href).
  destruct (release_all _ _ _ _ Href) as (state'' & abstract' & Hsteps & Href' & Hnil).
  exists state''. split_and!; [done|done|]. intros required ? ? ?. by eapply refines_accepts.
Qed.
End facts.

(** ** A JSON model of the interface *)

#[local] Existing Instance json_model.

Fixpoint jset (v : JValue) (key : string) (x : JValue) : JValue :=
  match v with
  | JField k value rest => if bool_decide (k = key) then JField k x rest else JField k value (jset rest key x)
  | JObj => JField key x JObj
  | _ => v
  end.

#[local] Instance jsonb_model : Jsonb json_model := {|
  value_as_i64 v := match v with JNum n => checked i64_min i64_max n | _ => None end;
  jsonb_path := value_at_path;
  jsonb_is_number v := match v with JNum _ => true | _ => false end;
  jsonb_to_bigint v := match v with JNum n => checked i64_min i64_max n | _ => None end;
  jsonb_text_as_i64 v := match v with JNum n => checked i64_min i64_max n | _ => None end;
  to_jsonb n := JNum n;
  jsonb_set v path x :=
    match path with
    | [a; b] => match jget v a with Some inner => jset v a (jset inner b x) | None => v end
    | _ => v
    end;
|}.

Lemma jget_jset_same v key x : is_Some (jget v key) → jget (jset v key x) key = Some x.
Proof.
  induction v as [|? |? | |k value _ rest IH]; cbn; try (intros []; done).
  case_bool_decide as Hk; cbn; [by rewrite bool_decide_true|]. rewrite bool_decide_false by done. done.
Qed.

Lemma jget_jset_other v key key' x : key ≠ key' → jget (jset v key x) key' = jget v key'.
Proof.
  intros Hne. induction v as [|? |? | |k value _ rest IH]; cbn; try done.
  - by rewrite bool_decide_false.
  - case_bool_decide as Hk; cbn.
    + subst k. by rewrite !bool_decide_false by done.
    + by rewrite IH.
Qed.

Lemma jsonb_model_set_same v a b x :
  is_Some (value_at_path v [a; b]) → value_at_path (jsonb_set v [a; b] x) [a; b] = Some x.
Proof.
  cbn. destruct (jget v a) as [inner|] eqn:Ha; cbn; [|by intros []].
  destruct (jget inner b) eqn:Hb; cbn; [|by intros []]. intros _.
  rewrite jget_jset_same by eauto. cbn. by rewrite jget_jset_same by eauto.
Qed.

Lemma jsonb_model_set_other v a b a' b' x :
  a ≠ a' → value_at_path (jsonb_set v [a; b] x) [a'; b'] = value_at_path v [a'; b'].
Proof. intros Hne. cbn. destruct (jget v a); [|done]. by rewrite jget_jset_other. Qed.

#[local] Instance jsonb_model_laws : JsonbLaws json_model jsonb_model.
Proof.
  split.
  - intros v n. destruct v; try done. cbn. by intros [-> ?]%checked_Some.
  - intros v n. destruct v; try done. cbn. intros [-> [? ?]]%checked_Some ?. apply checked_in. width_lia.
  - intros v n. destruct v; cbn; naive_solver.
  - done.
  - intros n ?. by apply checked_in.
  - done.
  - intros v path x [->|[->|[->|[]%elem_of_nil]%elem_of_cons]%elem_of_cons]%elem_of_cons;
      apply jsonb_model_set_same.
  - intros v path path' x [->|[->|[->|[]%elem_of_nil]%elem_of_cons]%elem_of_cons]%elem_of_cons
      [->|[->|[->|[]%elem_of_nil]%elem_of_cons]%elem_of_cons]%elem_of_cons Hne; try done;
      by apply jsonb_model_set_other.
Qed.

Definition sample_window (rpm tpm concurrency : Z) : JValue :=
  JField "rpm" (JField "used" (JNum rpm) JObj)
    (JField "tpm" (JField "used" (JNum tpm) JObj)
      (JField "concurrency" (JField "used" (JNum concurrency) JObj) JObj)).

Definition sample_scope : key_scope := mkKeyScope 1 7 3.

Definition sample_row (rpm tpm concurrency : Z) : ProviderKeyRow :=
  mkProviderKeyRow sample_scope false "enabled" (Some 10) (Some 1000) (Some 2) (sample_window rpm tpm concurrency).

Lemma sample_table_wf rpm tpm concurrency : table_wf [sample_row rpm tpm concurrency].
Proof. split; [apply NoDup_singleton|]. repeat constructor; vm_compute; discriminate. Qed.

Lemma sample_required_wf rpm tpm concurrency :
  0 <= rpm <= i32_max → 0 <= tpm <= i32_max → 0 <= concurrency <= i32_max →
  required_wf (mkRateLimitRequiredCapacity rpm tpm concurrency).
Proof. intros. repeat split; cbn; width_lia. Qed.

Lemma persistence_plan_predicts_execution_witness :
  let input := execution_acquire sample_scope (mkRateLimitRequiredCapacity 1 60 1) in
  ∃ table' res, execute_provider_key_rate_limit_reservation [sample_row 4 900 1] input = Ok (table', res) ∧
    xe_status res = ExApplied ∧
    map pd_used_after (pp_dimensions (plan_for input (sample_row 4 900 1))) = [Some 5; Some 960; Some 2].
Proof.
  eexists _, _. split; [reflexivity|]. split; [reflexivity|].
  destruct (persistence_plan_predicts_execution [] [] (sample_row 4 900 1)
    (execution_acquire sample_scope (mkRateLimitRequiredCapacity 1 60 1))) as [_ Hcounters].
  - apply sample_table_wf.
  - by apply sample_required_wf.
  - reflexivity.
  - repeat split; vm_compute; discriminate.
  - edestruct Hcounters as (returned & Hrow & ->); [reflexivity|reflexivity|].
    cbn in Hrow. by injection Hrow as <-.
Defined.

Definition sample_required : RateLimitRequiredCapacity := mkRateLimitRequiredCapacity 1 60 1.

Lemma sample_fresh : fresh_key sample_scope (sample_row 0 0 0) ([sample_row 0 0 0], []).
Proof.
  split_and!; try done; [apply sample_table_wf|by apply list_elem_of_singleton].
Qed.

Lemma sample_run :
  rtc db_step ([sample_row 0 0 0], []) ([sample_row 1 60 1], [(sample_scope, sample_required)]).
Proof.
  apply rtc_once.
  apply (db_step_acquire [sample_row 0 0 0] [] sample_scope sample_required [sample_row 1 60 1]
    (from_command_row
      (build_provider_key_rate_limit_reservation_execution_command (execution_acquire sample_scope sample_required))
      (Some (execution_row_from_row (sample_row 1 60 1))))); [by apply sample_required_wf|reflexivity].
Qed.

Lemma database_refines_planner_witness :
  ∃ abstract, rtc (reservation_step (mkRateLimits (Some 10) (Some 1000) (Some 2))) (mkRateCounters 0 0 0, []) abstract ∧
    abstract.2 = [sample_required].
Proof.
  destruct (database_refines_planner sample_scope (sample_row 0 0 0) _ _ sample_fresh sample_run)
    as (abstract & row' & Hrun & Hheld & _).
  exists abstract. split; [exact Hrun|exact Hheld].
Defined.

Lemma released_capacity_is_available_witness :
  ∃ state'', nsteps (db_release sample_scope) 1 ([sample_row 1 60 1], [(sample_scope, sample_required)]) state'' ∧
    held_on sample_scope state''.2 = [].
Proof.
  destruct (released_capacity_is_available sample_scope (sample_row 0 0 0) _ _ sample_fresh sample_run)
    as (state'' & Hsteps & Hnil & _).
  exists state''. split; [exact Hsteps|exact Hnil].
Defined.
