(* ===== verification/VirtualKeyLimits.v ===== *)
(** The limits of a virtual key: the limits read from its policy
    (apps/gateway/src/main.rs) and the four statements that move the counters of
    its row (apps/gateway/src/db.rs). The counters refine a log of what was
    accepted. *)

From S2P Require Export Reservation.

#[local] Open Scope string_scope.
#[local] Open Scope list_scope.
#[local] Open Scope Z_scope.

(** ** The policy *)

Section policy.
Context {J : SerdeJson} {B : Jsonb J}.

Definition positive_i32_from_value (value : option Value) : option Z :=
  value ← value;
  parsed ←
    match value_as_i64 value with
    | Some parsed => Some parsed
    | None => match value_view value with VString raw => parse_i64 (str_trim raw) | _ => None end
    end;
  if (0 <? parsed) && (parsed <=? i32_max) then Some parsed else None.

(** [virtual_key_concurrency_limit], [virtual_key_rpm_limit] and
    [virtual_key_tpm_limit] differ in the two names only. *)
Definition virtual_key_limit (limit_field field : string) (rate_limit_policy : Value) : option Z :=
  match positive_i32_from_value (value_get rate_limit_policy limit_field) with
  | Some limit => Some limit
  | None =>
      value ← value_get rate_limit_policy field;
      match positive_i32_from_value (Some value) with
      | Some limit => Some limit
      | None => positive_i32_from_value (value_get value "limit")
      end
  end.

Definition virtual_key_concurrency_limit : Value → option Z := virtual_key_limit "concurrency_limit" "concurrency".
Definition virtual_key_rpm_limit : Value → option Z := virtual_key_limit "rpm_limit" "rpm".
Definition virtual_key_tpm_limit : Value → option Z := virtual_key_limit "tpm_limit" "tpm".

Lemma virtual_key_limit_positive limit_field field policy limit :
  virtual_key_limit limit_field field policy = Some limit → 0 < limit <= i32_max.
Proof.
  assert (∀ value l, positive_i32_from_value value = Some l → 0 < l <= i32_max) as Hpos.
  { intros [value|] l; [|done]. unfold positive_i32_from_value. cbn [mbind option_bind].
    destruct (match value_as_i64 value with Some _ => _ | None => _ end) as [parsed|]; [|done]. cbn.
    intros Hl. case_match; simplify_eq. bool_to_prop. lia. }
  unfold virtual_key_limit. destruct (positive_i32_from_value (value_get policy limit_field)) eqn:Hfield.
  { intros [= ->]. eauto. }
  destruct (value_get policy field) as [value|]; [cbn [mbind option_bind]|done].
  destruct (positive_i32_from_value (Some value)) eqn:Hvalue; [intros [= ->]|]; eauto.
Qed.
End policy.

(** ** The row and its statements *)

(** [rate_limit_current_window_state]: a JSON object whose members are only
    written by the statements below, as integers. *)
Record VirtualKeyWindow : Type := mkVirtualKeyWindow {
  vw_concurrency_used : option Z;
  vw_rpm_window : option Z;
  vw_rpm_used : option Z;
  vw_tpm_window : option Z;
  vw_tpm_used : option Z;
}.

Record VirtualKeyRow : Type := mkVirtualKeyRow {
  vk_deleted : bool;
  vk_status : string;
  vk_window : VirtualKeyWindow;
}.

Record VirtualKeyRateLimitAcquire : Type := mkVirtualKeyRateLimitAcquire {
  va_applied : bool;
  va_used_after : option Z;
  va_remaining : option Z;
}.

(** The result built from the row the statement returns. *)
Definition virtual_key_acquire_result (limit : Z) (used_after : option Z) : VirtualKeyRateLimitAcquire := {|
  va_applied := bool_decide (is_Some used_after);
  va_used_after := used_after;
  va_remaining := (λ used, Z.max (saturating_sub_i64 limit used) 0) <$> used_after;
|}.

(** [coalesce((state->>'member')::int, 0)] and the same at [bigint]. *)
Definition int_member (member : option Z) : result DbError Z :=
  match member with Some n => ok_or (checked i32_min i32_max n) Query | None => Ok 0 end.

Definition bigint_member (absent : Z) (member : option Z) : result DbError Z :=
  match member with Some n => bigint n | None => Ok absent end.

Definition int4 (n : Z) : result DbError Z := ok_or (checked i32_min i32_max n) Query.

Definition virtual_key_usable (row : VirtualKeyRow) : bool :=
  negb (vk_deleted row) && bool_decide (vk_status row = "active").

Definition with_vk_window (row : VirtualKeyRow) (window : VirtualKeyWindow) : VirtualKeyRow :=
  mkVirtualKeyRow (vk_deleted row) (vk_status row) window.

Definition acquire_virtual_key_concurrency_slot (row : VirtualKeyRow) (limit : Z)
    : result DbError (VirtualKeyRow * VirtualKeyRateLimitAcquire) :=
  let window := vk_window row in
  if negb (virtual_key_usable row) then Ok (row, virtual_key_acquire_result limit None) else
  used ← int_member (vw_concurrency_used window);
  if negb (used <? limit) then Ok (row, virtual_key_acquire_result limit None) else
  used_after ← int4 (used + 1);
  Ok (with_vk_window row
        (mkVirtualKeyWindow (Some used_after) (vw_rpm_window window) (vw_rpm_used window)
           (vw_tpm_window window) (vw_tpm_used window)),
      virtual_key_acquire_result limit (Some used_after)).

Definition acquire_virtual_key_rpm_slot (minute_bucket : Z) (row : VirtualKeyRow) (limit : Z)
    : result DbError (VirtualKeyRow * VirtualKeyRateLimitAcquire) :=
  let window := vk_window row in
  if negb (virtual_key_usable row) then Ok (row, virtual_key_acquire_result limit None) else
  rpm_window ← bigint_member (-1) (vw_rpm_window window);
  used ← int_member (vw_rpm_used window);
  if negb (negb (rpm_window =? minute_bucket) || (used <? limit))
  then Ok (row, virtual_key_acquire_result limit None) else
  used_after ← if rpm_window =? minute_bucket then int4 (used + 1) else Ok 1;
  Ok (with_vk_window row
        (mkVirtualKeyWindow (vw_concurrency_used window) (Some minute_bucket) (Some used_after)
           (vw_tpm_window window) (vw_tpm_used window)),
      virtual_key_acquire_result limit (Some used_after)).

Definition acquire_virtual_key_tpm_capacity (minute_bucket : Z) (row : VirtualKeyRow) (limit required_tokens : Z)
    : result DbError (VirtualKeyRow * VirtualKeyRateLimitAcquire) :=
  let window := vk_window row in
  if negb (virtual_key_usable row) then Ok (row, virtual_key_acquire_result limit None) else
  if negb (0 <? required_tokens) then Ok (row, virtual_key_acquire_result limit None) else
  tpm_window ← bigint_member (-1) (vw_tpm_window window);
  used ← bigint_member 0 (vw_tpm_used window);
  let current := tpm_window =? minute_bucket in
  sum ← if current then bigint (used + required_tokens) else Ok required_tokens;
  if negb ((negb current || (sum <=? limit)) && (current || (required_tokens <=? limit)))
  then Ok (row, virtual_key_acquire_result limit None) else
  Ok (with_vk_window row
        (mkVirtualKeyWindow (vw_concurrency_used window) (vw_rpm_window window) (vw_rpm_used window)
           (Some minute_bucket) (Some sum)),
      virtual_key_acquire_result limit (Some sum)).

Definition release_virtual_key_concurrency_slot (row : VirtualKeyRow) : result DbError VirtualKeyRow :=
  let window := vk_window row in
  if vk_deleted row then Ok row else
  used ← int_member (vw_concurrency_used window);
  difference ← int4 (used - 1);
  Ok (with_vk_window row
        (mkVirtualKeyWindow (Some (Z.max difference 0)) (vw_rpm_window window) (vw_rpm_used window)
           (vw_tpm_window window) (vw_tpm_used window))).

(** ** The log the counters stand for *)

(** What a key has accepted: how many slots are held, the minute of every
    request, the minute and the tokens of every reservation. *)
Record AcceptedLog : Type := mkAcceptedLog {
  al_held : nat;
  al_requests : list Z;
  al_tokens : list (Z * Z);
}.

Definition requests_in (minute : Z) (requests : list Z) : Z := Z.of_nat (length (filter (λ m, m = minute) requests)).

Fixpoint tokens_in (minute : Z) (tokens : list (Z * Z)) : Z :=
  match tokens with
  | [] => 0
  | (m, n) :: tokens => (if m =? minute then n else 0) + tokens_in minute tokens
  end.

(** A call of the gateway on the key; a slot is released by its holder. *)
Inductive KeyCall : Type :=
| AcquireSlot (limit : Z)
| ReleaseSlot
| AcquireRequest (minute limit : Z)
| AcquireTokens (minute limit required_tokens : Z).

(** The limiter by the log: a request is accepted when the accepted ones of its
    minute leave room for it. *)
Definition log_call (call : KeyCall) (log : AcceptedLog) : AcceptedLog * bool :=
  match call with
  | AcquireSlot limit =>
      if Z.of_nat (al_held log) <? limit
      then (mkAcceptedLog (S (al_held log)) (al_requests log) (al_tokens log), true)
      else (log, false)
  | ReleaseSlot => (mkAcceptedLog (pred (al_held log)) (al_requests log) (al_tokens log), true)
  | AcquireRequest minute limit =>
      if requests_in minute (al_requests log) <? limit
      then (mkAcceptedLog (al_held log) (minute :: al_requests log) (al_tokens log), true)
      else (log, false)
  | AcquireTokens minute limit required =>
      if (0 <? required) && (tokens_in minute (al_tokens log) + required <=? limit)
      then (mkAcceptedLog (al_held log) (al_requests log) ((minute, required) :: al_tokens log), true)
      else (log, false)
  end.

(** The limiter by the statements. *)
Definition row_call (call : KeyCall) (row : VirtualKeyRow) : result DbError (VirtualKeyRow * bool) :=
  match call with
  | AcquireSlot limit =>
      '(row, acquire) ← acquire_virtual_key_concurrency_slot row limit; Ok (row, va_applied acquire)
  | ReleaseSlot => row ← release_virtual_key_concurrency_slot row; Ok (row, true)
  | AcquireRequest minute limit =>
      '(row, acquire) ← acquire_virtual_key_rpm_slot minute row limit; Ok (row, va_applied acquire)
  | AcquireTokens minute limit required =>
      '(row, acquire) ← acquire_virtual_key_tpm_capacity minute row limit required; Ok (row, va_applied acquire)
  end.

(** The calls one after another and their answers. *)
Fixpoint log_calls (calls : list KeyCall) (log : AcceptedLog) : AcceptedLog * list bool :=
  match calls with
  | [] => (log, [])
  | call :: calls =>
      let '(log, answer) := log_call call log in
      let '(log, answers) := log_calls calls log in
      (log, answer :: answers)
  end.

Fixpoint row_calls (calls : list KeyCall) (row : VirtualKeyRow) : result DbError (VirtualKeyRow * list bool) :=
  match calls with
  | [] => Ok (row, [])
  | call :: calls =>
      '(row, answer) ← row_call call row;
      '(row, answers) ← row_calls calls row;
      Ok (row, answer :: answers)
  end.

(** Limits come from the policy, the clock does not run backwards from [now],
    and the estimate of the tokens leaves the [bigint] sum in range. *)
Fixpoint calls_wf (now : Z) (calls : list KeyCall) : Prop :=
  match calls with
  | [] => True
  | AcquireSlot limit :: calls => 0 < limit <= i32_max ∧ calls_wf now calls
  | ReleaseSlot :: calls => calls_wf now calls
  | AcquireRequest minute limit :: calls =>
      0 < limit <= i32_max ∧ now <= minute <= i64_max ∧ calls_wf minute calls
  | AcquireTokens minute limit required :: calls =>
      0 < limit <= i32_max ∧ i64_min <= required <= i64_max - i32_max ∧ now <= minute <= i64_max ∧ calls_wf minute calls
  end.

(** The row stands for the log at time [now]: the slot counter is the number of
    holders; a window is no later than [now], holds every acceptance since its
    minute and counts those of its minute. *)
Definition window_stands (now : Z) (window used : option Z) (bound : Z) (count : Z → Z) : Prop :=
  let w := default (-1) window in
  let u := default 0 used in
  -1 <= w <= now ∧ 0 <= u <= bound ∧ count w = u ∧ ∀ minute, w < minute → count minute = 0.

Record stands_for (now : Z) (row : VirtualKeyRow) (log : AcceptedLog) : Prop := {
  sf_usable : virtual_key_usable row = true;
  sf_now : 0 <= now <= i64_max;
  sf_held : default 0 (vw_concurrency_used (vk_window row)) = Z.of_nat (al_held log);
  sf_held_bound : Z.of_nat (al_held log) <= i32_max;
  sf_requests : window_stands now (vw_rpm_window (vk_window row)) (vw_rpm_used (vk_window row)) i32_max
                  (λ minute, requests_in minute (al_requests log));
  sf_tokens : window_stands now (vw_tpm_window (vk_window row)) (vw_tpm_used (vk_window row)) i32_max
                (λ minute, tokens_in minute (al_tokens log));
}.

(** ** Simulation *)

Lemma int_member_ok member : 0 <= default 0 member <= i32_max → int_member member = Ok (default 0 member).
Proof.
  destruct member as [n|]; [cbn|done]. intros Hn. rewrite checked_in by width_lia. done.
Qed.

Lemma bigint_member_ok absent member :
  -1 <= default absent member <= i64_max → bigint_member absent member = Ok (default absent member).
Proof.
  destruct member as [n|]; [cbn|done]. unfold bigint. intros Hn. rewrite checked_in by width_lia. done.
Qed.

Lemma window_count now window used bound count minute :
  window_stands now window used bound count → now <= minute →
  count minute = if default (-1) window =? minute then default 0 used else 0.
Proof.
  intros (Hw & Hu & Hc & Hlater) Hm. destruct (Z.eqb_spec (default (-1) window) minute) as [<-|]; [done|].
  apply Hlater. lia.
Qed.

Lemma window_accept now window used bound count count' minute n :
  window_stands now window used bound count → 0 <= now <= minute → 0 <= n → count minute + n <= bound →
  (∀ m, count' m = (if m =? minute then n else 0) + count m) →
  window_stands minute (Some minute) (Some (count minute + n)) bound count'.
Proof.
  intros Hstands Hm Hn Hbound Hcount. pose proof (window_count _ _ _ _ _ minute Hstands ltac:(lia)) as Hminute.
  destruct Hstands as (Hw & Hu & Hc & Hlater). unfold window_stands. cbn [default from_option id].
  split_and!; [lia|lia|case_match; lia|lia| |].
  - rewrite Hcount, Z.eqb_refl. lia.
  - intros m Hlt. rewrite Hcount, Hlater by lia. destruct (Z.eqb_spec m minute); lia.
Qed.

Lemma window_later now now' window used bound count :
  window_stands now window used bound count → now <= now' → window_stands now' window used bound count.
Proof. unfold window_stands. intros (? & ? & ? & ?) ?. split_and!; eauto; lia. Qed.

Lemma requests_in_cons minute m requests :
  requests_in m (minute :: requests) = (if m =? minute then 1 else 0) + requests_in m requests.
Proof.
  unfold requests_in. rewrite filter_cons. destruct (Z.eqb_spec m minute) as [->|Hne].
  - rewrite decide_True by done. cbn [length]. lia.
  - rewrite decide_False by congruence. lia.
Qed.

Lemma tokens_in_cons minute n m tokens :
  tokens_in m ((minute, n) :: tokens) = (if m =? minute then n else 0) + tokens_in m tokens.
Proof. cbn [tokens_in]. rewrite Z.eqb_sym. done. Qed.

(** The time after a call. *)
Definition time_after (now : Z) (call : KeyCall) : Z :=
  match call with AcquireRequest minute _ | AcquireTokens minute _ _ => minute | _ => now end.

Section simulation.
Context (now : Z) (row : VirtualKeyRow) (log : AcceptedLog) (Hstands : stands_for now row log).

(** A call on the row and the call on the log end in states that correspond. *)
Definition simulated (call : KeyCall) : Prop :=
  ∃ row', row_call call row = Ok (row', (log_call call log).2) ∧
          stands_for (time_after now call) row' (log_call call log).1.

Lemma usable_window window : virtual_key_usable (with_vk_window row window) = true.
Proof. apply Hstands. Qed.

Lemma stands_later now' : now <= now' <= i64_max → stands_for now' row log.
Proof.
  intros Hnow. destruct Hstands. split; eauto using window_later; [lia|..]; eapply window_later; eauto; lia.
Qed.

Lemma simulate_acquire_slot limit : 0 < limit <= i32_max → simulated (AcquireSlot limit).
Proof.
  intros Hlimit. pose proof Hstands as Hsf. destruct Hstands as [Husable Hnow Hheld Hbound Hrequests Htokens].
  unfold simulated. cbn [row_call log_call time_after]. unfold acquire_virtual_key_concurrency_slot.
  rewrite Husable, int_member_ok by lia. cbn [negb mbind result_bind]. rewrite Hheld.
  destruct (Z.ltb_spec (Z.of_nat (al_held log)) limit); cbn [negb mbind result_bind].
  - unfold int4. rewrite checked_in by width_lia. cbn. eexists. split; [done|].
    split; cbn; eauto using usable_window; lia.
  - eexists. split; [done|]. done.
Qed.

Lemma simulate_release_slot : simulated ReleaseSlot.
Proof.
  destruct Hstands as [Husable Hnow Hheld Hbound Hrequests Htokens].
  unfold simulated. cbn [row_call log_call time_after]. unfold release_virtual_key_concurrency_slot.
  assert (vk_deleted row = false) as ->.
  { unfold virtual_key_usable in Husable. by destruct (vk_deleted row). }
  rewrite int_member_ok by lia. cbn [mbind result_bind]. rewrite Hheld.
  unfold int4. rewrite checked_in by width_lia. cbn. eexists. split; [done|].
  split; cbn; eauto using usable_window; lia.
Qed.

Lemma simulate_acquire_request minute limit :
  0 < limit <= i32_max → now <= minute <= i64_max → simulated (AcquireRequest minute limit).
Proof.
  intros Hlimit Hminute. pose proof (stands_later minute ltac:(lia)) as Hlater.
  destruct Hstands as [Husable Hnow Hheld Hbound Hrequests Htokens].
  pose proof (window_count _ _ _ _ _ minute Hrequests ltac:(lia)) as Hcount. cbn beta in Hcount.
  pose proof Hrequests as (Hw & Hu & _).
  unfold simulated. cbn [row_call log_call time_after]. unfold acquire_virtual_key_rpm_slot.
  rewrite Husable, bigint_member_ok, int_member_ok by width_lia. cbn [negb mbind result_bind].
  rewrite Hcount. destruct (_ =? minute) eqn:Hw'; cbn [negb orb].
  - destruct (Z.ltb_spec (default 0 (vw_rpm_used (vk_window row))) limit); cbn [negb mbind result_bind].
    + unfold int4. rewrite checked_in by width_lia. cbn. eexists. split; [done|]. rewrite <-Hcount.
      split; cbn; eauto using usable_window, window_later; [lia| |eapply window_later; eauto; lia].
      eapply (window_accept now _ _ _ (λ m, requests_in m (al_requests log))); eauto using requests_in_cons; lia.
    + eexists. split; [done|]. done.
  - destruct (Z.ltb_spec 0 limit); [|lia]. cbn [negb mbind result_bind]. eexists. split; [done|].
    split; cbn; eauto using usable_window; [lia| |eapply window_later; eauto; lia].
    replace 1 with (requests_in minute (al_requests log) + 1) by lia.
    eapply (window_accept now _ _ _ (λ m, requests_in m (al_requests log))); eauto using requests_in_cons; lia.
Qed.

Lemma simulate_acquire_tokens minute limit required :
  0 < limit <= i32_max → i64_min <= required <= i64_max - i32_max → now <= minute <= i64_max →
  simulated (AcquireTokens minute limit required).
Proof.
  intros Hlimit Hrequired Hminute. pose proof (stands_later minute ltac:(lia)) as Hlater.
  destruct Hstands as [Husable Hnow Hheld Hbound Hrequests Htokens].
  pose proof (window_count _ _ _ _ _ minute Htokens ltac:(lia)) as Hcount. cbn beta in Hcount.
  pose proof Htokens as (Hw & Hu & _).
  unfold simulated. cbn [row_call log_call time_after]. unfold acquire_virtual_key_tpm_capacity.
  rewrite Husable. cbn [negb].
  destruct (Z.ltb_spec 0 required); cbn [negb andb]; [|by eexists].
  rewrite !bigint_member_ok by width_lia. cbn [negb mbind result_bind].
  rewrite Hcount. destruct (_ =? minute) eqn:Hw'; cbn [negb orb andb].
  - unfold bigint. rewrite checked_in by width_lia. cbn [ok_or negb mbind result_bind]. rewrite andb_true_r.
    destruct (Z.leb_spec (default 0 (vw_tpm_used (vk_window row)) + required) limit);
      cbn [negb mbind result_bind]; eexists; (split; [done|]); [|done]. rewrite <-Hcount.
    split; cbn; eauto using usable_window; [lia|eapply window_later; eauto; lia|].
    eapply (window_accept now _ _ _ (λ m, tokens_in m (al_tokens log))); eauto using tokens_in_cons; lia.
  - cbn [mbind result_bind]. rewrite Z.add_0_l.
    destruct (Z.leb_spec required limit); cbn [negb mbind result_bind]; eexists; (split; [done|]); [|done].
    split; cbn; eauto using usable_window; [lia|eapply window_later; eauto; lia|].
    replace required with (tokens_in minute (al_tokens log) + required) at 1 by lia.
    eapply (window_accept now _ _ _ (λ m, tokens_in m (al_tokens log))); eauto using tokens_in_cons; lia.
Qed.
End simulation.

Definition call_wf (now : Z) (call : KeyCall) : Prop := calls_wf now [call].

Lemma calls_wf_cons now call calls :
  calls_wf now (call :: calls) ↔ call_wf now call ∧ calls_wf (time_after now call) calls.
Proof. destruct call; cbn; tauto. Qed.

Lemma simulate_call now row log call : stands_for now row log → call_wf now call → simulated now row log call.
Proof.
  intros Hstands Hwf. destruct call; cbn in Hwf.
  - apply simulate_acquire_slot; [done|lia].
  - by apply simulate_release_slot.
  - apply simulate_acquire_request; [done|lia..].
  - apply simulate_acquire_tokens; [done|lia..].
Qed.

Lemma simulate_calls now row log calls :
  stands_for now row log → calls_wf now calls →
  ∃ now' row', row_calls calls row = Ok (row', (log_calls calls log).2) ∧
               stands_for now' row' (log_calls calls log).1.
Proof.
  revert now row log. induction calls as [|call calls IH]; intros now row log Hstands Hwf.
  { exists now, row. done. }
  apply calls_wf_cons in Hwf as [Hcall Hcalls].
  destruct (simulate_call _ _ _ _ Hstands Hcall) as (row1 & Hrow & Hstands1).
  destruct (IH _ _ _ Hstands1 Hcalls) as (now' & row' & Hrows & Hstands').
  exists now', row'. cbn [row_calls log_calls]. rewrite Hrow. cbn [mbind result_bind].
  destruct (log_call call log) as [log1 answer]. cbn [fst snd] in *. rewrite Hrows. cbn [mbind result_bind].
  by destruct (log_calls calls log1).
Qed.

(** A key no request has used. *)
Definition fresh_virtual_key : VirtualKeyRow :=
  mkVirtualKeyRow false "active" (mkVirtualKeyWindow None None None None None).

Lemma fresh_stands now : 0 <= now <= i64_max → stands_for now fresh_virtual_key (mkAcceptedLog 0 [] []).
Proof. intros Hnow. split; cbn; try done; unfold window_stands; cbn; split_and!; done || width_lia. Qed.

(** The log never goes over the limits it is asked with. *)
Lemma log_call_bounded call log :
  (log_call call log).2 = true →
  match call with
  | AcquireSlot limit => Z.of_nat (al_held (log_call call log).1) <= limit
  | ReleaseSlot => True
  | AcquireRequest minute limit => requests_in minute (al_requests (log_call call log).1) <= limit
  | AcquireTokens minute limit _ => tokens_in minute (al_tokens (log_call call log).1) <= limit
  end.
Proof.
  destruct call as [limit| |minute limit|minute limit required]; cbn [log_call]; [..|]; try done;
    case_match eqn:Hroom; try done; intros _; bool_to_prop.
  - cbn. lia.
  - cbn [fst al_requests]. rewrite requests_in_cons, Z.eqb_refl. lia.
  - cbn [fst al_tokens]. rewrite tokens_in_cons, Z.eqb_refl. lia.
Qed.

(** C13: the statements that move the counters of a virtual key refine a log of
    what was accepted. For every sequence of calls on a new key, with limits a
    policy can give, a clock that does not run backwards and token estimates
    that leave the sum in range, no statement fails, and each answers as the log
    does: a slot is granted exactly while fewer than the limit are held, a
    request exactly while fewer than the limit were accepted in its minute, a
    positive number of tokens exactly while those accepted in the minute leave
    room, and an estimate of no tokens or fewer never. The slot
    counter is the number of holders throughout, and an accepted call leaves its
    limit respected. *)
Theorem virtual_key_limits_refine_log (now : Z) (calls : list KeyCall)
    (Hnow : 0 <= now <= i64_max) (Hwf : calls_wf now calls) :
  let log := log_calls calls (mkAcceptedLog 0 [] []) in
  (∃ row, row_calls calls fresh_virtual_key = Ok (row, log.2) ∧
          default 0 (vw_concurrency_used (vk_window row)) = Z.of_nat (al_held log.1)) ∧
  ∀ call, (log_call call log.1).2 = true →
    match call with
    | AcquireSlot limit => Z.of_nat (al_held (log_call call log.1).1) <= limit
    | ReleaseSlot => True
    | AcquireRequest minute limit => requests_in minute (al_requests (log_call call log.1).1) <= limit
    | AcquireTokens minute limit _ => tokens_in minute (al_tokens (log_call call log.1).1) <= limit
    end.
Proof.
  intros log. split; [|intros call; apply log_call_bounded].
  destruct (simulate_calls _ _ _ _ (fresh_stands now Hnow) Hwf) as (now' & row & Hrow & Hstands).
  exists row. split; [done|]. apply Hstands.
Qed.

Definition sample_calls : list KeyCall :=
  [AcquireSlot 2; AcquireRequest 10 2; AcquireSlot 2; AcquireSlot 2; AcquireRequest 10 2; AcquireRequest 10 2;
   AcquireTokens 10 100 60; AcquireTokens 10 100 60; ReleaseSlot; AcquireRequest 11 2; AcquireTokens 11 100 60;
   AcquireSlot 2].

Lemma virtual_key_limits_refine_log_witness :
  (log_calls sample_calls (mkAcceptedLog 0 [] [])).2
    = [true; true; true; false; true; false; true; false; true; true; true; true] ∧
  ∃ row, row_calls sample_calls fresh_virtual_key
           = Ok (row, (log_calls sample_calls (mkAcceptedLog 0 [] [])).2) ∧
         default 0 (vw_concurrency_used (vk_window row)) = 2.
Proof.
  split; [reflexivity|].
  destruct (virtual_key_limits_refine_log 10 sample_calls) as [(row & Hrow & Hheld) _];
    [width_lia|cbn; width_lia|].
  exists row. split; [exact Hrow|]. rewrite Hheld. reflexivity.
Defined.
