(* ===== verification/GatewayAttempts.v ===== *)
(** A chat completion request in the gateway (apps/gateway/src/main.rs,
    [chat_completions] for a request that does not stream): the guards of the
    virtual key, the loop over the attempt routes with its reservations, its two
    adapters and its error paths, and the rejection at the end. Calls that leave
    the process are answered by an environment; what the request does to the
    database and the logs is recorded as a list of effects, the reservations run
    on the table of [Reservation]. *)

From S2P Require Export GatewayErrors VirtualKeyLimits.

#[local] Open Scope string_scope.
#[local] Open Scope list_scope.
#[local] Open Scope Z_scope.

(** ** Routes *)

Section gateway.
Context {J : SerdeJson} {B : Jsonb J} {U : UuidDisplay}.

(** The fields of [ResolvedChatRoute] the attempts use. *)
Record ResolvedChatRoute : Type := mkResolvedChatRoute {
  rt_provider_id : Uuid;
  rt_channel_id : Uuid;
  rt_provider_key_id : Uuid;
  rt_protocol_mode : string;
  rt_upstream_model : string;
  rt_fallback_allowed : bool;
  rt_rpm_limit : option Z;
  rt_tpm_limit : option Z;
  rt_concurrency_limit : option Z;
  rt_current_window_state : Value;
}.

Definition route_uses_gemini_adapter (route : ResolvedChatRoute) : bool :=
  bool_decide (rt_protocol_mode route ∈ ["gemini"; "gemini_generate_content"]).

(** [window_state_used_value] follows the key [used]; a document read by
    [serde_json] is at most 128 levels deep. *)
Fixpoint window_state_used_value (depth : nat) (value : Value) : option Z :=
  match value_as_i64 value with
  | Some used => Some used
  | None =>
      match value_as_u64 value with
      | Some used => checked i64_min i64_max used
      | None =>
          match (match value_view value with VString s => parse_i64 (str_trim s) | _ => None end) with
          | Some used => Some used
          | None =>
              match depth with
              | O => None
              | S depth => value_get value "used" ≫= window_state_used_value depth
              end
          end
      end
  end.

Definition window_state_used_for_dimension (state : Value) (dimension : RateLimitDimension) : option Z :=
  let keys :=
    match dimension with
    | RequestsPerMinute => ["requests_per_minute_used"; "rpm_used"; "requests_per_minute"; "rpm"]
    | TokensPerMinute => ["tokens_per_minute_used"; "tpm_used"; "tokens_per_minute"; "tpm"]
    | Concurrency => ["concurrency_used"; "active_concurrency"; "in_flight"; "concurrency"]
    end in
  head (omap (λ key, value_get state key ≫= window_state_used_value 128) keys).

Definition route_rate_limit_counter_window (limit used : option Z) : RateLimitCounterWindow :=
  match limit, used with
  | Some limit, Some used => counter_limited limit used
  | Some limit, None => counter_missing limit
  | None, _ => counter_unlimited
  end.

Definition route_rate_limit_reservation_plan (route : ResolvedChatRoute)
    (operation : RateLimitReservationOperation) (reservation_acquired : bool)
    (required : RateLimitRequiredCapacity) : RateLimitReservationPlan :=
  let window limit dimension :=
    route_rate_limit_counter_window limit
      (window_state_used_for_dimension (rt_current_window_state route) dimension) in
  let requests_per_minute := window (rt_rpm_limit route) RequestsPerMinute in
  let tokens_per_minute := window (rt_tpm_limit route) TokensPerMinute in
  let concurrency := window (rt_concurrency_limit route) Concurrency in
  plan_rate_limit_reservation
    match operation with
    | Acquire => reservation_acquire requests_per_minute tokens_per_minute concurrency required
    | Release =>
        reservation_release requests_per_minute tokens_per_minute concurrency required reservation_acquired
    end.

(** [selected_chat_route], [chat_route_matches_candidate] and [chat_attempt_routes]. *)
Definition selected_chat_route (routes : list ResolvedChatRoute) (decision : RouteDecision)
    : option ResolvedChatRoute :=
  selected ← rd_selected decision;
  List.find
    (λ route,
      bool_decide (uuid_to_string (rt_channel_id route) = sr_channel_id selected)
      && bool_decide (uuid_to_string (rt_provider_id route) = sr_provider_id selected)
      && bool_decide (rt_upstream_model route = sr_provider_model selected))
    routes.

Definition chat_route_matches_candidate (candidate : RouteCandidate) (route : ResolvedChatRoute) : bool :=
  bool_decide (uuid_to_string (rt_channel_id route) = channel_id candidate)
  && bool_decide (uuid_to_string (rt_provider_id route) = provider_id candidate)
  && bool_decide (rt_upstream_model route = provider_model candidate).

(** One iteration of the loop over the evaluated candidates. *)
Definition add_attempt_route (routes : list ResolvedChatRoute) (attempts : list ResolvedChatRoute)
    (evaluated : EvaluatedCandidate) : list ResolvedChatRoute :=
  if negb (is_selectable evaluated) then attempts
  else if List.existsb (chat_route_matches_candidate (candidate evaluated)) attempts then attempts
  else
    match List.find (chat_route_matches_candidate (candidate evaluated)) routes with
    | Some route => if negb (rt_fallback_allowed route) then attempts else attempts ++ [route]
    | None => attempts
    end.

Fixpoint collect_attempt_routes (routes : list ResolvedChatRoute) (max_attempts : nat)
    (attempts : list ResolvedChatRoute) (candidates : list EvaluatedCandidate) : list ResolvedChatRoute :=
  match candidates with
  | [] => attempts
  | evaluated :: candidates =>
      if (max_attempts <=? length attempts)%nat then attempts
      else collect_attempt_routes routes max_attempts (add_attempt_route routes attempts evaluated) candidates
  end.

Definition chat_attempt_routes (routes : list ResolvedChatRoute) (decision : RouteDecision) (max_attempts : nat)
    : list ResolvedChatRoute :=
  match selected_chat_route routes decision with
  | None => []
  | Some selected => collect_attempt_routes routes (Nat.max max_attempts 1) [selected] (rd_candidates decision)
  end.

(** ** The reservation of an attempt *)

(** [GatewayRateLimitReservationAttempt] without the material of its metadata. *)
Record GatewayRateLimitReservationAttempt : Type := mkReservationAttempt {
  ra_acquire : RateLimitReservationPlan;
  ra_release : RateLimitReservationPlan;
  ra_required_capacity : RateLimitRequiredCapacity;
  ra_db_acquire : option ProviderKeyRateLimitReservationExecutionResult;
  ra_db_release : option ProviderKeyRateLimitReservationExecutionResult;
  ra_db_release_attempted : bool;
  ra_db_release_error : bool;
}.

Definition default_gateway_rate_limit_required_capacity : RateLimitRequiredCapacity :=
  mkRateLimitRequiredCapacity 1 1 1.

Definition gateway_rate_limit_reservation_for_attempt (route : ResolvedChatRoute)
    (tpm_estimate : option RateLimitTpmReservationEstimate) : GatewayRateLimitReservationAttempt :=
  let required_capacity :=
    match tpm_estimate with
    | Some estimate => from_tpm_estimate 1 estimate 1
    | None => default_gateway_rate_limit_required_capacity
    end in
  let acquire := route_rate_limit_reservation_plan route Acquire false required_capacity in
  {|
    ra_acquire := acquire;
    ra_release :=
      route_rate_limit_reservation_plan route Release (bool_decide (rp_status acquire = Acquired)) required_capacity;
    ra_required_capacity := required_capacity;
    ra_db_acquire := None;
    ra_db_release := None;
    ra_db_release_attempted := false;
    ra_db_release_error := false;
  |}.

Definition acquired (self : GatewayRateLimitReservationAttempt) : bool :=
  bool_decide (rp_status (ra_acquire self) = Acquired).

Definition db_execution_required (self : GatewayRateLimitReservationAttempt) : bool :=
  (0 <? rp_counter_updates_planned (ra_acquire self))%nat.

Definition db_acquire_allows_attempt (self : GatewayRateLimitReservationAttempt) : bool :=
  match ra_db_acquire self with
  | Some execution => match xe_status execution with ExApplied | ExNoop => true | _ => false end
  | None => true
  end.

Definition executable (self : GatewayRateLimitReservationAttempt) : bool :=
  acquired self && db_acquire_allows_attempt self.

Definition db_release_needed (self : GatewayRateLimitReservationAttempt) : bool :=
  match ra_db_acquire self with
  | Some execution => bool_decide (xe_status execution = ExApplied)
  | None => false
  end && negb (ra_db_release_attempted self).

Definition record_db_acquire (self : GatewayRateLimitReservationAttempt)
    (result : ProviderKeyRateLimitReservationExecutionResult) : GatewayRateLimitReservationAttempt := {|
  ra_acquire := ra_acquire self;
  ra_release := ra_release self;
  ra_required_capacity := ra_required_capacity self;
  ra_db_acquire := Some result;
  ra_db_release := ra_db_release self;
  ra_db_release_attempted := ra_db_release_attempted self;
  ra_db_release_error := ra_db_release_error self;
|}.

(** [record_db_release] with a result, [record_db_release_error] without. *)
Definition record_db_release (self : GatewayRateLimitReservationAttempt)
    (result : option ProviderKeyRateLimitReservationExecutionResult) : GatewayRateLimitReservationAttempt := {|
  ra_acquire := ra_acquire self;
  ra_release := ra_release self;
  ra_required_capacity := ra_required_capacity self;
  ra_db_acquire := ra_db_acquire self;
  ra_db_release := match result with Some result => Some result | None => ra_db_release self end;
  ra_db_release_attempted := true;
  ra_db_release_error := match result with Some _ => ra_db_release_error self | None => true end;
|}.

(** ** Settling *)

(** [trim_start_matches(['-', '+'])]. *)
Fixpoint trim_start_signs (l : bytes) : bytes :=
  match l with
  | c :: l' => if (byte_val c =? 45) || (byte_val c =? 43) then trim_start_signs l' else l
  | [] => []
  end.

Definition decimal_string_is_nonzero (value : string) : bool :=
  List.existsb (λ c, is_ascii_digit c && negb (byte_val c =? 48)) (trim_start_signs (as_bytes value)).

Definition settle_ledger_amount (final_cost : string) : option string :=
  let final_cost := str_trim final_cost in
  if negb (decimal_string_is_nonzero final_cost) then None
  else if starts_with (as_bytes "-") (as_bytes final_cost) then Some final_cost
  else Some ("-" +:+ final_cost).

(** ** Effects *)

(** [fallback_event] and [rate_limit_reservation_skip_event]: what the events
    say of the attempt and of the route tried next. *)
Record FallbackEvent : Type := mkFallbackEvent {
  fe_attempt_no : Z;
  fe_reason : string;
  fe_failed_channel_id : Uuid;
  fe_next_attempt_no : Z;
  fe_next_channel_id : Uuid;
}.

Definition fallback_event (attempt_no : Z) (reason : string) (failed_route next_route : ResolvedChatRoute)
    : FallbackEvent := {|
  fe_attempt_no := attempt_no;
  fe_reason := reason;
  fe_failed_channel_id := rt_channel_id failed_route;
  fe_next_attempt_no := Z.min i32_max (attempt_no + 1);
  fe_next_channel_id := rt_channel_id next_route;
|}.

(** The calls of the request that write something. Where the code looks at the
    answer, or only logs that there was none, the answer is recorded. *)
Inductive Effect : Type :=
| CreateRequest (created : bool)
| PreAuthorize (channel_id : Uuid) (error : option GatewayApiError) (reserved : bool)
| AcquireVirtualKey (dimension : string) (outcome : result DbError VirtualKeyRateLimitAcquire)
| RecordVirtualKeyRateLimit
| KeyReservation (input : ProviderKeyRateLimitReservationExecutionInput)
    (outcome : result DbError ProviderKeyRateLimitReservationExecutionResult)
| CreateAttempt (attempt_no : Z) (channel_id : Uuid) (outcome : result GatewayApiError Uuid)
| FinishAttempt (attempt_id : Uuid) (status : string) (summary : option ErrorLogSummary)
    (fallback_reason : option string) (written : bool)
| UpdateKeyStatus (provider_key_id : Uuid) (patch : string * option Z)
| RecordFinalRoute (channel_id : Uuid) (attempt_no : Z) (fallback_events : list FallbackEvent)
| RecordRejection (attempts rejections : nat) (fallback_events : list FallbackEvent)
| FinishRequest (status : string) (http_status : Z) (summary : option ErrorLogSummary) (written : bool)
| ReleasePaidReserve (released : bool)
| SettleLedger (amount : string) (settled : bool)
| ReleaseVirtualKey (outcome : result DbError unit).

(** The rows the request shares with others: the provider keys and its own
    virtual key. [sh_held_by_others] is no data of the program: it keeps account
    of the reservations on provider keys that other requests hold. *)
Record SharedRows : Type := mkSharedRows {
  sh_provider_keys : list ProviderKeyRow;
  sh_virtual_key : VirtualKeyRow;
  sh_held_by_others : list (key_scope * RateLimitRequiredCapacity);
}.

Record RequestState : Type := mkRequestState {
  rs_rows : SharedRows;
  rs_effects : list Effect;
}.

(** What the request meets outside: the answers of the database, the clock, the
    upstreams and the pure functions that are not modelled. An answer depends on
    the number of effects so far; [re_others] is what other requests have done
    to the shared rows by then. *)
Record RequestEnv (Payload : Type) : Type := mkRequestEnv {
  re_others : nat → SharedRows → SharedRows;
  re_connects : nat → bool;
  re_minute_bucket : nat → Z;
  re_create_request : result GatewayApiError unit;
  re_paid_hot_path_beta : nat → bool;
  re_pre_authorize : nat → option GatewayApiError;
  re_create_attempt : nat → result GatewayApiError Uuid;
  re_gemini_request : ResolvedChatRoute → result GeminiAdapterError unit;
  re_open_provider_key : nat → result GatewayApiError unit;
  re_native_http_client : nat → result string unit;
  re_gemini_send : nat → result GeminiAdapterError Payload;
  re_openai_client : nat → result OpenAiAdapterError unit;
  re_openai_send : nat → result OpenAiAdapterError Payload;
  re_usage : Payload → option Z * option Z;
  re_final_cost : nat → option string;
}.

(** ** Handling a request *)

Section request.
Context {Payload : Type} (env : RequestEnv Payload).
Context (tenant_id : Uuid) (rate_limit_policy : Value) (tpm_estimate : RateLimitTpmReservationEstimate).

Definition Gateway (A : Type) : Type := RequestState → A * RequestState.

#[global] Instance gateway_ret : MRet Gateway := λ A x s, (x, s).
#[global] Instance gateway_bind : MBind Gateway := λ A B f m s, let '(x, s') := m s in f x s'.

(** An answer of the environment, and an effect. *)
Definition ask {A} (answer : RequestEnv Payload → nat → A) : Gateway A :=
  λ s, (answer env (length (rs_effects s)), s).

Definition perform (effect : Effect) : Gateway () :=
  λ s, (tt, mkRequestState (rs_rows s) (rs_effects s ++ [effect])).

(** A statement on the shared rows, after what others did to them; a statement
    that fails changes nothing. *)
Definition query {A} (statement : SharedRows → result DbError (SharedRows * A)) (effect : result DbError A → Effect)
    : Gateway (result DbError A) :=
  λ s,
    let now := length (rs_effects s) in
    let rows := re_others _ env now (rs_rows s) in
    let answer := if re_connects _ env now then statement rows else Err Query in
    let rows' := match answer with Ok (rows', _) => rows' | Err _ => rows end in
    let outcome := match answer with Ok (_, x) => Ok x | Err e => Err e end in
    (outcome, mkRequestState rows' (rs_effects s ++ [effect outcome])).

Definition execute_key_reservation (input : ProviderKeyRateLimitReservationExecutionInput)
    : Gateway (result DbError ProviderKeyRateLimitReservationExecutionResult) :=
  query
    (λ rows,
      '(keys, result) ← execute_provider_key_rate_limit_reservation (sh_provider_keys rows) input;
      Ok (mkSharedRows keys (sh_virtual_key rows) (sh_held_by_others rows), result))
    (KeyReservation input).

Definition acquire_virtual_key (dimension : string)
    (statement : Z → VirtualKeyRow → result DbError (VirtualKeyRow * VirtualKeyRateLimitAcquire))
    : Gateway (result DbError VirtualKeyRateLimitAcquire) :=
  minute_bucket ← ask (re_minute_bucket _);
  query
    (λ rows,
      '(key, acquire) ← statement minute_bucket (sh_virtual_key rows);
      Ok (mkSharedRows (sh_provider_keys rows) key (sh_held_by_others rows), acquire))
    (AcquireVirtualKey dimension).

Definition release_virtual_key_concurrency_if_needed (acquired : bool) : Gateway () :=
  if negb acquired then mret tt
  else
    query
      (λ rows,
        key ← release_virtual_key_concurrency_slot (sh_virtual_key rows);
        Ok (mkSharedRows (sh_provider_keys rows) key (sh_held_by_others rows), tt))
      ReleaseVirtualKey;;
    mret tt.

(** ** Finishing *)

(** A write whose failure is only logged. *)
Definition write (effect : bool → Effect) : Gateway () :=
  written ← ask (re_connects _);
  perform (effect written).

Definition release_paid_hot_path_reserve_if_needed : Gateway () := write ReleasePaidReserve.

Definition finish_request_with_error (summary : ErrorLogSummary) : Gateway () :=
  write (FinishRequest (request_status_for_http (ls_http_status summary)) (ls_http_status summary) (Some summary));;
  release_paid_hot_path_reserve_if_needed.

Definition finish_request_success : Gateway () := write (FinishRequest "succeeded" 200 None).

Definition finish_provider_attempt_success (attempt_id : Uuid) : Gateway () :=
  write (FinishAttempt attempt_id "succeeded" None None).

Definition finish_provider_attempt_with_error_and_fallback (attempt_id : Uuid) (summary : ErrorLogSummary)
    (fallback_reason : option string) : Gateway () :=
  write (FinishAttempt attempt_id "failed" (Some summary) fallback_reason).

Definition update_provider_key_runtime_status (route : ResolvedChatRoute) (patch : option (string * option Z))
    : Gateway () :=
  match patch with
  | None => mret tt
  | Some patch => perform (UpdateKeyStatus (rt_provider_key_id route) patch)
  end.

Definition finish_provider_attempt_with_adapter_error_and_fallback (route : ResolvedChatRoute) (attempt_id : Uuid)
    (error : OpenAiAdapterError) (summary : ErrorLogSummary) (fallback_reason : option string) : Gateway () :=
  finish_provider_attempt_with_error_and_fallback attempt_id summary fallback_reason;;
  update_provider_key_runtime_status route (provider_key_runtime_status_patch_for_adapter_error error).

Definition finish_provider_attempt_with_gemini_adapter_error_and_fallback (route : ResolvedChatRoute)
    (attempt_id : Uuid) (error : GeminiAdapterError) (summary : ErrorLogSummary) (fallback_reason : option string)
    : Gateway () :=
  finish_provider_attempt_with_error_and_fallback attempt_id summary fallback_reason;;
  update_provider_key_runtime_status route (provider_key_runtime_status_patch_for_gemini_adapter_error error).

Definition settle_request_ledger (usage : option Z * option Z) (final_cost : option string) : Gateway () :=
  match final_cost, usage with
  | Some final_cost, (Some _, Some _) =>
      match settle_ledger_amount final_cost with
      | Some amount => write (SettleLedger amount)
      | None => mret tt
      end
  | _, _ => mret tt
  end.

(** ** One attempt *)

Definition pre_authorize_before_provider_attempt (route : ResolvedChatRoute) : Gateway (option (Response Payload)) :=
  beta ← ask (re_paid_hot_path_beta _);
  error ← ask (re_pre_authorize _);
  perform (PreAuthorize (rt_channel_id route) error (beta && negb (is_some error)));;
  match error with
  | None => mret None
  | Some error =>
      finish_request_with_error (log_summary error);;
      mret (Some (GatewayErrorResponse error))
  end.

Definition reservation_scope (route : ResolvedChatRoute) : key_scope :=
  mkKeyScope tenant_id (rt_provider_key_id route) (rt_channel_id route).

Definition acquire_gateway_rate_limit_reservation_for_attempt (route : ResolvedChatRoute)
    (reservation : GatewayRateLimitReservationAttempt)
    : Gateway (option (Response Payload) * GatewayRateLimitReservationAttempt) :=
  if negb (acquired reservation) then mret (None, reservation)
  else if negb (db_execution_required reservation) then mret (None, reservation)
  else
    outcome ← execute_key_reservation
      (execution_acquire (reservation_scope route) (ra_required_capacity reservation));
    match outcome with
    | Ok result => mret (None, record_db_acquire reservation result)
    | Err _ =>
        let error := database_query_failed "provider_key_rate_limit_reservation" in
        finish_request_with_error (log_summary error);;
        mret (Some (GatewayErrorResponse error), reservation)
    end.

Definition release_gateway_rate_limit_reservation_if_needed (route : ResolvedChatRoute)
    (reservation : GatewayRateLimitReservationAttempt) : Gateway GatewayRateLimitReservationAttempt :=
  if negb (db_release_needed reservation) then mret reservation
  else
    outcome ← execute_key_reservation
      (execution_release (reservation_scope route) (ra_required_capacity reservation) true);
    mret (record_db_release reservation (match outcome with Ok result => Some result | Err _ => None end)).

(** How an iteration of the loop ends. *)
Inductive Control : Type :=
| Continue (fallback_events : list FallbackEvent) (rejections : nat)
| Break (rejections : nat)
| Return (response : Response Payload).

Section attempt.
Context (virtual_key_concurrency_acquired : bool) (route : ResolvedChatRoute) (next_route : option ResolvedChatRoute).
Context (attempt_no : Z) (fallback_events : list FallbackEvent) (rejections : nat).

(** The tail of every error path of an attempt. *)
Definition return_error (reservation : GatewayRateLimitReservationAttempt) (finish_attempt : Gateway ())
    (summary : ErrorLogSummary) (response : Response Payload) : Gateway Control :=
  release_gateway_rate_limit_reservation_if_needed route reservation;;
  finish_attempt;;
  finish_request_with_error summary;;
  release_virtual_key_concurrency_if_needed virtual_key_concurrency_acquired;;
  mret (Return response).

(** The next route after an error that allows it. *)
Definition continue_with_next_route (reservation : GatewayRateLimitReservationAttempt) (next : ResolvedChatRoute)
    (finish_attempt : option string → Gateway ()) (summary : ErrorLogSummary) : Gateway Control :=
  let event := fallback_event attempt_no (ls_error_code summary) route next in
  release_gateway_rate_limit_reservation_if_needed route reservation;;
  finish_attempt (Some (ls_error_code summary));;
  mret (Continue (fallback_events ++ [event]) rejections).

(** The tail of both success paths. *)
Definition return_success (attempt_id : Uuid) (payload : Payload) : Gateway Control :=
  finish_provider_attempt_success attempt_id;;
  perform (RecordFinalRoute (rt_channel_id route) attempt_no fallback_events);;
  final_cost ← ask (re_final_cost _);
  finish_request_success;;
  settle_request_ledger (re_usage _ env payload) final_cost;;
  release_virtual_key_concurrency_if_needed virtual_key_concurrency_acquired;;
  mret (Return (SuccessResponse payload)).

Definition gateway_error_attempt (reservation : GatewayRateLimitReservationAttempt) (attempt_id : Uuid)
    (error : GatewayApiError) : Gateway Control :=
  return_error reservation (finish_provider_attempt_with_error_and_fallback attempt_id (log_summary error) None)
    (log_summary error) (GatewayErrorResponse error).

Definition gemini_error_attempt (reservation : GatewayRateLimitReservationAttempt) (attempt_id : Uuid)
    (error : GeminiAdapterError) : Gateway Control :=
  let summary := summarize_gemini_adapter_error error in
  return_error reservation
    (finish_provider_attempt_with_gemini_adapter_error_and_fallback route attempt_id error summary None)
    summary (GeminiErrorResponse error).

Definition openai_error_attempt (reservation : GatewayRateLimitReservationAttempt) (attempt_id : Uuid)
    (error : OpenAiAdapterError) : Gateway Control :=
  let summary := summarize_adapter_error error in
  return_error reservation
    (finish_provider_attempt_with_adapter_error_and_fallback route attempt_id error summary None)
    summary (AdapterErrorResponse error).

Definition gemini_attempt (reservation : GatewayRateLimitReservationAttempt) (attempt_id : Uuid) : Gateway Control :=
  match re_gemini_request _ env route with
  | Err error => gemini_error_attempt reservation attempt_id error
  | Ok _ =>
  provider_key ← ask (re_open_provider_key _);
  match provider_key with
  | Err error => gateway_error_attempt reservation attempt_id error
  | Ok _ =>
  native_http ← ask (re_native_http_client _);
  match native_http with
  | Err message => gemini_error_attempt reservation attempt_id (GeminiRequestSerialize message)
  | Ok _ =>
  sent ← ask (re_gemini_send _);
  match sent with
  | Ok payload => return_success attempt_id payload
  | Err error =>
      let summary := summarize_gemini_adapter_error error in
      match next_route, gemini_provider_error_can_fallback error with
      | Some next, true =>
          continue_with_next_route reservation next
            (finish_provider_attempt_with_gemini_adapter_error_and_fallback route attempt_id error summary) summary
      | _, _ => gemini_error_attempt reservation attempt_id error
      end
  end end end end.

Definition openai_attempt (reservation : GatewayRateLimitReservationAttempt) (attempt_id : Uuid) : Gateway Control :=
  upstream_client ← ask (re_openai_client _);
  match upstream_client with
  | Err error => openai_error_attempt reservation attempt_id error
  | Ok _ =>
  provider_key ← ask (re_open_provider_key _);
  match provider_key with
  | Err error => gateway_error_attempt reservation attempt_id error
  | Ok _ =>
  sent ← ask (re_openai_send _);
  match sent with
  | Ok payload => return_success attempt_id payload
  | Err error =>
      let summary := summarize_adapter_error error in
      match next_route, provider_error_can_fallback error with
      | Some next, true =>
          continue_with_next_route reservation next
            (finish_provider_attempt_with_adapter_error_and_fallback route attempt_id error summary) summary
      | _, _ => openai_error_attempt reservation attempt_id error
      end
  end end end.

(** The body of the loop. *)
Definition provider_attempt : Gateway Control :=
  rejected ← pre_authorize_before_provider_attempt route;
  match rejected with
  | Some response =>
      release_virtual_key_concurrency_if_needed virtual_key_concurrency_acquired;;
      mret (Return response)
  | None =>
  '(failed, reservation) ← acquire_gateway_rate_limit_reservation_for_attempt route
    (gateway_rate_limit_reservation_for_attempt route (Some tpm_estimate));
  match failed with
  | Some response =>
      release_virtual_key_concurrency_if_needed virtual_key_concurrency_acquired;;
      mret (Return response)
  | None =>
  if negb (executable reservation) then
    match next_route with
    | Some next =>
        mret (Continue
          (fallback_events ++ [fallback_event attempt_no "rate_limit_reservation_rejected" route next])
          (S rejections))
    | None => mret (Break (S rejections))
    end
  else
  outcome ← ask (re_create_attempt _);
  perform (CreateAttempt attempt_no (rt_channel_id route) outcome);;
  match outcome with
  | Err error =>
      return_error reservation (mret tt) (log_summary error) (GatewayErrorResponse error)
  | Ok attempt_id =>
      if route_uses_gemini_adapter route then gemini_attempt reservation attempt_id
      else openai_attempt reservation attempt_id
  end end end.
End attempt.

(** [rejections] is a [usize] that counts at most the routes, so its saturating
    sum is the sum. *)
Fixpoint attempt_loop (virtual_key_concurrency_acquired : bool) (attempt_index : nat)
    (routes : list ResolvedChatRoute) (fallback_events : list FallbackEvent) (rejections : nat)
    : Gateway (Response Payload + list FallbackEvent * nat) :=
  match routes with
  | [] => mret (inr (fallback_events, rejections))
  | route :: routes =>
      let attempt_no := Z.min i32_max (Z.of_nat attempt_index + 1) in
      control ← provider_attempt virtual_key_concurrency_acquired route (head routes) attempt_no
                  fallback_events rejections;
      match control with
      | Continue fallback_events rejections =>
          attempt_loop virtual_key_concurrency_acquired (S attempt_index) routes fallback_events rejections
      | Break rejections => mret (inr (fallback_events, rejections))
      | Return response => mret (inl response)
      end
  end.

(** ** The guards of the virtual key *)

(** One dimension: [None] lets the request go on. *)
Definition virtual_key_guard (virtual_key_concurrency_acquired : bool) (dimension operation : string)
    (statement : Z → VirtualKeyRow → result DbError (VirtualKeyRow * VirtualKeyRateLimitAcquire))
    : Gateway (option (Response Payload)) :=
  outcome ← acquire_virtual_key dimension statement;
  match outcome with
  | Ok acquire =>
      if va_applied acquire then mret None
      else
        let error := api_key_rate_limited dimension in
        perform RecordVirtualKeyRateLimit;;
        finish_request_with_error (log_summary error);;
        release_virtual_key_concurrency_if_needed virtual_key_concurrency_acquired;;
        mret (Some (GatewayErrorResponse error))
  | Err _ =>
      let error := database_query_failed operation in
      finish_request_with_error (log_summary error);;
      release_virtual_key_concurrency_if_needed virtual_key_concurrency_acquired;;
      mret (Some (GatewayErrorResponse error))
  end.

Definition optional_guard (limit : option Z) (guard : Z → Gateway (option (Response Payload)))
    : Gateway (option (Response Payload)) :=
  match limit with Some limit => guard limit | None => mret None end.

(** [chat_completions] from the creation of the request, for a request that does
    not stream; [selected_route] is the first of the attempt routes. *)
Definition chat_completions (selected_route : ResolvedChatRoute) (other_routes : list ResolvedChatRoute)
    : Gateway (Response Payload) :=
  match re_create_request _ env with
  | Err error =>
      perform (CreateRequest false);;
      mret (GatewayErrorResponse error)
  | Ok _ =>
  perform (CreateRequest true);;
  beta ← ask (re_paid_hot_path_beta _);
  rejected ← if (beta : bool) then pre_authorize_before_provider_attempt selected_route else mret None;
  match rejected with
  | Some response => mret response
  | None =>
  let concurrency_limit := virtual_key_concurrency_limit rate_limit_policy in
  rejected ← optional_guard concurrency_limit (λ limit,
    virtual_key_guard false "concurrency" "virtual_key_concurrency_acquire"
      (λ _ row, acquire_virtual_key_concurrency_slot row limit));
  match rejected with
  | Some response => mret response
  | None =>
  let virtual_key_concurrency_acquired := is_some concurrency_limit in
  rejected ← optional_guard (virtual_key_rpm_limit rate_limit_policy) (λ limit,
    virtual_key_guard virtual_key_concurrency_acquired "rpm" "virtual_key_rpm_acquire"
      (λ minute_bucket row, acquire_virtual_key_rpm_slot minute_bucket row limit));
  match rejected with
  | Some response => mret response
  | None =>
  rejected ← optional_guard (virtual_key_tpm_limit rate_limit_policy) (λ limit,
    virtual_key_guard virtual_key_concurrency_acquired "tpm" "virtual_key_tpm_acquire"
      (λ minute_bucket row,
        acquire_virtual_key_tpm_capacity minute_bucket row limit (required_tokens_i64 tpm_estimate)));
  match rejected with
  | Some response => mret response
  | None =>
  perform RecordVirtualKeyRateLimit;;
  ended ← attempt_loop virtual_key_concurrency_acquired 0 (selected_route :: other_routes) [] 0;
  match ended with
  | inl response => mret response
  | inr (fallback_events, rejections) =>
      let error := rate_limit_reservation_rejected_error in
      perform (RecordRejection (length (selected_route :: other_routes)) rejections fallback_events);;
      finish_request_with_error (log_summary error);;
      release_virtual_key_concurrency_if_needed virtual_key_concurrency_acquired;;
      mret (GatewayErrorResponse error)
  end end end end end end.
End request.
End gateway.

(** ** Reasoning about requests

    A ghost state is tied to the state of a request by an invariant; a triple
    says that a computation, started with the ghost state [g], ends with an
    answer and a ghost state that satisfy the postcondition. *)

Section logic.
Context {J : SerdeJson} {Payload G : Type} (env : RequestEnv (J := J) Payload) (inv : G → RequestState → Prop).

Definition triple {A} (g : G) (m : Gateway A) (post : A → G → Prop) : Prop :=
  ∀ s, inv g s → ∃ g', inv g' (m s).2 ∧ post (m s).1 g'.

Lemma triple_ret {A} g (x : A) (post : A → G → Prop) : post x g → triple g (mret x) post.
Proof. intros Hpost s Hs. eauto. Qed.

Lemma triple_bind {A B} g (m : Gateway A) (f : A → Gateway B) post :
  triple g m (λ x g', triple g' (f x) post) → triple g (m ≫= f) post.
Proof.
  intros Hm s Hs. destruct (Hm s Hs) as (g1 & Hg1 & Hf).
  unfold mbind, gateway_bind. destruct (m s) as [x s1]. exact (Hf s1 Hg1).
Qed.

Lemma triple_mono {A} g (m : Gateway A) (post post' : A → G → Prop) :
  triple g m post → (∀ x g', post x g' → post' x g') → triple g m post'.
Proof. intros Hm Hpost s Hs. destruct (Hm s Hs) as (g' & ? & ?). eauto. Qed.

Lemma triple_ask {A} g (answer : RequestEnv Payload → nat → A) (post : A → G → Prop) :
  (∀ n, post (answer env n) g) → triple g (ask env answer) post.
Proof. intros Hpost s Hs. cbn. eauto. Qed.

Lemma triple_perform g g' effect (post : () → G → Prop) :
  (∀ rows effects, inv g (mkRequestState rows effects) → inv g' (mkRequestState rows (effects ++ [effect]))) →
  post tt g' → triple g (perform effect) post.
Proof. intros Hinv Hpost [rows effects] Hs. exists g'. split; [apply Hinv, Hs|done]. Qed.

(** A branch that does nothing keeps everything. *)
Lemma triple_if {A} g (b : bool) (m1 m2 : Gateway A) post :
  (b = true → triple g m1 post) → (b = false → triple g m2 post) → triple g (if b then m1 else m2) post.
Proof. destruct b; eauto. Qed.
End logic.

(** ** The life of a request *)

Inductive Phase : Type := Absent | Open | Succeeded | Finished (summary : option ErrorLogSummary).

(** What is open: the phase, the attempt that was started, the reservation held
    on a provider key, the slot of the virtual key and the paid reserve. *)
Record Lifecycle : Type := mkLifecycle {
  lc_phase : Phase;
  lc_attempt : option Uuid;
  lc_key : option (key_scope * RateLimitRequiredCapacity);
  lc_slot : bool;
  lc_paid : bool;
}.

#[export] Instance RateLimitRequiredCapacity_eq_dec : EqDecision RateLimitRequiredCapacity.
Proof. solve_decision. Defined.

Definition applied (outcome : result DbError ProviderKeyRateLimitReservationExecutionResult) : bool :=
  match outcome with Ok result => bool_decide (xe_status result = ExApplied) | Err _ => false end.

Definition slot_granted (dimension : string) (outcome : result DbError VirtualKeyRateLimitAcquire) : bool :=
  bool_decide (dimension = "concurrency") && match outcome with Ok acquire => va_applied acquire | Err _ => false end.

Definition nothing_started (l : Lifecycle) : bool :=
  match lc_attempt l, lc_key l with None, None => true | _, _ => false end.

(** The effects in the order they are allowed in; [None] is a violation. A
    failed attempt is finished after its reservation was given back, a request
    after its attempt; the paid reserve is closed and the slot given back after
    the request. *)
Definition lifecycle_step (l : Lifecycle) (effect : Effect) : option Lifecycle :=
  let 'mkLifecycle phase attempt key slot paid := l in
  match phase, effect with
  | Absent, CreateRequest created => Some (mkLifecycle (if created then Open else Absent) attempt key slot paid)
  | Open, PreAuthorize _ _ reserved =>
      if nothing_started l then Some (mkLifecycle Open None None slot (paid || reserved)) else None
  | Open, AcquireVirtualKey dimension outcome =>
      if nothing_started l && negb (slot && bool_decide (dimension = "concurrency"))
      then Some (mkLifecycle Open None None (slot || slot_granted dimension outcome) paid) else None
  | Open, RecordVirtualKeyRateLimit => Some l
  | Open, KeyReservation input outcome =>
      match xi_operation input with
      | DbAcquire =>
          if nothing_started l
          then Some (mkLifecycle Open None
                 (if applied outcome then Some (xi_scope input, xi_required input) else None) slot paid)
          else None
      | DbRelease =>
          if bool_decide (key = Some (xi_scope input, xi_required input)) && xi_reservation_acquired input
          then Some (mkLifecycle Open attempt None slot paid) else None
      end
  | Open, CreateAttempt _ _ outcome =>
      match attempt, outcome with
      | None, Ok attempt_id => Some (mkLifecycle Open (Some attempt_id) key slot paid)
      | None, Err _ => Some l
      | Some _, _ => None
      end
  | Open, FinishAttempt attempt_id _ None _ _ =>
      if bool_decide (attempt = Some attempt_id) then Some (mkLifecycle Succeeded None key slot paid) else None
  | Open, FinishAttempt attempt_id _ (Some _) _ _ =>
      if bool_decide (attempt = Some attempt_id) && negb (is_some key)
      then Some (mkLifecycle Open None None slot paid) else None
  | Open, UpdateKeyStatus _ _ => Some l
  | Open, RecordRejection _ _ _ => if nothing_started l then Some l else None
  | Open, FinishRequest _ _ (Some summary) _ =>
      if nothing_started l then Some (mkLifecycle (Finished (Some summary)) None None slot paid) else None
  | Succeeded, RecordFinalRoute _ _ _ => Some l
  | Succeeded, FinishRequest _ _ None _ => Some (mkLifecycle (Finished None) attempt key slot paid)
  | Finished (Some _), ReleasePaidReserve _ => Some (mkLifecycle phase attempt key slot false)
  | Finished None, SettleLedger _ _ => Some (mkLifecycle phase attempt key slot false)
  | Finished _, ReleaseVirtualKey _ => if slot then Some (mkLifecycle phase attempt key false paid) else None
  | _, _ => None
  end.

Fixpoint lifecycle_from (l : Lifecycle) (effects : list Effect) : option Lifecycle :=
  match effects with
  | [] => Some l
  | effect :: effects => lifecycle_step l effect ≫= λ l, lifecycle_from l effects
  end.

Definition new_lifecycle : Lifecycle := mkLifecycle Absent None None false false.
Definition lifecycle (effects : list Effect) : option Lifecycle := lifecycle_from new_lifecycle effects.

Lemma lifecycle_snoc effects effect l l' :
  lifecycle effects = Some l → lifecycle_step l effect = Some l' → lifecycle (effects ++ [effect]) = Some l'.
Proof.
  unfold lifecycle. generalize new_lifecycle. induction effects as [|e effects IH]; intros l0; cbn.
  - intros [= ->] ->. done.
  - destruct (lifecycle_step l0 e); cbn; [apply IH|done].
Qed.

(** The summary the log has to show for an answer. *)
Definition response_summary {Payload} (response : Response Payload) : option ErrorLogSummary :=
  match response with
  | SuccessResponse _ => None
  | GatewayErrorResponse error => Some (log_summary error)
  | AdapterErrorResponse error => Some (summarize_adapter_error error)
  | GeminiErrorResponse error => Some (summarize_gemini_adapter_error error)
  end.

(** How a request that was created has to end: finished with the summary of its
    answer, no attempt open and the slot given back; an error also leaves no
    reservation and no paid reserve behind. *)
Definition closed {Payload} (response : Response Payload) (l : Lifecycle) : Prop :=
  lc_phase l = Finished (response_summary response) ∧ lc_attempt l = None ∧ lc_slot l = false ∧
  (response_summary response ≠ None → lc_key l = None ∧ lc_paid l = false).

Definition logs {J : SerdeJson} (l : Lifecycle) (s : RequestState) : Prop := lifecycle (rs_effects s) = Some l.

Section lifecycle_proofs.
Context {J : SerdeJson} {B : Jsonb J} {U : UuidDisplay} {Payload : Type} (env : RequestEnv (J := J) Payload).
Context (tenant_id : Uuid) (rate_limit_policy : Value) (tpm_estimate : RateLimitTpmReservationEstimate).

Lemma lc_perform l l' effect (post : () → Lifecycle → Prop) :
  lifecycle_step l effect = Some l' → post tt l' → triple logs l (perform effect) post.
Proof. intros Hstep. apply triple_perform. intros rows effects Hl. by eapply lifecycle_snoc. Qed.

Lemma lc_write l l' (effect : bool → Effect) (post : () → Lifecycle → Prop) :
  (∀ written, lifecycle_step l (effect written) = Some l') → post tt l' → triple logs l (write env effect) post.
Proof. intros Hstep Hpost. apply triple_bind, triple_ask. intros n. by eapply lc_perform. Qed.

Lemma lc_query {A} l statement (effect : result DbError A → Effect) (post : result DbError A → Lifecycle → Prop) :
  (∀ outcome, ∃ l', lifecycle_step l (effect outcome) = Some l' ∧ post outcome l') →
  triple logs l (query env statement effect) post.
Proof.
  intros Hstep [rows effects] Hl. unfold query. cbn.
  destruct (if re_connects Payload env (length effects) then _ else _) as [[rows' x]|e].
  - destruct (Hstep (Ok x)) as (l' & Hl' & ?). exists l'. split; [by eapply lifecycle_snoc|done].
  - destruct (Hstep (Err e)) as (l' & Hl' & ?). exists l'. split; [by eapply lifecycle_snoc|done].
Qed.

(** Nothing of an attempt is open. *)
Definition going (slot paid : bool) : Lifecycle := mkLifecycle Open None None slot paid.

(** Finished with an error, the slot not given back yet. *)
Definition ended (response : Response Payload) (slot : bool) (l : Lifecycle) : Prop :=
  l = mkLifecycle (Finished (response_summary response)) None None slot false ∧ response_summary response ≠ None.

Lemma lc_release_slot phase attempt key slot paid :
  triple logs (mkLifecycle (Finished phase) attempt key slot paid)
    (release_virtual_key_concurrency_if_needed env slot)
    (λ _ l, l = mkLifecycle (Finished phase) attempt key false paid).
Proof.
  unfold release_virtual_key_concurrency_if_needed. destruct slot; cbn [negb]; [|by apply triple_ret].
  apply triple_bind, lc_query. intros outcome. eexists. split; [by destruct phase|]. by apply triple_ret.
Qed.

Lemma lc_close response slot l :
  ended response slot l →
  triple logs l (release_virtual_key_concurrency_if_needed env slot) (λ _, closed response).
Proof.
  intros [-> Hsummary]. eapply triple_mono; [apply lc_release_slot|]. intros ? ? ->. split_and!; done.
Qed.

Lemma lc_finish_request_with_error slot paid summary response :
  response_summary response = Some summary →
  triple logs (going slot paid) (finish_request_with_error env summary) (λ _, ended response slot).
Proof.
  intros Hsummary. apply triple_bind. eapply lc_write; [done|].
  eapply lc_write; [done|]. split; [by rewrite Hsummary|congruence].
Qed.

(** The answer of a guard: go on, or an error that is finished. *)
Definition guarded (slot : bool) (rejected : option (Response Payload)) (l : Lifecycle) : Prop :=
  match rejected with
  | Some response => ended response slot l
  | None => ∃ paid, l = going slot paid
  end.

Lemma lc_pre_authorize route slot paid :
  triple logs (going slot paid) (pre_authorize_before_provider_attempt env route) (guarded slot).
Proof.
  apply triple_bind, triple_ask. intros n. apply triple_bind, triple_ask. intros n'.
  apply triple_bind. eapply lc_perform; [done|].
  destruct (re_pre_authorize Payload env n') as [error|].
  - apply triple_bind. eapply triple_mono; [by apply (lc_finish_request_with_error _ _ _ (GatewayErrorResponse error))|].
    intros ? l Hl. by apply triple_ret.
  - apply triple_ret. by eexists.
Qed.

(** The reservation that is held on a provider key. *)
Definition held_key (route : ResolvedChatRoute) (reservation : GatewayRateLimitReservationAttempt)
    : option (key_scope * RateLimitRequiredCapacity) :=
  if db_release_needed reservation
  then Some (reservation_scope tenant_id route, ra_required_capacity reservation) else None.

Lemma not_executable_holds_nothing route reservation :
  executable reservation = false → acquired reservation = true → held_key route reservation = None.
Proof.
  unfold held_key, executable, db_acquire_allows_attempt, db_release_needed. intros Hexecutable Hacquired.
  rewrite Hacquired in Hexecutable. destruct (ra_db_acquire reservation) as [execution|]; [|done].
  by destruct (xe_status execution).
Qed.

Lemma lc_acquire_reservation route slot paid reservation :
  db_release_needed reservation = false → ra_db_release_attempted reservation = false →
  triple logs (going slot paid)
    (acquire_gateway_rate_limit_reservation_for_attempt env tenant_id route reservation)
    (λ answer l, match answer with
     | (Some response, _) => ended response slot l
     | (None, reservation) =>
         l = mkLifecycle Open None (held_key route reservation) slot paid ∧
         (executable reservation = false → held_key route reservation = None)
     end).
Proof.
  intros Hnone Hattempted. unfold acquire_gateway_rate_limit_reservation_for_attempt.
  apply triple_if; [intros _; apply triple_ret; unfold held_key; by rewrite Hnone|intros Hacquired].
  apply triple_if; [intros _; apply triple_ret; unfold held_key; by rewrite Hnone|intros _].
  apply negb_false_iff in Hacquired.
  apply triple_bind, lc_query. intros [result|e]; eexists; (split; [done|]).
  - apply triple_ret. split; [|by intros ?; apply not_executable_holds_nothing].
    unfold held_key, db_release_needed. cbn. rewrite Hattempted, andb_true_r. by case_bool_decide.
  - apply triple_bind. cbn [applied]. eapply triple_mono; [by apply (lc_finish_request_with_error _ _ _
      (GatewayErrorResponse (database_query_failed "provider_key_rate_limit_reservation")))|].
    intros ? l Hl. by apply triple_ret.
Qed.

Lemma lc_release_reservation route attempt slot paid reservation :
  triple logs (mkLifecycle Open attempt (held_key route reservation) slot paid)
    (release_gateway_rate_limit_reservation_if_needed env tenant_id route reservation)
    (λ _ l, l = mkLifecycle Open attempt None slot paid).
Proof.
  unfold release_gateway_rate_limit_reservation_if_needed, held_key.
  destruct (db_release_needed reservation); cbn [negb]; [|by apply triple_ret].
  apply triple_bind, lc_query. intros outcome. eexists. split; [|by apply triple_ret].
  cbn. by rewrite bool_decide_true.
Qed.

Section attempt.
Context (route : ResolvedChatRoute) (next_route : option ResolvedChatRoute) (attempt_no : Z).
Context (fallback_events : list FallbackEvent) (rejections : nat) (slot paid : bool).

(** How an iteration of the loop leaves the request. *)
Definition iterated (control : Control (Payload := Payload)) (l : Lifecycle) : Prop :=
  match control with
  | Continue _ _ | Break _ => ∃ paid, l = going slot paid
  | Return response => closed response l
  end.

(** The attempt [attempt] is finished as failed, its reservation given back. *)
Definition finishes (attempt : option Uuid) (finish_attempt : Gateway ()) : Prop :=
  triple logs (mkLifecycle Open attempt None slot paid) finish_attempt (λ _ l, l = going slot paid).

Lemma lc_return_error attempt reservation finish_attempt summary response :
  response_summary response = Some summary → finishes attempt finish_attempt →
  triple logs (mkLifecycle Open attempt (held_key route reservation) slot paid)
    (return_error env tenant_id slot route reservation finish_attempt summary response) iterated.
Proof.
  intros Hsummary Hfinish. apply triple_bind. eapply triple_mono; [apply lc_release_reservation|]. intros ? ? ->.
  apply triple_bind. eapply triple_mono; [apply Hfinish|]. intros ? ? ->.
  apply triple_bind. eapply triple_mono; [by apply lc_finish_request_with_error|]. intros ? l Hl.
  apply triple_bind. eapply triple_mono; [apply (lc_close _ _ _ Hl)|]. intros ? l' Hl'. by apply triple_ret.
Qed.

Lemma lc_continue attempt reservation next finish_attempt summary :
  (∀ reason, finishes attempt (finish_attempt reason)) →
  triple logs (mkLifecycle Open attempt (held_key route reservation) slot paid)
    (continue_with_next_route env tenant_id route attempt_no fallback_events rejections reservation next
       finish_attempt summary) iterated.
Proof.
  intros Hfinish. apply triple_bind. eapply triple_mono; [apply lc_release_reservation|]. intros ? ? ->.
  apply triple_bind. eapply triple_mono; [apply Hfinish|]. intros ? ? ->. apply triple_ret. by eexists.
Qed.

Lemma lc_return_success attempt_id key payload :
  triple logs (mkLifecycle Open (Some attempt_id) key slot paid)
    (return_success env slot route attempt_no fallback_events attempt_id payload) iterated.
Proof.
  apply triple_bind. eapply lc_write; [intros written; cbn; by rewrite bool_decide_true|].
  apply triple_bind. eapply lc_perform; [done|]. apply triple_bind, triple_ask. intros n.
  apply triple_bind. eapply lc_write; [done|].
  assert (∀ paid, triple logs (mkLifecycle (Finished None) None key slot paid)
    (release_virtual_key_concurrency_if_needed env slot;; mret (Return (SuccessResponse payload))) iterated) as Hend.
  { intros paid'. apply triple_bind. eapply triple_mono; [apply lc_release_slot|]. intros ? ? ->.
    apply triple_ret. split_and!; done. }
  apply triple_bind. unfold settle_request_ledger. repeat case_match; try (by apply triple_ret, Hend).
  eapply lc_write; [done|]. apply Hend.
Qed.

Lemma finish_failed attempt_id summary reason :
  finishes (Some attempt_id) (finish_provider_attempt_with_error_and_fallback env attempt_id summary reason).
Proof. eapply lc_write; [intros written; cbn; by rewrite bool_decide_true|]. done. Qed.

Lemma lc_update_status patch :
  triple logs (going slot paid) (update_provider_key_runtime_status route patch) (λ _ l, l = going slot paid).
Proof. destruct patch; [by eapply lc_perform|by apply triple_ret]. Qed.

Lemma finish_adapter_error attempt_id error summary reason :
  finishes (Some attempt_id)
    (finish_provider_attempt_with_adapter_error_and_fallback env route attempt_id error summary reason).
Proof. apply triple_bind. eapply triple_mono; [apply finish_failed|]. intros ? ? ->. apply lc_update_status. Qed.

Lemma finish_gemini_error attempt_id error summary reason :
  finishes (Some attempt_id)
    (finish_provider_attempt_with_gemini_adapter_error_and_fallback env route attempt_id error summary reason).
Proof. apply triple_bind. eapply triple_mono; [apply finish_failed|]. intros ? ? ->. apply lc_update_status. Qed.

#[local] Ltac attempt_ends :=
  first
    [ apply lc_return_success
    | apply lc_return_error; [done|attempt_ends]
    | apply lc_continue; intros ?; attempt_ends
    | apply finish_failed | apply finish_adapter_error | apply finish_gemini_error ].

Lemma lc_gemini_attempt reservation attempt_id :
  triple logs (mkLifecycle Open (Some attempt_id) (held_key route reservation) slot paid)
    (gemini_attempt env tenant_id slot route next_route attempt_no fallback_events rejections reservation attempt_id)
    iterated.
Proof.
  unfold gemini_attempt. destruct (re_gemini_request Payload env route); [|attempt_ends].
  apply triple_bind, triple_ask. intros n. case_match; [|attempt_ends].
  apply triple_bind, triple_ask. intros n'. case_match; [|attempt_ends].
  apply triple_bind, triple_ask. intros n''. case_match; [attempt_ends|].
  destruct next_route; [|attempt_ends]. case_match; attempt_ends.
Qed.

Lemma lc_openai_attempt reservation attempt_id :
  triple logs (mkLifecycle Open (Some attempt_id) (held_key route reservation) slot paid)
    (openai_attempt env tenant_id slot route next_route attempt_no fallback_events rejections reservation attempt_id)
    iterated.
Proof.
  apply triple_bind, triple_ask. intros n. case_match; [|attempt_ends].
  apply triple_bind, triple_ask. intros n'. case_match; [|attempt_ends].
  apply triple_bind, triple_ask. intros n''. case_match; [attempt_ends|].
  destruct next_route; [|attempt_ends]. case_match; attempt_ends.
Qed.

End attempt.

Lemma lc_provider_attempt route next_route attempt_no fallback_events rejections slot paid :
  triple logs (going slot paid)
    (provider_attempt env tenant_id tpm_estimate slot route next_route attempt_no fallback_events rejections)
    (iterated slot).
Proof.
  apply triple_bind. eapply triple_mono; [apply lc_pre_authorize|]. intros [response|] l Hl; cbn in Hl.
  { apply triple_bind. eapply triple_mono; [apply (lc_close _ _ _ Hl)|]. intros ? l' Hl'. by apply triple_ret. }
  destruct Hl as [paid' ->]. apply triple_bind. eapply triple_mono; [by apply lc_acquire_reservation|].
  intros [[response|] reservation] l Hl.
  { apply triple_bind. eapply triple_mono; [apply (lc_close _ _ _ Hl)|]. intros ? l' Hl'. by apply triple_ret. }
  destruct Hl as [-> Hheld]. apply triple_if.
  - intros Hexecutable%negb_true_iff. rewrite Hheld by done.
    destruct next_route; apply triple_ret; by eexists.
  - intros _. apply triple_bind, triple_ask. intros n. apply triple_bind.
    destruct (re_create_attempt Payload env n) as [attempt_id|error]; (eapply lc_perform; [done|]).
    + destruct (route_uses_gemini_adapter route); [apply lc_gemini_attempt|apply lc_openai_attempt].
    + apply lc_return_error; [done|by apply triple_ret].
Qed.

Lemma lc_attempt_loop routes index fallback_events rejections slot paid :
  triple logs (going slot paid)
    (attempt_loop env tenant_id tpm_estimate slot index routes fallback_events rejections)
    (λ answer l, match answer with inl response => closed response l | inr _ => ∃ paid, l = going slot paid end).
Proof.
  revert index fallback_events rejections paid.
  induction routes as [|route routes IH]; intros index events rejections paid; cbn [attempt_loop].
  { apply triple_ret. by eexists. }
  apply triple_bind. eapply triple_mono; [apply lc_provider_attempt|].
  intros [events' rejections'|rejections'|response] l Hl; cbn in Hl.
  - destruct Hl as [paid' ->]. apply IH.
  - by apply triple_ret.
  - by apply triple_ret.
Qed.

(** A guard of the virtual key closes the request it rejects. *)
Definition key_guarded (slot : bool) (rejected : option (Response Payload)) (l : Lifecycle) : Prop :=
  match rejected with
  | Some response => closed response l
  | None => ∃ paid, l = going slot paid
  end.

Lemma lc_virtual_key_guard slot paid dimension operation statement :
  negb (slot && bool_decide (dimension = "concurrency")) = true →
  triple logs (going slot paid) (virtual_key_guard env slot dimension operation statement)
    (key_guarded (slot || bool_decide (dimension = "concurrency"))).
Proof.
  intros Hslot. apply triple_bind, triple_bind, triple_ask. intros n. apply lc_query. intros outcome. eexists.
  split; [cbn; by rewrite Hslot|].
  assert (∀ error, triple logs (going slot paid)
    (finish_request_with_error env (log_summary error);;
     release_virtual_key_concurrency_if_needed env slot;; mret (Some (GatewayErrorResponse error)))
    (key_guarded (slot || bool_decide (dimension = "concurrency")))) as Hfail.
  { intros error. apply triple_bind.
    eapply triple_mono; [by apply (lc_finish_request_with_error _ _ _ (GatewayErrorResponse error))|]. intros ? l Hl.
    apply triple_bind. eapply triple_mono; [apply (lc_close _ _ _ Hl)|]. intros ? l' Hl'. by apply triple_ret. }
  unfold slot_granted. destruct outcome as [acquire|e].
  - destruct (va_applied acquire) eqn:Happlied.
    + apply triple_ret. exists paid. by rewrite andb_true_r.
    + rewrite andb_false_r, orb_false_r. apply triple_bind. eapply lc_perform; [done|]. apply Hfail.
  - rewrite andb_false_r, orb_false_r. apply Hfail.
Qed.

Lemma lc_chat_completions selected_route other_routes :
  triple logs new_lifecycle
    (chat_completions env tenant_id rate_limit_policy tpm_estimate selected_route other_routes)
    (λ response l, match re_create_request Payload env with
     | Ok _ => closed response l
     | Err error => response = GatewayErrorResponse error ∧ l = new_lifecycle
     end).
Proof.
  unfold chat_completions. destruct (re_create_request Payload env) as [|error].
  2:{ apply triple_bind. eapply lc_perform; [done|]. by apply triple_ret. }
  apply triple_bind. eapply lc_perform; [done|]. apply triple_bind, triple_ask. intros n.
  apply triple_bind. eapply (triple_mono _ _ _ (key_guarded false)).
  { apply triple_if; intros _; [|by apply triple_ret; exists false].
    eapply triple_mono; [apply lc_pre_authorize|]. intros [response|] l Hl; [|done].
    destruct Hl as [-> Hsummary]. split_and!; done. }
  intros [response|] l Hl; [by apply triple_ret|]. destruct Hl as [paid ->].
  apply triple_bind.
  eapply (triple_mono _ _ _ (key_guarded (is_some (virtual_key_concurrency_limit rate_limit_policy)))).
  { destruct (virtual_key_concurrency_limit _); [by apply lc_virtual_key_guard|apply triple_ret; by exists paid]. }
  clear paid. intros [response|] l Hl; [by apply triple_ret|]. destruct Hl as [paid ->].
  generalize (is_some (virtual_key_concurrency_limit rate_limit_policy)). intros slot.
  apply triple_bind. eapply (triple_mono _ _ _ (key_guarded slot)).
  { destruct (virtual_key_rpm_limit _); [|apply triple_ret; by exists paid].
    eapply triple_mono; [apply (lc_virtual_key_guard slot paid "rpm"); by rewrite andb_false_r|].
    by rewrite orb_false_r. }
  clear paid. intros [response|] l Hl; [by apply triple_ret|]. destruct Hl as [paid ->].
  apply triple_bind. eapply (triple_mono _ _ _ (key_guarded slot)).
  { destruct (virtual_key_tpm_limit _); [|apply triple_ret; by exists paid].
    eapply triple_mono; [apply (lc_virtual_key_guard slot paid "tpm"); by rewrite andb_false_r|].
    by rewrite orb_false_r. }
  clear paid. intros [response|] l Hl; [by apply triple_ret|]. destruct Hl as [paid ->].
  apply triple_bind. eapply lc_perform; [done|].
  apply triple_bind. eapply triple_mono; [apply lc_attempt_loop|]. intros [response|[events rejections]] l Hl.
  { by apply triple_ret. }
  destruct Hl as [paid' ->]. apply triple_bind. eapply lc_perform; [done|].
  apply triple_bind. eapply triple_mono; [by apply (lc_finish_request_with_error _ _ _
    (GatewayErrorResponse rate_limit_reservation_rejected_error))|]. intros ? l Hl.
  apply triple_bind. eapply triple_mono; [apply (lc_close _ _ _ Hl)|]. intros ? l' Hl'. by apply triple_ret.
Qed.
End lifecycle_proofs.

(** ** What the request leaves behind

    By the answers of its statements, as far as the request can know. *)

(** The reservations whose release failed, the last one first. *)
Definition lost_release (lost : list (key_scope * RateLimitRequiredCapacity)) (effect : Effect)
    : list (key_scope * RateLimitRequiredCapacity) :=
  match effect with
  | KeyReservation input (Err _) =>
      match xi_operation input with DbRelease => (xi_scope input, xi_required input) :: lost | DbAcquire => lost end
  | _ => lost
  end.

Definition lost_releases (effects : list Effect) : list (key_scope * RateLimitRequiredCapacity) :=
  foldl lost_release [] effects.

(** What a request holds by its log. *)
Definition request_holds (l : Lifecycle) (effects : list Effect) : list (key_scope * RateLimitRequiredCapacity) :=
  option_list (lc_key l) ++ lost_releases effects.

Lemma lifecycle_snoc_inv effects effect l :
  lifecycle (effects ++ [effect]) = Some l → ∃ l0, lifecycle effects = Some l0 ∧ lifecycle_step l0 effect = Some l.
Proof.
  unfold lifecycle. generalize new_lifecycle. induction effects as [|e effects IH]; intros l0; cbn.
  - destruct (lifecycle_step l0 effect) eqn:Hstep; [|done]. cbn. intros [= ->]. eauto.
  - destruct (lifecycle_step l0 e); cbn; [apply IH|done].
Qed.

Definition is_key_reservation (effect : Effect) : bool :=
  match effect with KeyReservation _ _ => true | _ => false end.

(** Only reservations change what is held. *)
Lemma holds_other effects effect l0 l :
  is_key_reservation effect = false → lifecycle_step l0 effect = Some l →
  request_holds l (effects ++ [effect]) = request_holds l0 effects.
Proof.
  intros Hother Hstep. unfold request_holds, lost_releases. rewrite foldl_app.
  assert (lc_key l = lc_key l0 ∧ lost_release (lost_releases effects) effect = lost_releases effects) as [-> Hlost].
  { destruct l0 as [phase attempt key slot paid]. split; [|by destruct effect].
    unfold lifecycle_step, nothing_started in Hstep. cbn in Hstep.
    destruct effect; try done; destruct phase; try done; repeat (case_match; simplify_eq/=; try done);
      simplify_eq/=; bool_to_prop; by destruct key. }
  f_equal. exact Hlost.
Qed.

Record Held : Type := mkHeld {
  hd_keys : list (key_scope * RateLimitRequiredCapacity);
  hd_slot : bool;
  hd_paid : bool;
}.

Fixpoint give_back (reservation : key_scope * RateLimitRequiredCapacity)
    (held : list (key_scope * RateLimitRequiredCapacity)) : list (key_scope * RateLimitRequiredCapacity) :=
  match held with
  | [] => []
  | first :: held => if bool_decide (first = reservation) then held else first :: give_back reservation held
  end.

(** Statements that failed change nothing. *)
Definition held_step (held : Held) (effect : Effect) : Held :=
  let 'mkHeld keys slot paid := held in
  match effect with
  | KeyReservation input (Ok result) =>
      match xi_operation input with
      | DbAcquire =>
          mkHeld (if bool_decide (xe_status result = ExApplied) then (xi_scope input, xi_required input) :: keys else keys)
            slot paid
      | DbRelease => mkHeld (give_back (xi_scope input, xi_required input) keys) slot paid
      end
  | AcquireVirtualKey dimension outcome => mkHeld keys (slot || slot_granted dimension outcome) paid
  | ReleaseVirtualKey (Ok _) => mkHeld keys false paid
  | PreAuthorize _ _ reserved => mkHeld keys slot (paid || reserved)
  | ReleasePaidReserve true | SettleLedger _ true => mkHeld keys slot false
  | _ => held
  end.

Definition held_after (effects : list Effect) : Held := foldl held_step (mkHeld [] false false) effects.

Definition failed_slot_release (effect : Effect) : bool :=
  match effect with ReleaseVirtualKey (Err _) => true | _ => false end.

Definition failed_paid_release (effect : Effect) : bool :=
  match effect with ReleasePaidReserve false | SettleLedger _ false => true | _ => false end.

Lemma held_snoc effects effect : held_after (effects ++ [effect]) = held_step (held_after effects) effect.
Proof. unfold held_after. by rewrite foldl_app. Qed.

(** Of what was acquired, only that is left whose return is not due yet or has
    failed. *)
Lemma held_keys_account effects l :
  lifecycle effects = Some l → hd_keys (held_after effects) = request_holds l effects.
Proof.
  revert l. induction effects as [|effect effects IH] using rev_ind; intros l.
  { by intros [= <-]. }
  intros (l0 & Hl0 & Hstep)%lifecycle_snoc_inv. rewrite held_snoc. specialize (IH _ Hl0).
  destruct (is_key_reservation effect) eqn:Hkind.
  - destruct effect as [| | | |input outcome| | | | | | | | |]; try done. unfold request_holds, lost_releases in *.
    rewrite foldl_app. cbn [foldl lost_release]. destruct (held_after effects) as [keys slot paid]. cbn in IH. subst keys.
    destruct l0 as [phase attempt key slot' paid']. destruct phase as [| | |[]]; try done. cbn in Hstep.
    destruct (xi_operation input) eqn:Hoperation.
    + destruct attempt, key; simplify_eq/=. destruct outcome as [result|e]; cbn; [rewrite Hoperation|done].
      cbn. by case_bool_decide.
    + destruct (bool_decide _ && _) eqn:Hheld; [|done]. apply andb_true_iff in Hheld as [->%bool_decide_eq_true _].
      injection Hstep as <-. destruct outcome as [result|e]; cbn [held_step hd_keys]; rewrite ?Hoperation; [|done].
      cbn. by rewrite bool_decide_true.
  - rewrite (holds_other effects effect l0 l) by done. rewrite <-IH. destruct (held_after effects) as [keys slot paid].
    by destruct effect as [| | | | | | | | | | |[]|? []|[]].
Qed.

Lemma held_rest_account effects l :
  lifecycle effects = Some l →
  (hd_slot (held_after effects) = true → lc_slot l = true ∨ List.existsb failed_slot_release effects = true) ∧
  (hd_paid (held_after effects) = true → lc_paid l = true ∨ List.existsb failed_paid_release effects = true).
Proof.
  revert l. induction effects as [|effect effects IH] using rev_ind; intros l.
  { by intros [= <-]. }
  intros (l0 & Hl0 & Hstep)%lifecycle_snoc_inv. rewrite held_snoc, !List.existsb_app, !orb_true_iff.
  specialize (IH _ Hl0) as [IHslot IHpaid]. destruct (held_after effects) as [keys slot paid].
  destruct l0 as [phase attempt key slot' paid']. cbn in IHslot, IHpaid.
  unfold lifecycle_step, nothing_started in Hstep. cbn in Hstep.
  destruct effect; destruct phase; try done; repeat (case_match; simplify_eq/=; try done); simplify_eq/=;
    rewrite ?orb_true_iff, ?orb_false_r; naive_solver.
Qed.

