(* ===== verification/GatewayTrace.v ===== *)
(** What the log of a request says (apps/gateway/src/main.rs): which routes it
    tried and why it moved on, and how its reservations run on the table of
    provider keys beside those of other requests. *)

From S2P Require Export GatewayAttempts.

#[local] Open Scope string_scope.
#[local] Open Scope list_scope.
#[local] Open Scope Z_scope.

(** ** The routes of a request *)

Section routes.
Context {J : SerdeJson} {U : UuidDisplay}.

(** Two routes a candidate cannot tell apart. *)
Definition same_route (route route' : ResolvedChatRoute) : Prop :=
  rt_channel_id route = rt_channel_id route' ∧ rt_provider_id route = rt_provider_id route' ∧
  rt_upstream_model route = rt_upstream_model route'.

(** What the list of attempts keeps: routes of the request, at most
    [max_attempts], all but the first allowed as fallback, no two the same. *)
Definition attempts_ok (routes : list ResolvedChatRoute) (max_attempts : nat) (attempts : list ResolvedChatRoute) : Prop :=
  (length attempts <= max_attempts)%nat ∧
  Forall (λ route, route ∈ routes) attempts ∧
  Forall (λ route, rt_fallback_allowed route = true) (tail attempts) ∧
  ∀ i j route route', attempts !! i = Some route → attempts !! j = Some route' → same_route route route' → i = j.

Lemma matches_candidate candidate route route' :
  chat_route_matches_candidate candidate route = true → same_route route route' →
  chat_route_matches_candidate candidate route' = true.
Proof. unfold chat_route_matches_candidate. by intros ? (<- & <- & <-). Qed.

Lemma add_attempt_route_ok routes max_attempts attempts evaluated :
  attempts ≠ [] → (length attempts < max_attempts)%nat → attempts_ok routes max_attempts attempts →
  attempts_ok routes max_attempts (add_attempt_route routes attempts evaluated) ∧
  head (add_attempt_route routes attempts evaluated) = head attempts.
Proof.
  intros Hne Hlen Hok. unfold add_attempt_route.
  destruct (negb (is_selectable evaluated)); [done|].
  destruct (List.existsb _ attempts) eqn:Hexists; [done|].
  destruct (List.find _ routes) as [route|] eqn:Hfind; [|done].
  destruct (rt_fallback_allowed route) eqn:Hallowed; cbn [negb]; [|done].
  apply find_Some_elem in Hfind as [Hin Hmatch]. destruct Hok as (_ & Hroutes & Hfallback & Hdistinct).
  destruct attempts as [|first attempts]; [done|].
  assert (∀ i route', (first :: attempts) !! i = Some route' → same_route route' route → False) as Hnew.
  { intros i route' Hi Hsame. apply not_true_iff_false in Hexists. apply Hexists.
    apply List.existsb_exists. exists route'. split; [apply list_elem_of_In; by eapply list_elem_of_lookup_2|].
    eapply matches_candidate; [exact Hmatch|]. destruct Hsame as (? & ? & ?). done. }
  split; [|done]. split_and!.
  - rewrite length_app. cbn in *. lia.
  - apply Forall_app. by rewrite Forall_singleton.
  - cbn. apply Forall_app. by rewrite Forall_singleton.
  - intros i j r r' Hi Hj Hsame.
    apply lookup_app_Some in Hi as [Hi|[Hi0 Hi]]; apply lookup_app_Some in Hj as [Hj|[Hj0 Hj]].
    + by eapply Hdistinct.
    + apply list_lookup_singleton_Some in Hj as [_ <-]. exfalso. by eapply Hnew.
    + apply list_lookup_singleton_Some in Hi as [_ <-]. exfalso. eapply Hnew; [done|].
      destruct Hsame as (? & ? & ?). done.
    + apply list_lookup_singleton_Some in Hi as [? _]. apply list_lookup_singleton_Some in Hj as [? _]. lia.
Qed.

Lemma collect_attempt_routes_ok routes max_attempts candidates attempts :
  attempts ≠ [] → attempts_ok routes max_attempts attempts →
  attempts_ok routes max_attempts (collect_attempt_routes routes max_attempts attempts candidates) ∧
  head (collect_attempt_routes routes max_attempts attempts candidates) = head attempts.
Proof.
  revert attempts. induction candidates as [|evaluated candidates IH]; intros attempts Hne Hok; [done|].
  cbn [collect_attempt_routes]. destruct (Nat.leb_spec max_attempts (length attempts)); [done|].
  destruct (add_attempt_route_ok routes max_attempts attempts evaluated Hne ltac:(lia) Hok) as [Hok' Hhead].
  rewrite <-Hhead. apply IH; [|done]. intros Heq. rewrite Heq in Hhead. by destruct attempts.
Qed.

(** The candidate has a route that may be tried as a fallback. *)
Definition fallback_candidate (routes : list ResolvedChatRoute) (evaluated : EvaluatedCandidate) : Prop :=
  is_selectable evaluated = true ∧
  ∃ route, List.find (chat_route_matches_candidate (candidate evaluated)) routes = Some route ∧
           rt_fallback_allowed route = true.

Definition tries (evaluated : EvaluatedCandidate) (attempts : list ResolvedChatRoute) : Prop :=
  Exists (λ route, chat_route_matches_candidate (candidate evaluated) route = true) attempts.

Lemma add_attempt_route_tries routes attempts evaluated :
  (∃ added, add_attempt_route routes attempts evaluated = attempts ++ added) ∧
  (fallback_candidate routes evaluated → tries evaluated (add_attempt_route routes attempts evaluated)).
Proof.
  unfold add_attempt_route. destruct (is_selectable evaluated) eqn:Hselectable; cbn [negb].
  2:{ split; [exists []; by rewrite app_nil_r|]. intros [? _]. congruence. }
  destruct (List.existsb _ attempts) eqn:Hexists.
  { split; [exists []; by rewrite app_nil_r|]. intros _. apply List.existsb_exists in Hexists as (route & Hin & Hm).
    apply Exists_exists. exists route. by rewrite list_elem_of_In. }
  destruct (List.find _ routes) as [route|] eqn:Hfind.
  2:{ split; [exists []; by rewrite app_nil_r|]. intros (_ & route & Hroute & _). congruence. }
  destruct (rt_fallback_allowed route) eqn:Hallowed; cbn [negb].
  - split; [by eexists|]. intros _. apply Exists_app. right. constructor. by apply find_Some_elem in Hfind as [_ ?].
  - split; [exists []; by rewrite app_nil_r|]. intros (_ & route' & Hroute & Hallowed'). congruence.
Qed.

Lemma collect_attempt_routes_tries routes max_attempts candidates attempts :
  let result := collect_attempt_routes routes max_attempts attempts candidates in
  (∃ added, result = attempts ++ added) ∧
  ((length result < max_attempts)%nat →
   Forall (λ evaluated, fallback_candidate routes evaluated → tries evaluated result) candidates).
Proof.
  revert attempts. induction candidates as [|evaluated candidates IH]; intros attempts; cbn [collect_attempt_routes].
  { split; [exists []; by rewrite app_nil_r|done]. }
  destruct (Nat.leb_spec max_attempts (length attempts)).
  { split; [exists []; by rewrite app_nil_r|lia]. }
  destruct (add_attempt_route_tries routes attempts evaluated) as [[added Hadded] Htries].
  destruct (IH (add_attempt_route routes attempts evaluated)) as [[added' Hadded'] Hrest].
  rewrite Hadded' in *. split; [exists (added ++ added'); by rewrite Hadded, app_assoc|].
  intros Hlen. constructor; [|by apply Hrest]. intros Hcandidate. apply Exists_app. left. by apply Htries.
Qed.
End routes.

(** The routes a request may try. They are routes that were offered, at most
    [max_attempts] of them (and at least one attempt when a route is selected),
    the selected one first, every later one allowed as fallback, and no two with
    the same channel, provider and upstream model; without a selected route
    there is none. No fallback is missed: while the list is shorter than the
    maximum, it has a route for every selectable candidate whose route may be
    used as a fallback. *)
Theorem attempt_routes_sound {J : SerdeJson} {U : UuidDisplay}
    (routes : list ResolvedChatRoute) (decision : RouteDecision) (max_attempts : nat) :
  attempts_ok routes (Nat.max max_attempts 1) (chat_attempt_routes routes decision max_attempts) ∧
  head (chat_attempt_routes routes decision max_attempts) = selected_chat_route routes decision ∧
  (selected_chat_route routes decision ≠ None →
   (length (chat_attempt_routes routes decision max_attempts) < Nat.max max_attempts 1)%nat →
   Forall (λ evaluated, fallback_candidate routes evaluated →
             tries evaluated (chat_attempt_routes routes decision max_attempts)) (rd_candidates decision)).
Proof.
  unfold chat_attempt_routes. destruct (selected_chat_route routes decision) as [selected|] eqn:Hselected.
  2:{ split; [|done]. split_and!; cbn; [lia|done|done|]. intros i j r r' Hi. by rewrite lookup_nil in Hi. }
  rewrite assoc by apply _. split; [|intros _; apply (collect_attempt_routes_tries routes _ _ [selected])].
  apply (collect_attempt_routes_ok routes (Nat.max max_attempts 1) _ [selected]); [done|].
  unfold selected_chat_route in Hselected. destruct (rd_selected decision); [|done].
  apply find_Some_elem in Hselected as [Hin _].
  split_and!; cbn; [lia|by constructor|done|].
  intros i j r r' [-> _]%list_lookup_singleton_Some [-> _]%list_lookup_singleton_Some. done.
Qed.

(** ** The log of the attempts *)

(** The number of the attempt at an index, an [i32] that saturates. *)
Definition attempt_number (index : nat) : Z := Z.min i32_max (Z.of_nat index + 1).

Section log.
Context {J : SerdeJson} {B : Jsonb J} {Payload : Type} (env : RequestEnv (J := J) Payload).
Context (tenant_id : Uuid) (rate_limit_policy : Value) (tpm_estimate : RateLimitTpmReservationEstimate).
Context (routes : list ResolvedChatRoute).

(** The events tell the routes that were left, in order, each with the next one. *)
Definition events_follow (events : list FallbackEvent) : Prop :=
  ∀ i event, events !! i = Some event →
    ∃ route next, routes !! i = Some route ∧ routes !! S i = Some next ∧
      fe_attempt_no event = attempt_number i ∧ fe_failed_channel_id event = rt_channel_id route ∧
      fe_next_attempt_no event = attempt_number (S i) ∧ fe_next_channel_id event = rt_channel_id next.

Definition required_capacity : RateLimitRequiredCapacity := from_tpm_estimate 1 tpm_estimate 1.

(** What each effect has to say. *)
Definition effect_ok (effect : Effect) : Prop :=
  match effect with
  | PreAuthorize channel_id _ _ => ∃ route, route ∈ routes ∧ channel_id = rt_channel_id route
  | KeyReservation input _ =>
      xi_required input = required_capacity ∧
      ∃ route, route ∈ routes ∧ xi_scope input = reservation_scope tenant_id route
  | CreateAttempt attempt_no channel_id _ =>
      ∃ i route, routes !! i = Some route ∧ attempt_no = attempt_number i ∧ channel_id = rt_channel_id route
  | FinishAttempt _ status None fallback_reason _ => status = "succeeded" ∧ fallback_reason = None
  | FinishAttempt _ status (Some summary) fallback_reason _ =>
      status = "failed" ∧
      match fallback_reason with
      | Some reason => reason = ls_error_code summary ∧ ls_retryable summary = Some true
      | None => True
      end
  | UpdateKeyStatus provider_key_id patch => ∃ route, route ∈ routes ∧ provider_key_id = rt_provider_key_id route
  | RecordFinalRoute channel_id attempt_no events =>
      events_follow events ∧ attempt_no = attempt_number (length events) ∧
      ∃ route, routes !! length events = Some route ∧ channel_id = rt_channel_id route
  | RecordRejection attempts rejections events =>
      events_follow events ∧ attempts = length routes ∧ attempts = S (length events) ∧
      (0 < rejections <= attempts)%nat
  | FinishRequest status http_status summary _ =>
      match summary with
      | Some summary => http_status = ls_http_status summary ∧ status = request_status_for_http http_status
      | None => http_status = 200 ∧ status = "succeeded"
      end
  | _ => True
  end.

Definition log_ok (_ : ()) (s : RequestState) : Prop := Forall effect_ok (rs_effects s).

(** [m] only has such effects and its answer satisfies [post]. *)
Definition logged {A} (m : Gateway A) (post : A → Prop) : Prop := triple log_ok tt m (λ x _, post x).

Lemma logged_ret {A} (x : A) (post : A → Prop) : post x → logged (mret x) post.
Proof. intros Hpost. by apply triple_ret. Qed.

Lemma logged_bind {A C} (m : Gateway A) (f : A → Gateway C) (mid : A → Prop) post :
  logged m mid → (∀ x, mid x → logged (f x) post) → logged (m ≫= f) post.
Proof.
  intros Hm Hf. apply triple_bind. eapply triple_mono; [exact Hm|]. intros x [] Hx. by apply Hf.
Qed.

Lemma logged_ask {A C} (answer : RequestEnv Payload → nat → A) (f : A → Gateway C) post :
  (∀ x, logged (f x) post) → logged (ask env answer ≫= f) post.
Proof. intros Hf. apply triple_bind, triple_ask. intros n. apply Hf. Qed.

Lemma logged_perform effect : effect_ok effect → logged (perform effect) (λ _, True).
Proof.
  intros Heffect. apply (triple_perform _ _ tt); [|done]. intros rows effects Hlog.
  apply Forall_app. by rewrite Forall_singleton.
Qed.

Lemma logged_write (effect : bool → Effect) : (∀ written, effect_ok (effect written)) → logged (write env effect) (λ _, True).
Proof. intros Heffect. apply logged_ask. intros written. by apply logged_perform. Qed.

Lemma logged_query {A} statement (effect : result DbError A → Effect) :
  (∀ outcome, effect_ok (effect outcome)) → logged (query env statement effect) (λ _, True).
Proof.
  intros Heffect [rows effects] Hlog. exists tt. split; [|done]. apply Forall_app. by rewrite Forall_singleton.
Qed.

Lemma logged_if {A} (b : bool) (m1 m2 : Gateway A) post :
  (b = true → logged m1 post) → (b = false → logged m2 post) → logged (if b then m1 else m2) post.
Proof. destruct b; eauto. Qed.

Lemma logged_then {A C} (m : Gateway A) (m' : Gateway C) post :
  logged m (λ _, True) → logged m' post → logged (m ≫= λ _, m') post.
Proof. intros Hm Hm'. eapply logged_bind; [exact Hm|]. eauto. Qed.

Create HintDb logged.
Hint Resolve logged_ret logged_then logged_perform logged_query logged_ask : logged.

Lemma logged_release_virtual_key slot : logged (release_virtual_key_concurrency_if_needed env slot) (λ _, True).
Proof. apply logged_if; eauto with logged. intros _. apply logged_then; [by apply logged_query|by apply logged_ret]. Qed.

Lemma logged_finish_request_with_error summary : logged (finish_request_with_error env summary) (λ _, True).
Proof. apply logged_then; by apply logged_write. Qed.

Hint Resolve logged_release_virtual_key logged_finish_request_with_error : logged.

Lemma logged_pre_authorize route :
  route ∈ routes → logged (pre_authorize_before_provider_attempt env route) (λ _, True).
Proof.
  intros Hroute. apply logged_ask. intros beta. apply logged_ask. intros error.
  apply logged_then; [apply logged_perform; by exists route|]. destruct error; eauto with logged.
Qed.

(** The reservation of an attempt asks for the capacity of the request. *)
Definition reservation_ok (reservation : GatewayRateLimitReservationAttempt) : Prop :=
  ra_required_capacity reservation = required_capacity.

Lemma logged_acquire_reservation route reservation :
  route ∈ routes → reservation_ok reservation →
  logged (acquire_gateway_rate_limit_reservation_for_attempt env tenant_id route reservation)
    (λ answer, reservation_ok answer.2).
Proof.
  intros Hroute Hok. apply logged_if; [by eauto with logged|intros _].
  apply logged_if; [by eauto with logged|intros _].
  eapply logged_bind; [apply logged_query; intros outcome; split; [done|by exists route]|].
  intros [result|e] _; [by apply logged_ret|]. apply logged_then; [eauto with logged|by apply logged_ret].
Qed.

Lemma logged_release_reservation route reservation :
  route ∈ routes → reservation_ok reservation →
  logged (release_gateway_rate_limit_reservation_if_needed env tenant_id route reservation) (λ _, True).
Proof.
  intros Hroute Hok. apply logged_if; [by eauto with logged|intros _].
  eapply logged_bind; [apply logged_query; intros outcome; split; [done|by exists route]|].
  intros outcome _. by apply logged_ret.
Qed.

Section attempt.
Context (slot : bool) (index : nat) (route : ResolvedChatRoute) (rest : list ResolvedChatRoute).
Context (Hdrop : drop index routes = route :: rest).
Context (events : list FallbackEvent) (Hevents : events_follow events) (Hlength : length events = index).
Context (rejections : nat) (Hrejections : (rejections <= index)%nat).
Context (reservation : GatewayRateLimitReservationAttempt) (Hreservation : reservation_ok reservation).

Lemma routes_index : routes !! index = Some route.
Proof. rewrite <-(Nat.add_0_r index), <-lookup_drop, Hdrop. done. Qed.

Lemma routes_next next : head rest = Some next → routes !! S index = Some next.
Proof. intros Hnext. rewrite <-Nat.add_1_r, <-lookup_drop, Hdrop. by destruct rest. Qed.

Lemma route_in_routes : route ∈ routes.
Proof. eapply list_elem_of_lookup_2, routes_index. Qed.

(** How an iteration goes on: one more event that tells this route and the next,
    or the end of the routes. *)
Definition iterates (control : Control (Payload := Payload)) : Prop :=
  match control with
  | Continue events' rejections' =>
      rest ≠ [] ∧ events_follow events' ∧ length events' = S index ∧ (rejections' <= S index)%nat
  | Break rejections' => rest = [] ∧ (0 < rejections' <= S index)%nat
  | Return _ => True
  end.

Lemma events_follow_next reason next :
  head rest = Some next → events_follow (events ++ [fallback_event (attempt_number index) reason route next]).
Proof.
  intros Hnext i event [Hi|[Hi Hevent]]%lookup_app_Some; [by apply Hevents|].
  apply list_lookup_singleton_Some in Hevent as [Hi0 <-]. assert (i = index) as -> by lia.
  exists route, next. split_and!; eauto using routes_index, routes_next. unfold attempt_number. cbn. lia.
Qed.

Lemma logged_return_error finish_attempt summary response :
  logged finish_attempt (λ _, True) →
  logged (return_error env tenant_id slot route reservation finish_attempt summary response) iterates.
Proof.
  intros Hfinish. apply logged_then; [by apply logged_release_reservation; [apply route_in_routes|]|].
  apply logged_then; [done|]. apply logged_then; [eauto with logged|].
  apply logged_then; [eauto with logged|by apply logged_ret].
Qed.

Lemma logged_continue next finish_attempt summary :
  head rest = Some next → logged (finish_attempt (Some (ls_error_code summary))) (λ _, True) →
  logged (continue_with_next_route env tenant_id route (attempt_number index) events rejections reservation next
            finish_attempt summary) iterates.
Proof.
  intros Hnext Hfinish. apply logged_then; [by apply logged_release_reservation; [apply route_in_routes|]|].
  apply logged_then; [done|]. apply logged_ret. split_and!; [by destruct rest|by apply events_follow_next| |lia].
  rewrite length_app. cbn. lia.
Qed.

Lemma logged_return_success attempt_id payload :
  logged (return_success env slot route (attempt_number index) events attempt_id payload) iterates.
Proof.
  apply logged_then; [by apply logged_write|].
  apply logged_then; [apply logged_perform; split_and!; [done|by rewrite Hlength|]|].
  { exists route. split; [rewrite Hlength; apply routes_index|done]. }
  apply logged_ask. intros final_cost. apply logged_then; [by apply logged_write|].
  apply logged_then; [|apply logged_then; [eauto with logged|by apply logged_ret]].
  unfold settle_request_ledger. repeat case_match; try by apply logged_ret.
  by apply logged_write.
Qed.

Lemma logged_finish_failed attempt_id summary reason :
  match reason with
  | Some reason => reason = ls_error_code summary ∧ ls_retryable summary = Some true
  | None => True
  end →
  logged (finish_provider_attempt_with_error_and_fallback env attempt_id summary reason) (λ _, True).
Proof. intros Hreason. by apply logged_write. Qed.

Lemma logged_update_status patch : logged (update_provider_key_runtime_status route patch) (λ _, True).
Proof.
  destruct patch; [|by apply logged_ret]. apply logged_perform. exists route. split; [apply route_in_routes|done].
Qed.

Lemma logged_adapter_error attempt_id error reason :
  (reason = None ∨
   reason = Some (ls_error_code (summarize_adapter_error error)) ∧ provider_error_can_fallback error = true) →
  logged (finish_provider_attempt_with_adapter_error_and_fallback env route attempt_id error
            (summarize_adapter_error error) reason) (λ _, True).
Proof.
  intros Hreason. apply logged_then; [|apply logged_update_status]. apply logged_finish_failed.
  destruct Hreason as [->|[-> Hfallback]]; [done|]. split; [done|]. by apply openai_summary_faithful.
Qed.

Lemma logged_gemini_error attempt_id error reason :
  (reason = None ∨
   reason = Some (ls_error_code (summarize_gemini_adapter_error error)) ∧
   gemini_provider_error_can_fallback error = true) →
  logged (finish_provider_attempt_with_gemini_adapter_error_and_fallback env route attempt_id error
            (summarize_gemini_adapter_error error) reason) (λ _, True).
Proof.
  intros Hreason. apply logged_then; [|apply logged_update_status]. apply logged_finish_failed.
  destruct Hreason as [->|[-> Hfallback]]; [done|]. split; [done|]. by apply gemini_summary_faithful.
Qed.

#[local] Ltac attempt_logged :=
  first
    [ apply logged_return_success
    | apply logged_return_error; attempt_logged
    | apply logged_continue; [done|attempt_logged]
    | apply logged_finish_failed; done
    | apply logged_adapter_error; tauto
    | apply logged_gemini_error; tauto ].

Lemma logged_gemini_attempt attempt_id :
  logged (gemini_attempt env tenant_id slot route (head rest) (attempt_number index) events rejections reservation
            attempt_id) iterates.
Proof.
  unfold gemini_attempt. destruct (re_gemini_request Payload env route); [|attempt_logged].
  apply logged_ask. intros [key|error]; [|attempt_logged]. apply logged_ask. intros [client|error]; [|attempt_logged].
  apply logged_ask. intros [payload|error]; [attempt_logged|].
  destruct (head rest) eqn:Hnext; [|attempt_logged].
  destruct (gemini_provider_error_can_fallback error) eqn:Hfallback; attempt_logged.
Qed.

Lemma logged_openai_attempt attempt_id :
  logged (openai_attempt env tenant_id slot route (head rest) (attempt_number index) events rejections reservation
            attempt_id) iterates.
Proof.
  apply logged_ask. intros [client|error]; [|attempt_logged]. apply logged_ask. intros [key|error]; [|attempt_logged].
  apply logged_ask. intros [payload|error]; [attempt_logged|].
  destruct (head rest) eqn:Hnext; [|attempt_logged].
  destruct (provider_error_can_fallback error) eqn:Hfallback; attempt_logged.
Qed.
End attempt.

Lemma logged_provider_attempt slot index route rest events rejections :
  drop index routes = route :: rest → events_follow events → length events = index → (rejections <= index)%nat →
  logged (provider_attempt env tenant_id tpm_estimate slot route (head rest) (attempt_number index) events rejections)
    (iterates index rest).
Proof.
  intros Hdrop Hevents Hlength Hrejections. pose proof (route_in_routes _ _ _ Hdrop) as Hroute.
  eapply logged_bind; [by apply logged_pre_authorize|]. intros [response|] _.
  { apply logged_then; [eauto with logged|by apply logged_ret]. }
  eapply logged_bind; [by apply logged_acquire_reservation|]. intros [[response|] reservation] Hreservation.
  { apply logged_then; [eauto with logged|by apply logged_ret]. }
  apply logged_if.
  - intros _. destruct (head rest) as [next|] eqn:Hnext; apply logged_ret.
    + split_and!; [by destruct rest|by eapply events_follow_next| |lia]. rewrite length_app. cbn. lia.
    + split; [by destruct rest|lia].
  - intros _. apply logged_ask. intros outcome. apply logged_then.
    { apply logged_perform. exists index, route. split_and!; [by eapply routes_index|done..]. }
    destruct outcome as [attempt_id|error].
    + apply logged_if; intros _; [by apply logged_gemini_attempt|by apply logged_openai_attempt].
    + eapply logged_return_error; [done..|by apply logged_ret].
Qed.

Lemma logged_attempt_loop slot rest index events rejections :
  drop index routes = rest → rest ≠ [] → events_follow events → length events = index → (rejections <= index)%nat →
  logged (attempt_loop env tenant_id tpm_estimate slot index rest events rejections)
    (λ answer, match answer with
     | inl _ => True
     | inr (events, rejections) =>
         events_follow events ∧ length routes = S (length events) ∧ (0 < rejections <= length routes)%nat
     end).
Proof.
  revert index events rejections. induction rest as [|route rest IH]; [done|].
  intros index events rejections Hdrop _ Hevents Hlength Hrejections. cbn [attempt_loop].
  eapply logged_bind; [by apply logged_provider_attempt|].
  intros [events' rejections'|rejections'|response] Hcontrol; [| |by apply logged_ret].
  - destruct Hcontrol as (Hrest & ? & ? & ?). apply IH; try done.
    rewrite <-Nat.add_1_r, <-drop_drop, Hdrop. done.
  - destruct Hcontrol as (-> & Hpos). apply logged_ret.
    assert (length routes = S index) as Hall.
    { apply (f_equal length) in Hdrop. rewrite length_drop in Hdrop. cbn in Hdrop. lia. }
    split_and!; [done|lia..].
Qed.

Lemma logged_virtual_key_guard slot dimension operation statement :
  logged (virtual_key_guard env slot dimension operation statement) (λ _, True).
Proof.
  eapply logged_bind; [apply logged_ask; intros minute; by apply logged_query|].
  intros [acquire|e] _; [destruct (va_applied acquire)|]; [by apply logged_ret| |].
  - apply logged_then; [by apply logged_perform|]. do 2 (apply logged_then; [eauto with logged|]). by apply logged_ret.
  - do 2 (apply logged_then; [eauto with logged|]). by apply logged_ret.
Qed.

Lemma logged_optional_guard limit guard :
  (∀ limit, logged (guard limit) (λ _, True)) →
  logged (optional_guard (Payload := Payload) limit guard) (λ _, True).
Proof. intros Hguard. destruct limit; [apply Hguard|by apply logged_ret]. Qed.

Lemma logged_chat_completions selected_route other_routes :
  routes = selected_route :: other_routes →
  logged (chat_completions env tenant_id rate_limit_policy tpm_estimate selected_route other_routes) (λ _, True).
Proof.
  intros Hroutes. unfold chat_completions. destruct (re_create_request Payload env).
  2:{ apply logged_then; [by apply logged_perform|by apply logged_ret]. }
  apply logged_then; [by apply logged_perform|]. apply logged_ask. intros beta.
  apply (logged_bind _ _ (λ _, True)).
  { apply logged_if; intros _; [|by apply logged_ret]. apply logged_pre_authorize. rewrite Hroutes. by left. }
  intros [response|] _; [by apply logged_ret|].
  do 3 (eapply logged_bind; [apply logged_optional_guard; intros limit; apply logged_virtual_key_guard|];
    intros [response|] _; [by apply logged_ret|]).
  apply logged_then; [by apply logged_perform|]. rewrite <-Hroutes.
  eapply logged_bind; [by apply logged_attempt_loop; rewrite ?Hroutes|].
  intros [response|[events rejections]] Hended; [by apply logged_ret|]. destruct Hended as (? & Hlength & ?).
  apply logged_then; [by apply logged_perform; split_and!; [..|lia|lia]|].
  do 2 (apply logged_then; [eauto with logged|]). by apply logged_ret.
Qed.
End log.

(** C31: what the log of a request says, whatever happens around it. Attempts
    carry the number and the channel of a route of the request. An attempt marked
    as fallback failed with the logged code and with a retryable error. The
    route recorded at the end is the one the events lead to: event by event they
    name the routes that were left, in the order of the list, with the next one.
    A request rejected for lack of capacity has gone through all its routes, and
    at least one reservation was rejected, as the debug assertion before the
    rejection demands. Reservations ask for the estimated capacity on the key of
    a route of the request, and the status of a finished request is the one of
    its summary. *)
Theorem request_log_faithful {J : SerdeJson} {B : Jsonb J} {Payload : Type} (env : RequestEnv Payload)
    (tenant_id : Uuid) (rate_limit_policy : Value) (tpm_estimate : RateLimitTpmReservationEstimate)
    (selected_route : ResolvedChatRoute) (other_routes : list ResolvedChatRoute) (rows : SharedRows) :
  Forall (effect_ok tenant_id tpm_estimate (selected_route :: other_routes))
    (rs_effects
       (chat_completions env tenant_id rate_limit_policy tpm_estimate selected_route other_routes
          (mkRequestState rows [])).2).
Proof.
  destruct (logged_chat_completions env tenant_id rate_limit_policy tpm_estimate _ selected_route other_routes eq_refl
    (mkRequestState rows [])) as ([] & Hlog & _); [apply Forall_nil_2|exact Hlog].
Qed.

(** ** Requests on the table of provider keys

    The reservations of a request are steps of the machine of [Reservation],
    between the steps of other requests. *)

(** What other requests do between two statements of this one: they reserve and
    release on provider keys, and change the row of the virtual key. *)
Inductive OtherStatement : Type :=
| OtherAcquire (scope : key_scope) (required : RateLimitRequiredCapacity)
| OtherRelease (scope : key_scope) (required : RateLimitRequiredCapacity)
| OtherVirtualKey (key : VirtualKeyRow).

Section others.
Context {J : SerdeJson} {B : Jsonb J}.

(** A release of something that no other request holds does not happen; a
    statement that fails changes nothing. *)
Definition other_statement (rows : SharedRows) (statement : OtherStatement) : SharedRows :=
  let 'mkSharedRows keys virtual_key held := rows in
  match statement with
  | OtherAcquire scope required =>
      match execute_provider_key_rate_limit_reservation keys (execution_acquire scope required) with
      | Ok (keys, result) =>
          mkSharedRows keys virtual_key
            (if bool_decide (xe_status result = ExApplied) then (scope, required) :: held else held)
      | Err _ => rows
      end
  | OtherRelease scope required =>
      if bool_decide ((scope, required) ∈ held) then
        match execute_provider_key_rate_limit_reservation keys (execution_release scope required true) with
        | Ok (keys, _) => mkSharedRows keys virtual_key (give_back (scope, required) held)
        | Err _ => rows
        end
      else rows
  | OtherVirtualKey key => mkSharedRows keys key held
  end.

Definition other_wf (statement : OtherStatement) : Prop :=
  match statement with OtherAcquire _ required => required_wf required | _ => True end.

(** Between its statements the request meets what [others] says. *)
Definition others_run {Payload : Type} (env : RequestEnv (J := J) Payload)
    (others : nat → list OtherStatement) : Prop :=
  ∀ n, Forall other_wf (others n) ∧ ∀ rows, re_others Payload env n rows = foldl other_statement rows (others n).

Lemma give_back_split reservation held :
  reservation ∈ held → ∃ before after, held = before ++ reservation :: after ∧ give_back reservation held = before ++ after.
Proof.
  induction held as [|first held IH]; [by intros ?%elem_of_nil|]. intros Hin. cbn. case_bool_decide as Hfirst.
  - subst first. by exists [], held.
  - apply elem_of_cons in Hin as [?|Hin]; [congruence|]. destruct (IH Hin) as (before & after & -> & ->).
    by exists (first :: before), after.
Qed.

Lemma other_statement_steps own held rows statement :
  other_wf statement → held ≡ₚ own ++ sh_held_by_others rows →
  ∃ held', rtc db_step (sh_provider_keys rows, held) (sh_provider_keys (other_statement rows statement), held') ∧
    held' ≡ₚ own ++ sh_held_by_others (other_statement rows statement).
Proof.
  intros Hwf Hheld. destruct rows as [keys virtual_key theirs]. cbn in Hheld.
  destruct statement as [scope required|scope required|key]; cbn.
  - destruct (execute_provider_key_rate_limit_reservation _ _) as [[keys' result]|e] eqn:Hrun; [|by exists held].
    eexists. split; [by apply rtc_once; eapply db_step_acquire|]. cbn. case_bool_decide; [|done].
    rewrite Hheld. by apply Permutation_middle.
  - case_bool_decide as Hin; [|by exists held].
    destruct (execute_provider_key_rate_limit_reservation _ _) as [[keys' result]|e] eqn:Hrun; [|by exists held].
    destruct (give_back_split _ _ Hin) as (before & after & -> & Hback). cbn. rewrite Hback.
    assert ((scope, required) ∈ held) as (held1 & held2 & ->)%list_elem_of_split
      by (rewrite Hheld, !elem_of_app, elem_of_cons; auto).
    exists (held1 ++ held2). split; [by apply rtc_once; eapply db_step_release|].
    apply (Permutation_cons_inv (a := (scope, required))). rewrite Permutation_middle, Hheld. by solve_Permutation.
  - by exists held.
Qed.

Lemma other_statements_step own statements held rows :
  Forall other_wf statements → held ≡ₚ own ++ sh_held_by_others rows →
  ∃ held', rtc db_step (sh_provider_keys rows, held) (sh_provider_keys (foldl other_statement rows statements), held') ∧
    held' ≡ₚ own ++ sh_held_by_others (foldl other_statement rows statements).
Proof.
  revert held rows. induction statements as [|statement statements IH]; intros held rows Hwf Hheld; [by exists held|].
  apply Forall_cons in Hwf as [Hwf Hall]. destruct (other_statement_steps own held rows statement Hwf Hheld) as (held1 & Hrun & Hheld1).
  destruct (IH held1 _ Hall Hheld1) as (held2 & Hrun2 & Hheld2). exists held2. split; [by etrans|done].
Qed.
End others.

Section database.
Context {J : SerdeJson} {B : Jsonb J} {Payload : Type} (env : RequestEnv (J := J) Payload).
Context (tenant_id : Uuid) (rate_limit_policy : Value) (tpm_estimate : RateLimitTpmReservationEstimate).
Context (keys0 : list ProviderKeyRow) (held0 : list (key_scope * RateLimitRequiredCapacity)).
Context (Htokens : 0 <= te_required_tokens tpm_estimate).

Context (others : nat → list OtherStatement) (Hothers : others_run env others).

(** The state of the request is reached by steps that hold what its log says,
    beside what the others hold. *)
Definition on_database (s : RequestState) : Prop :=
  ∀ l, lifecycle (rs_effects s) = Some l →
    ∃ held, rtc db_step (keys0, held0) (sh_provider_keys (rs_rows s), held) ∧
      held ≡ₚ request_holds l (rs_effects s) ++ sh_held_by_others (rs_rows s).

Definition keeps {A} (m : Gateway A) : Prop := ∀ s, on_database s → on_database (m s).2.

Lemma keeps_ret {A} (x : A) : keeps (mret x).
Proof. by intros s Hs. Qed.

Lemma keeps_bind {A C} (m : Gateway A) (f : A → Gateway C) : keeps m → (∀ x, keeps (f x)) → keeps (m ≫= f).
Proof.
  intros Hm Hf s Hs. specialize (Hm s Hs). unfold mbind, gateway_bind. destruct (m s) as [x s1]. by apply Hf.
Qed.

Lemma keeps_ask {A} (answer : RequestEnv Payload → nat → A) : keeps (ask env answer).
Proof. by intros s Hs. Qed.

Lemma keeps_perform effect : is_key_reservation effect = false → keeps (perform effect).
Proof.
  intros Hother [rows effects] Hs l (l0 & Hl0 & Hstep)%lifecycle_snoc_inv. cbn in *.
  rewrite (holds_other effects effect l0 l) by done. by apply Hs.
Qed.

(** The steps of others before a statement. *)
Lemma keeps_others n rows effects l0 :
  on_database (mkRequestState rows effects) → lifecycle effects = Some l0 →
  ∃ held, rtc db_step (keys0, held0) (sh_provider_keys (re_others Payload env n rows), held) ∧
    held ≡ₚ request_holds l0 effects ++ sh_held_by_others (re_others Payload env n rows).
Proof.
  intros Hs Hl0. destruct (Hs l0 Hl0) as (held & Hrun & Hheld). cbn in Hrun, Hheld.
  destruct (Hothers n) as [Hwf Hstep]. rewrite Hstep.
  destruct (other_statements_step _ _ held rows Hwf Hheld) as (held' & Hsteps & Hheld'). exists held'. split; [by etrans|done].
Qed.

Lemma keeps_write (effect : bool → Effect) :
  (∀ written, is_key_reservation (effect written) = false) → keeps (write env effect).
Proof. intros Hother. apply keeps_bind; [apply keeps_ask|intros written; by apply keeps_perform]. Qed.

Lemma keeps_query {A} statement (effect : result DbError A → Effect) :
  (∀ outcome, is_key_reservation (effect outcome) = false) →
  (∀ rows rows' x, statement rows = Ok (rows', x) →
     sh_provider_keys rows' = sh_provider_keys rows ∧ sh_held_by_others rows' = sh_held_by_others rows) →
  keeps (query env statement effect).
Proof.
  intros Hother Hkeys [rows effects] Hs l (l0 & Hl0 & Hstep)%lifecycle_snoc_inv. cbn in *.
  destruct (keeps_others (length effects) _ _ _ Hs Hl0) as (held & Hrun).
  rewrite (holds_other effects _ l0 l) by done. exists held.
  destruct (re_connects Payload env (length effects)); [|done].
  destruct (statement _) as [[rows' x]|e] eqn:Hstatement; [|done]. by destruct (Hkeys _ _ _ Hstatement) as [-> ->].
Qed.

(** A statement that reserves or releases. *)
Lemma keeps_key_reservation input :
  (xi_operation input = DbAcquire → input = execution_acquire (xi_scope input) (xi_required input) ∧
     required_wf (xi_required input)) →
  keeps (execute_key_reservation env input).
Proof.
  intros Hinput [rows effects] Hs l (l0 & Hl0 & Hstep)%lifecycle_snoc_inv. cbn in *.
  destruct (keeps_others (length effects) _ _ _ Hs Hl0) as (held & Hrun & Hheld).
  set (rows1 := re_others Payload env (length effects) rows) in *.
  set (answer := if re_connects Payload env (length effects) then _ else _) in *.
  assert (match answer with
          | Ok (rows', result) => execute_provider_key_rate_limit_reservation (sh_provider_keys rows1) input
                                    = Ok (sh_provider_keys rows', result) ∧ sh_held_by_others rows' = sh_held_by_others rows1
          | Err e => True
          end) as Hanswer.
  { unfold answer. destruct (re_connects _ _ _); [|done].
    by destruct (execute_provider_key_rate_limit_reservation _ input) as [[keys result]|]. }
  clearbody answer. destruct l0 as [phase attempt key slot paid]. destruct phase as [| | |[]]; try done.
  unfold request_holds, lost_releases in *. rewrite foldl_app. cbn [foldl lost_release]. cbn in Hstep.
  destruct (xi_operation input) eqn:Hoperation.
  - destruct (Hinput eq_refl) as [Hacquire Hwf]. destruct attempt, key; simplify_eq/=.
    destruct answer as [[rows' result]|e]; [|by exists held]. destruct Hanswer as [Hanswer ->].
    rewrite Hacquire in Hanswer. eexists. split; [etrans; [exact Hrun|]; by apply rtc_once; eapply db_step_acquire|].
    cbn. case_bool_decide; cbn; [by constructor|done].
  - destruct (bool_decide _ && _) eqn:Hbool; [|done]. apply andb_true_iff in Hbool as [->%bool_decide_eq_true Hacquired].
    injection Hstep as <-. cbn in Hheld. destruct answer as [[rows' result]|e]; [|by exists held].
    destruct Hanswer as [Hanswer ->]. cbn.
    assert ((xi_scope input, xi_required input) ∈ held) as (held1 & held2 & ->)%list_elem_of_split
      by (rewrite Hheld; by left).
    exists (held1 ++ held2). split.
    + etrans; [exact Hrun|]. apply rtc_once. apply db_step_release with (res := result).
      destruct input; simplify_eq/=. exact Hanswer.
    + apply (Permutation_cons_inv (a := (xi_scope input, xi_required input))). by rewrite Permutation_middle.
Qed.

#[local] Ltac keeps_step :=
  first
    [ done
    | apply keeps_ret
    | apply keeps_ask
    | apply keeps_perform; done
    | apply keeps_write; done
    | apply keeps_bind; [|intros ?]
    | apply keeps_query; [done|]
    | case_match ].

#[local] Ltac keeps_all := repeat keeps_step.

Lemma keeps_release_virtual_key slot : keeps (release_virtual_key_concurrency_if_needed env slot).
Proof.
  unfold release_virtual_key_concurrency_if_needed. keeps_all.
  intros rows rows' x. by destruct (release_virtual_key_concurrency_slot _); intros [= <- <-].
Qed.

Lemma keeps_acquire_virtual_key dimension statement : keeps (acquire_virtual_key env dimension statement).
Proof.
  unfold acquire_virtual_key. keeps_all. intros rows rows' y. by destruct (statement _ _) as [[]|]; intros [= <- <-].
Qed.

Lemma keeps_finish_request_with_error summary : keeps (finish_request_with_error env summary).
Proof. unfold finish_request_with_error, release_paid_hot_path_reserve_if_needed. keeps_all. Qed.

Lemma keeps_pre_authorize route : keeps (pre_authorize_before_provider_attempt env route).
Proof. unfold pre_authorize_before_provider_attempt. keeps_all. Qed.

Lemma keeps_release_reservation route reservation :
  keeps (release_gateway_rate_limit_reservation_if_needed env tenant_id route reservation).
Proof. unfold release_gateway_rate_limit_reservation_if_needed. keeps_all. by apply keeps_key_reservation. Qed.

Lemma keeps_acquire_reservation route reservation :
  required_wf (ra_required_capacity reservation) →
  keeps (acquire_gateway_rate_limit_reservation_for_attempt env tenant_id route reservation).
Proof.
  intros Hwf. unfold acquire_gateway_rate_limit_reservation_for_attempt.
  keeps_all. by apply keeps_key_reservation.
Qed.

Lemma keeps_return_error slot route reservation finish_attempt summary response :
  keeps finish_attempt → keeps (return_error env tenant_id slot route reservation finish_attempt summary response).
Proof.
  intros Hfinish. unfold return_error.
  apply keeps_bind; [apply keeps_release_reservation|intros ?]. apply keeps_bind; [done|intros ?].
  apply keeps_bind; [apply keeps_finish_request_with_error|intros ?].
  apply keeps_bind; [apply keeps_release_virtual_key|intros ?]. apply keeps_ret.
Qed.

Lemma keeps_continue route attempt_no events rejections reservation next finish_attempt summary :
  (∀ reason, keeps (finish_attempt reason)) →
  keeps (continue_with_next_route env (Payload := Payload) tenant_id route attempt_no events rejections reservation
           next finish_attempt summary).
Proof.
  intros Hfinish. unfold continue_with_next_route.
  apply keeps_bind; [apply keeps_release_reservation|intros ?]. apply keeps_bind; [done|intros ?]. apply keeps_ret.
Qed.

Lemma keeps_return_success slot route attempt_no events attempt_id payload :
  keeps (return_success env slot route attempt_no events attempt_id payload).
Proof.
  unfold return_success, finish_provider_attempt_success, finish_request_success, settle_request_ledger.
  do 4 (apply keeps_bind; [keeps_all|intros ?]). apply keeps_bind; [keeps_all|intros ?].
  apply keeps_bind; [apply keeps_release_virtual_key|intros ?]. apply keeps_ret.
Qed.

#[local] Ltac keeps_attempt :=
  repeat first
    [ done
    | apply keeps_return_success
    | apply keeps_return_error
    | apply keeps_continue; intros ?
    | apply keeps_bind; [apply keeps_ask|intros ?]
    | case_match
    | progress keeps_all ].

Lemma keeps_gemini_attempt slot route next attempt_no events rejections reservation attempt_id :
  keeps (gemini_attempt env tenant_id slot route next attempt_no events rejections reservation attempt_id).
Proof.
  unfold gemini_attempt, gemini_error_attempt, gateway_error_attempt,
    finish_provider_attempt_with_gemini_adapter_error_and_fallback, finish_provider_attempt_with_error_and_fallback,
    update_provider_key_runtime_status.
  keeps_attempt.
Qed.

Lemma keeps_openai_attempt slot route next attempt_no events rejections reservation attempt_id :
  keeps (openai_attempt env tenant_id slot route next attempt_no events rejections reservation attempt_id).
Proof.
  unfold openai_attempt, openai_error_attempt, gateway_error_attempt,
    finish_provider_attempt_with_adapter_error_and_fallback, finish_provider_attempt_with_error_and_fallback,
    update_provider_key_runtime_status.
  keeps_attempt.
Qed.

Lemma request_capacity_wf : required_wf (required_capacity tpm_estimate).
Proof. unfold required_wf, required_capacity, from_tpm_estimate, required_tokens_i64. cbn. width_lia. Qed.

Lemma keeps_provider_attempt slot route next attempt_no events rejections :
  keeps (provider_attempt env tenant_id tpm_estimate slot route next attempt_no events rejections).
Proof.
  unfold provider_attempt. apply keeps_bind; [apply keeps_pre_authorize|intros [response|]].
  { apply keeps_bind; [apply keeps_release_virtual_key|intros ?]. apply keeps_ret. }
  apply keeps_bind; [apply keeps_acquire_reservation, request_capacity_wf|intros [[response|] reservation]].
  { apply keeps_bind; [apply keeps_release_virtual_key|intros ?]. apply keeps_ret. }
  case_match; [keeps_all|]. apply keeps_bind; [apply keeps_ask|intros outcome].
  apply keeps_bind; [by apply keeps_perform|intros ?].
  destruct outcome; [case_match; [apply keeps_gemini_attempt|apply keeps_openai_attempt]|].
  apply keeps_return_error, keeps_ret.
Qed.

Lemma keeps_attempt_loop slot routes index events rejections :
  keeps (attempt_loop env tenant_id tpm_estimate slot index routes events rejections).
Proof.
  revert index events rejections. induction routes as [|route routes IH]; intros; [apply keeps_ret|].
  apply keeps_bind; [apply keeps_provider_attempt|]. intros []; [apply IH|apply keeps_ret..].
Qed.

Lemma keeps_virtual_key_guard slot dimension operation statement :
  keeps (virtual_key_guard env slot dimension operation statement).
Proof.
  apply keeps_bind; [apply keeps_acquire_virtual_key|]. intros [acquire|e].
  - case_match; [apply keeps_ret|]. apply keeps_bind; [by apply keeps_perform|intros ?].
    apply keeps_bind; [apply keeps_finish_request_with_error|intros ?].
    apply keeps_bind; [apply keeps_release_virtual_key|intros ?]. apply keeps_ret.
  - apply keeps_bind; [apply keeps_finish_request_with_error|intros ?].
    apply keeps_bind; [apply keeps_release_virtual_key|intros ?]. apply keeps_ret.
Qed.

Lemma keeps_chat_completions selected_route other_routes :
  keeps (chat_completions env tenant_id rate_limit_policy tpm_estimate selected_route other_routes).
Proof.
  unfold chat_completions, optional_guard. case_match; [|keeps_all].
  apply keeps_bind; [by apply keeps_perform|intros _]. apply keeps_bind; [apply keeps_ask|intros beta].
  apply keeps_bind; [case_match; [apply keeps_pre_authorize|apply keeps_ret]|intros [|]; [apply keeps_ret|]].
  do 3 (apply keeps_bind; [case_match; [apply keeps_virtual_key_guard|apply keeps_ret]|intros [|]; [apply keeps_ret|]]).
  apply keeps_bind; [by apply keeps_perform|intros _].
  apply keeps_bind; [apply keeps_attempt_loop|intros [|[]]; [apply keeps_ret|]].
  apply keeps_bind; [by apply keeps_perform|intros _].
  apply keeps_bind; [apply keeps_finish_request_with_error|intros _].
  apply keeps_bind; [apply keeps_release_virtual_key|intros ?]. apply keeps_ret.
Qed.
End database.

(** The tail of a success sends nothing on provider keys. *)
Lemma success_keeps_reservation {J : SerdeJson} {B : Jsonb J} {Payload : Type} (env : RequestEnv Payload)
    slot route attempt_no events attempt_id (payload : Payload) s :
  ∃ sent, rs_effects (return_success env slot route attempt_no events attempt_id payload s).2 = rs_effects s ++ sent ∧
    Forall (λ effect, is_key_reservation effect = false) sent.
Proof.
  unfold return_success, finish_provider_attempt_success, finish_request_success, settle_request_ledger,
    release_virtual_key_concurrency_if_needed, write, query, perform, ask, mbind, gateway_bind, mret, gateway_ret. cbn.
  destruct (re_usage Payload env payload) as [[] []]; destruct (re_final_cost Payload env _) as [cost|];
    try (destruct (settle_ledger_amount cost)); destruct slot; cbn; rewrite <-!app_assoc; eexists;
    (split; [reflexivity|by repeat constructor]).
Qed.

(** C24: a request beside others on the table of provider keys. Whatever other
    requests reserve and release between its statements, as long as each releases
    only what other requests hold, the statements of all of them are steps of the
    reservation machine, so that the limits of [database_refines_planner] hold
    across the gateway. At its end the reservations in force are the ones that
    the others hold, the ones whose release failed and, only if it succeeded, the
    one of the attempt that succeeded: the code that ends a success sends no
    statement on provider keys. *)
Theorem request_runs_on_database {J : SerdeJson} {B : Jsonb J} {Payload : Type} (env : RequestEnv Payload)
    (tenant_id : Uuid) (rate_limit_policy : Value) (tpm_estimate : RateLimitTpmReservationEstimate)
    (selected_route : ResolvedChatRoute) (other_routes : list ResolvedChatRoute) (rows : SharedRows)
    (others : nat → list OtherStatement)
    (Htokens : 0 <= te_required_tokens tpm_estimate) (Hothers : others_run env others) :
  let '(response, s) :=
    chat_completions env tenant_id rate_limit_policy tpm_estimate selected_route other_routes
      (mkRequestState rows []) in
  (∃ l held, lifecycle (rs_effects s) = Some l ∧
    rtc db_step (sh_provider_keys rows, sh_held_by_others rows) (sh_provider_keys (rs_rows s), held) ∧
    held ≡ₚ option_list (lc_key l) ++ lost_releases (rs_effects s) ++ sh_held_by_others (rs_rows s) ∧
    (response_summary response ≠ None → lc_key l = None)) ∧
  ∀ slot route attempt_no events attempt_id (payload : Payload) s,
    ∃ sent, rs_effects (return_success env slot route attempt_no events attempt_id payload s).2 = rs_effects s ++ sent ∧
      Forall (λ effect, is_key_reservation effect = false) sent.
Proof.
  destruct (lc_chat_completions env tenant_id rate_limit_policy tpm_estimate selected_route other_routes
    (mkRequestState rows []) eq_refl) as (l & Hl & Hclosed).
  assert (on_database (sh_provider_keys rows) (sh_held_by_others rows) (mkRequestState rows [])) as Hstart.
  { intros l0 [= <-]. by exists (sh_held_by_others rows). }
  apply (keeps_chat_completions env tenant_id rate_limit_policy tpm_estimate _ _ Htokens others Hothers
    selected_route other_routes) in Hstart.
  destruct (chat_completions _ _ _ _ _ _ _) as [response s]. cbn in *.
  split; [|intros; apply success_keeps_reservation].
  destruct (Hstart l Hl) as (held & Hrun & Hheld). exists l, held. split_and!; [done..| |].
  - unfold request_holds in Hheld. by rewrite <-app_assoc in Hheld.
  - intros Hsummary. destruct (re_create_request Payload env); [by apply Hclosed|by destruct Hclosed as [_ ->]].
Qed.

(** ** Examples *)

#[local] Existing Instance json_model.
#[local] Existing Instance jsonb_model.

Definition sample_route (channel_id provider_key_id : Uuid) : ResolvedChatRoute :=
  mkResolvedChatRoute 5 channel_id provider_key_id "openai_compatible" "gpt" true (Some 10) (Some 1000) (Some 2)
    (sample_window 4 900 1).

Definition sample_estimate : RateLimitTpmReservationEstimate := estimate_tpm_reservation
  (mkRateLimitTpmEstimateInput (Some 20) None (Some 40) None 1).

(** Another request gives its reservation back meanwhile. *)
Definition sample_others : nat → list OtherStatement := λ _, [OtherRelease sample_scope sample_required].

(** The upstream answers the second attempt only. *)
Definition sample_env (connects : nat → bool) : RequestEnv string := {|
  re_others := λ n rows, foldl other_statement rows (sample_others n);
  re_connects := connects;
  re_minute_bucket := λ _, 10;
  re_create_request := Ok tt;
  re_paid_hot_path_beta := λ _, false;
  re_pre_authorize := λ _, None;
  re_create_attempt := λ n, Ok (Z.of_nat n);
  re_gemini_request := λ _, Ok tt;
  re_open_provider_key := λ _, Ok tt;
  re_native_http_client := λ _, Ok tt;
  re_gemini_send := λ _, Ok "hello";
  re_openai_client := λ _, Ok tt;
  re_openai_send := λ n, if (n <? 8)%nat then Err UpstreamTimeout else Ok "hello";
  re_usage := λ _, (Some 20, Some 15);
  re_final_cost := λ _, Some "0.25";
|}.

Definition sample_rows : SharedRows :=
  mkSharedRows [sample_row 4 900 1] fresh_virtual_key [(sample_scope, sample_required)].

#[local] Abbreviation sample_run_end connects :=
  (chat_completions (sample_env connects) 1 (JField "concurrency_limit" (JNum 2) JObj) sample_estimate
    (sample_route 3 7) [sample_route 3 7] (mkRequestState sample_rows [])).

Lemma sample_run_lifecycle :
  lifecycle (rs_effects (sample_run_end (λ _, true)).2)
    = Some (mkLifecycle (Finished None) None (Some (sample_scope, sample_required)) false false) ∧
  lost_releases (rs_effects (sample_run_end (λ _, true)).2) = [] ∧
  sh_held_by_others (rs_rows (sample_run_end (λ _, true)).2) = [].
Proof. vm_compute. done. Qed.

(** Both requests start with one reservation in force, the other's, and end with
    one, the one of the request that succeeded. *)
Lemma request_runs_on_database_witness :
  ∃ keys held, rtc db_step ([sample_row 4 900 1], [(sample_scope, sample_required)]) (keys, held) ∧
    held ≡ₚ [(sample_scope, sample_required)].
Proof.
  pose proof sample_run_lifecycle as (Hlife & Hlost & Htheirs).
  revert Hlife Hlost Htheirs.
  pose proof (request_runs_on_database (sample_env (λ _, true)) 1 (JField "concurrency_limit" (JNum 2) JObj) sample_estimate
    (sample_route 3 7) [sample_route 3 7] sample_rows sample_others) as Hrun.
  revert Hrun. destruct (chat_completions _ _ _ _ _ _ _) as [response s]. intros Hrun Hlife Hlost Htheirs.
  destruct Hrun as [(l & held & Hl & Hrun & Hheld & _) _]; [vm_compute; discriminate| |].
  { intros n. split; [by repeat constructor|done]. }
  cbn [snd] in Hlife, Hlost, Htheirs. rewrite Hlife in Hl. injection Hl as <-. rewrite Hlost, Htheirs in Hheld.
  eexists _, held. split; [exact Hrun|exact Hheld].
Defined.

(** The connection is lost before the first attempt gives its reservation back. *)
Lemma sample_lost_run :
  response_summary (sample_run_end (λ n, (n <? 6)%nat)).1 ≠ None ∧
  lost_releases (rs_effects (sample_run_end (λ n, (n <? 6)%nat)).2) = [(sample_scope, sample_required)].
Proof. vm_compute. done. Qed.

