(* ===== verification/LoginLimit.v ===== *)
(** The limit on failed logins: the window of crates/auth/src/login_rate_limit.rs
    and the two stores of apps/control-plane/src/auth_login_rate_limit.rs, a map
    in memory and a Redis server that is spoken to with two Lua scripts. The
    window bounds the number of failed logins, and the Redis store answers as the
    map does. *)

From stdpp Require Import gmap.
From S2P Require Export Ledger.

#[local] Open Scope string_scope.
#[local] Open Scope list_scope.
#[local] Open Scope Z_scope.

(** ** The window *)

Record LoginFailureRateLimitPolicy : Type := mkLoginPolicy {
  max_failures : Z;
  window_seconds : Z;
}.

Definition sanitized (policy : LoginFailureRateLimitPolicy) : LoginFailureRateLimitPolicy := {|
  max_failures := Z.max (max_failures policy) 1;
  window_seconds := Z.max (window_seconds policy) 1;
|}.

Record LoginFailureRateLimitState : Type := mkLoginState {
  failure_count : Z;
  window_started_at : Z;
}.

Record LoginFailureRateLimitDecision : Type := mkLoginDecision {
  is_limited : bool;
  retry_after_seconds : option Z;
  ld_failure_count : Z;
}.

Definition active_login_failure_state (state : option LoginFailureRateLimitState) (now : Z)
    (policy : LoginFailureRateLimitPolicy) : option LoginFailureRateLimitState :=
  state ← state;
  if window_seconds policy <=? saturating_sub_u64 now (window_started_at state) then None else Some state.

Definition evaluate_login_failure_rate_limit (state : option LoginFailureRateLimitState) (now : Z)
    (policy : LoginFailureRateLimitPolicy) : LoginFailureRateLimitDecision :=
  let policy := sanitized policy in
  match active_login_failure_state state now policy with
  | None => mkLoginDecision false None 0
  | Some state =>
      if max_failures policy <=? failure_count state then
        mkLoginDecision true
          (Some (Z.max (saturating_sub_u64 (saturating_add_u64 (window_started_at state) (window_seconds policy)) now)
                   1))
          (failure_count state)
      else mkLoginDecision false None (failure_count state)
  end.

Definition record_login_failure (state : option LoginFailureRateLimitState) (now : Z)
    (policy : LoginFailureRateLimitPolicy) : LoginFailureRateLimitState :=
  match active_login_failure_state state now (sanitized policy) with
  | Some state => mkLoginState (Z.min u32_max (failure_count state + 1)) (window_started_at state)
  | None => mkLoginState 1 now
  end.

(** ** Keys *)

(** [(n as u64).to_be_bytes()]. *)
Definition to_be_bytes_u64 (n : Z) : bytes :=
  (λ i, byte_of (n / 256 ^ i)) <$> [7; 6; 5; 4; 3; 2; 1; 0].

(** What the hasher is fed. *)
Definition fingerprint_input (parts : list string) : bytes :=
  parts ≫= λ part, to_be_bytes_u64 (wrap_u64 (Z.of_nat (str_len part))) ++ as_bytes part.

Definition login_rate_limit_fingerprint `{Sha256} (parts : list string) : string :=
  sha256_hex (fingerprint_input parts).

Definition LOGIN_IDENTIFIER_MAX_CHARS : nat := 256.

(** [chars().take(n)] on the bytes of a string. *)
Fixpoint take_chars (n : nat) (l : bytes) : bytes :=
  match l with
  | [] => []
  | b :: l' =>
      if is_continuation (byte_val b) then b :: take_chars n l'
      else match n with O => [] | S n' => b :: take_chars n' l' end
  end.

Definition normalize_login_identifier (username : string) : string :=
  let normalized :=
    to_ascii_lowercase (from_bytes (take_chars LOGIN_IDENTIFIER_MAX_CHARS (as_bytes (str_trim username)))) in
  if bool_decide (normalized = "") then "<empty>" else normalized.

Record AdminLoginFailureRateLimitKey : Type := mkLoginKey {
  lk_tenant_id : Uuid;
  login_identifier_fingerprint : string;
}.

#[export] Instance login_key_eq_dec : EqDecision AdminLoginFailureRateLimitKey.
Proof. solve_decision. Defined.

#[export] Instance login_key_countable : Countable AdminLoginFailureRateLimitKey.
Proof.
  refine (inj_countable' (λ key, (lk_tenant_id key, login_identifier_fingerprint key)) (λ p, mkLoginKey p.1 p.2) _).
  by intros [].
Defined.

Definition admin_login_failure_rate_limit_key `{Sha256} (tenant_id : Uuid) (username : string)
    : AdminLoginFailureRateLimitKey :=
  mkLoginKey tenant_id (login_rate_limit_fingerprint [normalize_login_identifier username]).

(** ** Stores *)

(** The trait [LoginFailureRateLimitStore]. *)
Class LoginFailureRateLimitStore (S : Type) : Type := {
  check : AdminLoginFailureRateLimitKey → Z → LoginFailureRateLimitPolicy → S → LoginFailureRateLimitDecision * S;
  record_failure :
    AdminLoginFailureRateLimitKey → Z → LoginFailureRateLimitPolicy → S → LoginFailureRateLimitDecision * S;
  clear : AdminLoginFailureRateLimitKey → S → S;
}.

(** *** In memory *)

(** The lock makes each call atomic. *)
Record InMemoryLoginFailureRateLimitStore : Type := mkInMemoryStore {
  failures : gmap AdminLoginFailureRateLimitKey LoginFailureRateLimitState;
}.

#[export] Instance in_memory_store : LoginFailureRateLimitStore InMemoryLoginFailureRateLimitStore := {
  check key now policy store :=
    let decision := evaluate_login_failure_rate_limit (failures store !! key) now policy in
    (decision, if ld_failure_count decision =? 0 then mkInMemoryStore (delete key (failures store)) else store);
  record_failure key now policy store :=
    let state := record_login_failure (failures store !! key) now policy in
    (evaluate_login_failure_rate_limit (Some state) now policy, mkInMemoryStore (<[key := state]> (failures store)));
  clear key store := mkInMemoryStore (delete key (failures store));
}.

(** *** The protocol of Redis *)

Inductive RedisRateLimitError : Type := Unavailable | InvalidResponse.

#[warnings="-register-all"]
Inductive RedisResponse : Type :=
| Simple (value : string)
| Error
| Integer (value : Z)
| Bulk (body : option bytes)
| Array (items : list RedisResponse).

Definition crlf : bytes := ["013"%char; "010"%char].

Definition encode_redis_command (parts : list bytes) : bytes :=
  (as_bytes "*" ++ display_u128 (Z.of_nat (length parts)) ++ crlf)
  ++ (parts ≫= λ part, (as_bytes "$" ++ display_u128 (Z.of_nat (length part)) ++ crlf) ++ part ++ crlf).

(** [BufRead::read_line]: up to and including the line feed, or to the end. *)
Fixpoint read_line (l : bytes) : bytes * bytes :=
  match l with
  | [] => ([], [])
  | b :: l' =>
      if bool_decide (b = "010"%char) then ([b], l')
      else let '(line, rest) := read_line l' in (b :: line, rest)
  end.

(** Whether a text is UTF-8, as [read_line] demands. *)
Definition is_utf8 (l : bytes) : bool := bool_decide (from_utf8_lossy l = l).

Definition read_redis_line (reader : bytes) : result RedisRateLimitError (bytes * bytes) :=
  let '(line, reader) := read_line reader in
  fail_if negb (is_utf8 line) with Unavailable ;;
  match strip_suffix crlf line with
  | None => Err InvalidResponse
  | Some line => Ok (line, reader)
  end.

Definition read_redis_number (reader : bytes) : result RedisRateLimitError (Z * bytes) :=
  '(line, reader) ← read_redis_line reader;
  n ← ok_or (parse_i64 (from_bytes line)) InvalidResponse;
  Ok (n, reader).

(** [read_exact] of [n] bytes. *)
Definition read_exact (n : nat) (reader : bytes) : result RedisRateLimitError (bytes * bytes) :=
  fail_if (length reader <? n)%nat with Unavailable ;;
  Ok (take n reader, drop n reader).

(** The loop over the items of an array. *)
Fixpoint read_items (read : bytes → result RedisRateLimitError (RedisResponse * bytes)) (n : nat)
    (items : list RedisResponse) (reader : bytes) : result RedisRateLimitError (RedisResponse * bytes) :=
  match n with
  | O => Ok (Array items, reader)
  | S n' => '(item, reader) ← read reader; read_items read n' (items ++ [item]) reader
  end.

(** Each response reads at least one byte, so the length of the input is enough
    fuel for the nesting; the error without fuel is the one of an empty input. An
    announced length beyond the memory, which aborts the process, is read as one
    beyond the input. *)
Fixpoint read_redis_response (fuel : nat) (reader : bytes) : result RedisRateLimitError (RedisResponse * bytes) :=
  match fuel, reader with
  | O, _ | _, [] => Err Unavailable
  | S fuel', prefix :: reader =>
      if bool_decide (prefix = "+"%char) then
        '(line, reader) ← read_redis_line reader; Ok (Simple (from_bytes line), reader)
      else if bool_decide (prefix = "-"%char) then
        '(_, reader) ← read_redis_line reader; Ok (Error, reader)
      else if bool_decide (prefix = ":"%char) then
        '(n, reader) ← read_redis_number reader; Ok (Integer n, reader)
      else if bool_decide (prefix = "$"%char) then
        '(len, reader) ← read_redis_number reader;
        if len <? 0 then Ok (Bulk None, reader)
        else
          '(body, reader) ← read_exact (Z.to_nat len + 2) reader;
          match strip_suffix crlf body with
          | None => Err InvalidResponse
          | Some body => Ok (Bulk (Some body), reader)
          end
      else if bool_decide (prefix = "*"%char) then
        '(len, reader) ← read_redis_number reader;
        if len <? 0 then Ok (Array [], reader) else read_items (read_redis_response fuel') (Z.to_nat len) [] reader
      else Err InvalidResponse
  end.

Definition redis_integer (response : RedisResponse) : result RedisRateLimitError Z :=
  match response with Integer value => Ok value | _ => Err InvalidResponse end.

Definition redis_decision_from_response (response : RedisResponse)
    : result RedisRateLimitError LoginFailureRateLimitDecision :=
  match response with
  | Array [limited; count; retry_after] =>
      limited ← redis_integer limited;
      let limited := limited =? 1 in
      count ← redis_integer count;
      count ← ok_or (checked 0 u32_max count) InvalidResponse;
      retry_after ← redis_integer retry_after;
      retry_after ← ok_or (checked 0 u64_max retry_after) InvalidResponse;
      Ok (mkLoginDecision limited (if limited then Some (Z.max retry_after 1) else None) count)
  | _ => Err InvalidResponse
  end.

(** *** The scripts *)

(** What the scripts use of Lua: texts and numbers. Its numbers are doubles; the
    integers they stand for here are small enough to be exact. *)
Class Lua : Type := {
  tonumber : bytes → option Z;
  tostring : Z → bytes;
}.

Definition lua_exact (n : Z) : Prop := 0 <= n < 10 ^ 14.

Class LuaLaws (L : Lua) : Prop := {
  tonumber_tostring n : lua_exact n → tonumber (tostring n) = Some n;
  tonumber_decimal n : lua_exact n → tonumber (display_u128 n) = Some n;
  tostring_no_colon n : lua_exact n → ":"%char ∉ tostring n;
}.

(** A value of the server and when it expires. *)
Record RedisEntry : Type := mkRedisEntry { rv_value : bytes; rv_expires_at : Z }.

Abbreviation RedisData := (gmap string RedisEntry).

(** [GET] at a time of the server's clock. *)
Definition redis_get (server_now : Z) (key : string) (data : RedisData) : option bytes :=
  entry ← data !! key;
  if server_now <? rv_expires_at entry then Some (rv_value entry) else None.

Definition reply (limited count retry_after : Z) : RedisResponse :=
  Array [Integer limited; Integer count; Integer retry_after].

Section redis.
Context {L : Lua}.

Definition REDIS_CHECK_SCRIPT (server_now : Z) (key : string) (now max_failures window_seconds : Z) (data : RedisData)
    : RedisResponse * RedisData :=
  let deleted := (reply 0 0 0, delete key data) in
  match redis_get server_now key data with
  | None => (reply 0 0 0, data)
  | Some raw =>
      match split_once ":"%char raw with
      | None => deleted
      | Some (before, after) =>
          match tonumber before, tonumber after with
          | Some failure_count, Some window_started_at =>
              if window_seconds <=? now - window_started_at then deleted
              else if max_failures <=? failure_count then
                (reply 1 failure_count (Z.max (window_started_at + window_seconds - now) 1), data)
              else (reply 0 failure_count 0, data)
          | _, _ => deleted
          end
      end
  end.

Definition REDIS_RECORD_FAILURE_SCRIPT (server_now : Z) (key : string) (now max_failures window_seconds : Z) (data : RedisData)
    : RedisResponse * RedisData :=
  let '(failure_count, window_started_at) :=
    match raw ← redis_get server_now key data; split_once ":"%char raw with
    | Some (before, after) =>
        match tonumber before, tonumber after with
        | Some stored_count, Some stored_started_at =>
            if now - stored_started_at <? window_seconds then (stored_count + 1, stored_started_at) else (1, now)
        | _, _ => (1, now)
        end
    | None => (1, now)
    end in
  let value := tostring failure_count ++ as_bytes ":" ++ tostring window_started_at in
  let data := <[key := mkRedisEntry value (server_now + window_seconds)]> data in
  if max_failures <=? failure_count then
    (reply 1 failure_count (Z.max (window_started_at + window_seconds - now) 1), data)
  else (reply 0 failure_count 0, data).

(** *** The store over Redis *)

Record RedisLoginFailureRateLimitStore : Type := mkRedisStore {
  rd_data : RedisData;
  rd_commands : nat;
}.

Definition key_character (b : ascii) : bool :=
  is_ascii_digit b || is_ascii_uppercase b || is_ascii_lowercase b
  || bool_decide (b ∈ [":"; "-"; "_"; "."]%char).

Definition DEFAULT_REDIS_KEY_PREFIX : string := "ai-gateway:control-plane:admin-login-failures".

(** Character by character: the bytes that continue a character are skipped. *)
Definition sanitized_redis_key_prefix (prefix : string) : string :=
  let characters := List.filter (λ b, negb (is_continuation (byte_val b))) (as_bytes (str_trim prefix)) in
  let sanitized := from_bytes (take 160 ((λ b, if key_character b then b else "_"%char) <$> characters)) in
  if bool_decide (sanitized = "") then DEFAULT_REDIS_KEY_PREFIX else sanitized.

(** [server_time] is what the clock of the server shows at a time of the caller. *)
Context {U : UuidDisplay} (connection : nat → Connection) (server_time : Z → Z) (key_prefix : string).

Definition redis_key (key : AdminLoginFailureRateLimitKey) : string :=
  sanitized_redis_key_prefix key_prefix +:+ ":tenant:" +:+ uuid_to_string (lk_tenant_id key) +:+ ":login:"
  +:+ login_identifier_fingerprint key.

Definition redis_command (command : RedisData → RedisResponse * RedisData) (store : RedisLoginFailureRateLimitStore)
    : result RedisRateLimitError RedisResponse * RedisLoginFailureRateLimitStore :=
  let '(response, data) := command (rd_data store) in
  let n := rd_commands store in
  match connection n with
  | Answered => (Ok response, mkRedisStore data (S n))
  | AnswerLost => (Err Unavailable, mkRedisStore data (S n))
  | NotReached => (Err Unavailable, mkRedisStore (rd_data store) (S n))
  end.

(** The numbers go to the script as text; computing with what is not a number
    raises an error. *)
Definition eval_decision_script (script : Z → string → Z → Z → Z → RedisData → RedisResponse * RedisData)
    (key : AdminLoginFailureRateLimitKey) (now : Z) (policy : LoginFailureRateLimitPolicy)
    (store : RedisLoginFailureRateLimitStore)
    : result RedisRateLimitError LoginFailureRateLimitDecision * RedisLoginFailureRateLimitStore :=
  let policy := sanitized policy in
  let server_now := server_time now in
  let '(response, store) :=
    redis_command
      (λ data,
        match tonumber (display_u128 now), tonumber (display_u128 (max_failures policy)),
              tonumber (display_u128 (window_seconds policy)) with
        | Some now, Some max_failures, Some window_seconds =>
            script server_now (redis_key key) now max_failures window_seconds data
        | _, _, _ => (Error, data)
        end) store in
  (response ← response; redis_decision_from_response response, store).

Definition fail_closed_decision (policy : LoginFailureRateLimitPolicy) : LoginFailureRateLimitDecision :=
  let policy := sanitized policy in
  mkLoginDecision true (Some (Z.max (window_seconds policy) 1)) (Z.max (max_failures policy) 1).

Definition redis_decision (script : Z → string → Z → Z → Z → RedisData → RedisResponse * RedisData)
    (key : AdminLoginFailureRateLimitKey) (now : Z) (policy : LoginFailureRateLimitPolicy)
    (store : RedisLoginFailureRateLimitStore) : LoginFailureRateLimitDecision * RedisLoginFailureRateLimitStore :=
  let '(outcome, store) := eval_decision_script script key now policy store in
  (match outcome with Ok decision => decision | Err _ => fail_closed_decision policy end, store).

#[export] Instance redis_store : LoginFailureRateLimitStore RedisLoginFailureRateLimitStore := {
  check := redis_decision REDIS_CHECK_SCRIPT;
  record_failure := redis_decision REDIS_RECORD_FAILURE_SCRIPT;
  clear key store := (redis_command (λ data, (Integer 1, delete (redis_key key) data)) store).2;
}.
End redis.

(** ** Logging in (apps/control-plane/src/auth.rs) *)

(** What the repository and the password hash answer: the stored hash of the
    active user, if there is one, whether it matches, and the new session. *)
Record LoginEnv : Type := mkLoginEnv {
  le_user : result unit (option (option string));
  le_verify : string → result unit bool;
  le_session : result unit unit;
}.

Inductive LoginOutcome : Type := LoginRateLimited (retry_after : Z) | InvalidCredentials | RepositoryError | LoggedIn.

Section login.
Context {S : Type} `{LoginFailureRateLimitStore S} `{Sha256} (default_tenant_id : Uuid).
Context (policy : LoginFailureRateLimitPolicy).

Definition record_login_failure_error (key : AdminLoginFailureRateLimitKey) (now : Z) (store : S) : LoginOutcome * S :=
  let '(decision, store) := record_failure key now policy store in
  (if is_limited decision then LoginRateLimited (default 1 (retry_after_seconds decision)) else InvalidCredentials,
   store).

Definition login (now : Z) (email : string) (password_empty : bool) (env : LoginEnv) (store : S) : LoginOutcome * S :=
  let email := str_trim email in
  let key := admin_login_failure_rate_limit_key default_tenant_id email in
  let '(decision, store) := check key now policy store in
  if is_limited decision then (LoginRateLimited (default 1 (retry_after_seconds decision)), store)
  else if bool_decide (email = "") || password_empty then record_login_failure_error key now store
  else
    match le_user env with
    | Err _ => (RepositoryError, store)
    | Ok (Some (Some password_hash)) =>
        match le_verify env password_hash with
        | Ok true =>
            match le_session env with
            | Err _ => (RepositoryError, store)
            | Ok _ => (LoggedIn, clear key store)
            end
        | Ok false | Err _ => record_login_failure_error key now store
        end
    | Ok _ => record_login_failure_error key now store
    end.
End login.

(** ** The number of failures *)

(** Failures that got past the limit, each with the start of its window. *)
Definition in_interval (t width : Z) (failure : Z * Z) : bool := (t <=? failure.1) && (failure.1 <? t + width).

Definition of_window (start : Z) (failure : Z * Z) : bool := failure.2 =? start.

Record windows_ok (width limit : Z) (failures : list (Z * Z)) : Prop := {
  wo_inside failure : failure ∈ failures → failure.2 <= failure.1 < failure.2 + width;
  wo_first failure : failure ∈ failures → (failure.2, failure.2) ∈ failures;
  wo_count start : Z.of_nat (length (List.filter (of_window start) failures)) <= limit;
  wo_apart f g : f ∈ failures → g ∈ failures → f.2 = g.2 ∨ f.2 + width <= g.2 ∨ g.2 + width <= f.2;
}.

(** A window that began before the interval has its first failure outside it. *)
Lemma window_share width limit failures t f :
  windows_ok width limit failures → f ∈ failures →
  Z.of_nat (length (List.filter (of_window f.2) (List.filter (in_interval t width) failures)))
  <= if f.2 <? t then limit - 1 else limit.
Proof.
  intros [Hin Hfirst Hcount Hapart] Hf. specialize (Hcount f.2). rewrite filter_comm.
  rewrite (filter_split (in_interval t width)) in Hcount. destruct (Z.ltb_spec f.2 t); [|lia].
  assert ((f.2, f.2) ∈ List.filter (λ x, negb (in_interval t width x)) (List.filter (of_window f.2) failures)) as Hout.
  { rewrite !elem_of_filter_b. unfold in_interval, of_window. cbn. split_and!; [|apply Z.eqb_refl|auto].
    apply negb_true_iff, andb_false_iff. left. apply Z.leb_gt. lia. }
  destruct (List.filter (λ x, negb _) _); [by apply not_elem_of_nil in Hout|]. cbn [length] in Hcount. lia.
Qed.

(** An interval of the width of a window meets at most two windows, and the
    first failure of the earlier one is before it. *)
Lemma windows_bound width limit failures t :
  0 < width → 0 < limit → windows_ok width limit failures →
  Z.of_nat (length (List.filter (in_interval t width) failures)) <= 2 * limit - 1.
Proof.
  intros Hw Hlimit Hok. pose proof (λ f, window_share width limit failures t f Hok) as Hshare.
  destruct Hok as [Hin Hfirst Hcount Hapart]. remember (List.filter (in_interval t width) failures) as G eqn:HG.
  assert (∀ f, f ∈ G → f ∈ failures ∧ t - width < f.2 < t + width) as HGin.
  { intros f Hf. rewrite HG in Hf. apply elem_of_filter_b in Hf as [Hi Hf].
    split; [done|]. unfold in_interval in Hi. bool_to_prop. specialize (Hin f Hf). lia. }
  destruct G as [|a G']; [cbn; lia|]. set (G := a :: G') in *. destruct (HGin a) as [HaF Hai]; [by left|].
  pose proof (Hshare a HaF) as Ha. rewrite (filter_split (of_window a.2) G).
  remember (List.filter (λ x, negb (of_window a.2 x)) G) as rest eqn:Hrest.
  assert (∀ f, f ∈ rest → f ∈ G ∧ f.2 ≠ a.2) as Hother.
  { intros f Hf. rewrite Hrest in Hf. apply elem_of_filter_b in Hf as [Hn Hf]. unfold of_window in Hn.
    split; [done|]. intros He. by rewrite He, Z.eqb_refl in Hn. }
  destruct rest as [|b rest']; [rewrite Nat.add_0_r; destruct (_ <? _); lia|]. set (rest := b :: rest') in *.
  destruct (Hother b) as [HbG Hba]; [by left|]. destruct (HGin b HbG) as [HbF Hbi].
  assert (List.filter (of_window b.2) rest = rest) as Hb.
  { apply List.forallb_filter_id. apply List.forallb_forall. intros f Hf%list_elem_of_In. unfold of_window.
    apply Z.eqb_eq. destruct (Hother f Hf) as [HfG Hfa]. destruct (HGin f HfG) as [HfF Hfi].
    pose proof (Hapart f b HfF HbF). pose proof (Hapart f a HfF HaF). pose proof (Hapart b a HbF HaF). lia. }
  pose proof (Hshare b HbF) as Hbs. pose proof (length_filter_sub (of_window b.2) (λ x, negb (of_window a.2 x)) G).
  rewrite <-Hrest, Hb in *. pose proof (Hapart a b HaF HbF).
  destruct (Z.ltb_spec a.2 t), (Z.ltb_spec b.2 t); lia.
Qed.

(** The state of a key at a time, against the failures so far. *)
Definition window_state (width now : Z) (failures : list (Z * Z)) (state : option LoginFailureRateLimitState) : Prop :=
  match state with
  | Some state =>
      1 <= failure_count state ∧ window_started_at state <= now ∧
      (window_started_at state, window_started_at state) ∈ failures ∧
      (∀ f, f ∈ failures → f.2 = window_started_at state ∨ f.2 + width <= window_started_at state) ∧
      Z.of_nat (length (List.filter (of_window (window_started_at state)) failures)) <= failure_count state
  | None => ∀ f, f ∈ failures → f.2 + width <= now
  end.

Section window.
Context (policy : LoginFailureRateLimitPolicy) (Hpolicy : max_failures policy <= u32_max).
Context (width limit : Z) (Hwidth : window_seconds (sanitized policy) = width).
Context (Hlimit : max_failures (sanitized policy) = limit).

Lemma active_state_iff state now :
  window_started_at state <= now →
  active_login_failure_state (Some state) now (sanitized policy)
  = if width <=? now - window_started_at state then None else Some state.
Proof.
  intros Hle. unfold active_login_failure_state, saturating_sub_u64. cbn [mbind option_bind].
  by rewrite Hwidth, (Z.max_r 0) by lia.
Qed.

(** What [check] leaves behind. *)
Lemma window_state_check now now' failures state :
  now <= now' → window_state width now failures state →
  window_state width now' failures
    (if ld_failure_count (evaluate_login_failure_rate_limit state now' policy) =? 0 then None else state).
Proof.
  intros Hle Hst. unfold evaluate_login_failure_rate_limit.
  destruct state as [[count start]|]; cbn in Hst; [|cbn; intros f Hf; specialize (Hst f Hf); lia].
  destruct Hst as (Hpos & Hstart & Hfirst & Htags & Hcount). rewrite active_state_iff by (cbn; lia).
  cbn [window_started_at]. destruct (Z.leb_spec width (now' - start)); cbn [ld_failure_count Z.eqb failure_count].
  - intros f Hf. destruct (Htags f Hf); lia.
  - destruct (_ <=? count); cbn [ld_failure_count]; rewrite (proj2 (Z.eqb_neq _ _)) by lia; cbn;
      (split_and!; [lia..|done|done|lia]).
Qed.

Lemma of_window_same start time : of_window start (time, start) = true.
Proof. apply Z.eqb_refl. Qed.

Lemma windows_ok_push failures time start :
  windows_ok width limit failures → start <= time < start + width → start = time ∨ (start, start) ∈ failures →
  Z.of_nat (length (List.filter (of_window start) failures)) < limit →
  (∀ f, f ∈ failures → f.2 = start ∨ f.2 + width <= start) →
  windows_ok width limit (failures ++ [(time, start)]).
Proof.
  intros [Hin Hfirst Hcount Hapart] Htime Hstart Hroom Htags. split.
  - intros f [Hf| ->%list_elem_of_singleton]%elem_of_app; [by apply Hin|done].
  - intros f [Hf| ->%list_elem_of_singleton]%elem_of_app; apply elem_of_app; [auto|]. cbn.
    destruct Hstart as [->|?]; [right; by left|by left].
  - intros s. rewrite List.filter_app, length_app. cbn. destruct (of_window s (time, start)) eqn:Hs; cbn.
    + apply Z.eqb_eq in Hs. cbn in Hs. subst s. lia.
    + specialize (Hcount s). lia.
  - intros f g [Hf| ->%list_elem_of_singleton]%elem_of_app [Hg| ->%list_elem_of_singleton]%elem_of_app; cbn; eauto.
    + destruct (Htags f Hf); lia.
    + destruct (Htags g Hg); lia.
Qed.

(** A failure that gets past the limit. *)
Lemma window_state_record now now' failures state :
  now <= now' → windows_ok width limit failures → window_state width now failures state →
  is_limited (evaluate_login_failure_rate_limit state now' policy) = false →
  ∃ start, windows_ok width limit (failures ++ [(now', start)]) ∧
    window_state width now' (failures ++ [(now', start)]) (Some (record_login_failure state now' policy)).
Proof.
  intros Hle Hok Hst Hadmitted. assert (0 < width ∧ 0 < limit <= u32_max) as [Hw Hl]
    by (rewrite <-Hwidth, <-Hlimit; cbn; unfold u32_max in *; lia).
  unfold evaluate_login_failure_rate_limit, record_login_failure in *.
  destruct (active_login_failure_state state now' (sanitized policy)) as [active|] eqn:Hactive.
  - destruct state as [state|]; [|done]. destruct Hst as (Hpos & Hstart & Hfirst & Htags & Hcount).
    rewrite active_state_iff in Hactive by lia.
    destruct (Z.leb_spec width (now' - window_started_at state)); [done|]. injection Hactive as <-.
    rewrite Hlimit in Hadmitted. destruct (Z.leb_spec limit (failure_count state)); [done|].
    exists (window_started_at state). split; [apply windows_ok_push; [done|lia|by right|lia|done]|]. cbn.
    rewrite List.filter_app, length_app. cbn. rewrite of_window_same. cbn. split_and!; [lia..|apply elem_of_app; auto| |lia].
    intros f [Hf| ->%list_elem_of_singleton]%elem_of_app; [auto|by left].
  - assert (∀ f, f ∈ failures → f.2 + width <= now') as Hold.
    { intros f Hf. destruct state as [state|]; [|specialize (Hst f Hf); lia].
      destruct Hst as (_ & Hstart & _ & Htags & _). rewrite active_state_iff in Hactive by lia.
      destruct (Z.leb_spec width (now' - window_started_at state)); [|done]. destruct (Htags f Hf); lia. }
    assert (List.filter (of_window now') failures = []) as Hnone.
    { apply filter_none. intros f Hf. apply Z.eqb_neq. specialize (Hold f Hf). lia. }
    exists now'. split; [apply windows_ok_push; rewrite ?Hnone; cbn; eauto; lia|]. cbn.
    rewrite List.filter_app, Hnone. cbn. rewrite of_window_same. cbn.
    split_and!; [lia..|apply elem_of_app; right; by left| |lia].
    intros f [Hf| ->%list_elem_of_singleton]%elem_of_app; [auto|by left].
Qed.
End window.

(** ** Runs of logins *)

Record LoginCall : Type := mkLoginCall {
  lc_now : Z;
  lc_email : string;
  lc_password_empty : bool;
  lc_env : LoginEnv;
}.

(** What a call did: whether it got past the limit, and how it ended. *)
Record LoginEvent : Type := mkLoginEvent {
  lv_now : Z;
  lv_key : AdminLoginFailureRateLimitKey;
  lv_admitted : bool;
  lv_outcome : LoginOutcome;
}.

Definition login_failed (event : LoginEvent) : bool :=
  lv_admitted event && match lv_outcome event with LoginRateLimited _ | InvalidCredentials => true | _ => false end.

Section runs.
Context `{Sha256} (tenant_id : Uuid) (policy : LoginFailureRateLimitPolicy).

Definition call_key (call : LoginCall) : AdminLoginFailureRateLimitKey :=
  admin_login_failure_rate_limit_key tenant_id (str_trim (lc_email call)).

Definition login_event {S} {I : LoginFailureRateLimitStore S} (call : LoginCall) (store : S) : LoginEvent * S :=
  let '(outcome, store') :=
    login tenant_id policy (lc_now call) (lc_email call) (lc_password_empty call) (lc_env call) store in
  (mkLoginEvent (lc_now call) (call_key call)
     (negb (is_limited (check (call_key call) (lc_now call) policy store).1)) outcome, store').

Fixpoint login_events {S} {I : LoginFailureRateLimitStore S} (calls : list LoginCall) (store : S) : list LoginEvent :=
  match calls with
  | [] => []
  | call :: calls => let '(event, store) := login_event call store in event :: login_events calls store
  end.

(** The times of the failed logins of a key that got past the limit. *)
Definition failures_of (key : AdminLoginFailureRateLimitKey) (events : list LoginEvent) : list Z :=
  lv_now <$> List.filter (λ event, bool_decide (lv_key event = key) && login_failed event) events.

Definition failure_outcome (decision : LoginFailureRateLimitDecision) : LoginOutcome :=
  if is_limited decision then LoginRateLimited (default 1 (retry_after_seconds decision)) else InvalidCredentials.

Lemma failure_outcome_failed event decision :
  lv_admitted event = true → lv_outcome event = failure_outcome decision → login_failed event = true.
Proof. unfold login_failed. intros -> ->. unfold failure_outcome. by destruct (is_limited decision). Qed.

(** The ways a login ends. *)
Lemma login_cases {S} {I : LoginFailureRateLimitStore S} call (store : S) :
  let '(event, store') := login_event call store in
  let '(decision, after) := check (call_key call) (lc_now call) policy store in
  let '(recorded, after') := record_failure (call_key call) (lc_now call) policy after in
  lv_now event = lc_now call ∧ lv_key event = call_key call ∧ lv_admitted event = negb (is_limited decision) ∧
  if is_limited decision then lv_outcome event = failure_outcome decision ∧ store' = after
  else
    (lv_outcome event = failure_outcome recorded ∧ store' = after') ∨
    (lv_outcome event = RepositoryError ∧ store' = after) ∨
    (lv_outcome event = LoggedIn ∧ store' = clear (call_key call) after).
Proof.
  unfold login_event, login, failure_outcome. fold (call_key call). set (key := call_key call).
  destruct (check key (lc_now call) policy store) as [decision after]. cbn [fst].
  unfold record_login_failure_error. destruct (record_failure key (lc_now call) policy after) as [recorded after'].
  destruct (is_limited decision) eqn:Hd; [done|]. cbn [negb].
  destruct (_ || _); [cbn; auto 10|]. destruct (le_user _) as [[[hash|]|]|]; [|cbn; auto 10..].
  destruct (le_verify _ hash) as [[]|]; [destruct (le_session _)|..]; cbn; auto 10.
Qed.

(** One call, seen from a key: it leaves the state of the key as [check] does,
    records a failure on top of it, or clears it. *)
Lemma login_event_state call (store : InMemoryLoginFailureRateLimitStore) key :
  let '(event, store') := login_event call store in
  let state := failures store !! key in
  let decision := evaluate_login_failure_rate_limit state (lc_now call) policy in
  let checked := if ld_failure_count decision =? 0 then None else state in
  let recorded := record_login_failure checked (lc_now call) policy in
  lv_now event = lc_now call ∧ lv_key event = call_key call ∧
  if bool_decide (call_key call = key) then
    lv_admitted event = negb (is_limited decision) ∧
    if is_limited decision then lv_outcome event = failure_outcome decision ∧ failures store' !! key = checked
    else
      (lv_outcome event = failure_outcome (evaluate_login_failure_rate_limit (Some recorded) (lc_now call) policy) ∧
       failures store' !! key = Some recorded) ∨
      (lv_outcome event = RepositoryError ∧ failures store' !! key = checked) ∨
      (lv_outcome event = LoggedIn ∧ failures store' !! key = None)
  else failures store' !! key = state.
Proof.
  pose proof (login_cases call store) as Hcases. destruct (login_event call store) as [event store'].
  cbn [check record_failure clear in_memory_store] in Hcases. set (k := call_key call) in *.
  set (decision := evaluate_login_failure_rate_limit (failures store !! k) (lc_now call) policy) in *.
  set (after := if ld_failure_count decision =? 0 then mkInMemoryStore (delete k (failures store)) else store) in *.
  assert (∀ key', k ≠ key' → failures after !! key' = failures store !! key') as Hother.
  { intros key' Hne. subst after. destruct (_ =? 0); cbn; [by rewrite lookup_delete_ne|done]. }
  assert (failures after !! k = if ld_failure_count decision =? 0 then None else failures store !! k) as Hsame.
  { subst after. destruct (_ =? 0); cbn; [by rewrite lookup_delete_eq|done]. }
  destruct Hcases as (Hnow & Hkey & Hadmitted & Hcases). cbn zeta. split_and!; [done..|].
  destruct (bool_decide_reflect (k = key)) as [<-|Hne]; fold decision.
  - split; [done|]. rewrite <-Hsame. destruct (is_limited decision); [by destruct Hcases as (-> & ->)|].
    destruct Hcases as [[-> ->]|[[-> ->]|[-> ->]]]; cbn; rewrite ?lookup_insert_eq, ?lookup_delete_eq; auto.
  - destruct (is_limited decision); [destruct Hcases as (_ & ->); auto|].
    destruct Hcases as [[_ ->]|[[_ ->]|[_ ->]]]; cbn; rewrite ?lookup_insert_ne, ?lookup_delete_ne by done; auto.
Qed.

Lemma sorted_app_inv (l1 l2 : list Z) :
  Sorted Z.le (l1 ++ l2) → (∀ x y, x ∈ l1 → y ∈ l2 → x <= y) ∧ Sorted Z.le l1 ∧ Sorted Z.le l2.
Proof.
  intros (? & ? & ?)%Sorted_StronglySorted%StronglySorted_app; [|exact Z.le_trans].
  split_and!; [done|by apply StronglySorted_Sorted..].
Qed.

Lemma sorted_from_first (times : list Z) : Sorted Z.le times → Sorted Z.le (default 0 (head times) :: times).
Proof. intros Hs. apply Sorted_cons; [done|]. destruct times; [apply HdRel_nil|apply HdRel_cons, Z.le_refl]. Qed.

Lemma window_state_later width now now' fs state :
  now <= now' → window_state width now fs state → window_state width now' fs state.
Proof.
  intros Hle. destruct state as [state|]; cbn; [intros (? & ? & ? & ? & ?); split_and!; auto; lia|].
  intros Hold f Hf. specialize (Hold f Hf). lia.
Qed.

(** The failures of a run fall into windows. *)
Lemma login_events_windows key calls now fs (store : InMemoryLoginFailureRateLimitStore) :
  max_failures policy <= u32_max → Sorted Z.le (now :: (lc_now <$> calls)) →
  (∀ event, event ∈ login_events calls store → lv_key event = key → lv_outcome event ≠ LoggedIn) →
  let width := window_seconds (sanitized policy) in
  let limit := max_failures (sanitized policy) in
  windows_ok width limit fs → window_state width now fs (failures store !! key) →
  ∃ fs', windows_ok width limit (fs ++ fs') ∧ fs'.*1 = failures_of key (login_events calls store).
Proof.
  intros Hpolicy. revert now fs store. induction calls as [|call calls IH]; intros now fs store Hsorted Hout width limit Hok Hst.
  { exists []. by rewrite app_nil_r. }
  pose proof (login_event_state call store key) as Hcall. cbn [login_events fmap list_fmap] in *.
  destruct (login_event call store) as [event store']. cbn zeta in Hcall. destruct Hcall as (Hnow & Hkey & Hcall).
  apply Sorted_inv in Hsorted as [Hsorted Hle%HdRel_inv].
  assert (∀ event', event' ∈ login_events calls store' → lv_key event' = key → lv_outcome event' ≠ LoggedIn) as Hout'
    by (intros event' Hin; apply Hout; by right).
  unfold failures_of. cbn [List.filter]. rewrite Hkey.
  destruct (bool_decide_reflect (call_key call = key)) as [Hsame|Hdiff]; cbn [andb].
  - pose proof (window_state_check policy width eq_refl now (lc_now call) fs _ Hle Hst) as Hchecked.
    assert (lv_outcome event ≠ LoggedIn) as Hnot by (apply Hout; [by left|congruence]).
    destruct Hcall as [Hadmitted Hcall]. destruct (is_limited _) eqn:Hlimited.
    { destruct Hcall as [_ Hstore]. unfold login_failed at 1. rewrite Hadmitted. cbn [negb andb].
      apply (IH (lc_now call)); auto. by rewrite Hstore. }
    destruct Hcall as [[Houtcome Hstore]|[[Hrepo Hstore]|[? _]]]; [| |done].
    2: { unfold login_failed at 1. rewrite Hrepo, andb_false_r. apply (IH (lc_now call)); auto. by rewrite Hstore. }
    rewrite (failure_outcome_failed event _ Hadmitted Houtcome).
    edestruct (window_state_record policy Hpolicy width limit eq_refl eq_refl (lc_now call) (lc_now call) fs)
      as (start & Hok' & Hst'); [done|done|exact Hchecked|by destruct (_ =? 0)|].
    destruct (IH (lc_now call) (fs ++ [(lc_now call, start)]) store') as (fs' & Hall & Hfs'); auto; [by rewrite Hstore|].
    exists ((lc_now call, start) :: fs'). rewrite <-app_assoc in Hall. split; [done|].
    cbn [fmap list_fmap fst]. rewrite Hnow. f_equal. exact Hfs'.
  - apply (IH (lc_now call)); auto. rewrite Hcall. by apply (window_state_later _ now).
Qed.

(** C21: Brute force is bounded: of logins that are handled one after the other,
    in any interval as long as the window, at most 2 * max_failures - 1 failed
    ones of an account get past the limit and have their password looked at, as
    long as no login to it succeeds. *)
Theorem login_failures_bounded calls key t :
  max_failures policy <= u32_max → Sorted Z.le (lc_now <$> calls) →
  let events := login_events calls (mkInMemoryStore ∅) in
  (∀ event, event ∈ events → lv_key event = key → lv_outcome event ≠ LoggedIn) →
  let width := window_seconds (sanitized policy) in
  Z.of_nat (length (List.filter (λ time, (t <=? time) && (time <? t + width)) (failures_of key events)))
  <= 2 * max_failures (sanitized policy) - 1.
Proof.
  intros Hpolicy Hsorted events Hout width.
  destruct (login_events_windows key calls (default 0 (head (lc_now <$> calls))) [] (mkInMemoryStore ∅))
    as (fs & Hok & Hfs); [done|by apply sorted_from_first|done| |cbn [failures]; rewrite lookup_empty; by intros f ?%elem_of_nil|].
  { split; cbn; [by intros ? ?%elem_of_nil..|lia|by intros ? ? ?%elem_of_nil]. }
  fold events in Hfs. rewrite <-Hfs, (filter_fmap_length _ _ (in_interval t width)) by done.
  apply (windows_bound width _ fs t) in Hok; [exact Hok|unfold width; cbn; lia..].
Qed.

(** *** Locking out *)

Definition login_after {S} {I : LoginFailureRateLimitStore S} (calls : list LoginCall) (store : S) : S :=
  foldl (λ store call, (login_event call store).2) store calls.

Definition window_end (state : LoginFailureRateLimitState) : Z :=
  window_started_at state + window_seconds (sanitized policy).

(** A key that is locked out until the end of the window. *)
Definition locked (key : AdminLoginFailureRateLimitKey) (now : Z) (state : LoginFailureRateLimitState)
    (store : InMemoryLoginFailureRateLimitStore) : Prop :=
  failures store !! key = Some state ∧ max_failures (sanitized policy) <= failure_count state ∧
  window_started_at state <= now < window_end state.

Definition started_before (key : AdminLoginFailureRateLimitKey) (now : Z)
    (store : InMemoryLoginFailureRateLimitStore) : Prop :=
  ∀ state, failures store !! key = Some state → window_started_at state <= now.

Lemma evaluate_full state now :
  max_failures (sanitized policy) <= failure_count state → window_started_at state <= now →
  0 <= window_end state <= u64_max →
  evaluate_login_failure_rate_limit (Some state) now policy
  = if now <? window_end state then mkLoginDecision true (Some (window_end state - now)) (failure_count state)
    else mkLoginDecision false None 0.
Proof.
  unfold window_end, evaluate_login_failure_rate_limit. intros Hfull Hstart Hend.
  rewrite (active_state_iff _ _ eq_refl) by done. set (width := window_seconds (sanitized policy)) in *.
  destruct (Z.leb_spec width (now - window_started_at state)), (Z.ltb_spec now (window_started_at state + width)); try lia;
    [done|].
  rewrite (proj2 (Z.leb_le _ _)) by done. unfold saturating_sub_u64, saturating_add_u64. repeat f_equal. lia.
Qed.

Lemma evaluate_limited state now :
  is_limited (evaluate_login_failure_rate_limit state now policy) = true →
  (∀ st, state = Some st → window_started_at st <= now) →
  ∃ st, state = Some st ∧ max_failures (sanitized policy) <= failure_count st ∧
    window_started_at st <= now < window_end st.
Proof.
  intros Hlimited Hstart. destruct state as [st|]; [|done]. specialize (Hstart st eq_refl). exists st.
  unfold evaluate_login_failure_rate_limit in Hlimited. rewrite (active_state_iff _ _ eq_refl) in Hlimited by done.
  destruct (Z.leb_spec (window_seconds (sanitized policy)) (now - window_started_at st)); [done|].
  destruct (Z.leb_spec (max_failures (sanitized policy)) (failure_count st)); [|done].
  unfold window_end. split_and!; [done..|lia].
Qed.

Lemma record_started state now :
  (∀ st, state = Some st → window_started_at st <= now) →
  window_started_at (record_login_failure state now policy) <= now.
Proof.
  intros Hstart. unfold record_login_failure. destruct state as [st|]; [|cbn; lia].
  specialize (Hstart st eq_refl).
  rewrite (active_state_iff _ _ eq_refl) by done. destruct (_ <=? _); cbn; lia.
Qed.

Lemma started_before_step key now call store :
  now <= lc_now call → started_before key now store → started_before key (lc_now call) (login_event call store).2.
Proof.
  intros Hle Hstart. pose proof (login_event_state call store key) as Hcall.
  destruct (login_event call store) as [event store']. cbn zeta in Hcall. destruct Hcall as (_ & _ & Hcall).
  assert (∀ st, failures store !! key = Some st → window_started_at st <= lc_now call) as Hbefore
    by (intros st Hst; specialize (Hstart st Hst); lia).
  set (checked := if _ =? 0 then None else failures store !! key) in Hcall.
  assert (∀ st, checked = Some st → window_started_at st <= lc_now call) as Hchecked
    by (unfold checked; destruct (_ =? 0); [done|exact Hbefore]).
  intros st. cbn [snd]. destruct (bool_decide _); [|rewrite Hcall; apply Hbefore].
  destruct Hcall as [_ Hcall]. destruct (is_limited _); [destruct Hcall as [_ ->]; apply Hchecked|].
  destruct Hcall as [[_ ->]|[[_ ->]|[_ ->]]]; [|apply Hchecked|done]. intros [= <-]. by apply record_started.
Qed.

Lemma started_before_after key now calls store call :
  Sorted Z.le (now :: (lc_now <$> calls ++ [call])) → started_before key now store →
  started_before key (lc_now call) (login_after calls store).
Proof.
  revert now store. induction calls as [|c calls IH]; intros now store Hsorted Hstart; cbn in *;
    apply Sorted_inv in Hsorted as [Hsorted Hle%HdRel_inv].
  - intros st Hst. specialize (Hstart st Hst). lia.
  - apply (IH (lc_now c)); [done|]. by apply (started_before_step key now).
Qed.

(** A refusal locks the account until the time it names. *)
Lemma refusal_locks call store r :
  started_before (call_key call) (lc_now call) store →
  lc_now call + window_seconds (sanitized policy) <= u64_max → 0 <= lc_now call →
  lv_outcome (login_event call store).1 = LoginRateLimited r →
  ∃ state, locked (call_key call) (lc_now call) state (login_event call store).2 ∧ window_end state = lc_now call + r.
Proof.
  intros Hstart Hmax Hpos Hout. pose proof (login_event_state call store (call_key call)) as Hcall.
  destruct (login_event call store) as [event store']. cbn zeta in Hcall. destruct Hcall as (_ & _ & Hcall).
  rewrite bool_decide_true in Hcall by done. destruct Hcall as [_ Hcall]. cbn [fst snd] in *.
  set (key := call_key call) in *. set (now := lc_now call) in *.
  enough (∃ state, failures store' !! key = Some state ∧ window_started_at state <= now ∧
    lv_outcome event = failure_outcome (evaluate_login_failure_rate_limit (Some state) now policy) ∧
    is_limited (evaluate_login_failure_rate_limit (Some state) now policy) = true) as (state & Hst & Hle & Ho & Hl).
  { destruct (evaluate_limited _ _ Hl) as (? & [= <-] & Hfull & Hw); [by intros ? [= <-]|]. exists state.
    split; [done|]. rewrite Ho in Hout. unfold failure_outcome in Hout. rewrite Hl in Hout.
    rewrite evaluate_full in Hout by (try done; unfold window_end in *; lia).
    rewrite (proj2 (Z.ltb_lt _ _)) in Hout by lia. cbn in Hout. injection Hout as <-. lia. }
  destruct (is_limited _) eqn:Hlimited.
  - destruct Hcall as [Ho Hst]. destruct (evaluate_limited _ _ Hlimited Hstart) as (state & Hs & Hfull & Hw). exists state.
    rewrite Hs in *. split_and!; [|lia|done|done]. rewrite Hst, evaluate_full by (try done; unfold window_end in *; lia).
    rewrite (proj2 (Z.ltb_lt _ _)) by lia. cbn [ld_failure_count]. rewrite (proj2 (Z.eqb_neq _ _)); [done|].
    cbn in Hfull. lia.
  - destruct Hcall as [[Ho Hst]|[[Ho _]|[Ho _]]]; [|congruence..]. eexists. split; [exact Hst|].
    assert (is_limited (evaluate_login_failure_rate_limit (Some (record_login_failure
      (if ld_failure_count (evaluate_login_failure_rate_limit (failures store !! key) now policy) =? 0 then None
       else failures store !! key) now policy)) now policy) = true) as Hl.
    { rewrite Ho in Hout. unfold failure_outcome in Hout. by destruct (is_limited _). }
    split_and!; [|done|done]. apply record_started. by destruct (_ =? 0); [|apply Hstart].
Qed.

Lemma locked_step key now state call store :
  locked key now state store → 0 <= window_end state <= u64_max → now <= lc_now call →
  (call_key call = key → lv_admitted (login_event call store).1 = (window_end state <=? lc_now call)) ∧
  (lc_now call < window_end state → locked key (lc_now call) state (login_event call store).2).
Proof.
  intros (Hst & Hfull & Hw) Hend Hle. pose proof (login_event_state call store key) as Hcall.
  destruct (login_event call store) as [event store']. cbn zeta in Hcall. destruct Hcall as (_ & _ & Hcall).
  cbn [fst snd]. rewrite Hst, evaluate_full in Hcall by (done || lia).
  rewrite (Z.leb_antisym (lc_now call)). split.
  - intros Hkey. rewrite bool_decide_true in Hcall by done. destruct Hcall as [-> _]. by destruct (_ <? _).
  - intros Hlt. rewrite (proj2 (Z.ltb_lt _ _)) in Hcall by done. cbn [is_limited ld_failure_count] in Hcall.
    split_and!; [|done|lia|done]. destruct (bool_decide _); [|done]. destruct Hcall as (_ & _ & ->).
    rewrite (proj2 (Z.eqb_neq _ _)); [done|]. cbn in Hfull. lia.
Qed.

Lemma locked_after key now state calls store :
  locked key now state store → 0 <= window_end state <= u64_max → Sorted Z.le (now :: (lc_now <$> calls)) →
  (∀ call, call ∈ calls → lc_now call < window_end state) →
  locked key (default now (last (lc_now <$> calls))) state (login_after calls store).
Proof.
  intros Hlocked Hend. revert now store Hlocked. induction calls as [|c calls IH]; intros now store Hlocked Hsorted Hlt; [done|].
  apply Sorted_inv in Hsorted as [Hsorted Hle%HdRel_inv].
  destruct (locked_step _ _ _ c _ Hlocked Hend Hle) as [_ Hnext].
  specialize (IH (lc_now c) _ (Hnext ltac:(apply Hlt; by left)) Hsorted ltac:(intros call ?; apply Hlt; by right)).
  cbn [fmap list_fmap]. rewrite last_cons. by destruct (last (lc_now <$> calls)).
Qed.


(** A refused login locks the account for exactly as long as the answer
    says: whatever logins follow, the next one to the account is refused when it
    comes before the announced time, whatever its password, and gets past the
    limit when it comes at that time or later. *)
Theorem lockout_is_exact earlier call between next r :
  Sorted Z.le (lc_now <$> earlier ++ call :: between ++ [next]) → 0 <= lc_now call →
  lc_now call + window_seconds (sanitized policy) <= u64_max →
  let store := login_after earlier (mkInMemoryStore ∅) in
  lv_outcome (login_event call store).1 = LoginRateLimited r →
  (∀ c, c ∈ between → lc_now c < lc_now call + r) →
  call_key next = call_key call →
  lv_admitted (login_event next (login_after (earlier ++ call :: between) (mkInMemoryStore ∅))).1
  = (lc_now call + r <=? lc_now next).
Proof.
  intros Hsorted Hpos Hmax store Hout Hbetween Hkey.
  rewrite fmap_app, fmap_cons, fmap_app, app_comm_cons in Hsorted.
  pose proof Hsorted as (_ & _ & (Hlast & Hafter & _)%sorted_app_inv)%sorted_app_inv.
  rewrite <-app_comm_cons, (cons_middle (lc_now call)), (app_assoc (_ <$> earlier)) in Hsorted.
  apply sorted_app_inv in Hsorted as (_ & Hbefore & _).
  assert (started_before (call_key call) (lc_now call) store) as Hstart.
  { apply (started_before_after _ (default 0 (head (lc_now <$> earlier ++ [call])))); [|by intros st].
    apply sorted_from_first. by rewrite fmap_app. }
  destruct (refusal_locks call store r) as (state & Hlocked & Hend); [done..|].
  pose proof Hlocked as (_ & _ & Hw). unfold login_after. rewrite foldl_app. cbn [foldl].
  fold (login_after earlier (mkInMemoryStore ∅)). fold store. fold (login_after between (login_event call store).2).
  assert (0 <= window_end state <= u64_max) as Hbound by (unfold window_end in *; lia).
  rewrite <-Hend in Hbetween |- *.
  eapply locked_step; [apply (locked_after _ (lc_now call)); done|done| |done].
  apply Hlast; [|by left]. destruct (last (lc_now <$> between)) as [x|] eqn:Hx; cbn; [right|by left].
  apply last_Some_elem_of in Hx. done.
Qed.
End runs.

(** ** Redis against the map *)

(** The clock of the server never runs backwards, and never faster than the
    callers'. *)
Definition clock_keeps_up (server_time : Z → Z) : Prop :=
  ∀ a b, a <= b → server_time a <= server_time b <= server_time a + (b - a).

Section refinement.
Context {L : Lua} {Laws : LuaLaws L} `{Sha256} {U : UuidDisplay} (key_prefix : string) (tenant_id : Uuid).
Context (policy : LoginFailureRateLimitPolicy).
Context (Hlimit : max_failures policy <= u32_max) (Hwindow : lua_exact (window_seconds (sanitized policy))).
Context (server_time : Z → Z) (Hclock : clock_keeps_up server_time).

#[local] Abbreviation width := (window_seconds (sanitized policy)).
#[local] Abbreviation limit := (max_failures (sanitized policy)).

Definition encode_state (state : LoginFailureRateLimitState) : bytes :=
  tostring (failure_count state) ++ as_bytes ":" ++ tostring (window_started_at state).

(** What the server keeps for a key whose state in memory is [state]. *)
Definition entry_agrees (now : Z) (state : option LoginFailureRateLimitState) (entry : option RedisEntry) : Prop :=
  match state with
  | Some state =>
      1 <= failure_count state <= limit ∧ 0 <= window_started_at state <= now ∧
      ∃ expires, entry = Some (mkRedisEntry (encode_state state) expires) ∧ server_time (window_started_at state) + width <= expires
  | None => ∀ e, entry = Some e → rv_expires_at e <= server_time now
  end.

Definition stores_agree (now : Z) (memory : InMemoryLoginFailureRateLimitStore) (data : RedisData) : Prop :=
  ∀ fingerprint, entry_agrees now (failures memory !! (mkLoginKey tenant_id fingerprint))
                   (data !! redis_key key_prefix (mkLoginKey tenant_id fingerprint)).

Lemma redis_key_inj fingerprint fingerprint' :
  redis_key key_prefix (mkLoginKey tenant_id fingerprint) = redis_key key_prefix (mkLoginKey tenant_id fingerprint') →
  fingerprint = fingerprint'.
Proof. unfold redis_key. cbn. intros Heq. by repeat apply (inj (String.append _)) in Heq. Qed.

Lemma limit_exact : 0 < limit <= u32_max ∧ lua_exact limit.
Proof. unfold lua_exact. cbn. unfold u32_max in *. lia. Qed.

Lemma redis_get_state now state entry data key :
  data !! key = entry → lua_exact now → entry_agrees now (Some state) entry →
  (redis_get (server_time now) key data = None ∧ window_started_at state + width <= now) ∨
  (∃ raw, redis_get (server_time now) key data = Some raw ∧
    split_once ":"%char raw = Some (tostring (failure_count state), tostring (window_started_at state)) ∧
    tonumber (tostring (failure_count state)) = Some (failure_count state) ∧
    tonumber (tostring (window_started_at state)) = Some (window_started_at state)).
Proof.
  intros He Hnow (Hcount & Hstart & expires & -> & Hexp). unfold redis_get. rewrite He. cbn [mbind option_bind].
  cbn [rv_expires_at rv_value]. destruct (Z.ltb_spec (server_time now) expires); [right|left; split; [done|]].
  2:{ pose proof (Hclock (window_started_at state) now ltac:(lia)). lia. }
  pose proof limit_exact as [_ Hl]. unfold lua_exact in Hl, Hnow.
  eexists. split; [done|]. split_and!; [|apply tonumber_tostring; unfold lua_exact; lia..].
  apply split_once_app, tostring_no_colon. unfold lua_exact. lia.
Qed.

Lemma entry_agrees_later now now' state entry :
  now <= now' → entry_agrees now state entry → entry_agrees now' state entry.
Proof.
  intros Hle. destruct state as [state|]; cbn.
  - intros (? & ? & ?). split_and!; [lia..|done].
  - intros Hnone e He. specialize (Hnone e He). pose proof (Hclock _ _ Hle). lia.
Qed.

Lemma stores_agree_later now now' memory data :
  now <= now' → stores_agree now memory data → stores_agree now' memory data.
Proof. intros Hle Hagree fingerprint. by eapply entry_agrees_later. Qed.

Lemma stores_agree_set now memory data fingerprint state entry :
  stores_agree now memory data → entry_agrees now state entry →
  stores_agree now (mkInMemoryStore (partial_alter (λ _, state) (mkLoginKey tenant_id fingerprint) (failures memory)))
    (partial_alter (λ _, entry) (redis_key key_prefix (mkLoginKey tenant_id fingerprint)) data).
Proof.
  intros Hagree Hentry f. cbn [failures]. destruct (decide (f = fingerprint)) as [->|Hne].
  - rewrite !lookup_partial_alter_eq. exact Hentry.
  - rewrite !lookup_partial_alter_ne by (intros ?%redis_key_inj || intros [=]; done). apply Hagree.
Qed.

(** The map forgets what the server has let expire. *)
Lemma stores_agree_forget now memory data fingerprint :
  stores_agree now memory data → redis_get (server_time now) (redis_key key_prefix (mkLoginKey tenant_id fingerprint)) data = None →
  stores_agree now (mkInMemoryStore (delete (mkLoginKey tenant_id fingerprint) (failures memory))) data.
Proof.
  intros Hagree Hget. rewrite <-(partial_alter_self data (redis_key key_prefix (mkLoginKey tenant_id fingerprint))).
  apply stores_agree_set; [done|]. intros e He. unfold redis_get in Hget. rewrite He in Hget. cbn in Hget.
  destruct (Z.ltb_spec (server_time now) (rv_expires_at e)); [done|lia].
Qed.

Lemma read_reply limited count retry_after :
  0 <= count <= u32_max → 0 <= retry_after <= u64_max →
  redis_decision_from_response (reply limited count retry_after)
  = Ok (mkLoginDecision (limited =? 1) (if limited =? 1 then Some (Z.max retry_after 1) else None) count).
Proof.
  intros Hcount Hretry. unfold redis_decision_from_response, reply. cbn [redis_integer mbind result_bind].
  unfold checked. rewrite !(proj2 (Z.leb_le _ _)) by lia. done.
Qed.

Lemma check_script_agrees now memory data fingerprint :
  stores_agree now memory data → lua_exact now →
  let key := mkLoginKey tenant_id fingerprint in
  let '(response, data') := REDIS_CHECK_SCRIPT (server_time now) (redis_key key_prefix key) now limit width data in
  let '(decision, memory') := check key now policy memory in
  redis_decision_from_response response = Ok decision ∧ stores_agree now memory' data'.
Proof.
  intros Hagree Hnow key. unfold REDIS_CHECK_SCRIPT. cbn [check in_memory_store].
  pose proof (Hagree fingerprint) as Hentry. fold key in Hentry.
  assert (stores_agree now (mkInMemoryStore (delete key (failures memory))) (delete (redis_key key_prefix key) data))
    as Hdeleted by by apply stores_agree_set.
  destruct (failures memory !! key) as [state|] eqn:Hst.
  - destruct (redis_get_state now state _ data _ eq_refl Hnow Hentry) as [[Hget Hexpired]|(raw & Hget & Hraw & Hc & Hs)];
      rewrite Hget, ?Hraw, ?Hc, ?Hs; destruct Hentry as (Hcount & Hstart & _); unfold evaluate_login_failure_rate_limit;
      rewrite (active_state_iff policy _ eq_refl) by lia.
    + rewrite (proj2 (Z.leb_le _ _)) by lia. split; [done|]. by apply stores_agree_forget.
    + destruct (Z.leb_spec width (now - window_started_at state)); [done|].
      assert ((ld_failure_count (mkLoginDecision false None (failure_count state)) =? 0) = false) as Hpos
        by (apply Z.eqb_neq; cbn; lia).
      pose proof limit_exact as [Hl _]. unfold lua_exact in *. destruct (Z.leb_spec limit (failure_count state)).
      * rewrite read_reply by (unfold u64_max; lia). unfold saturating_sub_u64, saturating_add_u64, u64_max.
        cbn [ld_failure_count] in *. rewrite Hpos. split; [|done]. do 3 f_equal. lia.
      * rewrite read_reply by (unfold u64_max; lia). rewrite Hpos. done.
  - assert (redis_get (server_time now) (redis_key key_prefix key) data = None) as Hget.
    { unfold redis_get. destruct (data !! _) as [e|] eqn:He; [|done]. cbn. specialize (Hentry e eq_refl).
      by rewrite (proj2 (Z.ltb_ge _ _)) by lia. }
    rewrite Hget. split; [done|]. by apply stores_agree_forget.
Qed.

(** The state after an admitted failure: it is never beyond the limit. *)
Lemma record_new now state entry :
  entry_agrees now state entry → lua_exact now →
  is_limited (evaluate_login_failure_rate_limit state now policy) = false →
  let new := record_login_failure state now policy in
  new = match active_login_failure_state state now (sanitized policy) with
        | Some state => mkLoginState (failure_count state + 1) (window_started_at state)
        | None => mkLoginState 1 now
        end ∧
  1 <= failure_count new <= limit ∧ 0 <= window_started_at new <= now ∧ now < window_started_at new + width.
Proof.
  intros Hentry Hnow Hadmitted. pose proof limit_exact as [Hl _]. unfold lua_exact in *.
  unfold evaluate_login_failure_rate_limit, record_login_failure in *.
  destruct state as [state|]; [|cbn in *; split_and!; [done|lia..]]. destruct Hentry as (Hcount & Hstart & _).
  rewrite (active_state_iff policy _ eq_refl) in * by lia.
  destruct (Z.leb_spec width (now - window_started_at state)); [cbn in *; split_and!; [done|lia..]|].
  destruct (Z.leb_spec limit (failure_count state)); [done|].
  rewrite Z.min_r by lia. cbn [failure_count window_started_at]. split_and!; [done|lia..].
Qed.

Lemma record_script_value now state data key :
  entry_agrees now state (data !! key) → lua_exact now →
  is_limited (evaluate_login_failure_rate_limit state now policy) = false →
  let new := record_login_failure state now policy in
  REDIS_RECORD_FAILURE_SCRIPT (server_time now) key now limit width data
  = (if limit <=? failure_count new
     then reply 1 (failure_count new) (Z.max (window_started_at new + width - now) 1)
     else reply 0 (failure_count new) 0,
     <[key := mkRedisEntry (encode_state new) (server_time now + width)]> data).
Proof.
  intros Hentry Hnow Hadmitted. destruct (record_new now _ _ Hentry Hnow Hadmitted) as (Hnew & _). cbn zeta in *.
  unfold REDIS_RECORD_FAILURE_SCRIPT, encode_state. rewrite Hnew. clear Hnew.
  set (found := match raw ← redis_get (server_time now) key data; split_once _ raw with None => _ | Some _ => _ end).
  enough (found = match active_login_failure_state state now (sanitized policy) with
    | Some state => (failure_count state + 1, window_started_at state) | None => (1, now) end) as ->
    by (destruct (active_login_failure_state _ _ _); cbn; by destruct (_ <=? _)).
  subst found. destruct state as [state|].
  - pose proof Hentry as (_ & Hs & _). rewrite (active_state_iff policy _ eq_refl) by lia.
    destruct (redis_get_state now state _ data _ eq_refl Hnow Hentry) as [[-> Hexpired]|(raw & -> & Hraw & Hc & Hw)].
    + rewrite (proj2 (Z.leb_le width _)) by lia. done.
    + cbn [mbind option_bind]. rewrite Hraw, Hc, Hw, Z.ltb_antisym. by destruct (width <=? _).
  - unfold redis_get. destruct (data !! key) as [e|] eqn:He; [|done]. specialize (Hentry e eq_refl).
    cbn [mbind option_bind]. by rewrite (proj2 (Z.ltb_ge _ _)) by lia.
Qed.

Lemma record_script_agrees now memory data fingerprint :
  stores_agree now memory data → lua_exact now →
  let key := mkLoginKey tenant_id fingerprint in
  is_limited (evaluate_login_failure_rate_limit (failures memory !! key) now policy) = false →
  let '(response, data') := REDIS_RECORD_FAILURE_SCRIPT (server_time now) (redis_key key_prefix key) now limit width data in
  let '(decision, memory') := record_failure key now policy memory in
  redis_decision_from_response response = Ok decision ∧ stores_agree now memory' data'.
Proof.
  intros Hagree Hnow key Hadmitted. cbn [record_failure in_memory_store].
  pose proof (Hagree fingerprint) as Hentry. fold key in Hentry. rewrite (record_script_value _ _ _ _ Hentry) by done.
  destruct (record_new now _ _ Hentry Hnow Hadmitted) as (_ & Hcount & Hstart & Hactive).
  set (new := record_login_failure (failures memory !! key) now policy) in *.
  pose proof limit_exact as [Hl _]. unfold lua_exact in *. split.
  - unfold evaluate_login_failure_rate_limit. rewrite (active_state_iff policy _ eq_refl) by lia.
    rewrite (proj2 (Z.leb_gt width _)) by lia. destruct (limit <=? failure_count new);
      rewrite read_reply by (unfold u64_max; lia); [|done].
    unfold saturating_sub_u64, saturating_add_u64, u64_max. do 3 f_equal. lia.
  - apply stores_agree_set; [done|]. split_and!; [lia..|]. eexists. split; [done|].
    pose proof (Hclock (window_started_at new) now ltac:(lia)). lia.
Qed.

Context (connection : nat → Connection).

#[local] Instance server : LoginFailureRateLimitStore RedisLoginFailureRateLimitStore := redis_store connection server_time key_prefix.

Context (Hanswered : ∀ n, connection n = Answered).

Lemma decision_answered script key now redis decision response data :
  lua_exact now → script (server_time now) (redis_key key_prefix key) now limit width (rd_data redis) = (response, data) →
  redis_decision_from_response response = Ok decision →
  redis_decision connection server_time key_prefix script key now policy redis
  = (decision, mkRedisStore data (S (rd_commands redis))).
Proof.
  intros Hnow Hscript Hresponse. unfold redis_decision, eval_decision_script, redis_command. cbn zeta.
  pose proof limit_exact as [_ Hl]. rewrite !tonumber_decimal, Hscript, Hanswered by done. cbn [mbind result_bind].
  by rewrite Hresponse.
Qed.

Lemma check_agrees fingerprint now memory redis :
  let key := mkLoginKey tenant_id fingerprint in
  stores_agree now memory (rd_data redis) → lua_exact now →
  ∃ redis', check key now policy redis = ((check key now policy memory).1, redis') ∧
    stores_agree now (check key now policy memory).2 (rd_data redis').
Proof.
  intros key Hagree Hnow. pose proof (check_script_agrees now memory _ fingerprint Hagree Hnow) as Hscript. cbn zeta in Hscript. fold key in Hscript.
  destruct (REDIS_CHECK_SCRIPT _ _ _ _ _ _) as [response data] eqn:Hrun. destruct (check key now policy memory) as [decision memory'].
  destruct Hscript as [Hresponse Hagree']. eexists. split; [by eapply decision_answered|done].
Qed.

Lemma record_agrees fingerprint now memory redis :
  let key := mkLoginKey tenant_id fingerprint in
  stores_agree now memory (rd_data redis) → lua_exact now →
  is_limited (evaluate_login_failure_rate_limit (failures memory !! key) now policy) = false →
  ∃ redis', record_failure key now policy redis = ((record_failure key now policy memory).1, redis') ∧
    stores_agree now (record_failure key now policy memory).2 (rd_data redis').
Proof.
  intros key Hagree Hnow Hadmitted.
  pose proof (record_script_agrees now memory _ fingerprint Hagree Hnow Hadmitted) as Hscript. cbn zeta in Hscript. fold key in Hscript.
  destruct (REDIS_RECORD_FAILURE_SCRIPT _ _ _ _ _ _) as [response data] eqn:Hrun.
  destruct (record_failure key now policy memory) as [decision memory'].
  destruct Hscript as [Hresponse Hagree']. eexists. split; [by eapply decision_answered|done].
Qed.

Lemma clear_agrees fingerprint now memory redis :
  let key := mkLoginKey tenant_id fingerprint in
  stores_agree now memory (rd_data redis) → stores_agree now (clear key memory) (rd_data (clear key redis)).
Proof.
  intros key Hagree. cbn [clear server redis_store in_memory_store]. unfold redis_command. rewrite Hanswered.
  by apply stores_agree_set.
Qed.

Lemma login_event_agrees call memory redis :
  stores_agree (lc_now call) memory (rd_data redis) → lua_exact (lc_now call) →
  ∃ redis', login_event tenant_id policy call redis = ((login_event tenant_id policy call memory).1, redis') ∧
    stores_agree (lc_now call) (login_event tenant_id policy call memory).2 (rd_data redis').
Proof.
  intros Hagree Hnow. unfold login_event, login, record_login_failure_error. fold (call_key tenant_id call).
  set (fp := login_rate_limit_fingerprint [normalize_login_identifier (str_trim (lc_email call))]).
  change (call_key tenant_id call) with (mkLoginKey tenant_id fp). set (key := mkLoginKey tenant_id fp).
  destruct (check_agrees fp _ _ _ Hagree Hnow) as (redis1 & Hcheck & Hagree1). fold key in Hcheck, Hagree1. rewrite Hcheck.
  destruct (check key (lc_now call) policy memory) as [decision memory1] eqn:Hmem. cbn [fst snd] in *.
  destruct (is_limited decision) eqn:Hlimited; [eauto|].
  destruct (record_agrees fp (lc_now call) memory1 redis1 Hagree1 Hnow) as (redis2 & Hrecord & Hagree2).
  { cbn [check in_memory_store] in Hmem. injection Hmem as <- <-. fold key.
    destruct (_ =? 0); [cbn; by rewrite lookup_delete_eq|done]. }
  fold key in Hrecord, Hagree2. rewrite Hrecord. destruct (record_failure key _ policy memory1) as [recorded memory2].
  cbn [fst snd] in *. destruct (_ || _); [eauto|]. destruct (le_user _) as [[[hash|]|]|]; [|eauto..].
  destruct (le_verify _ hash) as [[]|]; [destruct (le_session _)|..]; eauto. cbn [fst snd].
  eexists. split; [done|]. by apply clear_agrees.
Qed.

Lemma login_events_agree now calls memory redis :
  Sorted Z.le (now :: (lc_now <$> calls)) → Forall lua_exact (lc_now <$> calls) →
  stores_agree now memory (rd_data redis) →
  login_events tenant_id policy calls redis = login_events tenant_id policy calls memory.
Proof.
  revert now memory redis. induction calls as [|call calls IH]; intros now memory redis Hsorted Hexact Hagree; [done|].
  apply Sorted_inv in Hsorted as [Hsorted Hle%HdRel_inv]. apply Forall_cons in Hexact as [Hnow Hexact].
  destruct (login_event_agrees call memory redis) as (redis' & Hevent & Hagree'); [by eapply stores_agree_later|done|].
  cbn [login_events]. rewrite Hevent. destruct (login_event tenant_id policy call memory) as [event memory'].
  cbn [fst]. f_equal. by eapply IH.
Qed.
End refinement.

(** C22: As long as the server answers and its clock neither runs backwards nor
    gains on the one of the callers, the store over Redis decides every login as
    the map in memory does: on the same logins, at times that do not run backwards,
    both admit the same logins, and both answer the same, with the same times to
    wait. The limit is a u32 and times are below 10^14, where the numbers of Lua
    are exact. *)
Theorem redis_store_refines_memory {L : Lua} {Laws : LuaLaws L} `{Sha256} {U : UuidDisplay}
    key_prefix tenant_id policy connection server_time calls :
  max_failures policy <= u32_max → lua_exact (window_seconds (sanitized policy)) → clock_keeps_up server_time →
  (∀ n, connection n = Answered) → Sorted Z.le (lc_now <$> calls) → Forall lua_exact (lc_now <$> calls) →
  login_events tenant_id policy calls (I := redis_store connection server_time key_prefix) (mkRedisStore ∅ 0)
  = login_events tenant_id policy calls (mkInMemoryStore ∅).
Proof.
  intros Hlimit Hwindow Hclock Hanswered Hsorted Hexact.
  apply (login_events_agree key_prefix tenant_id policy Hlimit Hwindow server_time Hclock connection Hanswered
           (default 0 (head (lc_now <$> calls)))); [by apply sorted_from_first|done|].
  intros fingerprint. cbn. by rewrite !lookup_empty.
Qed.

Lemma redis_decision_unanswered {L : Lua} {U : UuidDisplay} connection server_time key_prefix script key now policy store decision store' :
  redis_decision connection server_time key_prefix script key now policy store = (decision, store') →
  rd_commands store' = S (rd_commands store) ∧
  (connection (rd_commands store) ≠ Answered → decision = fail_closed_decision policy).
Proof.
  unfold redis_decision, eval_decision_script, redis_command.
  destruct (match tonumber _ with Some _ => _ | None => _ end) as [response data].
  destruct (connection (rd_commands store)); cbn [mbind result_bind]; intros [= <- <-]; done.
Qed.

(** Without an answer of the server the store over Redis refuses: a login
    whose check is not answered is refused for the length of the window before
    its password is looked at, and a login is told of wrong credentials only when
    the server has confirmed that the failure is counted. *)
Theorem redis_store_fails_closed {L : Lua} `{Sha256} {U : UuidDisplay} key_prefix tenant_id policy connection server_time call redis :
  let n := rd_commands redis in
  let event := (login_event tenant_id policy call (I := redis_store connection server_time key_prefix) redis).1 in
  (connection n ≠ Answered →
   lv_admitted event = false ∧ lv_outcome event = LoginRateLimited (window_seconds (sanitized policy))) ∧
  (lv_outcome event = InvalidCredentials → connection n = Answered ∧ connection (S n) = Answered).
Proof.
  pose proof (login_cases tenant_id policy call (I := redis_store connection server_time key_prefix) redis) as Hcases. cbn zeta.
  destruct (login_event _ _ _ redis) as [event redis']. cbn [fst]. cbn [check record_failure redis_store] in Hcases.
  set (key := call_key tenant_id call) in *.
  destruct (redis_decision _ _ _ REDIS_CHECK_SCRIPT _ _ _ redis) as [decision redis1] eqn:Hcheck.
  destruct (redis_decision _ _ _ REDIS_RECORD_FAILURE_SCRIPT _ _ _ redis1) as [recorded redis2] eqn:Hrecord.
  destruct Hcases as (_ & _ & Hadmitted & Hcases).
  apply redis_decision_unanswered in Hcheck as [Hcount Hcheck]. apply redis_decision_unanswered in Hrecord as [_ Hrecord].
  rewrite Hcount in Hrecord. split.
  - intros Hno. rewrite (Hcheck Hno) in *. destruct Hcases as [-> _]. split; [done|]. cbn. f_equal. lia.
  - intros Hout. rewrite Hout in Hcases. unfold failure_outcome in Hcases.
    split; apply dec_stable; intros Hno; [rewrite (Hcheck Hno) in *; by destruct Hcases|].
    rewrite (Hrecord Hno) in *. destruct (is_limited decision); [by destruct Hcases|].
    by destruct Hcases as [[? _]|[[? _]|[? _]]].
Qed.

(** ** What the reader reads *)

(** The bytes of a response, after the description of the protocol. *)
Fixpoint encode_response (response : RedisResponse) : bytes :=
  match response with
  | Simple value => "+"%char :: as_bytes value ++ crlf
  | Error => "-"%char :: as_bytes "ERR" ++ crlf
  | Integer value => ":"%char :: display_u128 value ++ crlf
  | Bulk None => "$"%char :: as_bytes "-1" ++ crlf
  | Bulk (Some body) => "$"%char :: display_u128 (Z.of_nat (length body)) ++ crlf ++ body ++ crlf
  | Array items => "*"%char :: display_u128 (Z.of_nat (length items)) ++ crlf ++ List.flat_map encode_response items
  end.

(** One line of ASCII; numbers of 64 bits, and no negative ones. *)
Definition line_character (c : ascii) : bool := (byte_val c <? 128) && negb (bool_decide (c = "010"%char)).

Fixpoint sendable (response : RedisResponse) : bool :=
  match response with
  | Simple value => List.forallb line_character (as_bytes value)
  | Error | Bulk None => true
  | Integer value => (0 <=? value) && (value <=? i64_max)
  | Bulk (Some body) => Z.of_nat (length body) <=? i64_max
  | Array items => (Z.of_nat (length items) <=? i64_max) && List.forallb sendable items
  end.

Lemma read_line_app l rest : "010"%char ∉ l → read_line (l ++ crlf ++ rest) = (l ++ crlf, rest).
Proof.
  induction l as [|b l IH]; intros Hl; [done|]. apply not_elem_of_cons in Hl as [Hne Hl]. cbn -[crlf].
  rewrite bool_decide_false by done. by rewrite IH.
Qed.

Lemma read_redis_line_app l rest :
  List.forallb line_character l = true → read_redis_line (l ++ crlf ++ rest) = Ok (l, rest).
Proof.
  intros Hl. unfold read_redis_line. rewrite forallb_elem in Hl.
  assert (∀ c, c ∈ l → byte_val c < 128 ∧ c ≠ "010"%char) as Hc
    by (intros c Hin; specialize (Hl c Hin); unfold line_character in Hl; bool_to_prop; auto).
  rewrite read_line_app by (intros Hin; by apply Hc in Hin as [_ ?]). unfold is_utf8.
  rewrite from_utf8_lossy_ascii, bool_decide_true by (done ||
    (apply Forall_app; split; [by apply Forall_forall; intros c [? _]%Hc|by repeat constructor])).
  cbn [negb]. by rewrite strip_suffix_app.
Qed.

Lemma display_line n : 0 <= n → List.forallb line_character (display_u128 n) = true.
Proof.
  intros Hn. destruct (display_u128_spec n Hn) as (Hd & _). apply forallb_elem. intros c Hc.
  unfold all_digits in Hd. rewrite Forall_forall in Hd. specialize (Hd c Hc). revert Hd.
  by destruct c as [[] [] [] [] [] [] [] []].
Qed.

Lemma read_redis_number_app n rest :
  0 <= n <= i64_max → read_redis_number (display_u128 n ++ crlf ++ rest) = Ok (n, rest).
Proof.
  intros Hn. unfold read_redis_number. rewrite read_redis_line_app by (apply display_line; lia).
  cbn [mbind result_bind]. by rewrite parse_i64_display.
Qed.

Lemma read_exact_app body rest : read_exact (length body) (body ++ rest) = Ok (body, rest).
Proof.
  unfold read_exact. rewrite (proj2 (Nat.ltb_ge _ _)) by (rewrite length_app; lia).
  by rewrite take_app_length, drop_app_length.
Qed.

Lemma read_items_app read items acc rest :
  (∀ item rest, item ∈ items → read (encode_response item ++ rest) = Ok (item, rest)) →
  read_items read (length items) acc (List.flat_map encode_response items ++ rest) = Ok (Array (acc ++ items), rest).
Proof.
  revert acc. induction items as [|item items IH]; intros acc Hread; cbn; [by rewrite app_nil_r|].
  rewrite <-app_assoc, Hread by by left. cbn [mbind result_bind].
  rewrite IH by (intros ? ? ?; apply Hread; by right). by rewrite <-app_assoc.
Qed.

Lemma flat_map_length_le item items :
  item ∈ items → (length (encode_response item) <= length (List.flat_map encode_response items))%nat.
Proof.
  induction 1 as [items|x items Hin IH]; cbn; rewrite length_app; lia.
Qed.

Lemma read_encoded fuel response rest :
  (length (encode_response response) <= fuel)%nat → sendable response = true →
  read_redis_response fuel (encode_response response ++ rest) = Ok (response, rest).
Proof.
  revert response rest. induction fuel as [|fuel IH]; intros response rest Hfuel Hsend.
  { destruct response as [| | |[]|]; cbn in Hfuel; lia. }
  destruct response as [value| |value|[body|]|items]; cbn [encode_response sendable length] in *;
    rewrite <-app_comm_cons, <-?app_assoc; cbn [read_redis_response];
    rewrite ?bool_decide_true, ?bool_decide_false by done; bool_to_prop.
  - rewrite read_redis_line_app by done. cbn. by rewrite from_as_bytes.
  - done.
  - rewrite read_redis_number_app by lia. done.
  - rewrite read_redis_number_app by lia. cbn [mbind result_bind]. rewrite (proj2 (Z.ltb_ge _ _)) by lia.
    replace (Z.to_nat (Z.of_nat (length body)) + 2)%nat with (length (body ++ crlf)) by (rewrite length_app; cbn; lia).
    rewrite (app_assoc body), read_exact_app. cbn [mbind result_bind]. by rewrite strip_suffix_app.
  - done.
  - rewrite read_redis_number_app by lia. cbn [mbind result_bind]. rewrite (proj2 (Z.ltb_ge _ _)), Nat2Z.id by lia.
    rewrite read_items_app; [done|]. intros item rest' Hin. apply IH.
    + rewrite !length_app in Hfuel. pose proof (flat_map_length_le item items Hin). lia.
    + match goal with H : List.forallb _ _ = true |- _ => rewrite forallb_elem in H; auto end.
Qed.

(** Reading shortens the input. *)
Lemma read_line_length l : l = (read_line l).1 ++ (read_line l).2.
Proof. induction l as [|b l IH]; cbn; [done|]. case_bool_decide; [done|]. destruct (read_line l). cbn in *. by rewrite <-IH. Qed.

Lemma read_redis_line_shrinks reader line rest :
  read_redis_line reader = Ok (line, rest) → (length rest <= length reader)%nat.
Proof.
  unfold read_redis_line. rewrite (read_line_length reader) at 2. destruct (read_line reader) as [l rest'].
  destruct (negb _); cbn; [done|]. destruct (strip_suffix _ _); [|done]. intros [= _ <-]. rewrite length_app. lia.
Qed.

Lemma read_redis_number_shrinks reader n rest :
  read_redis_number reader = Ok (n, rest) → (length rest <= length reader)%nat.
Proof.
  unfold read_redis_number. destruct (read_redis_line reader) as [[line rest']|] eqn:Hline; cbn; [|done].
  destruct (parse_i64 _); cbn; [|done]. intros [= _ <-]. by eapply read_redis_line_shrinks.
Qed.

Lemma read_items_shrinks read n acc reader response rest :
  (∀ reader item rest, read reader = Ok (item, rest) → (length rest <= length reader)%nat) →
  read_items read n acc reader = Ok (response, rest) → (length rest <= length reader)%nat.
Proof.
  intros Hread. revert acc reader. induction n as [|n IH]; intros acc reader; cbn; [by intros [= _ <-]|].
  destruct (read reader) as [[item reader']|] eqn:Hitem; cbn; [|done]. intros Hrest%IH. apply Hread in Hitem. lia.
Qed.

Lemma read_redis_response_shrinks fuel reader response rest :
  read_redis_response fuel reader = Ok (response, rest) → (length rest < length reader)%nat.
Proof.
  revert reader response rest. induction fuel as [|fuel IH]; intros [|prefix reader] response rest; try done.
  cbn [read_redis_response length]. intros Hread. apply Nat.lt_succ_r.
  repeat case_bool_decide; try done;
    match type of Hread with context [mbind _ (?read reader)] => destruct (read reader) as [[x reader']|] eqn:Hx; [|done] end;
    cbn [mbind result_bind] in Hread;
    (apply read_redis_line_shrinks in Hx || apply read_redis_number_shrinks in Hx); try (by simplify_eq).
  - destruct (x <? 0); [by simplify_eq|]. unfold read_exact in Hread. destruct (_ <? _)%nat; [done|]. cbn in Hread.
    destruct (strip_suffix _ _); simplify_eq. rewrite length_drop. lia.
  - destruct (x <? 0); [by simplify_eq|]. apply read_items_shrinks in Hread; [lia|].
    intros ? ? ? ?%IH. lia.
Qed.

Lemma read_items_ext read read' n acc reader :
  (∀ reader', (length reader' <= length reader)%nat → read reader' = read' reader') →
  (∀ reader item rest, read reader = Ok (item, rest) → (length rest <= length reader)%nat) →
  read_items read n acc reader = read_items read' n acc reader.
Proof.
  revert acc reader. induction n as [|n IH]; intros acc reader Hext Hshrinks; [done|]. cbn. rewrite <-Hext by done.
  destruct (read reader) as [[item reader']|] eqn:Hitem; [|done]. cbn. apply IH; [|done].
  intros reader'' ?. apply Hext. apply Hshrinks in Hitem. lia.
Qed.

(** The length of the input is fuel enough. *)
Lemma read_fuel_enough fuel reader :
  (length reader <= fuel)%nat → read_redis_response fuel reader = read_redis_response (length reader) reader.
Proof.
  enough (∀ fuel fuel' reader, (length reader <= fuel)%nat → (length reader <= fuel')%nat →
    read_redis_response fuel reader = read_redis_response fuel' reader) as Hany by auto.
  clear. induction fuel as [|fuel IH]; intros [|fuel'] [|prefix reader] Hle Hle'; cbn [length] in *; try done; try lia.
  cbn [read_redis_response]. repeat case_bool_decide; try done.
  destruct (read_redis_number reader) as [[n reader']|] eqn:Hn; [|done]. cbn. destruct (n <? 0); [done|].
  apply read_redis_number_shrinks in Hn. apply read_items_ext.
  - intros reader'' ?. apply IH; lia.
  - intros ? ? ? ?%read_redis_response_shrinks. lia.
Qed.

(** The reader of the protocol reads what is sent: of a stream that begins
    with the encoding of a response it returns that response and leaves the rest,
    for every nesting of arrays, and the commands are written in that encoding.
    On any input, the length of the input bounds the depth of the recursion. *)
Theorem redis_protocol_roundtrip :
  (∀ response rest, sendable response = true →
     let input := encode_response response ++ rest in
     read_redis_response (length input) input = Ok (response, rest)) ∧
  (∀ parts, encode_redis_command parts = encode_response (Array ((λ part, Bulk (Some part)) <$> parts))) ∧
  (∀ fuel input, (length input <= fuel)%nat → read_redis_response fuel input = read_redis_response (length input) input).
Proof.
  split_and!; [|intros parts|apply read_fuel_enough].
  - intros response rest Hsend. apply read_encoded; [rewrite length_app; lia|done].
  - unfold encode_redis_command. cbn [encode_response]. rewrite length_fmap. cbn -[crlf display_u128].
    rewrite <-app_assoc. do 2 f_equal. f_equal. induction parts as [|part parts IH]; [done|].
    cbn -[crlf display_u128]. rewrite <-IH. by rewrite <-!app_assoc.
Qed.

(** ** Examples *)

Section examples.
(** Stand-ins for the hash and the numbers of Lua. *)
#[local] Instance plain_hash : Sha256 := λ value, value.
#[local] Existing Instance uuid_display_model.

#[local] Ltac sorted_times :=
  cbn; repeat first [apply Sorted_nil | apply Sorted_cons | apply HdRel_nil | apply HdRel_cons]; lia.

#[local] Instance decimal_lua : Lua := {
  tonumber text := parse_i64 (from_bytes text);
  tostring := display_u128;
}.

#[local] Instance decimal_lua_laws : LuaLaws decimal_lua.
Proof.
  split; unfold lua_exact; intros n Hn; [apply parse_i64_display; unfold i64_max; lia..|].
  intros Hin. destruct (display_u128_spec n) as (Hd & _); [lia|]. unfold all_digits in Hd.
  rewrite Forall_forall in Hd. by apply Hd in Hin.
Qed.

Definition unknown_user (time : Z) : LoginCall :=
  mkLoginCall time "root" false (mkLoginEnv (Ok None) (λ _, Ok false) (Ok tt)).

Definition right_password (time : Z) : LoginCall :=
  mkLoginCall time "ROOT " false (mkLoginEnv (Ok (Some (Some "hash"))) (λ _, Ok true) (Ok tt)).

Definition two_in_ten : LoginFailureRateLimitPolicy := mkLoginPolicy 2 10.

(** Three failures within ten seconds with a limit of two: the bound is reached. *)
Lemma login_failures_bounded_witness :
  let calls := unknown_user <$> [0; 9; 9; 10; 10; 10] in
  let key := call_key 1 (unknown_user 0) in
  failures_of key (login_events 1 two_in_ten calls (mkInMemoryStore ∅)) = [0; 9; 10; 10] ∧
  Z.of_nat (length (List.filter (λ time, (1 <=? time) && (time <? 1 + 10))
    (failures_of key (login_events 1 two_in_ten calls (mkInMemoryStore ∅))))) <= 3.
Proof.
  split; [vm_compute; reflexivity|].
  apply (login_failures_bounded 1 two_in_ten); [vm_compute; discriminate|sorted_times|].
  intros event Hin _. vm_compute in Hin.
  repeat (apply elem_of_cons in Hin as [->|Hin]; [discriminate|]). by apply elem_of_nil in Hin.
Defined.

(** The second failure locks the account, also for the right password. *)
Lemma lockout_is_exact_witness :
  let calls := [unknown_user 100; unknown_user 103; right_password 104] in
  let store := login_after 1 two_in_ten calls (mkInMemoryStore ∅) in
  lv_admitted (login_event 1 two_in_ten (right_password 109) store).1 = false ∧
  lv_admitted (login_event 1 two_in_ten (right_password 110) store).1 = true.
Proof.
  assert (∀ time, 104 <= time → Sorted Z.le (lc_now <$> [unknown_user 100] ++ unknown_user 103 :: [right_password 104]
    ++ [right_password time])) as Hsorted by (intros time Hle; sorted_times).
  split;
    [rewrite (lockout_is_exact 1 two_in_ten [unknown_user 100] (unknown_user 103) [right_password 104] (right_password 109) 7)
    |rewrite (lockout_is_exact 1 two_in_ten [unknown_user 100] (unknown_user 103) [right_password 104] (right_password 110) 7)];
    try (vm_compute; reflexivity); try (apply Hsorted; lia); try (vm_compute; discriminate);
    intros c ->%list_elem_of_singleton; vm_compute; reflexivity.
Defined.

Lemma redis_store_refines_memory_witness :
  login_events 1 two_in_ten (I := redis_store (λ _, Answered) (λ now, now + 3600) "login") (unknown_user <$> [100; 103; 104; 111]) (mkRedisStore ∅ 0)
  = login_events 1 two_in_ten (unknown_user <$> [100; 103; 104; 111]) (mkInMemoryStore ∅).
Proof.
  apply redis_store_refines_memory; [vm_compute; discriminate|split; vm_compute; congruence|intros a b ?; lia|done|sorted_times|].
  repeat constructor; vm_compute; congruence.
Defined.
End examples.
