(* ===== verification/Access.v ===== *)
(** Access to the administration interface: the roles and permissions of
    crates/auth/src/rbac.rs, the middleware of apps/control-plane/src/rbac.rs that
    decides which permission a request needs, the table of capabilities it
    publishes, the router of apps/control-plane/src/admin.rs, and the roles that
    apps/control-plane/src/auth_repo.rs reads from the memberships of a user. The
    published table says what the middleware enforces. *)

From S2P Require Export Ledger.

#[local] Open Scope string_scope.
#[local] Open Scope list_scope.
#[local] Open Scope Z_scope.

(** ** Roles and permissions *)

Inductive Role : Type := Owner | Admin | Ops | Billing | Developer | Viewer.

Inductive Permission : Type :=
| TenantAdmin | ProjectAdmin | ProviderManage | KeyManage | BillingRead | BillingAdjust | LogReadMetadata
| LogReadPayload | AuditRead | SystemConfig.

#[export] Instance role_eq_dec : EqDecision Role.
Proof. solve_decision. Defined.

#[export] Instance permission_eq_dec : EqDecision Permission.
Proof. solve_decision. Defined.

Inductive RoleParseError : Type := RoleEmpty | RoleUnsupported (raw : string).

Inductive AccessControlError : Type := MissingRole | PermissionDenied (permission : Permission).

(** [Role::ALL]. *)
Definition ALL_ROLES : list Role := [Owner; Admin; Ops; Billing; Developer; Viewer].

(** [Role::as_str]. *)
Definition role_as_str (role : Role) : string :=
  match role with
  | Owner => "owner"
  | Admin => "admin"
  | Ops => "ops"
  | Billing => "billing"
  | Developer => "developer"
  | Viewer => "viewer"
  end.

Definition role_allows (role : Role) (permission : Permission) : bool :=
  match role with
  | Owner => true
  | Admin =>
      match permission with
      | TenantAdmin | ProjectAdmin | ProviderManage | KeyManage | BillingRead | LogReadMetadata | LogReadPayload
      | AuditRead => true
      | _ => false
      end
  | Ops => match permission with ProviderManage | KeyManage | LogReadMetadata | AuditRead => true | _ => false end
  | Billing => match permission with BillingRead | BillingAdjust => true | _ => false end
  | Developer => match permission with KeyManage | LogReadMetadata => true | _ => false end
  | Viewer => match permission with BillingRead | LogReadMetadata | AuditRead => true | _ => false end
  end.

Definition any_role_allows (roles : list Role) (permission : Permission) : bool :=
  List.existsb (λ role, role_allows role permission) roles.

Definition require_permission (roles : list Role) (permission : Permission) : result AccessControlError () :=
  fail_if bool_decide (roles = []) with MissingRole ;;
  if any_role_allows roles permission then Ok tt else Err (PermissionDenied permission).

(** [Role::from_str]. *)
Definition role_from_str (raw : string) : result RoleParseError Role :=
  let normalized := to_ascii_lowercase (str_trim raw) in
  fail_if bool_decide (normalized = "") with RoleEmpty ;;
  if bool_decide (normalized = "owner") then Ok Owner
  else if bool_decide (normalized = "admin") then Ok Admin
  else if bool_decide (normalized = "ops") then Ok Ops
  else if bool_decide (normalized = "billing") then Ok Billing
  else if bool_decide (normalized = "developer") then Ok Developer
  else if bool_decide (normalized = "viewer") then Ok Viewer
  else Err (RoleUnsupported raw).

(** *** The roles of a user *)

(** [Role::ALL.iter().position(..)]. *)
Definition role_rank (role : Role) : nat :=
  match list_find (λ candidate, candidate = role) ALL_ROLES with
  | Some (rank, _) => rank
  | None => length ALL_ROLES
  end.

Definition sort_roles (roles : list Role) : list Role :=
  sort_by (λ a b, bool_decide (role_rank a <= role_rank b)%nat) roles.

(** The loop over the rows of the query of the memberships. *)
Definition push_role (roles : list Role) (raw_role : string) : list Role :=
  match role_from_str raw_role with
  | Ok role => if bool_decide (role ∈ roles) then roles else roles ++ [role]
  | Err _ => roles
  end.

Definition list_user_roles (rows : list string) : list Role := sort_roles (foldl push_role [] rows).

(** ** Requests *)

Inductive Method : Type := GET | POST | PATCH | DELETE | OtherMethod.

#[export] Instance method_eq_dec : EqDecision Method.
Proof. solve_decision. Defined.

Definition method_as_str (method : Method) : string :=
  match method with GET => "GET" | POST => "POST" | PATCH => "PATCH" | DELETE => "DELETE" | OtherMethod => "" end.

(** [str::starts_with]. *)
Definition str_starts_with (s p : string) : bool := starts_with (as_bytes p) (as_bytes s).

Definition path_is (path : string) (constants : list string) : bool :=
  List.existsb (λ constant, bool_decide (path = constant)) constants.

Definition is_public_admin_path (path : string) : bool :=
  path_is path ["/admin/auth/login"; "/admin/auth/logout"; "/admin/auth/me"; "/healthz"; "/readyz"].

Definition request_logs_path (path : string) : bool :=
  path_is path ["/admin/request-logs"] || str_starts_with path "/admin/request-logs/"
  || str_starts_with path "/admin/traces/".

Definition audit_logs_path (path : string) : bool := path_is path ["/admin/audit-logs"].

Definition subscription_scheduler_event_execute_path (path : string) : bool :=
  str_starts_with path "/admin/subscriptions/scheduler-events/" && str_ends_with path "/execute-plan".

Definition subscription_scheduler_event_lease_path (path : string) : bool :=
  str_starts_with path "/admin/subscriptions/scheduler-events/" && str_ends_with path "/lease".

Definition credit_grant_read_detail_path (path : string) : bool :=
  str_starts_with path "/admin/credit-grants/" && negb (str_ends_with path "/expire")
  && negb (str_ends_with path "/revoke").

Definition credit_grant_lifecycle_write_path (path : string) : bool :=
  str_starts_with path "/admin/credit-grants/" && (str_ends_with path "/expire" || str_ends_with path "/revoke").

Definition voucher_lifecycle_write_path (path : string) : bool :=
  (str_starts_with path "/admin/voucher-issuances/" && str_ends_with path "/revoke")
  || (str_starts_with path "/admin/voucher-issuance-batches/" && str_ends_with path "/revoke").

Definition voucher_batch_read_detail_path (path : string) : bool :=
  str_starts_with path "/admin/voucher-issuance-batches/" && negb (str_ends_with path "/revoke").

Definition wallet_remaining_balance_path (path : string) : bool :=
  str_starts_with path "/billing/wallets/" && str_ends_with path "/remaining-balance".

Definition billing_read_path (path : string) : bool :=
  path_is path
    ["/admin/billing/reconciliation"; "/admin/price-versions"; "/admin/ledger/entries"; "/admin/credit-grants";
     "/admin/voucher-issuances"; "/admin/subscriptions/scheduler-worker";
     "/admin/subscriptions/run-due-scheduler-events"]
  || subscription_scheduler_event_execute_path path || voucher_batch_read_detail_path path
  || credit_grant_read_detail_path path || wallet_remaining_balance_path path.

Definition billing_adjust_path (method : Method) (path : string) : bool :=
  bool_decide (method = POST)
  && path_is path
       ["/admin/price-versions"; "/admin/credit-grants"; "/admin/voucher-issuances";
        "/admin/voucher-issuance-batches"; "/admin/ledger/adjustments/dry-run";
        "/admin/subscriptions/scheduler-plan"; "/billing/vouchers/redeem"; "/billing/opening-balance-imports"]
  || (bool_decide (method = POST) && subscription_scheduler_event_lease_path path)
  || (bool_decide (method = POST) && subscription_scheduler_event_execute_path path)
  || (bool_decide (method = POST) && (credit_grant_lifecycle_write_path path || voucher_lifecycle_write_path path)).

Definition alert_webhook_path (path : string) : bool := path_is path ["/admin/alerts/webhook/dry-run"].

Definition prompt_eval_shadow_path (path : string) : bool := path_is path ["/admin/prompt-eval-shadow/dry-run"].

Definition provider_manage_path (path : string) : bool :=
  path_is path
    ["/admin/distribution/readiness"; "/admin/providers"; "/admin/channels"; "/admin/models";
     "/admin/model-associations"]
  || str_starts_with path "/admin/providers/" || str_starts_with path "/admin/channels/"
  || str_starts_with path "/admin/models/" || str_starts_with path "/admin/model-associations/".

Definition key_manage_path (path : string) : bool :=
  path_is path
    ["/admin/provider-keys"; "/admin/enterprise/identity-connections";
     "/admin/enterprise/identity-connections/validation-plan";
     "/admin/enterprise/identity-connections/oidc/validate-code-plan";
     "/admin/enterprise/identity-connections/oidc/execute-validated-login";
     "/admin/enterprise/identity-connections/saml/validate-acs-plan";
     "/admin/enterprise/identity-connections/saml/execute-validated-acs"; "/admin/enterprise/identity-bindings/plan";
     "/admin/enterprise/identity-sessions/issue-plan"; "/admin/enterprise/accounts";
     "/admin/enterprise/sales-dashboard"; "/admin/settings/network-security"; "/admin/api-key-profiles";
     "/admin/virtual-keys"]
  || str_starts_with path "/admin/provider-keys/" || str_starts_with path "/admin/api-key-profiles/"
  || str_starts_with path "/admin/virtual-keys/".

Definition user_manage_path (path : string) : bool :=
  path_is path ["/admin/users"] || str_starts_with path "/admin/users/".

Definition permission_for_admin_request (method : Method) (path : string) : option Permission :=
  if request_logs_path path then Some LogReadMetadata
  else if audit_logs_path path then Some AuditRead
  else if billing_adjust_path method path then Some BillingAdjust
  else if billing_read_path path then Some BillingRead
  else if alert_webhook_path path then Some ProviderManage
  else if prompt_eval_shadow_path path then Some ProviderManage
  else if provider_manage_path path then Some ProviderManage
  else if key_manage_path path then Some KeyManage
  else if user_manage_path path then Some KeyManage
  else None.

(** ** The middleware *)

Definition role_allows_control_plane_permission (role : Role) (permission : Permission) : bool :=
  match permission with
  | KeyManage => match role with Owner | Admin | Ops => true | _ => false end
  | _ => role_allows role permission
  end.

Definition control_plane_roles_allow_permission (roles : list Role) (permission : Permission) : bool :=
  negb (bool_decide (roles = []))
  && List.existsb (λ role, role_allows_control_plane_permission role permission) roles.

(** [str::trim_matches] of a character. *)
Fixpoint trim_start_matches (c : ascii) (l : bytes) : bytes :=
  match l with
  | [] => []
  | b :: l' => if bool_decide (b = c) then trim_start_matches c l' else l
  end.

Definition trim_matches (c : ascii) (l : bytes) : bytes :=
  rev (trim_start_matches c (rev (trim_start_matches c l))).

Definition wallet_id_from_remaining_balance_path `{UuidParse} (path : string) : option Uuid :=
  value ← strip_prefix (as_bytes "/billing/wallets/") (as_bytes path);
  value ← strip_suffix (as_bytes "/remaining-balance") value;
  uuid_parse_str (from_bytes (trim_matches "/"%char value)).

Inductive AuthError : Type := unauthorized | forbidden | service_unavailable | bad_request.

Inductive RemainingBalancePrincipalSource : Type := UserSession | DeveloperToken.

Record RemainingBalancePrincipal : Type := mkPrincipal {
  rp_source : RemainingBalancePrincipalSource;
  rp_tenant_id : Uuid;
  rp_project_id : Uuid;
  rp_user_id : option Uuid;
  rp_virtual_key_id : option Uuid;
  rp_wallet_id : Uuid;
  rp_currency : string;
}.

Record AdminSession : Type := mkAdminSession {
  as_session_id : Uuid;
  as_tenant_id : Uuid;
  as_roles : list Role;
}.

Definition has_any_role (session : AdminSession) : bool := negb (bool_decide (as_roles session = [])).

(** What the database holds on the headers of a request: the active session of
    their token, with the roles of the memberships of its user, and the principal
    their token stands for with respect to a wallet. *)
Record StoredSession : Type := mkStoredSession {
  ss_session_id : Uuid;
  ss_tenant_id : Uuid;
  ss_memberships : list string;
}.

Record Credentials : Type := mkCredentials {
  find_active_session : result AuthError StoredSession;
  authenticate_remaining_balance_principal : Uuid → result AuthError RemainingBalancePrincipal;
}.

Definition authenticate_headers (credentials : Credentials) : result AuthError AdminSession :=
  session ← find_active_session credentials;
  Ok (mkAdminSession (ss_session_id session) (ss_tenant_id session) (list_user_roles (ss_memberships session))).

(** What the middleware does with a request: it runs the handler, with what it
    has put into the extensions of the request, or answers itself. *)
Inductive Extension : Type :=
| NoExtension
| SessionExtension (session : AdminSession)
| PrincipalExtension (principal : RemainingBalancePrincipal).

Inductive Verdict : Type := RunHandler (extension : Extension) | Answer (error : AuthError).

Definition session_allows (session : AdminSession) (permission : Permission) : bool :=
  if bool_decide (permission = KeyManage) then control_plane_roles_allow_permission (as_roles session) permission
  else is_ok (require_permission (as_roles session) permission).

Definition principal_verdict `{UuidParse} (credentials : Credentials) (path : string) : Verdict :=
  match wallet_id_from_remaining_balance_path path with
  | None => Answer forbidden
  | Some wallet_id =>
      match authenticate_remaining_balance_principal credentials wallet_id with
      | Ok principal => RunHandler (PrincipalExtension principal)
      | Err error => Answer error
      end
  end.

Definition require_admin_rbac `{UuidParse} (credentials : Credentials) (method : Method) (path : string) : Verdict :=
  if is_public_admin_path path then RunHandler NoExtension
  else
    let permission := permission_for_admin_request method path in
    if wallet_remaining_balance_path path then
      match authenticate_headers credentials with
      | Ok session =>
          if has_any_role session
             && match permission with Some permission => session_allows session permission | None => true end
          then RunHandler (SessionExtension session)
          else principal_verdict credentials path
      | Err _ => principal_verdict credentials path
      end
    else
      match authenticate_headers credentials with
      | Err error => Answer error
      | Ok session =>
          if negb (has_any_role session) then Answer forbidden
          else
            match permission with
            | Some permission =>
                if session_allows session permission then RunHandler (SessionExtension session) else Answer forbidden
            | None => RunHandler (SessionExtension session)
            end
      end.

(** ** The published capabilities *)

Record ControlPlaneCapability : Type := mkCapability {
  cc_key : string;
  cc_method : string;
  cc_path : string;
  required_permission : option Permission;
  credential_sensitive_read : bool;
  cc_secret_safe : bool;
}.

Record ControlPlaneCapabilitySummary : Type := mkCapabilitySummary {
  cs_roles : list string;
  cs_personas : list string;
  cs_allowed : list string;
  cs_denied : list string;
  cs_secret_safe : bool;
}.

Definition CONTROL_PLANE_CAPABILITIES : list ControlPlaneCapability := [
  mkCapability "provider.read" "GET" "/admin/providers" (Some ProviderManage) true true;
  mkCapability "provider.manage" "PATCH" "/admin/providers/{id}" (Some ProviderManage) false true;
  mkCapability "key.read" "GET" "/admin/provider-keys" (Some KeyManage) true true;
  mkCapability "key.manage" "POST" "/admin/provider-keys" (Some KeyManage) false true;
  mkCapability "user.manage.read" "GET" "/admin/users" (Some KeyManage) false true;
  mkCapability "user.status.manage" "PATCH" "/admin/users/{id}/status" (Some KeyManage) false true;
  mkCapability "enterprise_identity.read" "GET" "/admin/enterprise/identity-connections" (Some KeyManage) true true;
  mkCapability "enterprise_identity.validation_plan" "GET"
    "/admin/enterprise/identity-connections/validation-plan" (Some KeyManage) true true;
  mkCapability "enterprise_identity.oidc_validate_code_plan" "POST"
    "/admin/enterprise/identity-connections/oidc/validate-code-plan" (Some KeyManage) true true;
  mkCapability "enterprise_identity.oidc_execute_validated_login" "POST"
    "/admin/enterprise/identity-connections/oidc/execute-validated-login" (Some KeyManage) true true;
  mkCapability "enterprise_identity.saml_validate_acs_plan" "POST"
    "/admin/enterprise/identity-connections/saml/validate-acs-plan" (Some KeyManage) true true;
  mkCapability "enterprise_identity.saml_execute_validated_acs" "POST"
    "/admin/enterprise/identity-connections/saml/execute-validated-acs" (Some KeyManage) true true;
  mkCapability "enterprise_identity.binding_plan" "POST"
    "/admin/enterprise/identity-bindings/plan" (Some KeyManage) true true;
  mkCapability "enterprise_identity.session_issue_plan" "POST"
    "/admin/enterprise/identity-sessions/issue-plan" (Some KeyManage) true true;
  mkCapability "enterprise_accounts.read" "GET" "/admin/enterprise/accounts" (Some KeyManage) true true;
  mkCapability "enterprise_sales_dashboard.read" "GET" "/admin/enterprise/sales-dashboard" (Some KeyManage) true true;
  mkCapability "enterprise_accounts.write" "PATCH" "/admin/enterprise/accounts" (Some KeyManage) false true;
  mkCapability "provider_key.recovery" "POST" "/admin/provider-keys/{id}/recovery" (Some KeyManage) false true;
  mkCapability "provider_key.rotate" "POST" "/admin/provider-keys/{id}/rotate" (Some KeyManage) false true;
  mkCapability "request_log.read" "GET" "/admin/request-logs" (Some LogReadMetadata) false true;
  mkCapability "request_log.payload_preview" "GET"
    "/admin/request-logs/{id}/payload" (Some LogReadMetadata) false true;
  mkCapability "trace.read" "GET" "/admin/traces/{trace_id}" (Some LogReadMetadata) false true;
  mkCapability "audit.read" "GET" "/admin/audit-logs" (Some AuditRead) false true;
  mkCapability "billing.read" "GET" "/admin/ledger/entries" (Some BillingRead) false true;
  mkCapability "price.read" "GET" "/admin/price-versions" (Some BillingRead) false true;
  mkCapability "reconciliation.read" "GET" "/admin/billing/reconciliation" (Some BillingRead) false true;
  mkCapability "credit_grant.read" "GET" "/admin/credit-grants" (Some BillingRead) false true;
  mkCapability "credit_grant.read_detail" "GET" "/admin/credit-grants/{id}" (Some BillingRead) false true;
  mkCapability "wallet.remaining_balance.read" "GET"
    "/billing/wallets/{id}/remaining-balance" (Some BillingRead) false true;
  mkCapability "price_version.create" "POST" "/admin/price-versions" (Some BillingAdjust) false true;
  mkCapability "credit_grant.create" "POST" "/admin/credit-grants" (Some BillingAdjust) false true;
  mkCapability "credit_grant.expire" "POST" "/admin/credit-grants/{id}/expire" (Some BillingAdjust) false true;
  mkCapability "credit_grant.revoke" "POST" "/admin/credit-grants/{id}/revoke" (Some BillingAdjust) false true;
  mkCapability "voucher.read" "GET" "/admin/voucher-issuances" (Some BillingRead) false true;
  mkCapability "voucher.issue" "POST" "/admin/voucher-issuances" (Some BillingAdjust) false true;
  mkCapability "voucher.revoke" "POST" "/admin/voucher-issuances/{id}/revoke" (Some BillingAdjust) false true;
  mkCapability "voucher.issue_batch" "POST" "/admin/voucher-issuance-batches" (Some BillingAdjust) false true;
  mkCapability "voucher.batch_read" "GET"
    "/admin/voucher-issuance-batches/{batch_hash}" (Some BillingRead) false true;
  mkCapability "voucher.batch_revoke" "POST"
    "/admin/voucher-issuance-batches/{batch_hash}/revoke" (Some BillingAdjust) false true;
  mkCapability "voucher.redeem" "POST" "/billing/vouchers/redeem" (Some BillingAdjust) false true;
  mkCapability "ledger_adjustment.dry_run" "POST" "/admin/ledger/adjustments/dry-run" (Some BillingAdjust) false true;
  mkCapability "manual_test.run" "POST" "/admin/channels/{id}/manual-test" (Some ProviderManage) false true;
  mkCapability "provider_health.read" "GET" "/admin/providers/health-summary" (Some ProviderManage) true true;
  mkCapability "distribution_readiness.read" "GET" "/admin/distribution/readiness" (Some ProviderManage) true true;
  mkCapability "alert_webhook.validate" "POST" "/admin/alerts/webhook/dry-run" (Some ProviderManage) false true;
  mkCapability "prompt_eval_shadow.validate" "POST"
    "/admin/prompt-eval-shadow/dry-run" (Some ProviderManage) false true;
  mkCapability "health.liveness" "GET" "/healthz" None false true;
  mkCapability "health.readiness" "GET" "/readyz" None false true
].

Definition role_persona (role : Role) : string :=
  match role with
  | Owner => "SuperAdmin"
  | Admin => "TenantAdmin"
  | Ops => "Ops"
  | Billing => "Billing"
  | Developer => "Developer"
  | Viewer => "Viewer"
  end.

Definition capability_allowed_for_roles (roles : list Role) (capability : ControlPlaneCapability) : bool :=
  match required_permission capability with
  | Some permission => control_plane_roles_allow_permission roles permission
  | None => true
  end.

Definition capability_summary_for_roles (roles : list Role) : ControlPlaneCapabilitySummary :=
  let '(allowed, denied) :=
    foldl (λ '(allowed, denied) capability,
        if capability_allowed_for_roles roles capability then (allowed ++ [cc_key capability], denied)
        else (allowed, denied ++ [cc_key capability]))
      ([], []) CONTROL_PLANE_CAPABILITIES in
  mkCapabilitySummary (role_as_str <$> roles) (role_persona <$> roles) allowed denied true.

(** ** The routes *)

Definition ADMIN_ROUTES : list (string * list Method) := [
  ("/admin/setup/readback", [GET]);
  ("/admin/production/read-model/status", [GET]);
  ("/admin/enterprise/identity-connections", [GET]);
  ("/admin/enterprise/identity-connections/validation-plan", [GET]);
  ("/admin/enterprise/identity-connections/oidc/validate-code-plan", [POST]);
  ("/admin/enterprise/identity-connections/oidc/jwks-validator-executor", [POST]);
  ("/admin/enterprise/identity-connections/oidc/execute-validated-login", [POST]);
  ("/admin/enterprise/identity-connections/saml/validate-acs-plan", [POST]);
  ("/admin/enterprise/identity-connections/saml/xml-signature-parser-executor", [POST]);
  ("/admin/enterprise/identity-connections/saml/execute-validated-acs", [POST]);
  ("/admin/enterprise/identity-bindings/plan", [POST]);
  ("/admin/enterprise/identity-sessions/issue-plan", [POST]);
  ("/admin/enterprise/accounts", [GET; POST; PATCH]);
  ("/admin/enterprise/sales-dashboard", [GET]);
  ("/admin/workers/jobs-dashboard", [GET]);
  ("/admin/enterprise/accounts/provisioning-plan", [POST]);
  ("/admin/enterprise/accounts/provisioning-apply", [POST]);
  ("/admin/enterprise/accounts/invite-delivery-plan", [POST]);
  ("/admin/enterprise/accounts/invite-delivery-apply", [POST]);
  ("/admin/distribution/readiness", [GET]);
  ("/admin/settings/network-security", [GET; PATCH]);
  ("/admin/providers", [GET; POST]);
  ("/admin/providers/health-summary", [GET]);
  ("/admin/providers/{id}", [GET; PATCH; DELETE]);
  ("/admin/channels", [GET; POST]);
  ("/admin/channels/{id}", [GET; PATCH; DELETE]);
  ("/admin/channels/{id}/manual-test", [POST]);
  ("/admin/provider-keys", [GET; POST]);
  ("/admin/provider-keys/{id}", [GET; PATCH; DELETE]);
  ("/admin/provider-keys/{id}/recovery", [POST]);
  ("/admin/provider-keys/{id}/rotate", [POST]);
  ("/admin/api-key-profiles", [GET; POST]);
  ("/admin/api-key-profiles/{id}", [GET; PATCH; DELETE]);
  ("/admin/virtual-keys", [GET; POST]);
  ("/admin/virtual-keys/bulk-leak-action", [POST]);
  ("/admin/virtual-keys/leak-candidates", [GET]);
  ("/admin/virtual-keys/external-scanner/handoff", [POST]);
  ("/admin/virtual-keys/{id}", [GET]);
  ("/admin/virtual-keys/{id}/disable", [POST]);
  ("/admin/virtual-keys/{id}/restore", [POST]);
  ("/admin/virtual-keys/{id}/expire", [POST]);
  ("/admin/projects/{id}/members-summary", [GET]);
  ("/admin/users", [GET]);
  ("/admin/users/bulk-status", [POST]);
  ("/admin/users/bulk-operation-plan", [POST]);
  ("/admin/users/{id}/detail", [GET]);
  ("/admin/users/{id}/status", [PATCH]);
  ("/admin/models", [GET; POST]);
  ("/admin/models/{id}", [GET; PATCH; DELETE]);
  ("/admin/model-associations", [GET; POST]);
  ("/admin/model-associations/dry-run", [POST]);
  ("/admin/prompt-eval-shadow/dry-run", [POST]);
  ("/admin/model-associations/{id}", [GET; PATCH; DELETE]);
  ("/admin/request-logs", [GET]);
  ("/admin/request-logs/export.csv", [GET]);
  ("/admin/request-logs/{id}/payload", [GET]);
  ("/admin/request-logs/{id}", [GET]);
  ("/admin/traces/{trace_id}", [GET]);
  ("/admin/audit-logs", [GET]);
  ("/admin/alerts/webhook/dry-run", [POST]);
  ("/admin/price-versions", [GET; POST]);
  ("/admin/subscription-plans", [GET; POST]);
  ("/admin/subscription-plans/{id}", [GET; PATCH]);
  ("/admin/subscriptions/scheduler-plan", [POST]);
  ("/admin/subscriptions/scheduler-worker", [GET]);
  ("/admin/subscriptions/run-due-scheduler-events", [POST]);
  ("/admin/subscriptions/scheduler-events/{id}/lease", [POST]);
  ("/admin/subscriptions/scheduler-events/{id}/execute-plan", [POST]);
  ("/admin/ledger/entries", [GET]);
  ("/admin/wallets", [GET]);
  ("/admin/wallets/{wallet_id}", [GET]);
  ("/billing/wallets/{wallet_id}/remaining-balance", [GET]);
  ("/admin/credit-grants", [GET; POST]);
  ("/admin/credit-grants/{credit_grant_id}", [GET]);
  ("/admin/credit-grants/{credit_grant_id}/expire", [POST]);
  ("/admin/credit-grants/{credit_grant_id}/revoke", [POST]);
  ("/admin/ledger/adjustments/dry-run", [POST]);
  ("/admin/billing/reconciliation", [GET]);
  ("/admin/billing/payment-demo/orders", [POST]);
  ("/admin/billing/payment-demo/orders/{order_id}/mark-paid", [POST]);
  ("/admin/billing/payment-provider/simulator/events", [POST]);
  ("/admin/billing/payment-provider/config-status", [GET]);
  ("/admin/billing/payment-provider/merchant-credential", [PATCH]);
  ("/admin/billing/payment-provider/executor", [POST]);
  ("/billing/payment-provider/webhooks/{provider}", [POST]);
  ("/billing/opening-balance-imports", [POST]);
  ("/admin/importer/apply-runs", [POST]);
  ("/admin/importer/apply-runs/readback", [GET; POST]);
  ("/admin/voucher-issuances", [GET; POST]);
  ("/admin/voucher-issuances/{id}/revoke", [POST]);
  ("/admin/voucher-issuance-batches", [POST]);
  ("/admin/voucher-issuance-batches/{batch_hash}", [GET]);
  ("/admin/voucher-issuance-batches/{batch_hash}/revoke", [POST]);
  ("/billing/vouchers/redeem", [POST])
].

(** ** Paths by segments *)

Definition segments (path : string) : list bytes := split_on "/"%char (as_bytes path).

Fixpoint join_segments (parts : list bytes) : bytes :=
  match parts with
  | [] => []
  | [part] => part
  | part :: parts => part ++ "/"%char :: join_segments parts
  end.

Lemma split_join_segments parts :
  parts ≠ [] → Forall (λ part, "/"%char ∉ part) parts → split_on "/"%char (join_segments parts) = parts.
Proof.
  induction parts as [|part parts IH]; intros Hne Hparts; [done|]. apply Forall_cons in Hparts as [Hpart Hparts].
  destruct parts as [|part' parts]; [by apply split_on_none|]. cbn [join_segments] in *.
  rewrite split_on_app by done. f_equal. by apply IH.
Qed.

Lemma join_split_segments l : join_segments (split_on "/"%char l) = l.
Proof.
  apply (split_on_ind "/"%char (λ l parts, join_segments parts = l)); [done|]. intros part rest Hpart Hrest.
  destruct (split_on "/"%char rest) as [|part' parts] eqn:Hsplit; [by apply split_on_not_nil in Hsplit|].
  cbn [join_segments] in *. by rewrite Hrest.
Qed.

Lemma segments_inj path path' : segments path = segments path' → path = path'.
Proof.
  unfold segments. intros Heq. apply (f_equal join_segments) in Heq. rewrite !join_split_segments in Heq.
  apply (f_equal from_bytes) in Heq. by rewrite !from_as_bytes in Heq.
Qed.

(** Some segments, followed by at least one more. *)
Fixpoint begins_with (prefix parts : list bytes) : bool :=
  match prefix, parts with
  | [], _ :: _ => true
  | a :: prefix, b :: parts => bool_decide (a = b) && begins_with prefix parts
  | _, [] => false
  end.

Lemma begins_with_iff prefix parts : begins_with prefix parts = true ↔ ∃ rest, parts = prefix ++ rest ∧ rest ≠ [].
Proof.
  revert parts. induction prefix as [|a prefix IH]; intros [|b parts]; cbn.
  - split; [done|]. by intros ([] & ? & ?).
  - split; [eauto|done].
  - split; [done|]. by intros (? & ? & ?).
  - rewrite andb_true_iff, bool_decide_eq_true, IH. split; [intros [-> (rest & -> & ?)]|intros (rest & [= -> ->] & ?)]; eauto.
Qed.

Lemma split_on_snoc_app c l1 l2 : split_on c (l1 ++ c :: l2) = split_on c l1 ++ split_on c l2.
Proof.
  apply (split_on_ind c (λ l parts, split_on c (l ++ c :: l2) = parts ++ split_on c l2)).
  - intros l Hl. by rewrite split_on_app.
  - intros part rest Hpart Hrest. rewrite <-app_assoc. cbn. by rewrite split_on_app, Hrest.
Qed.

Lemma join_segments_app parts rest :
  parts ≠ [] → rest ≠ [] → join_segments (parts ++ rest) = join_segments parts ++ "/"%char :: join_segments rest.
Proof.
  intros Hparts Hrest. induction parts as [|part parts IH]; [done|].
  destruct parts as [|part' parts]; [by destruct rest|]. cbn [app join_segments] in *. by rewrite IH, <-app_assoc.
Qed.

Lemma starts_with_segments path prefix :
  str_starts_with path (prefix +:+ "/") = begins_with (segments prefix) (segments path).
Proof.
  apply eq_true_iff_eq. unfold str_starts_with, segments. rewrite starts_with_iff, begins_with_iff, as_bytes_app. split.
  - intros [rest Hrest]. rewrite Hrest, <-app_assoc. cbn. rewrite split_on_snoc_app. eauto using split_on_not_nil.
  - intros (rest & Hsplit & Hne). apply (f_equal join_segments) in Hsplit.
    rewrite join_segments_app, !join_split_segments in Hsplit by (done || apply split_on_not_nil).
    rewrite Hsplit. exists (join_segments rest). by rewrite <-app_assoc.
Qed.

(** A last segment, after at least one other. *)
Definition finishes_with (part : bytes) (parts : list bytes) : bool :=
  match reverse parts with
  | last :: _ :: _ => bool_decide (last = part)
  | _ => false
  end.

Lemma finishes_with_iff part parts : finishes_with part parts = true ↔ ∃ rest, parts = rest ++ [part] ∧ rest ≠ [].
Proof.
  unfold finishes_with. destruct parts as [|last parts _] using rev_ind; [split; [done|]; intros ([] & ? & ?); done|].
  rewrite reverse_snoc. split.
  - destruct parts as [|x parts _] using rev_ind; [done|]. rewrite reverse_snoc. intros ->%bool_decide_eq_true.
    exists (parts ++ [x]). split; [done|]. by destruct parts.
  - intros (rest & [-> [= ->]]%app_inj_tail & Hne). destruct rest as [|x rest _] using rev_ind; [done|].
    rewrite reverse_snoc. by apply bool_decide_eq_true.
Qed.

Lemma ends_with_segments path part :
  "/"%char ∉ as_bytes part → str_ends_with path ("/" +:+ part) = finishes_with (as_bytes part) (segments path).
Proof.
  intros Hpart. apply eq_true_iff_eq. unfold str_ends_with, segments. rewrite finishes_with_iff. split.
  - destruct (strip_suffix _ _) as [rest|] eqn:Hstrip; [|done]. apply strip_suffix_Some in Hstrip. intros _.
    rewrite Hstrip, as_bytes_app. cbn. rewrite split_on_snoc_app, (split_on_none _ (as_bytes part)) by done.
    eauto using split_on_not_nil.
  - intros (rest & Hsplit & Hne). apply (f_equal join_segments) in Hsplit.
    rewrite join_segments_app, join_split_segments in Hsplit by done. rewrite Hsplit, as_bytes_app. cbn [join_segments].
    by rewrite strip_suffix_app.
Qed.

(** ** Path templates *)

Definition is_parameter (part : bytes) : bool := starts_with (as_bytes "{") part.

(** A template with its parameters replaced by a segment. *)
Definition fill (segment : bytes) (part : bytes) : bytes := if is_parameter part then segment else part.

Definition instantiate (template : string) (segment : bytes) : string :=
  from_bytes (join_segments (fill segment <$> segments template)).

(** The words of the paths the middleware compares with. *)
Definition path_constants : list string := [
  "/admin/auth/login"; "/admin/auth/logout"; "/admin/auth/me"; "/healthz"; "/readyz"; "/admin/request-logs";
  "/admin/traces"; "/admin/audit-logs"; "/admin/subscriptions/scheduler-events"; "/execute-plan"; "/lease";
  "/admin/credit-grants"; "/expire"; "/revoke"; "/admin/voucher-issuances"; "/admin/voucher-issuance-batches";
  "/billing/wallets"; "/remaining-balance"; "/admin/billing/reconciliation"; "/admin/price-versions";
  "/admin/ledger/entries"; "/admin/subscriptions/scheduler-worker"; "/admin/subscriptions/run-due-scheduler-events";
  "/admin/ledger/adjustments/dry-run"; "/admin/subscriptions/scheduler-plan"; "/billing/vouchers/redeem";
  "/billing/opening-balance-imports"; "/admin/alerts/webhook/dry-run"; "/admin/prompt-eval-shadow/dry-run";
  "/admin/distribution/readiness"; "/admin/providers"; "/admin/channels"; "/admin/models";
  "/admin/model-associations"; "/admin/provider-keys"; "/admin/enterprise/identity-connections";
  "/admin/enterprise/identity-connections/validation-plan";
  "/admin/enterprise/identity-connections/oidc/validate-code-plan";
  "/admin/enterprise/identity-connections/oidc/execute-validated-login";
  "/admin/enterprise/identity-connections/saml/validate-acs-plan";
  "/admin/enterprise/identity-connections/saml/execute-validated-acs"; "/admin/enterprise/identity-bindings/plan";
  "/admin/enterprise/identity-sessions/issue-plan"; "/admin/enterprise/accounts";
  "/admin/enterprise/sales-dashboard"; "/admin/settings/network-security"; "/admin/api-key-profiles";
  "/admin/virtual-keys"; "/admin/users"
].

Definition path_words : list bytes := path_constants ≫= segments.

(** A segment that is one of an id or a hash: not one of the words. *)
Definition plain_segment (segment : bytes) : bool :=
  negb (bool_decide ("/"%char ∈ segment)) && negb (bool_decide (segment ∈ path_words)).

Lemma segments_instantiate template segment :
  "/"%char ∉ segment → segments (instantiate template segment) = fill segment <$> segments template.
Proof.
  intros Hsegment. unfold instantiate, segments at 1. rewrite as_from_bytes. apply split_join_segments.
  - intros Hnil%fmap_nil_inv. by apply split_on_not_nil in Hnil.
  - apply Forall_fmap, Forall_forall. intros part Hpart. unfold compose, fill. destruct (is_parameter part); [done|].
    pose proof (split_on_no_sep "/"%char (as_bytes template)) as Hsep. rewrite Forall_forall in Hsep. by apply Hsep.
Qed.

Section plain.
Context (s s' : bytes).

(** Two segments are treated alike by a list of words neither is in. *)
Lemma fill_eq (words parts : list bytes) :
  s ∉ words → s' ∉ words → bool_decide (fill s <$> parts = words) = bool_decide (fill s' <$> parts = words).
Proof.
  intros Hs Hs'. apply bool_decide_ext. revert words Hs Hs'.
  induction parts as [|part parts IH]; intros [|word words] Hs Hs'; cbn; [done..|].
  apply not_elem_of_cons in Hs as [Hne Hs], Hs' as [Hne' Hs'].
  specialize (IH words Hs Hs'). unfold fill at 1 3. destruct (is_parameter part).
  - split; intros [= ? ?]; congruence.
  - split; intros [= -> Heq]; f_equal; by apply IH.
Qed.

Lemma fill_begins (words parts : list bytes) :
  s ∉ words → s' ∉ words → begins_with words (fill s <$> parts) = begins_with words (fill s' <$> parts).
Proof.
  revert parts. induction words as [|word words IH]; intros [|part parts] Hs Hs'; cbn; [done..|].
  apply not_elem_of_cons in Hs as [Hne Hs], Hs' as [Hne' Hs']. rewrite (IH parts) by done.
  f_equal. unfold fill. destruct (is_parameter part); [|done]. by rewrite !bool_decide_false.
Qed.

Lemma fill_finishes (word : bytes) (parts : list bytes) :
  s ≠ word → s' ≠ word → finishes_with word (fill s <$> parts) = finishes_with word (fill s' <$> parts).
Proof.
  intros Hs Hs'. unfold finishes_with. rewrite <-!fmap_reverse.
  destruct (reverse parts) as [|part [|part' rest]]; cbn; [done..|].
  unfold fill. destruct (is_parameter part); [|done]. by rewrite !bool_decide_false.
Qed.
End plain.

(** Requests that differ in a plain segment need the same permission. *)
Section requests.
Context (template : string) (s s' : bytes).
Context (Hs : plain_segment s = true) (Hs' : plain_segment s' = true).

Lemma plain_words segment c :
  plain_segment segment = true → c ∈ path_constants → ("/"%char ∉ segment) ∧ (segment ∉ segments c).
Proof.
  unfold plain_segment. intros Hplain Hc. bool_to_prop. split; [done|]. intros Hin.
  match goal with H : segment ∉ path_words |- _ => apply H end. apply list_elem_of_bind. eauto.
Qed.

Lemma plain_no_slash segment : plain_segment segment = true → "/"%char ∉ segment.
Proof. unfold plain_segment. intros Hplain. by bool_to_prop. Qed.

Lemma path_is_plain constants :
  List.forallb (λ c, bool_decide (c ∈ path_constants)) constants = true →
  path_is (instantiate template s) constants = path_is (instantiate template s') constants.
Proof.
  intros Hconstants. unfold path_is. induction constants as [|c constants IH]; [done|]. cbn in *. bool_to_prop.
  rewrite IH by done. f_equal.
  assert (∀ segment, plain_segment segment = true →
    bool_decide (instantiate template segment = c) = bool_decide (fill segment <$> segments template = segments c)) as Heq.
  { intros segment Hplain. rewrite <-segments_instantiate by by apply plain_no_slash. apply bool_decide_ext.
    split; [by intros ->|apply segments_inj]. }
  rewrite !Heq by done. apply fill_eq; by apply plain_words.
Qed.

Lemma starts_with_plain prefix :
  List.existsb (λ c, bool_decide (prefix = c +:+ "/")) path_constants = true →
  str_starts_with (instantiate template s) prefix = str_starts_with (instantiate template s') prefix.
Proof.
  intros (c & Hc & ->%bool_decide_eq_true)%existsb_elem.
  rewrite !starts_with_segments, !segments_instantiate by by apply plain_no_slash.
  apply fill_begins; by apply plain_words.
Qed.

Lemma ends_with_plain suffix :
  List.existsb (λ c, bool_decide (suffix = c ∧ segments c = [[]; drop 1 (as_bytes c)])) path_constants = true →
  str_ends_with (instantiate template s) suffix = str_ends_with (instantiate template s') suffix.
Proof.
  intros (c & Hc & [-> Hsplit]%bool_decide_eq_true)%existsb_elem.
  assert ("/"%char ∉ drop 1 (as_bytes c)) as Hpart.
  { pose proof (split_on_no_sep "/"%char (as_bytes c)) as Hsep. fold (segments c) in Hsep. rewrite Hsplit in Hsep.
    by apply Forall_cons in Hsep as [_ [? _]%Forall_cons]. }
  assert (c = "/" +:+ from_bytes (drop 1 (as_bytes c))) as Hword.
  { rewrite <-(from_as_bytes c) at 1. rewrite <-(join_split_segments (as_bytes c)). fold (segments c). by rewrite Hsplit. }
  rewrite Hword, !ends_with_segments, !segments_instantiate by (by rewrite ?as_from_bytes || by apply plain_no_slash).
  rewrite as_from_bytes. apply fill_finishes; intros ->; destruct (plain_words (drop 1 (as_bytes c)) c) as [_ Hnot]; try done;
    apply Hnot; rewrite Hsplit; by right; left.
Qed.
End requests.

Lemma permission_plain method template s s' :
  plain_segment s = true → plain_segment s' = true →
  permission_for_admin_request method (instantiate template s)
  = permission_for_admin_request method (instantiate template s') ∧
  is_public_admin_path (instantiate template s) = is_public_admin_path (instantiate template s').
Proof.
  intros Hs Hs'.
  unfold permission_for_admin_request, is_public_admin_path, request_logs_path, audit_logs_path, billing_adjust_path,
    billing_read_path, alert_webhook_path, prompt_eval_shadow_path, provider_manage_path, key_manage_path,
    user_manage_path, subscription_scheduler_event_execute_path, subscription_scheduler_event_lease_path,
    credit_grant_read_detail_path, credit_grant_lifecycle_write_path, voucher_lifecycle_write_path,
    voucher_batch_read_detail_path, wallet_remaining_balance_path.
  rewrite !(path_is_plain template s s' Hs Hs') by (vm_compute; reflexivity).
  rewrite !(starts_with_plain template s s' Hs Hs') by (vm_compute; reflexivity).
  rewrite !(ends_with_plain template s s' Hs Hs') by (vm_compute; reflexivity).
  done.
Qed.

(** ** Who gets through *)

Lemma push_role_elem roles raw role : role ∈ push_role roles raw ↔ role ∈ roles ∨ role_from_str raw = Ok role.
Proof.
  unfold push_role. destruct (role_from_str raw) as [parsed|error]; [|naive_solver].
  case_bool_decide as Hin; [naive_solver|]. rewrite elem_of_app, list_elem_of_singleton. naive_solver.
Qed.

Lemma list_user_roles_elem rows role :
  role ∈ list_user_roles rows ↔ ∃ raw, raw ∈ rows ∧ role_from_str raw = Ok role.
Proof.
  unfold list_user_roles, sort_roles. rewrite elem_of_sort_by.
  enough (∀ roles, role ∈ foldl push_role roles rows ↔
    role ∈ roles ∨ ∃ raw, raw ∈ rows ∧ role_from_str raw = Ok role) as Hfold
    by (rewrite Hfold, elem_of_nil; naive_solver).
  induction rows as [|raw rows IH]; intros roles; cbn; [set_solver|].
  rewrite IH, push_role_elem. setoid_rewrite elem_of_cons. naive_solver.
Qed.

Lemma session_allows_iff session permission :
  session_allows session permission = true ↔
  ∃ role, role ∈ as_roles session ∧ role_allows_control_plane_permission role permission = true.
Proof.
  unfold session_allows, control_plane_roles_allow_permission, require_permission, any_role_allows.
  rewrite <-existsb_elem. destruct (as_roles session) as [|role roles]; [by destruct permission|].
  rewrite !bool_decide_false with (P := role :: roles = []) by done.
  case_bool_decide as Hkey; [done|]. unfold role_allows_control_plane_permission. destruct permission; try done;
    cbn -[List.existsb]; by destruct (List.existsb _ _).
Qed.

(** What the roles of a session allow a request. *)
Definition roles_admit (roles : list Role) (method : Method) (path : string) : Prop :=
  ∃ role, role ∈ roles ∧ ∀ permission, permission_for_admin_request method path = Some permission →
    role_allows_control_plane_permission role permission = true.

Lemma roles_admit_iff session method path :
  has_any_role session && match permission_for_admin_request method path with
                          | Some permission => session_allows session permission
                          | None => true
                          end = true ↔ roles_admit (as_roles session) method path.
Proof.
  unfold roles_admit, has_any_role. destruct (permission_for_admin_request method path) as [permission|].
  - rewrite andb_true_iff, session_allows_iff, negb_true_iff, bool_decide_eq_false. split.
    + intros (_ & role & Hin & Hallowed). exists role. split; [done|]. by intros ? [= <-].
    + intros (role & Hin & Hallowed). split; [by intros Hnil; rewrite Hnil in Hin; apply elem_of_nil in Hin|eauto].
  - rewrite andb_true_r, negb_true_iff, bool_decide_eq_false. split.
    + destruct (as_roles session) as [|role roles]; [done|]. intros _. exists role. split; [by left|done].
    + intros (role & Hin & _) Hnil. rewrite Hnil in Hin. by apply elem_of_nil in Hin.
Qed.

Lemma principal_verdict_iff `{UuidParse} credentials path :
  (∃ extension, principal_verdict credentials path = RunHandler extension) ↔
  ∃ wallet_id principal, wallet_id_from_remaining_balance_path path = Some wallet_id ∧
    authenticate_remaining_balance_principal credentials wallet_id = Ok principal.
Proof.
  unfold principal_verdict. split.
  - intros (extension & Hrun). repeat case_match; simplify_eq. eauto.
  - intros (wallet_id & principal & -> & ->). eauto.
Qed.

Lemma require_admin_rbac_session `{UuidParse} credentials method path :
  is_public_admin_path path = false →
  require_admin_rbac credentials method path
  = match authenticate_headers credentials with
    | Ok session =>
        if has_any_role session && match permission_for_admin_request method path with
                                   | Some permission => session_allows session permission
                                   | None => true
                                   end
        then RunHandler (SessionExtension session)
        else if wallet_remaining_balance_path path
        then principal_verdict credentials path
        else Answer forbidden
    | Err error =>
        if wallet_remaining_balance_path path
        then principal_verdict credentials path
        else Answer error
    end.
Proof.
  intros Hpublic. unfold require_admin_rbac. rewrite Hpublic. destruct (wallet_remaining_balance_path path); [done|].
  destruct (authenticate_headers credentials) as [session|error]; [|done]. destruct (has_any_role session); [|done]. cbn.
  destruct (permission_for_admin_request method path); [|done]. by destruct (session_allows _ _).
Qed.

(** C12: Outside the public paths, a request reaches its handler exactly when a
    membership of the user of its session names a role that has the permission
    the request needs (any role, when it needs none), or when it asks for the
    remaining balance of a wallet with a token that is good for that wallet. *)
Theorem admin_access_exact `{UuidParse} credentials method path :
  is_public_admin_path path = false →
  (∃ extension, require_admin_rbac credentials method path = RunHandler extension) ↔
  (∃ session raw role,
     find_active_session credentials = Ok session ∧ raw ∈ ss_memberships session ∧ role_from_str raw = Ok role ∧
     ∀ permission, permission_for_admin_request method path = Some permission →
       role_allows_control_plane_permission role permission = true) ∨
  (wallet_remaining_balance_path path = true ∧
   ∃ wallet_id principal, wallet_id_from_remaining_balance_path path = Some wallet_id ∧
     authenticate_remaining_balance_principal credentials wallet_id = Ok principal).
Proof.
  intros Hpublic. rewrite require_admin_rbac_session by done.
  assert ((∃ session, authenticate_headers credentials = Ok session ∧ roles_admit (as_roles session) method path) ↔
    ∃ session raw role,
     find_active_session credentials = Ok session ∧ raw ∈ ss_memberships session ∧ role_from_str raw = Ok role ∧
     ∀ permission, permission_for_admin_request method path = Some permission →
       role_allows_control_plane_permission role permission = true) as <-.
  { unfold authenticate_headers, roles_admit. destruct (find_active_session credentials) as [stored|]; cbn; [|naive_solver].
    split.
    - intros (session & [= <-] & role & (raw & Hraw & Hrole)%list_user_roles_elem & Hallowed). eauto 10.
    - intros (? & raw & role & [= <-] & Hraw & Hrole & Hallowed). eexists. split; [done|]. exists role.
      split; [apply list_user_roles_elem; eauto|done]. }
  destruct (authenticate_headers credentials) as [session|error] eqn:Hauth.
  - pose proof (roles_admit_iff session method path) as Hadmit. destruct (has_any_role session && _).
    + split; [intros _; left; exists session; split; [done|by apply Hadmit]|eauto].
    + assert (¬ roles_admit (as_roles session) method path) as Hnot by (intros ?%Hadmit; done). split.
      * rewrite <-principal_verdict_iff. destruct (wallet_remaining_balance_path path); [auto|by intros (? & ?)].
      * intros [(? & [= <-] & ?)|[-> ?%principal_verdict_iff]]; done.
  - rewrite <-principal_verdict_iff. split.
    + destruct (wallet_remaining_balance_path path); [auto|by intros (? & ?)].
    + intros [(? & ? & ?)|[-> ?]]; done.
Qed.

(** ** The published table *)

Lemma capability_summary_elem roles key :
  key ∈ cs_allowed (capability_summary_for_roles roles) ↔
  ∃ capability, capability ∈ CONTROL_PLANE_CAPABILITIES ∧ cc_key capability = key ∧
    capability_allowed_for_roles roles capability = true.
Proof.
  unfold capability_summary_for_roles. set (f := λ '(allowed, denied) capability, _).
  enough (∀ allowed denied capabilities, key ∈ (foldl f (allowed, denied) capabilities).1 ↔
    key ∈ allowed ∨ ∃ capability, capability ∈ capabilities ∧ cc_key capability = key ∧
      capability_allowed_for_roles roles capability = true) as Hfold.
  { specialize (Hfold [] [] CONTROL_PLANE_CAPABILITIES). destruct (foldl f ([], []) CONTROL_PLANE_CAPABILITIES).
    cbn [cs_allowed fst] in *. rewrite Hfold, elem_of_nil. naive_solver. }
  intros allowed denied capabilities. revert allowed denied.
  induction capabilities as [|capability capabilities IH]; intros allowed denied; cbn; [set_solver|].
  setoid_rewrite elem_of_cons. destruct (capability_allowed_for_roles roles capability) eqn:Hallowed; rewrite IH.
  - rewrite elem_of_app, list_elem_of_singleton. split.
    + intros [[?| ->]|(c & ? & ? & ?)]; eauto 10.
    + intros [?|(c & [->|?] & ? & ?)]; [auto|left; right; by symmetry|eauto 10].
  - split; [intros [?|(c & ? & ? & ?)]; eauto 10|].
    intros [?|(c & [->|?] & ? & ?)]; [auto|congruence|eauto 10].
Qed.

(** What the middleware demands of a request that a capability describes. *)
Definition capability_checked (capability : ControlPlaneCapability) : bool :=
  List.forallb (λ method,
      let path := instantiate (cc_path capability) (as_bytes "x") in
      negb (bool_decide (method_as_str method = cc_method capability))
      || match required_permission capability with
         | Some permission =>
             bool_decide (permission_for_admin_request method path = Some permission)
             && negb (is_public_admin_path path)
         | None => is_public_admin_path path
         end)
    [GET; POST; PATCH; DELETE; OtherMethod].

Lemma capabilities_checked :
  List.forallb capability_checked CONTROL_PLANE_CAPABILITIES = true ∧ NoDup (cc_key <$> CONTROL_PLANE_CAPABILITIES).
Proof. split; [vm_compute; reflexivity|]. apply (bool_decide_unpack _). vm_compute. exact I. Qed.

Lemma control_plane_roles_allow_iff roles permission :
  control_plane_roles_allow_permission roles permission = true ↔
  ∃ role, role ∈ roles ∧ role_allows_control_plane_permission role permission = true.
Proof.
  unfold control_plane_roles_allow_permission. rewrite andb_true_iff, existsb_elem, negb_true_iff, bool_decide_eq_false.
  split; [by intros [_ ?]|]. intros (role & Hin & Hallowed). split; [by intros ->; apply elem_of_nil in Hin|eauto].
Qed.

Lemma capability_demand capability method segment :
  capability ∈ CONTROL_PLANE_CAPABILITIES → method_as_str method = cc_method capability →
  plain_segment segment = true →
  let path := instantiate (cc_path capability) segment in
  match required_permission capability with
  | Some permission =>
      permission_for_admin_request method path = Some permission ∧ is_public_admin_path path = false
  | None => is_public_admin_path path = true
  end.
Proof.
  intros Hin Hmethod Hplain. destruct capabilities_checked as [Hchecked _].
  rewrite forallb_elem in Hchecked. specialize (Hchecked _ Hin). clear Hin. unfold capability_checked in Hchecked.
  rewrite forallb_elem in Hchecked. specialize (Hchecked method ltac:(by destruct method; apply (bool_decide_unpack _))). cbn zeta in *.
  rewrite bool_decide_true in Hchecked by done. cbn [negb orb] in Hchecked.
  destruct (permission_plain method (cc_path capability) segment (as_bytes "x")) as [-> ->]; [done|by vm_compute|].
  destruct (required_permission capability); [|done]. bool_to_prop. auto.
Qed.

Lemma capability_key_allowed roles capability :
  capability ∈ CONTROL_PLANE_CAPABILITIES →
  cc_key capability ∈ cs_allowed (capability_summary_for_roles roles) ↔
  capability_allowed_for_roles roles capability = true.
Proof.
  intros Hin. rewrite capability_summary_elem. destruct capabilities_checked as [_ Hnodup]. revert Hin Hnodup.
  generalize CONTROL_PLANE_CAPABILITIES. intros capabilities Hin Hnodup. split; [|eauto].
  intros (other & Hother & Hkey & Hallowed). by rewrite <-(NoDup_fmap_eq _ _ _ _ Hnodup Hother Hin Hkey).
Qed.

(** A uuid is not one of the words of the paths. *)
Lemma uuid_segment_plain `{UuidDisplayLaws} id : in_u128 id → plain_segment (as_bytes (uuid_to_string id)) = true.
Proof.
  intros Hid. assert (List.forallb (λ word, negb (length word =? 36)%nat) path_words = true) as Hwords by (vm_compute; reflexivity).
  rewrite forallb_elem in Hwords. unfold plain_segment.
  pose proof (uuid_to_string_length id) as Hlength. unfold str_len in Hlength.
  rewrite andb_true_iff, !negb_true_iff, !bool_decide_eq_false. split.
  - intros Hslash. pose proof (uuid_to_string_chars id Hid) as Hchars. rewrite Forall_forall in Hchars.
    by destruct (Hchars _ Hslash) as [[=]|[=]].
  - intros Hword%Hwords. by rewrite Hlength in Hword.
Qed.

(** C23: The capabilities that are published to a user are the ones the
    middleware grants. Of every request that an entry of the table describes, with
    an active session, the handler runs if and only if the key of the entry is
    among the allowed ones in the summary for the roles of the user, or the request
    asks for the remaining balance of a wallet with a token that is good for that
    wallet. The parameter in the path is any text without a slash that is not
    itself one of the fixed words of the paths; no uuid is one of them. *)
Theorem capability_table_enforced `{UuidParse} credentials stored capability method segment :
  capability ∈ CONTROL_PLANE_CAPABILITIES → method_as_str method = cc_method capability →
  plain_segment segment = true → find_active_session credentials = Ok stored →
  let path := instantiate (cc_path capability) segment in
  (∃ extension, require_admin_rbac credentials method path = RunHandler extension) ↔
  cc_key capability ∈ cs_allowed (capability_summary_for_roles (list_user_roles (ss_memberships stored))) ∨
  (wallet_remaining_balance_path path = true ∧
   ∃ wallet_id principal, wallet_id_from_remaining_balance_path path = Some wallet_id ∧
     authenticate_remaining_balance_principal credentials wallet_id = Ok principal).
Proof.
  intros Hin Hmethod Hplain Hstored path. set (roles := list_user_roles (ss_memberships stored)).
  pose proof (capability_demand capability method segment Hin Hmethod Hplain) as Hdemand. fold path in Hdemand.
  rewrite capability_key_allowed by done.
  unfold capability_allowed_for_roles. destruct (required_permission capability) as [permission|]; cbn zeta in Hdemand.
  - destruct Hdemand as [Hpermission Hpublic]. rewrite require_admin_rbac_session by done.
    unfold authenticate_headers. rewrite Hstored. cbn [mbind result_bind]. fold roles. set (session := mkAdminSession _ _ _).
    pose proof (roles_admit_iff session method path) as Hadmit. unfold roles_admit in Hadmit. rewrite Hpermission in *.
    rewrite control_plane_roles_allow_iff, <-principal_verdict_iff. destruct (has_any_role session && _).
    + destruct Hadmit as [(role & Hrole & Hallowed) _]; [done|]. split; [eauto 6|eauto].
    + assert (¬ ∃ role, role ∈ roles ∧ role_allows_control_plane_permission role permission = true) as Hno.
      { intros (role & Hrole & Hallowed). destruct Hadmit as [_ Hadmit]. discriminate Hadmit. exists role. naive_solver. }
      destruct (wallet_remaining_balance_path path); [naive_solver|]. split; [by intros [? [=]]|naive_solver].
  - unfold require_admin_rbac. rewrite Hdemand. split; eauto.
Qed.

(** The routes that change something for which the middleware asks for no
    permission: the handlers of the payment and importer routes ask for one
    themselves, the others do not. *)
Definition open_writes : list (Method * string) := [
  (POST, "/admin/enterprise/identity-connections/oidc/jwks-validator-executor");
  (POST, "/admin/enterprise/identity-connections/saml/xml-signature-parser-executor");
  (POST, "/admin/enterprise/accounts/provisioning-plan"); (POST, "/admin/enterprise/accounts/provisioning-apply");
  (POST, "/admin/enterprise/accounts/invite-delivery-plan");
  (POST, "/admin/enterprise/accounts/invite-delivery-apply");
  (POST, "/admin/subscription-plans"); (PATCH, "/admin/subscription-plans/{id}");
  (POST, "/admin/billing/payment-demo/orders"); (POST, "/admin/billing/payment-demo/orders/{order_id}/mark-paid");
  (POST, "/admin/billing/payment-provider/simulator/events");
  (PATCH, "/admin/billing/payment-provider/merchant-credential");
  (POST, "/admin/billing/payment-provider/executor"); (POST, "/billing/payment-provider/webhooks/{provider}");
  (POST, "/admin/importer/apply-runs"); (POST, "/admin/importer/apply-runs/readback")
].

(** Of the routes of the administration interface that change something,
    the middleware lets any role through on exactly the sixteen listed ones,
    whatever the id in the path, and checks a permission on all others. *)
Theorem open_writes_exact template methods method segment :
  (template, methods) ∈ ADMIN_ROUTES → method ∈ methods → method ≠ GET → plain_segment segment = true →
  permission_for_admin_request method (instantiate template segment) = None ↔ (method, template) ∈ open_writes.
Proof.
  intros Hroute Hmethod Hget Hplain.
  destruct (permission_plain method template segment (as_bytes "x")) as [-> _]; [done|by vm_compute|].
  assert (List.forallb (λ '(template, methods), List.forallb (λ method,
      bool_decide (method = GET) ||
      Bool.eqb (bool_decide (permission_for_admin_request method (instantiate template (as_bytes "x")) = None))
        (bool_decide ((method, template) ∈ open_writes))) methods) ADMIN_ROUTES = true) as Hall
    by (vm_compute; reflexivity).
  rewrite forallb_elem in Hall. specialize (Hall _ Hroute). cbn beta iota in Hall.
  rewrite forallb_elem in Hall. specialize (Hall _ Hmethod). rewrite bool_decide_false in Hall by done.
  cbn [orb] in Hall. apply Bool.eqb_prop in Hall.
  rewrite <-(bool_decide_eq_true (_ = None)), Hall. apply bool_decide_eq_true.
Qed.

(** ** Examples *)

Section examples.
#[local] Instance no_uuid : UuidParse := λ _, None.

Definition billing_clerk : Credentials :=
  mkCredentials (Ok (mkStoredSession 1 2 ["guest"; " Billing"; "billing"])) (λ _, Err forbidden).

(** The clerk may revoke a voucher, but not change a provider. *)
Lemma admin_access_exact_witness :
  (∃ extension, require_admin_rbac billing_clerk POST "/admin/voucher-issuances/7/revoke" = RunHandler extension) ∧
  ¬ ∃ extension, require_admin_rbac billing_clerk PATCH "/admin/providers/7" = RunHandler extension.
Proof.
  split.
  - apply admin_access_exact; [vm_compute; reflexivity|]. left. exists (mkStoredSession 1 2 ["guest"; " Billing"; "billing"]).
    exists "billing", Billing. split_and!; [reflexivity|set_solver|vm_compute; reflexivity|].
    intros permission. vm_compute. by intros [= <-].
  - rewrite admin_access_exact by (vm_compute; reflexivity).
    intros [(session & raw & role & [= <-] & Hraw & Hrole & Hallowed)|[Hwallet _]]; [|by vm_compute in Hwallet].
    specialize (Hallowed ProviderManage ltac:(vm_compute; reflexivity)).
    repeat (apply elem_of_cons in Hraw as [->|Hraw];
      [vm_compute in Hrole; (discriminate Hrole || (injection Hrole as <-; discriminate Hallowed))|]).
    by apply elem_of_nil in Hraw.
Defined.

Lemma capability_table_enforced_witness :
  (∃ extension, require_admin_rbac billing_clerk POST
     (instantiate "/admin/credit-grants/{id}/revoke" (as_bytes "7f3c-1")) = RunHandler extension) ∧
  "credit_grant.revoke" ∈ cs_allowed (capability_summary_for_roles [Billing]).
Proof.
  set (capability := mkCapability "credit_grant.revoke" "POST" "/admin/credit-grants/{id}/revoke" (Some BillingAdjust)
    false true).
  assert ("credit_grant.revoke" ∈ cs_allowed (capability_summary_for_roles [Billing])) as Hallowed
    by (apply (bool_decide_unpack _); vm_compute; exact I).
  split; [|exact Hallowed].
  apply (capability_table_enforced billing_clerk (mkStoredSession 1 2 ["guest"; " Billing"; "billing"]) capability POST
    (as_bytes "7f3c-1")); [|reflexivity|vm_compute; reflexivity|reflexivity|left].
  - unfold CONTROL_PLANE_CAPABILITIES. subst capability. do 32 right. left.
  - exact Hallowed.
Defined.

Lemma open_writes_exact_witness :
  permission_for_admin_request PATCH (instantiate "/admin/subscription-plans/{id}" (as_bytes "7f3c-1")) = None.
Proof.
  apply (open_writes_exact "/admin/subscription-plans/{id}" [GET; PATCH]).
  - apply (bool_decide_unpack _). vm_compute. exact I.
  - set_solver.
  - discriminate.
  - vm_compute. reflexivity.
  - set_solver.
Defined.
End examples.
