(* ===== verification/Credentials.v ===== *)
(** The authentication crate: virtual keys (crates/auth/src/keys.rs), session
    tokens (sessions.rs), password hashes (passwords.rs) and the encryption of
    provider keys (provider_keys.rs). The primitives of external crates (SHA-256,
    AES-GCM, the hmac and hex crates, the simple form of a uuid) are classes with
    what their documentation says of them. *)

From S2P Require Export Ledger.

#[local] Open Scope string_scope.
#[local] Open Scope list_scope.
#[local] Open Scope Z_scope.

(** ** External primitives *)

(** The [hex] crate writes lower-case digits and reads back what it wrote. *)
Class HexCrate : Type := { hex_crate_encode : bytes → string; hex_crate_decode : string → option bytes }.

Class HexCrateLaws (X : HexCrate) : Prop := {
  hex_crate_encode_lower value : hex_crate_encode value = hex_encode value;
  hex_crate_decode_encode value : hex_crate_decode (hex_encode value) = Some value;
}.

(** [Uuid::simple]: the 32 hexadecimal digits, in lower case. *)
Class UuidSimple : Type := uuid_simple : Uuid → string.

Class UuidSimpleLaws (U : UuidSimple) : Prop := {
  uuid_simple_chars id : Forall (λ c, is_ascii_hexdigit c = true) (as_bytes (uuid_simple id));
  uuid_simple_length id : str_len (uuid_simple id) = 32%nat;
}.

(** [Hmac<Sha256>] over the concatenation of its updates. *)
Class HmacCrate : Type := hmac_crate : bytes → bytes → bytes.

(** AES-256-GCM with a key, a nonce and associated data. It is deterministic, and
    a ciphertext is accepted exactly when it is the encryption of its plaintext. *)
Class Aes256Gcm : Type := {
  gcm_encrypt (key nonce aad message : bytes) : option bytes;
  gcm_decrypt (key nonce aad ciphertext : bytes) : option bytes;
}.

Class Aes256GcmLaws (G : Aes256Gcm) : Prop :=
  gcm_decrypt_iff key nonce aad ciphertext message :
    gcm_decrypt key nonce aad ciphertext = Some message ↔ gcm_encrypt key nonce aad message = Some ciphertext.

(** ** Virtual keys *)

Definition VIRTUAL_KEY_SECRET_PREFIX : string := "vk_".
Definition VIRTUAL_KEY_PREFIX_LEN : nat := 12.

Inductive VirtualKeyError : Type := KeyEmpty | KeyTooShort.

Inductive AuthorizationError : Type := AuthMissing | AuthInvalidScheme | AuthEmpty | AuthTooShort.

Record ParsedVirtualKey : Type := mkParsedVirtualKey { vk_prefix : string; vk_secret_hash : string }.

Record GeneratedVirtualKey : Type := mkGeneratedVirtualKey { gk_secret : string; gk_prefix : string; gk_secret_hash : string }.

(** [chars().take(n).collect()]. *)
Definition take_chars (n : nat) (s : string) : string := from_bytes (concat (take n (chars s))).

Section keys.
Context {H : Sha256} {X : HexCrate} {S : UuidSimple}.

Definition hash_virtual_key (raw : string) : string := hex_crate_encode (sha256_digest (as_bytes raw)).

Definition key_prefix_for_secret (raw : string) : result VirtualKeyError string :=
  let trimmed := str_trim raw in
  fail_if bool_decide (trimmed = "") with KeyEmpty ;;
  fail_if (length (chars trimmed) <? VIRTUAL_KEY_PREFIX_LEN)%nat with KeyTooShort ;;
  Ok (take_chars VIRTUAL_KEY_PREFIX_LEN trimmed).

Definition parse_virtual_key (raw : string) : result VirtualKeyError ParsedVirtualKey :=
  let trimmed := str_trim raw in
  fail_if bool_decide (trimmed = "") with KeyEmpty ;;
  fail_if (length (chars trimmed) <? VIRTUAL_KEY_PREFIX_LEN)%nat with KeyTooShort ;;
  prefix ← key_prefix_for_secret trimmed;
  Ok (mkParsedVirtualKey prefix (hash_virtual_key trimmed)).

Definition authorization_error (error : VirtualKeyError) : AuthorizationError :=
  match error with KeyEmpty => AuthEmpty | KeyTooShort => AuthTooShort end.

Definition parse_authorization_header (header : option string) : result AuthorizationError ParsedVirtualKey :=
  header ← ok_or header AuthMissing;
  let header := str_trim header in
  fail_if bool_decide (header = "") with AuthEmpty ;;
  match split_whitespace header with
  | [] => Err AuthEmpty
  | scheme :: parts =>
      fail_if negb (eq_ignore_ascii_case scheme "bearer") with AuthInvalidScheme ;;
      match parts with
      | [] => Err AuthEmpty
      | [token] => map_err authorization_error (parse_virtual_key token)
      | _ => Err AuthInvalidScheme
      end
  end.

(** With two fresh uuids; [None] is the panic of [expect]. *)
Definition generate_virtual_key (first second : Uuid) : option GeneratedVirtualKey :=
  let secret := VIRTUAL_KEY_SECRET_PREFIX +:+ uuid_simple first +:+ uuid_simple second in
  match parse_virtual_key secret with
  | Ok parsed => Some (mkGeneratedVirtualKey secret (vk_prefix parsed) (vk_secret_hash parsed))
  | Err _ => None
  end.

End keys.

(** ** Session tokens *)

Definition SESSION_TOKEN_PREFIX : string := "sess_".
Definition SESSION_TOKEN_RANDOM_HEX_LEN : nat := 64.
Definition SESSION_TOKEN_LEN : nat := (str_len SESSION_TOKEN_PREFIX + SESSION_TOKEN_RANDOM_HEX_LEN)%nat.
Definition SESSION_TOKEN_LOOKUP_PREFIX_LEN : nat := 20.

Inductive SessionTokenError : Type := TokenEmpty | TokenInvalidPrefix | TokenInvalidLength | TokenInvalidCharacters.

Record ParsedSessionToken : Type := mkParsedSessionToken { st_prefix : string; st_token_hash : string }.

Record GeneratedSessionToken : Type := mkGeneratedSessionToken { gt_token : string; gt_prefix : string; gt_token_hash : string }.

Definition validate_session_token (raw : string) : result SessionTokenError string :=
  let token := str_trim raw in
  fail_if bool_decide (token = "") with TokenEmpty ;;
  fail_if negb (starts_with (as_bytes SESSION_TOKEN_PREFIX) (as_bytes token)) with TokenInvalidPrefix ;;
  fail_if negb (str_len token =? SESSION_TOKEN_LEN)%nat with TokenInvalidLength ;;
  fail_if negb (List.forallb is_ascii_hexdigit (drop (str_len SESSION_TOKEN_PREFIX) (as_bytes token)))
    with TokenInvalidCharacters ;;
  Ok token.

Section sessions.
Context {H : Sha256} {X : HexCrate} {S : UuidSimple}.

Definition hash_session_token (raw : string) : result SessionTokenError string :=
  token ← validate_session_token raw;
  Ok (hex_crate_encode (sha256_digest (as_bytes token))).

Definition session_token_lookup_prefix (raw : string) : result SessionTokenError string :=
  token ← validate_session_token raw;
  Ok (take_chars SESSION_TOKEN_LOOKUP_PREFIX_LEN token).

Definition parse_session_token (raw : string) : result SessionTokenError ParsedSessionToken :=
  prefix ← session_token_lookup_prefix raw;
  token_hash ← hash_session_token raw;
  Ok (mkParsedSessionToken prefix token_hash).

Definition generate_session_token (first second : Uuid) : option GeneratedSessionToken :=
  let token := SESSION_TOKEN_PREFIX +:+ uuid_simple first +:+ uuid_simple second in
  match parse_session_token token with
  | Ok parsed => Some (mkGeneratedSessionToken token (st_prefix parsed) (st_token_hash parsed))
  | Err _ => None
  end.

End sessions.

(** ** Passwords *)

Definition PASSWORD_HASH_ALGORITHM : string := "pbkdf2-sha256".
Definition PASSWORD_HASH_VERSION : string := "v1".
Definition DEFAULT_PASSWORD_HASH_ITERATIONS : Z := 210000.
Definition MIN_PASSWORD_HASH_ITERATIONS : Z := 10000.
Definition SHA256_OUTPUT_LEN : nat := 32.

Inductive PasswordHashError : Type := EmptyPassword | EmptySalt | IterationsTooLow (min actual : Z).

Inductive PasswordVerificationError : Type :=
| InvalidFormat
| UnsupportedAlgorithm
| UnsupportedVersion
| InvalidIterations
| InvalidSalt
| InvalidDigest
| HashError (error : PasswordHashError).

(** [u32::to_be_bytes]. *)
Definition to_be_bytes_u32 (n : Z) : bytes := [byte_of (n / 2 ^ 24); byte_of (n / 2 ^ 16); byte_of (n / 2 ^ 8); byte_of n].

Definition xor_bytes (left right : bytes) : bytes := zip_with byte_xor left right.

Definition constant_time_eq (left right : bytes) : bool :=
  if negb (length left =? length right)%nat then false
  else foldl (λ diff pair, Z.lor diff (byte_val (byte_xor pair.1 pair.2))) 0 (zip left right) =? 0.

Record ParsedPasswordHash : Type := mkParsedPasswordHash { ph_iterations : Z; ph_salt : bytes; ph_digest : bytes }.

Section passwords.
Context {H : Sha256} {X : HexCrate}.

(** [hmac_sha256] of passwords.rs. *)
Definition password_hmac (key data : bytes) : bytes :=
  let normalized_key := normalized_key key in
  let '(inner_pad, outer_pad) :=
    foldl (xor_pads normalized_key)
      (replicate SHA256_BLOCK_LEN (byte_of 54), replicate SHA256_BLOCK_LEN (byte_of 92)) (seq 0 SHA256_BLOCK_LEN) in
  let inner_hash := sha256_digest (inner_pad ++ data) in
  sha256_digest (outer_pad ++ inner_hash).

(** The loop, with the number of rounds that are left. *)
Fixpoint pbkdf2_rounds (rounds : nat) (password u derived : bytes) : bytes :=
  match rounds with
  | O => derived
  | S rounds => let u := password_hmac password u in pbkdf2_rounds rounds password u (xor_bytes derived u)
  end.

Definition pbkdf2_sha256 (password salt : bytes) (iterations : Z) : bytes :=
  let u := password_hmac password (salt ++ to_be_bytes_u32 1) in
  pbkdf2_rounds (Z.to_nat (iterations - 1)) password u u.

Definition derive_admin_password_digest (password : string) (salt : bytes) (iterations : Z)
    : result PasswordHashError bytes :=
  fail_if bool_decide (password = "") with EmptyPassword ;;
  fail_if bool_decide (salt = []) with EmptySalt ;;
  fail_if iterations <? MIN_PASSWORD_HASH_ITERATIONS with IterationsTooLow MIN_PASSWORD_HASH_ITERATIONS iterations ;;
  Ok (pbkdf2_sha256 (as_bytes password) salt iterations).

Definition hash_admin_password_with_salt (password : string) (salt : bytes) (iterations : Z)
    : result PasswordHashError string :=
  digest ← derive_admin_password_digest password salt iterations;
  Ok (PASSWORD_HASH_ALGORITHM +:+ "$" +:+ PASSWORD_HASH_VERSION +:+ "$" +:+ from_bytes (display_u128 iterations) +:+ "$"
      +:+ hex_crate_encode salt +:+ "$" +:+ hex_crate_encode digest).

(** [hash_admin_password], with the salt that was generated. *)
Definition hash_admin_password (password : string) (salt : bytes) : result PasswordHashError string :=
  hash_admin_password_with_salt password salt DEFAULT_PASSWORD_HASH_ITERATIONS.

Definition parse_password_hash (encoded_hash : string) : result PasswordVerificationError ParsedPasswordHash :=
  match from_bytes <$> split_on "$"%char (as_bytes encoded_hash) with
  | [algorithm; version; iterations; salt; digest] =>
      fail_if negb (bool_decide (algorithm = PASSWORD_HASH_ALGORITHM)) with UnsupportedAlgorithm ;;
      fail_if negb (bool_decide (version = PASSWORD_HASH_VERSION)) with UnsupportedVersion ;;
      iterations ← ok_or (parse_unsigned u32_max iterations) InvalidIterations;
      salt ← ok_or (hex_crate_decode salt) InvalidSalt;
      fail_if bool_decide (salt = []) with InvalidSalt ;;
      digest ← ok_or (hex_crate_decode digest) InvalidDigest;
      fail_if negb (length digest =? SHA256_OUTPUT_LEN)%nat with InvalidDigest ;;
      Ok (mkParsedPasswordHash iterations salt digest)
  | _ => Err InvalidFormat
  end.

Definition verify_admin_password (password encoded_hash : string) : result PasswordVerificationError bool :=
  parsed ← parse_password_hash encoded_hash;
  actual ← map_err HashError (derive_admin_password_digest password (ph_salt parsed) (ph_iterations parsed));
  Ok (constant_time_eq actual (ph_digest parsed)).

End passwords.

(** ** Provider keys *)

Definition PROVIDER_KEY_ENCRYPTION_ALGORITHM : string := "aes-256-gcm".
Definition PROVIDER_KEY_ENCRYPTION_VERSION : Z := 1.
Definition PROVIDER_KEY_MASTER_KEY_LEN : nat := 32.
Definition PROVIDER_KEY_NONCE_LEN : nat := 12.
Definition PROVIDER_KEY_FINGERPRINT_ALGORITHM : string := "hmac-sha256-v1".
Definition ENCRYPTION_AAD_DOMAIN : bytes := as_bytes "ai-gateway:provider-key:seal:v1".
Definition CONTEXT_AAD_DOMAIN : bytes := as_bytes "ai-gateway:provider-key:context:v1".
Definition FINGERPRINT_DOMAIN : bytes := as_bytes "ai-gateway:provider-key:fingerprint:v1".

Inductive ProviderKeyCryptoError : Type :=
| InvalidMasterKeyLength (expected actual : nat)
| EmptyMasterKeyId
| EmptySecret
| EmptyContext
| EmptyContextField (field : string)
| UnsupportedKeyVersion (version : Z)
| EncryptionFailed
| DecryptionFailed
| InvalidUtf8
| EmptyFingerprintKey.

(** A secret is not empty and a context has associated data, since they are made
    by these constructors only. *)
Record ProviderKeySecret : Type := mkProviderKeySecret { expose_secret : string }.

Record ProviderKeyContext : Type := mkProviderKeyContext { as_aad : bytes }.

Record SealedProviderKey : Type := mkSealedProviderKey {
  sk_version : Z;
  sk_master_key_id : string;
  sk_nonce : bytes;
  sk_ciphertext : bytes;
}.

Definition provider_key_secret_new (secret : string) : result ProviderKeyCryptoError ProviderKeySecret :=
  fail_if bool_decide (secret = "") with EmptySecret ;; Ok (mkProviderKeySecret secret).

(** [len() as u32] truncates. *)
Definition append_field (output : bytes) (label : string) (value : bytes) : bytes :=
  output ++ to_be_bytes_u32 (Z.of_nat (str_len label)) ++ as_bytes label
  ++ to_be_bytes_u32 (Z.of_nat (length value)) ++ value.

Definition required_context_field (field raw : string) : result ProviderKeyCryptoError string :=
  let trimmed := str_trim raw in
  fail_if bool_decide (trimmed = "") with EmptyContextField field ;; Ok trimmed.

Definition provider_key_context_new (tenant_id provider_id provider_key_id : string)
    : result ProviderKeyCryptoError ProviderKeyContext :=
  tenant_id ← required_context_field "tenant_id" tenant_id;
  provider_id ← required_context_field "provider_id" provider_id;
  provider_key_id ← required_context_field "provider_key_id" provider_key_id;
  let aad := append_field [] "domain" CONTEXT_AAD_DOMAIN in
  let aad := append_field aad "tenant_id" (as_bytes tenant_id) in
  let aad := append_field aad "provider_id" (as_bytes provider_id) in
  let aad := append_field aad "provider_key_id" (as_bytes provider_key_id) in
  Ok (mkProviderKeyContext aad).

Definition provider_key_context_from_aad (aad : bytes) : result ProviderKeyCryptoError ProviderKeyContext :=
  fail_if bool_decide (aad = []) with EmptyContext ;; Ok (mkProviderKeyContext aad).

(** [Aes256Gcm::new_from_slice] takes every key of this length. *)
Definition provider_key_cipher (master_key : bytes) : result ProviderKeyCryptoError bytes :=
  fail_if negb (length master_key =? PROVIDER_KEY_MASTER_KEY_LEN)%nat
    with InvalidMasterKeyLength PROVIDER_KEY_MASTER_KEY_LEN (length master_key) ;;
  Ok master_key.

Definition required_master_key_id (raw : string) : result ProviderKeyCryptoError string :=
  let trimmed := str_trim raw in
  fail_if bool_decide (trimmed = "") with EmptyMasterKeyId ;; Ok trimmed.

Definition encryption_aad (version : Z) (master_key_id : string) (context : ProviderKeyContext) : bytes :=
  let aad := append_field [] "domain" ENCRYPTION_AAD_DOMAIN in
  let aad := append_field aad "algorithm" (as_bytes PROVIDER_KEY_ENCRYPTION_ALGORITHM) in
  let aad := append_field aad "version" [byte_of version] in
  let aad := append_field aad "master_key_id" (as_bytes master_key_id) in
  append_field aad "context" (as_aad context).

Section provider_keys.
Context {X : HexCrate} {M : HmacCrate} {G : Aes256Gcm}.

(** With the nonce that was generated. *)
Definition seal_provider_key (nonce master_key : bytes) (master_key_id : string) (context : ProviderKeyContext)
    (secret : ProviderKeySecret) : result ProviderKeyCryptoError SealedProviderKey :=
  cipher ← provider_key_cipher master_key;
  master_key_id ← required_master_key_id master_key_id;
  let aad := encryption_aad PROVIDER_KEY_ENCRYPTION_VERSION master_key_id context in
  ciphertext ← ok_or (gcm_encrypt cipher nonce aad (as_bytes (expose_secret secret))) EncryptionFailed;
  Ok (mkSealedProviderKey PROVIDER_KEY_ENCRYPTION_VERSION master_key_id nonce ciphertext).

Definition open_provider_key (master_key : bytes) (context : ProviderKeyContext) (sealed : SealedProviderKey)
    : result ProviderKeyCryptoError ProviderKeySecret :=
  fail_if negb (sk_version sealed =? PROVIDER_KEY_ENCRYPTION_VERSION) with UnsupportedKeyVersion (sk_version sealed) ;;
  cipher ← provider_key_cipher master_key;
  let aad := encryption_aad (sk_version sealed) (sk_master_key_id sealed) context in
  plaintext ← ok_or (gcm_decrypt cipher (sk_nonce sealed) aad (sk_ciphertext sealed)) DecryptionFailed;
  secret ← ok_or (from_utf8 plaintext) InvalidUtf8;
  provider_key_secret_new secret.

Definition fingerprint_provider_key (fingerprint_key : bytes) (secret : ProviderKeySecret)
    : result ProviderKeyCryptoError string :=
  fail_if bool_decide (fingerprint_key = []) with EmptyFingerprintKey ;;
  let updates := append_field FINGERPRINT_DOMAIN "secret" (as_bytes (expose_secret secret)) in
  Ok (PROVIDER_KEY_FINGERPRINT_ALGORITHM +:+ ":" +:+ hex_crate_encode (hmac_crate fingerprint_key updates)).

End provider_keys.

(** ** Keys and tokens that were issued *)

Definition hex_text (l : bytes) : Prop := Forall (λ c, is_ascii_hexdigit c = true) l.

Lemma hexdigit_ascii c : is_ascii_hexdigit c = true → byte_val c < 128.
Proof. by intros [? _]%hexdigit_solid. Qed.

(** Visible ASCII text is not trimmed and has one character per byte. *)
Lemma solid_text l :
  Forall solid l →
  str_trim (from_bytes l) = from_bytes l ∧ length (chars (from_bytes l)) = length l ∧
  ∀ n, take_chars n (from_bytes l) = from_bytes (take n l).
Proof.
  intros Hl. assert (Forall (λ c, byte_val c < 128) l) as Hascii by (eapply Forall_impl; [exact Hl|by intros c []]).
  split_and!.
  - unfold str_trim. by rewrite as_from_bytes, trim_solid_all.
  - by rewrite chars_ascii, length_fmap.
  - intros n. unfold take_chars. by rewrite chars_ascii, <-fmap_take, concat_singletons.
Qed.

Lemma uuid_simple_solid `{UuidSimpleLaws} id : Forall solid (as_bytes (uuid_simple id)).
Proof. eapply Forall_impl; [apply uuid_simple_chars|apply hexdigit_solid]. Qed.

Section issued.
Context {H : Sha256} {X : HexCrate} {U : UuidSimple} {UL : UuidSimpleLaws U}.

Definition issued_text (prefix : string) (first second : Uuid) : bytes :=
  as_bytes prefix ++ as_bytes (uuid_simple first) ++ as_bytes (uuid_simple second).

Lemma issued_text_eq prefix first second :
  prefix +:+ uuid_simple first +:+ uuid_simple second = from_bytes (issued_text prefix first second).
Proof. unfold issued_text. by rewrite <-!as_bytes_app, from_as_bytes. Qed.

Lemma issued_text_solid prefix first second :
  Forall solid (as_bytes prefix) → Forall solid (issued_text prefix first second).
Proof. intros. unfold issued_text. rewrite !Forall_app. split_and!; [done|apply uuid_simple_solid..]. Qed.

Lemma issued_text_length prefix first second :
  length (issued_text prefix first second) = (str_len prefix + 64)%nat.
Proof.
  unfold issued_text. rewrite !length_app. fold (str_len (uuid_simple first)) (str_len (uuid_simple second)).
  rewrite !uuid_simple_length. unfold str_len. lia.
Qed.

Lemma parse_virtual_key_solid l :
  Forall solid l → (VIRTUAL_KEY_PREFIX_LEN <= length l)%nat →
  parse_virtual_key (from_bytes l) = Ok (mkParsedVirtualKey (from_bytes (take 12 l)) (hash_virtual_key (from_bytes l))).
Proof.
  intros Hl Hlen. destruct (solid_text l Hl) as (Htrim & Hchars & Htake).
  unfold VIRTUAL_KEY_PREFIX_LEN in Hlen.
  assert (from_bytes l ≠ "") as Hne
    by (intros Heq%(f_equal as_bytes); rewrite as_from_bytes in Heq; rewrite Heq in Hlen; cbn in Hlen; lia).
  unfold parse_virtual_key, key_prefix_for_secret.
  rewrite !Htrim, Hchars, !bool_decide_false, !(proj2 (Nat.ltb_ge _ _)), Htake by done. done.
Qed.

(** A generated key is a valid key, and is recognised by its prefix and hash. *)
Lemma generate_virtual_key_Some first second :
  generate_virtual_key first second
  = let secret := from_bytes (issued_text VIRTUAL_KEY_SECRET_PREFIX first second) in
    Some (mkGeneratedVirtualKey secret (take_chars 12 secret) (hash_virtual_key secret)).
Proof.
  unfold generate_virtual_key. rewrite issued_text_eq.
  assert (Forall solid (issued_text VIRTUAL_KEY_SECRET_PREFIX first second)) as Hsolid
    by (apply issued_text_solid; by repeat constructor).
  rewrite parse_virtual_key_solid; [|done|rewrite issued_text_length; by vm_compute; lia].
  cbn zeta. by rewrite (proj2 (proj2 (solid_text _ Hsolid))).
Qed.

Lemma validate_session_token_Ok raw token :
  validate_session_token raw = Ok token ↔
  token = str_trim raw ∧ ∃ digits, as_bytes token = as_bytes "sess_" ++ digits ∧ hex_text digits ∧ length digits = 64%nat.
Proof.
  unfold validate_session_token. set (trimmed := str_trim raw). split.
  - intros Hok. inv_ok. bool_to_prop. split; [done|].
    match goal with Hp : starts_with _ _ = true |- _ => apply starts_with_iff in Hp as [digits Hdigits] end.
    match goal with Hl : (_ =? _)%nat = true |- _ => apply Nat.eqb_eq in Hl; unfold str_len in Hl at 1 end.
    change (as_bytes SESSION_TOKEN_PREFIX) with (as_bytes "sess_") in Hdigits. rewrite Hdigits in *.
    exists digits. split_and!; [done| |].
    + apply Forall_forall. intros c Hc%list_elem_of_In.
      match goal with Hx : List.forallb _ _ = true |- _ => rewrite List.forallb_forall in Hx; by apply Hx end.
    + match goal with Hl : length _ = _ |- _ => by injection Hl end.
  - intros (-> & digits & Hdigits & Hhex & Hlen).
    rewrite bool_decide_false by (intros Hempty; by rewrite Hempty in Hdigits).
    rewrite (proj2 (starts_with_iff _ _)) by (by exists digits). unfold str_len at 1. rewrite Hdigits, length_app, Hlen.
    cbn. rewrite drop_0. replace (List.forallb is_ascii_hexdigit digits) with true; [done|].
    symmetry. apply List.forallb_forall. intros c Hc%list_elem_of_In. unfold hex_text in Hhex.
    rewrite Forall_forall in Hhex. by apply Hhex.
Qed.

Lemma hex_text_solid prefix digits : Forall solid (as_bytes prefix) → hex_text digits → Forall solid (as_bytes prefix ++ digits).
Proof. intros Hp Hd. apply Forall_app. split; [done|]. eapply Forall_impl; [exact Hd|apply hexdigit_solid]. Qed.

(** C18: A text is accepted as a session token exactly when, without the white
    space around it, it is the prefix followed by 64 hexadecimal digits; it is
    then looked up by its first 20 characters and the hash of the whole token.
    Generated tokens are accepted. *)
Theorem session_token_exact raw first second :
  (∀ parsed, parse_session_token raw = Ok parsed ↔
     ∃ digits, as_bytes (str_trim raw) = as_bytes "sess_" ++ digits ∧ hex_text digits ∧ length digits = 64%nat ∧
       parsed = mkParsedSessionToken (from_bytes (as_bytes "sess_" ++ take 15 digits))
                  (hex_crate_encode (sha256_digest (as_bytes "sess_" ++ digits)))) ∧
  ∃ generated, generate_session_token first second = Some generated ∧
    parse_session_token (gt_token generated) = Ok (mkParsedSessionToken (gt_prefix generated) (gt_token_hash generated)).
Proof.
  assert (∀ raw parsed, parse_session_token raw = Ok parsed ↔
     ∃ digits, as_bytes (str_trim raw) = as_bytes "sess_" ++ digits ∧ hex_text digits ∧ length digits = 64%nat ∧
       parsed = mkParsedSessionToken (from_bytes (as_bytes "sess_" ++ take 15 digits))
                  (hex_crate_encode (sha256_digest (as_bytes "sess_" ++ digits)))) as Hparse.
  { intros raw' parsed. unfold parse_session_token, session_token_lookup_prefix, hash_session_token.
    assert (∀ digits, hex_text digits →
      take_chars 20 (from_bytes (as_bytes "sess_" ++ digits)) = from_bytes (as_bytes "sess_" ++ take 15 digits)) as Htake.
    { intros digits Hhex. by rewrite (proj2 (proj2 (solid_text _ (hex_text_solid "sess_" _ ltac:(by repeat constructor) Hhex)))). }
    split.
    - destruct (validate_session_token raw') as [token|] eqn:Htoken; [|done]. cbn [mbind result_bind]. intros [= <-].
      apply validate_session_token_Ok in Htoken as (-> & digits & Hdigits & Hhex & Hlen).
      exists digits. split_and!; [done..|]. rewrite <-Htake, <-Hdigits, from_as_bytes by done. done.
    - intros (digits & Hdigits & Hhex & Hlen & ->).
      rewrite (proj2 (validate_session_token_Ok raw' (str_trim raw'))) by (split; [done|]; by exists digits).
      cbn [mbind result_bind]. rewrite <-Htake, <-Hdigits, from_as_bytes by done. done. }
  split; [apply Hparse|]. set (token := from_bytes (issued_text "sess_" first second)).
  assert (∃ parsed, parse_session_token token = Ok parsed) as [parsed Hparsed].
  { eexists. apply Hparse. exists (as_bytes (uuid_simple first) ++ as_bytes (uuid_simple second)).
    unfold token. rewrite (proj1 (solid_text _ (issued_text_solid "sess_" first second ltac:(by repeat constructor)))), as_from_bytes.
    split_and!; [done|apply Forall_app; split; apply uuid_simple_chars| |done].
    pose proof (issued_text_length "sess_" first second) as Hlen. unfold issued_text in Hlen.
    rewrite length_app in Hlen. cbn [length] in Hlen. unfold str_len in Hlen. cbn in Hlen. cbn. lia. }
  unfold generate_session_token, SESSION_TOKEN_PREFIX. rewrite issued_text_eq. fold token. rewrite Hparsed.
  eexists. split; [done|]. cbn [gt_token]. rewrite Hparsed. by destruct parsed.
Qed.

End issued.

(** ** Passwords *)

Lemma constant_time_eq_iff left right : constant_time_eq left right = true ↔ left = right.
Proof.
  pose proof (constant_time_str_eq_iff (from_bytes left) (from_bytes right)) as Hiff.
  unfold constant_time_str_eq in Hiff. rewrite !as_from_bytes in Hiff. rewrite (Hiff : constant_time_eq left right = true ↔ _).
  split; [|by intros ->]. intros Heq%(f_equal as_bytes). by rewrite !as_from_bytes in Heq.
Qed.

Section password_proofs.
Context {H : Sha256} {HL : Sha256Laws H} {X : HexCrate} {XL : HexCrateLaws X}.

Lemma password_hmac_eq key data : password_hmac key data = hmac_sha256 key data.
Proof.
  apply hex_encode_inj. rewrite <-hmac_sha256_hex_eq. unfold password_hmac, hmac_sha256_hex.
  by destruct (foldl _ _ _).
Qed.

(** The block of PBKDF2 as RFC 8018 defines it: U_1 is the HMAC of the salt and
    the number of the block, every other U_i the HMAC of the one before, and the
    block is the sum of the first [iterations] of them. *)
Definition pbkdf2_u (password salt : bytes) (i : nat) : bytes :=
  Nat.iter i (hmac_sha256 password) (hmac_sha256 password (salt ++ to_be_bytes_u32 1)).

Definition pbkdf2_block (password salt : bytes) (iterations : Z) : bytes :=
  foldl xor_bytes (pbkdf2_u password salt 0) (pbkdf2_u password salt <$> seq 1 (Z.to_nat (iterations - 1))).

Lemma pbkdf2_rounds_eq rounds password u derived :
  pbkdf2_rounds rounds password u derived
  = foldl xor_bytes derived ((λ i, Nat.iter i (hmac_sha256 password) u) <$> seq 1 rounds).
Proof.
  revert u derived. induction rounds as [|rounds IH]; intros u derived; [done|].
  cbn [pbkdf2_rounds]. rewrite IH, password_hmac_eq. cbn [seq fmap list_fmap foldl]. cbn [Nat.iter nat_rect].
  rewrite <-(fmap_S_seq 1), <-list_fmap_compose. f_equal.
  apply list_fmap_ext. intros _ i _. unfold compose. by rewrite <-Nat.iter_succ_r.
Qed.

Lemma pbkdf2_sha256_eq password salt iterations : pbkdf2_sha256 password salt iterations = pbkdf2_block password salt iterations.
Proof. unfold pbkdf2_sha256, pbkdf2_block. by rewrite pbkdf2_rounds_eq, password_hmac_eq. Qed.

Lemma pbkdf2_u_length password salt i : length (pbkdf2_u password salt i) = 32%nat.
Proof. unfold pbkdf2_u. destruct i; apply sha256_length. Qed.

Lemma pbkdf2_block_length password salt iterations : length (pbkdf2_block password salt iterations) = SHA256_OUTPUT_LEN.
Proof.
  unfold pbkdf2_block. generalize (seq 1 (Z.to_nat (iterations - 1))) as l. intros l.
  assert (length (pbkdf2_u password salt 0) = 32%nat) as Hlen by apply pbkdf2_u_length.
  revert Hlen. generalize (pbkdf2_u password salt 0) as acc. induction l as [|i l IH]; intros acc Hlen; [done|].
  cbn. apply IH. unfold xor_bytes. rewrite length_zip_with, Hlen, pbkdf2_u_length. done.
Qed.

(** The parts of an encoded hash contain no dollar sign. *)
Lemma split_encoded iterations salt digest :
  0 <= iterations →
  from_bytes <$> split_on "$"%char (as_bytes
    (PASSWORD_HASH_ALGORITHM +:+ "$" +:+ PASSWORD_HASH_VERSION +:+ "$" +:+ from_bytes (display_u128 iterations) +:+ "$"
      +:+ hex_crate_encode salt +:+ "$" +:+ hex_crate_encode digest))
  = [PASSWORD_HASH_ALGORITHM; PASSWORD_HASH_VERSION; from_bytes (display_u128 iterations); hex_encode salt; hex_encode digest].
Proof.
  intros Hit. rewrite !hex_crate_encode_lower, !as_bytes_app, as_from_bytes.
  destruct (display_u128_spec iterations Hit) as (Hdigits & _).
  assert ("$"%char ∉ display_u128 iterations) as Hd.
  { intros Hin. unfold all_digits in Hdigits. rewrite Forall_forall in Hdigits. by specialize (Hdigits _ Hin). }
  assert (∀ value, "$"%char ∉ as_bytes (hex_encode value)) as Hx.
  { intros value Hin. destruct (hex_encode_spec value) as [_ Hall]. rewrite Forall_forall in Hall.
    by destruct (Hall _ Hin). }
  assert (∀ l l', "$"%char ∉ l → split_on "$"%char (l ++ as_bytes "$" ++ l') = l :: split_on "$"%char l') as Hsplit
    by (intros; by apply split_on_app).
  rewrite !Hsplit; [|done..|by apply (bool_decide_unpack _)|by apply (bool_decide_unpack _)].
  rewrite split_on_none by done. cbn [fmap list_fmap]. by rewrite !from_as_bytes.
Qed.

Lemma parse_encoded iterations salt digest :
  in_u32 iterations → salt ≠ [] → length digest = SHA256_OUTPUT_LEN →
  parse_password_hash
    (PASSWORD_HASH_ALGORITHM +:+ "$" +:+ PASSWORD_HASH_VERSION +:+ "$" +:+ from_bytes (display_u128 iterations) +:+ "$"
      +:+ hex_crate_encode salt +:+ "$" +:+ hex_crate_encode digest)
  = Ok (mkParsedPasswordHash iterations salt digest).
Proof.
  intros Hit Hsalt Hlen. unfold parse_password_hash. rewrite split_encoded by width_lia.
  rewrite !bool_decide_true by done. cbn [negb]. rewrite parse_unsigned_display by width_lia. cbn [ok_or mbind result_bind].
  rewrite !hex_crate_decode_encode. cbn [ok_or mbind result_bind]. rewrite bool_decide_false by done.
  rewrite Hlen. done.
Qed.

(** C17: A password is hashed exactly when it and the salt are not empty and the
    number of iterations is at least 10,000. Against the stored text a candidate
    is verified by the parameters that the text carries, and it matches exactly
    when its PBKDF2 block (RFC 8018 over HMAC-SHA256) is the one of the password;
    an empty candidate is an error. *)
Theorem password_verification_exact password salt iterations :
  in_u32 iterations →
  match hash_admin_password_with_salt password salt iterations with
  | Ok encoded =>
      password ≠ "" ∧ salt ≠ [] ∧ 10000 <= iterations ∧
      ∀ candidate, verify_admin_password candidate encoded
        = if bool_decide (candidate = "") then Err (HashError EmptyPassword)
          else Ok (bool_decide (pbkdf2_block (as_bytes candidate) salt iterations
                                = pbkdf2_block (as_bytes password) salt iterations))
  | Err error =>
      password = "" ∧ error = EmptyPassword ∨ password ≠ "" ∧ salt = [] ∧ error = EmptySalt ∨
      password ≠ "" ∧ salt ≠ [] ∧ iterations < 10000 ∧ error = IterationsTooLow 10000 iterations
  end.
Proof.
  intros Hit. unfold hash_admin_password_with_salt, derive_admin_password_digest, MIN_PASSWORD_HASH_ITERATIONS.
  case_bool_decide as Hp; [by left|]. case_bool_decide as Hs; [by right; left|].
  destruct (Z.ltb_spec iterations 10000) as [Hlow|Hhigh]; [by right; right|]. cbn [mbind result_bind].
  split_and!; [done..|]. intros candidate. unfold verify_admin_password.
  rewrite parse_encoded by (done || by rewrite pbkdf2_sha256_eq; apply pbkdf2_block_length).
  cbn [mbind result_bind ph_salt ph_iterations ph_digest]. unfold derive_admin_password_digest, MIN_PASSWORD_HASH_ITERATIONS.
  case_bool_decide as Hc; [done|]. rewrite bool_decide_false by done. rewrite (proj2 (Z.ltb_ge _ _)) by done.
  cbn [map_err mbind result_bind]. f_equal. rewrite !pbkdf2_sha256_eq. apply eq_true_iff_eq.
  by rewrite constant_time_eq_iff, bool_decide_eq_true.
Qed.

End password_proofs.

(** ** Provider keys *)

(** A length that its 32-bit field can hold. *)
Definition short (l : bytes) : Prop := Z.of_nat (length l) <= u32_max.

Lemma to_be_bytes_u32_inj m n :
  0 <= m <= u32_max → 0 <= n <= u32_max → to_be_bytes_u32 m = to_be_bytes_u32 n → m = n.
Proof.
  unfold to_be_bytes_u32. intros Hm Hn [= H1 H2 H3 H4].
  apply (f_equal byte_val) in H1, H2, H3, H4. rewrite !byte_val_of in *.
  unfold_widths. Z.to_euclidean_division_equations. lia.
Qed.

(** One field of the associated data. *)
Definition aad_field (label : string) (value : bytes) : bytes :=
  to_be_bytes_u32 (Z.of_nat (str_len label)) ++ as_bytes label ++ to_be_bytes_u32 (Z.of_nat (length value)) ++ value.

Lemma append_field_eq output label value : append_field output label value = output ++ aad_field label value.
Proof. done. Qed.

Lemma aad_field_inj label value value' rest rest' :
  short value → short value' →
  aad_field label value ++ rest = aad_field label value' ++ rest' → value = value' ∧ rest = rest'.
Proof.
  unfold aad_field, short. intros Hv Hv' Heq. rewrite <-!(assoc_L (++)) in Heq. do 2 apply app_inv_head in Heq.
  apply app_inj_1 in Heq as [Hlen Heq]; [|done]. apply to_be_bytes_u32_inj in Hlen; [|width_lia..].
  apply app_inj_1 in Heq; [done|lia].
Qed.

(** The associated data determines the master key id and the context. *)
Lemma encryption_aad_inj version id id' context context' :
  short (as_bytes id) → short (as_bytes id') → short (as_aad context) → short (as_aad context') →
  encryption_aad version id context = encryption_aad version id' context' → id = id' ∧ context = context'.
Proof.
  intros Hid Hid' Hc Hc'. unfold encryption_aad. rewrite !append_field_eq, <-!(assoc_L (++)). cbn [app].
  intros Heq. do 3 (apply aad_field_inj in Heq as [_ Heq]; [|by vm_compute..]).
  apply aad_field_inj in Heq as [Hids Heq]; [|done..].
  rewrite <-(app_nil_r (aad_field _ (as_aad context))), <-(app_nil_r (aad_field _ (as_aad context'))) in Heq.
  apply aad_field_inj in Heq as [Hcontexts _]; [|done..].
  split; [by apply (f_equal from_bytes) in Hids; rewrite !from_as_bytes in Hids|].
  destruct context, context'. cbn in Hcontexts. by subst.
Qed.

Definition context_aad (tenant provider key : string) : bytes :=
  aad_field "domain" CONTEXT_AAD_DOMAIN ++ aad_field "tenant_id" (as_bytes tenant)
  ++ aad_field "provider_id" (as_bytes provider) ++ aad_field "provider_key_id" (as_bytes key).

Lemma provider_key_context_new_Ok tenant provider key context :
  provider_key_context_new tenant provider key = Ok context ↔
  str_trim tenant ≠ "" ∧ str_trim provider ≠ "" ∧ str_trim key ≠ "" ∧
  context = mkProviderKeyContext (context_aad (str_trim tenant) (str_trim provider) (str_trim key)).
Proof.
  unfold provider_key_context_new, required_context_field, context_aad.
  destruct (decide (str_trim tenant = "")) as [Ht|Ht]; [rewrite Ht; by split; [|intros [? _]]|].
  destruct (decide (str_trim provider = "")) as [Hp|Hp];
    [rewrite (bool_decide_false _ Ht), Hp; by split; [|intros (_ & ? & _)]|].
  destruct (decide (str_trim key = "")) as [Hk|Hk];
    [rewrite (bool_decide_false _ Ht), (bool_decide_false _ Hp), Hk; by split; [|intros (_ & _ & ? & _)]|].
  rewrite !bool_decide_false by done. cbn [mbind result_bind]. rewrite !append_field_eq, <-!(assoc_L (++)).
  split; [intros [= <-]|intros (_ & _ & _ & ->)]; done.
Qed.

(** The context determines the three ids that it was made from. *)
Lemma context_aad_inj tenant provider key tenant' provider' key' :
  Forall (λ s, short (as_bytes s)) [tenant; provider; key; tenant'; provider'; key'] →
  context_aad tenant provider key = context_aad tenant' provider' key' → tenant = tenant' ∧ provider = provider' ∧ key = key'.
Proof.
  unfold context_aad. rewrite !Forall_cons. intros (? & ? & ? & ? & ? & ? & _) Haad.
  apply aad_field_inj in Haad as [_ Haad]; [|by vm_compute..].
  apply aad_field_inj in Haad as [Ht Haad]; [|done..]. apply aad_field_inj in Haad as [Hp Haad]; [|done..].
  rewrite <-(app_nil_r (aad_field _ (as_bytes key))), <-(app_nil_r (aad_field _ (as_bytes key'))) in Haad.
  apply aad_field_inj in Haad as [Hk _]; [|done..]. apply (f_equal from_bytes) in Ht, Hp, Hk.
  by rewrite !from_as_bytes in Ht, Hp, Hk.
Qed.

Lemma context_aad_short tenant provider key :
  str_len tenant = 36%nat → str_len provider = 36%nat → str_len key = 36%nat → short (context_aad tenant provider key).
Proof.
  unfold short, context_aad, aad_field, str_len. intros Ht Hp Hk. rewrite !length_app, Ht, Hp, Hk. by vm_compute.
Qed.

Section sealed.
Context {G : Aes256Gcm} {GL : Aes256GcmLaws G}.

(** Two different uses of the cipher, with one nonce, that give one ciphertext. *)
Definition gcm_collision (nonce key aad key' aad' : bytes) : Prop :=
  (key, aad) ≠ (key', aad') ∧
  ∃ message message' ciphertext, gcm_encrypt key nonce aad message = Some ciphertext ∧
    gcm_encrypt key' nonce aad' message' = Some ciphertext.

(** A sealed key opens to its secret under the master key and the context it was
    sealed with; if it opens under any other, two inputs of the cipher collide. *)
Lemma sealed_key_bound nonce key id context secret sealed :
  seal_provider_key nonce key id context secret = Ok sealed →
  is_utf8 (as_bytes (expose_secret secret)) = true → expose_secret secret ≠ "" →
  open_provider_key key context sealed = Ok secret ∧
  ∀ key' context' secret', open_provider_key key' context' sealed = Ok secret' →
    short (as_bytes (str_trim id)) → short (as_aad context) → short (as_aad context') →
    (key' = key ∧ context' = context ∧ secret' = secret) ∨
    gcm_collision nonce key (encryption_aad 1 (str_trim id) context) key' (encryption_aad 1 (str_trim id) context').
Proof.
  unfold seal_provider_key, provider_key_cipher, required_master_key_id. intros Hseal Hutf8 Hne.
  destruct (length key =? PROVIDER_KEY_MASTER_KEY_LEN)%nat eqn:Hlen; [|done]. cbn [negb mbind result_bind] in Hseal.
  case_bool_decide as Hid; [done|]. cbn [mbind result_bind] in Hseal.
  destruct (gcm_encrypt _ _ _ _) as [ciphertext|] eqn:Hencrypt; [|done]. injection Hseal as <-.
  split.
  - unfold open_provider_key, provider_key_cipher. cbn [sk_version sk_master_key_id sk_nonce sk_ciphertext].
    rewrite Hlen. cbn [negb Z.eqb Pos.eqb PROVIDER_KEY_ENCRYPTION_VERSION mbind result_bind].
    rewrite (proj2 (gcm_decrypt_iff _ _ _ _ _) Hencrypt). cbn [ok_or mbind result_bind]. unfold from_utf8.
    rewrite Hutf8. cbn [ok_or mbind result_bind]. unfold provider_key_secret_new. rewrite from_as_bytes.
    rewrite bool_decide_false by done. by destruct secret.
  - intros key' context' secret' Hopen Hsid Hsc Hsc'. unfold open_provider_key, provider_key_cipher in Hopen.
    cbn [sk_version sk_master_key_id sk_nonce sk_ciphertext negb Z.eqb Pos.eqb PROVIDER_KEY_ENCRYPTION_VERSION] in Hopen.
    destruct (length key' =? PROVIDER_KEY_MASTER_KEY_LEN)%nat; [|done]. cbn [negb mbind result_bind] in Hopen.
    destruct (gcm_decrypt _ _ _ _) as [plaintext|] eqn:Hdecrypt; [|done]. cbn [ok_or mbind result_bind] in Hopen.
    destruct (decide ((key, encryption_aad 1 (str_trim id) context) = (key', encryption_aad 1 (str_trim id) context')))
      as [Hsame|Hdiff].
    + left. apply pair_equal_spec in Hsame as [<- Haad]. apply encryption_aad_inj in Haad as [_ <-]; [|done..]. split_and!; [done..|].
      apply gcm_decrypt_iff in Hencrypt. unfold PROVIDER_KEY_ENCRYPTION_VERSION in *. rewrite Hencrypt in Hdecrypt.
      injection Hdecrypt as <-. unfold from_utf8 in Hopen. rewrite Hutf8 in Hopen. cbn [ok_or mbind result_bind] in Hopen.
      unfold provider_key_secret_new in Hopen. rewrite from_as_bytes, bool_decide_false in Hopen by done.
      injection Hopen as <-. by destruct secret.
    + right. split; [done|]. apply gcm_decrypt_iff in Hdecrypt. by eexists _, _, _.
Qed.

End sealed.

(** ** Evaluation

    Functions with the types of the external primitives, used to evaluate the
    definitions. *)

Definition hex_value (c : ascii) : option Z :=
  if is_ascii_digit c then Some (byte_val c - 48)
  else if byte_between 97 102 c then Some (byte_val c - 87)
  else if byte_between 65 70 c then Some (byte_val c - 55)
  else None.

Fixpoint hex_pairs (l : bytes) : option bytes :=
  match l with
  | [] => Some []
  | high :: low :: l' =>
      high ← hex_value high;
      low ← hex_value low;
      rest ← hex_pairs l';
      Some (byte_of (16 * high + low) :: rest)
  | [_] => None
  end.

Definition sample_hex : HexCrate := {| hex_crate_encode := hex_encode; hex_crate_decode s := hex_pairs (as_bytes s) |}.

Lemma hex_value_byte c :
  ∃ high low, hex_value (hex_digit (Z.shiftr (byte_val c) 4)) = Some high ∧
    hex_value (hex_digit (Z.land (byte_val c) 15)) = Some low ∧ byte_of (16 * high + low) = c.
Proof. destruct c as [[] [] [] [] [] [] [] []]; by eexists _, _. Qed.

Lemma sample_hex_laws : HexCrateLaws sample_hex.
Proof.
  split; [done|]. intros value. cbn [hex_crate_decode sample_hex]. unfold hex_encode. rewrite as_from_bytes.
  induction value as [|c value IH]; [done|]. destruct (hex_value_byte c) as (high & low & Hhigh & Hlow & Hbyte).
  rewrite bind_cons. cbn [app hex_pairs]. by rewrite Hhigh; cbn [mbind option_bind]; rewrite Hlow; cbn [mbind option_bind]; rewrite IH, Hbyte.
Qed.

Definition sample_simple : UuidSimple := λ id, from_bytes (replicate 32 (hex_digit (id `mod` 16))).

Lemma sample_simple_laws : UuidSimpleLaws sample_simple.
Proof.
  split; intros id; unfold uuid_simple, sample_simple, str_len; rewrite as_from_bytes; [|done].
  apply Forall_replicate, hex_digit_hexdigit, Z.mod_pos_bound. lia.
Qed.

(** Ciphertexts that carry all they were made from. *)
Definition sample_gcm : Aes256Gcm := {|
  gcm_encrypt key nonce aad message := Some (key ++ nonce ++ aad ++ message);
  gcm_decrypt key nonce aad ciphertext := strip_prefix (key ++ nonce ++ aad) ciphertext;
|}.

Lemma sample_gcm_laws : Aes256GcmLaws sample_gcm.
Proof.
  intros key nonce aad ciphertext message. cbn. rewrite strip_prefix_Some, <-!(assoc_L (++)). split; [by intros ->|by intros [= <-]].
Qed.

Lemma session_token_exact_witness :
  (let token := " sess_0000000011111111222222223333333344444444555555556666666677777777" in
   ∃ parsed, parse_session_token (H := tail_hash) (X := sample_hex) token = Ok parsed ∧ st_prefix parsed = "sess_000000001111111") ∧
  ∃ generated, generate_session_token (H := tail_hash) (X := sample_hex) (S := sample_simple) 1 2 = Some generated ∧
    is_ok (parse_session_token (H := tail_hash) (X := sample_hex) (gt_token generated)) = true.
Proof.
  destruct (session_token_exact (H := tail_hash) (X := sample_hex) (UL := sample_simple_laws)
    " sess_0000000011111111222222223333333344444444555555556666666677777777" 1 2) as [Hparse (generated & Hgen & Hback)].
  split; [|by exists generated; rewrite Hback].
  eexists. split; [apply Hparse; exists (as_bytes "0000000011111111222222223333333344444444555555556666666677777777"); split_and!|].
  - reflexivity.
  - by repeat constructor.
  - reflexivity.
  - reflexivity.
  - reflexivity.
Defined.

Lemma password_verification_exact_witness :
  ∃ encoded, hash_admin_password_with_salt (H := tail_hash) (X := sample_hex) "admin" (as_bytes "salt") 10000 = Ok encoded ∧
    verify_admin_password (H := tail_hash) (X := sample_hex) "admin" encoded = Ok true ∧
    verify_admin_password (H := tail_hash) (X := sample_hex) "" encoded = Err (HashError EmptyPassword).
Proof.
  assert (in_u32 10000) as Hit by width_lia.
  generalize (password_verification_exact (HL := tail_hash_laws) (XL := sample_hex_laws) "admin" (as_bytes "salt") 10000 Hit).
  destruct (hash_admin_password_with_salt _ _ _) as [encoded|error].
  - intros (_ & _ & _ & Hverify). exists encoded. rewrite !Hverify. split_and!; [done| |done].
    rewrite bool_decide_false by done. by rewrite bool_decide_true.
  - intros [[? _]|[(_ & ? & _)|(_ & _ & ? & _)]]; [done..|lia].
Defined.
