(* ===== verification/PaymentProvider.v ===== *)
(** The adapter for payment provider events
    (crates/billing-ledger/src/payment_provider.rs): signatures of webhook
    bodies, the mapping of provider events to local ones, and amounts. The fields
    of the readbacks that are constant (schema names, and flags that say that no
    secret is echoed) are left out. *)

From S2P Require Export Ledger.

#[local] Open Scope string_scope.
#[local] Open Scope list_scope.
#[local] Open Scope Z_scope.

(** ** Data *)

Inductive PaymentProviderEventType : Type := Callback | Capture | Refund | Chargeback.

#[export] Instance payment_provider_event_type_eq_dec : EqDecision PaymentProviderEventType.
Proof. solve_decision. Defined.

Record PaymentProviderHeaderValue : Type := mkHeaderValue { hv_name : string; hv_value : string }.

Record PaymentProviderSignatureParseReadback : Type := mkSignatureParse {
  sp_header_name : option string;
  sp_format : string;
  sp_timestamp : option Z;
  sp_signature_present : bool;
  sp_signature_count : nat;
  sp_selected_scheme : option string;
  sp_unsupported_reason : option string;
}.

Record PaymentProviderSignatureVerificationReadback : Type := mkSignatureVerification {
  sv_status : string;
  sv_format : string;
  sv_timestamp_present : bool;
  sv_timestamp_tolerance_seconds : option Z;
  sv_timestamp_age_seconds : option Z;
  sv_replay_window_ok : bool;
  sv_signature_present : bool;
  sv_signature_match : bool;
  sv_signed_payload_basis : string;
  sv_signed_payload_sha256 : option string;
  sv_payload_sha256 : string;
  sv_mismatch_reason : option string;
}.

Record PaymentProviderEventMappingReadback : Type := mkEventMapping {
  em_provider_event_type : option string;
  em_normalized_event_type : option PaymentProviderEventType;
  em_supported : bool;
  em_unsupported_reason : option string;
}.

Record PaymentProviderNormalizedEvent : Type := mkNormalizedEvent {
  ne_event_type : PaymentProviderEventType;
  ne_external_event_id : string;
  ne_amount : string;
  ne_currency : string;
  ne_idempotency_key : option string;
  ne_tenant_id : option string;
  ne_order_id : option string;
  ne_project_id : option string;
  ne_wallet_id : option string;
  ne_payment_intent_id : option string;
  ne_payment_capture_id : option string;
  ne_refund_id : option string;
  ne_credit_grant_id : option string;
  ne_ledger_entry_id : option string;
  ne_reversal_ledger_entry_id : option string;
  ne_invoice_id : option string;
}.

Record PaymentProviderEventReadback : Type := mkEventReadback {
  rb_provider_event_id_hash : option string;
  rb_provider_event_type : option string;
  rb_provider_object_id_hash : option string;
  rb_amount_present : bool;
  rb_currency_present : bool;
  rb_metadata_present : bool;
  rb_tenant_id_present : bool;
  rb_local_ref_count : nat;
  rb_schema_valid : bool;
  rb_refusal_reason : option string;
}.

Record StripeLikeSandboxAdapterReadback : Type := mkAdapterReadback {
  ar_provider : string;
  ar_provider_supported : bool;
  ar_signature_parse : PaymentProviderSignatureParseReadback;
  ar_signature_verification_readback : option PaymentProviderSignatureVerificationReadback;
  ar_event_mapping : PaymentProviderEventMappingReadback;
  ar_provider_event_readback : PaymentProviderEventReadback;
  ar_normalized_event : option PaymentProviderNormalizedEvent;
  ar_unsupported_reason : option string;
}.

(** ** Signatures *)

Definition STRIPE_LIKE_SIGNATURE_TOLERANCE_SECONDS : Z := 300.

(** [value.split(',')] with its parts trimmed. *)
Definition signature_parts (value : string) : list bytes := trim <$> split_on ","%char (as_bytes value).

Definition is_hex_64 (value : bytes) : bool := (length value =? 64)%nat && List.forallb is_ascii_hexdigit value.

(** The first result of [f] that is not [None]: [find_map]. *)
Fixpoint find_map {A B : Type} (f : A → option B) (l : list A) : option B :=
  match l with
  | [] => None
  | x :: l => match f x with Some y => Some y | None => find_map f l end
  end.

Definition stripe_like_signature_timestamp (value : string) : option Z :=
  find_map (λ part, timestamp ← strip_prefix (as_bytes "t=") part; parse_i64 (from_bytes timestamp))
    (signature_parts value).

Definition stripe_like_signature_values (value scheme : string) : list string :=
  let prefix := as_bytes scheme ++ as_bytes "=" in
  (λ value, to_ascii_lowercase (from_bytes value)) <$>
    List.filter is_hex_64 (trim <$> omap (strip_prefix prefix) (signature_parts value)).

Definition normalize_simulated_signature_header (value : string) : string :=
  to_ascii_lowercase (default "" (find_map (λ part,
      match strip_prefix (as_bytes "sha256=") part with
      | Some value => Some (from_bytes value)
      | None => if is_hex_64 part then Some (from_bytes part) else None
      end) (signature_parts value))).

(** [format!("{timestamp}.{}", String::from_utf8_lossy(body))]. *)
Definition stripe_like_signed_payload (timestamp : Z) (body : bytes) : bytes :=
  display_i128 timestamp ++ as_bytes "." ++ from_utf8_lossy body.

(** The header that is looked at: the one of the provider, or else the local one. *)
Definition header_named (name : string) (headers : list PaymentProviderHeaderValue) : option PaymentProviderHeaderValue :=
  List.find (λ header, eq_ignore_ascii_case (hv_name header) name) headers.

Definition parse_stripe_like_signature_headers (headers : list PaymentProviderHeaderValue)
    : PaymentProviderSignatureParseReadback :=
  let selected :=
    match header_named "stripe-signature" headers with
    | Some header => Some header
    | None => header_named "x-fubox-payment-signature" headers
    end in
  match selected with
  | None => mkSignatureParse None "missing" None false 0 None (Some "signature_header_missing")
  | Some header =>
      let lower_name := to_ascii_lowercase (hv_name header) in
      let value := str_trim (hv_value header) in
      let timestamp := stripe_like_signature_timestamp value in
      let stripe_v1_count := length (stripe_like_signature_values value "v1") in
      let stripe_v1_present := (0 <? stripe_v1_count)%nat in
      let fubox_sha256_present :=
        starts_with (as_bytes "sha256=") (as_bytes value) || str_contains value ",sha256=" in
      let bare_hex_present := is_hex_64 (as_bytes value) in
      let '(format, selected_scheme, signature_present, unsupported_reason) :=
        if bool_decide (lower_name = "stripe-signature") && is_some timestamp && stripe_v1_present then
          ("stripe_like", Some "v1", true, None)
        else if fubox_sha256_present then ("fubox_simulated_sha256", Some "sha256", true, None)
        else if bool_decide (lower_name = "x-fubox-payment-signature") && bare_hex_present then
          ("fubox_simulated_bare_hex", Some "sha256", true, None)
        else ("unsupported", None, false, Some "signature_header_format_unsupported") in
      let signature_count :=
        if (0 <? stripe_v1_count)%nat then stripe_v1_count
        else if fubox_sha256_present || bare_hex_present then 1%nat
        else 0%nat in
      mkSignatureParse (Some lower_name) format timestamp signature_present signature_count selected_scheme
        unsupported_reason
  end.

Definition signature_verification_refused (format : string) (timestamp_present : bool) (timestamp_age_seconds : option Z)
    (signature_present : bool) (signed_payload_basis payload_sha256 : string) (signed_payload_sha256 : option string)
    (mismatch_reason : string) : PaymentProviderSignatureVerificationReadback :=
  mkSignatureVerification "refused" format timestamp_present (Some STRIPE_LIKE_SIGNATURE_TOLERANCE_SECONDS)
    timestamp_age_seconds false signature_present false signed_payload_basis signed_payload_sha256 payload_sha256
    (Some mismatch_reason).

(** The verdict on a signature: [basis] is what was signed. *)
Definition signature_verdict (signature_match : bool) : string * option string :=
  if signature_match then ("verified", None) else ("refused", Some "signature_mismatch").

Section adapter.
Context {H : Sha256}.

Definition verify_stripe_like_signature_headers (headers : list PaymentProviderHeaderValue) (body : bytes)
    (webhook_secret : string) (current_timestamp : Z) : PaymentProviderSignatureVerificationReadback :=
  let payload_sha256 := sha256_hex body in
  let parse := parse_stripe_like_signature_headers headers in
  let refused timestamp_present basis :=
    signature_verification_refused (sp_format parse) timestamp_present None (sp_signature_present parse) basis
      payload_sha256 None in
  let timestamp_present := is_some (sp_timestamp parse) in
  match sp_header_name parse with
  | None => refused timestamp_present "raw_body" "signature_header_missing"
  | Some header_name =>
      if bool_decide (str_trim webhook_secret = "") then refused timestamp_present "raw_body" "webhook_secret_missing"
      else
        match header_named header_name headers with
        | None => refused timestamp_present "raw_body" "signature_header_missing"
        | Some header =>
            let header_value := str_trim (hv_value header) in
            if bool_decide (sp_format parse = "stripe_like") then
              match sp_timestamp parse with
              | None => refused false "stripe:t.raw_body" "signature_timestamp_missing"
              | Some timestamp =>
                  let age := saturating_sub_i64 current_timestamp timestamp in
                  let replay_window_ok := Z.abs age <=? STRIPE_LIKE_SIGNATURE_TOLERANCE_SECONDS in
                  let signed_payload := stripe_like_signed_payload timestamp body in
                  let signed_payload_sha256 := sha256_hex signed_payload in
                  if negb replay_window_ok then
                    mkSignatureVerification "refused" (sp_format parse) true
                      (Some STRIPE_LIKE_SIGNATURE_TOLERANCE_SECONDS) (Some age) false (sp_signature_present parse) false
                      "stripe:t.raw_body" (Some signed_payload_sha256) payload_sha256
                      (Some "signature_replay_window_refused")
                  else
                    let expected := hmac_sha256_hex (as_bytes webhook_secret) signed_payload in
                    let signature_match :=
                      List.existsb (λ candidate, constant_time_str_eq candidate expected)
                        (stripe_like_signature_values header_value "v1") in
                    let '(status, mismatch_reason) := signature_verdict signature_match in
                    mkSignatureVerification status (sp_format parse) true
                      (Some STRIPE_LIKE_SIGNATURE_TOLERANCE_SECONDS) (Some age) true (sp_signature_present parse)
                      signature_match "stripe:t.raw_body" (Some signed_payload_sha256) payload_sha256 mismatch_reason
              end
            else if bool_decide (sp_format parse = "fubox_simulated_sha256")
                    || bool_decide (sp_format parse = "fubox_simulated_bare_hex") then
              let expected := hmac_sha256_hex (as_bytes webhook_secret) body in
              let provided := normalize_simulated_signature_header header_value in
              let signature_match := constant_time_str_eq provided expected in
              let '(status, mismatch_reason) := signature_verdict signature_match in
              mkSignatureVerification status (sp_format parse) timestamp_present None None true
                (sp_signature_present parse) signature_match "raw_body" (Some payload_sha256) payload_sha256
                mismatch_reason
            else
              refused timestamp_present "raw_body"
                (default "signature_header_format_unsupported" (sp_unsupported_reason parse))
        end
  end.

(** ** Events *)

Definition map_stripe_like_event_type (provider_event_type : option string) : PaymentProviderEventMappingReadback :=
  let normalized_event_type :=
    event_type ← provider_event_type;
    if bool_decide (event_type ∈ ["checkout.session.completed"; "payment_intent.created"]) then Some Callback
    else if bool_decide (event_type ∈ ["payment_intent.succeeded"; "charge.succeeded"]) then Some Capture
    else if bool_decide (event_type ∈ ["charge.refunded"; "refund.created"; "refund.succeeded"]) then Some Refund
    else if bool_decide (event_type ∈ ["charge.dispute.created"; "charge.dispute.closed"]) then Some Chargeback
    else None in
  mkEventMapping provider_event_type normalized_event_type (is_some normalized_event_type)
    (if negb (is_some provider_event_type) then Some "event_type_missing"
     else if negb (is_some normalized_event_type) then Some "event_type_not_supported"
     else None).

(** [i64::abs] of a release build, which wraps. *)
Definition abs_i64 (n : Z) : Z := wrap_i64 (Z.abs n).

(** [{:08}] of an [i64]: the sign counts towards the width. *)
Definition display_padded_08 (n : Z) : bytes :=
  if n <? 0 then as_bytes "-" ++ display_zero_padded 7 (- n) else display_zero_padded 8 n.

Definition format_minor_amount (amount_minor : Z) : string :=
  let sign := if amount_minor <? 0 then "-" else "" in
  let absolute := abs_i64 amount_minor in
  sign +:+ from_bytes (display_i128 (Z.quot absolute 100)) +:+ "."
  +:+ from_bytes (display_padded_08 (Z.rem absolute 100 * 1000000)).

Section payload.
Context {J : SerdeJson}.

Definition as_str (value : Value) : option string :=
  match value_view value with VString s => Some s | _ => None end.

Definition as_i64 (value : Value) : option Z :=
  match value_view value with VNumber n => number_as_i64 n | _ => None end.

Definition as_object (value : Value) : option Value := if value_is_object value then Some value else None.

(** [.get(key).and_then(|value| value.as_str()).map(str::trim)]. *)
Definition trimmed_string (value : Value) (key : string) : option string :=
  str_trim <$> (value_get value key ≫= as_str).

Definition non_blank (o : option string) : option string :=
  s ← o; if bool_decide (s = "") then None else Some s.

Definition metadata_string (metadata : Value) (key : string) : option string := non_blank (trimmed_string metadata key).

(** [payload.get("data").and_then(|value| value.get("object")).unwrap_or(payload)]. *)
Definition event_object (payload : Value) : Value :=
  default payload (data ← value_get payload "data"; value_get data "object").

(** The first of the keys that is present decides, whatever its value. *)
Definition object_amount (object : Value) : option Z :=
  find_map (value_get object) ["amount_received"; "amount_paid"; "amount_refunded"; "amount"] ≫= as_i64.

Definition metadata_keys : list string :=
  ["tenant_id"; "order_id"; "project_id"; "wallet_id"; "payment_intent_id"; "payment_capture_id"; "refund_id";
   "credit_grant_id"; "ledger_entry_id"; "reversal_ledger_entry_id"; "invoice_id"].

Definition provider_event_readback_from_payload (payload : Value) (refusal_reason : option string)
    : PaymentProviderEventReadback :=
  let provider_event_id := trimmed_string payload "id" in
  let provider_event_type := non_blank (trimmed_string payload "type") in
  let object := event_object payload in
  let provider_object_id := trimmed_string object "id" in
  let metadata := value_get object "metadata" ≫= as_object in
  let local_ref_count :=
    match metadata with
    | Some map => length (List.filter (λ key, is_some (metadata_string map key)) metadata_keys)
    | None => 0%nat
    end in
  let amount_present := is_some (object_amount object) in
  let currency_present := is_some (non_blank (trimmed_string object "currency")) in
  let tenant_id_present := is_some (map ← metadata; metadata_string map "tenant_id") in
  mkEventReadback
    ((λ value, sha256_hex (as_bytes value)) <$> non_blank provider_event_id)
    provider_event_type
    ((λ value, sha256_hex (as_bytes value)) <$> non_blank provider_object_id)
    amount_present currency_present (is_some metadata) tenant_id_present local_ref_count
    (negb (is_some refusal_reason) && is_some (non_blank provider_event_id) && is_some (non_blank provider_object_id)
     && amount_present && currency_present && tenant_id_present)
    refusal_reason.

(** [readback.refusal_reason = ...; readback.schema_valid = ...;]. *)
Definition with_refusal_reason (readback : PaymentProviderEventReadback) (refusal_reason : option string)
    : PaymentProviderEventReadback :=
  mkEventReadback (rb_provider_event_id_hash readback) (rb_provider_event_type readback)
    (rb_provider_object_id_hash readback) (rb_amount_present readback) (rb_currency_present readback)
    (rb_metadata_present readback) (rb_tenant_id_present readback) (rb_local_ref_count readback)
    (negb (is_some refusal_reason)) refusal_reason.

Definition normalize_stripe_like_event_payload (payload : Value) (event_type : option PaymentProviderEventType)
    : PaymentProviderEventReadback * option PaymentProviderNormalizedEvent :=
  match event_type with
  | None => (provider_event_readback_from_payload payload (Some "event_type_not_supported"), None)
  | Some event_type =>
      let readback := provider_event_readback_from_payload payload None in
      let refused reason := (with_refusal_reason readback (Some reason), None) in
      match trimmed_string payload "id" with
      | None => refused "event_id_missing"
      | Some external_event_id =>
          if bool_decide (external_event_id = "") then refused "event_id_missing"
          else
            let object := event_object payload in
            match trimmed_string object "id" with
            | None => refused "provider_object_id_missing"
            | Some object_id =>
                if bool_decide (object_id = "") then refused "provider_object_id_missing"
                else
                  match object_amount object with
                  | None => refused "amount_missing"
                  | Some amount_minor =>
                      match to_ascii_uppercase <$> non_blank (trimmed_string object "currency") with
                      | None => refused "currency_missing"
                      | Some currency =>
                          if bool_decide (currency = "") then refused "currency_missing"
                          else
                            let metadata := value_get object "metadata" ≫= as_object in
                            let metadata_string key := map ← metadata; metadata_string map key in
                            if negb (is_some (metadata_string "tenant_id")) then refused "tenant_id_metadata_missing"
                            else
                              (with_refusal_reason readback None,
                               Some (mkNormalizedEvent event_type external_event_id (format_minor_amount amount_minor)
                                 currency None (metadata_string "tenant_id") (metadata_string "order_id")
                                 (metadata_string "project_id") (metadata_string "wallet_id")
                                 (metadata_string "payment_intent_id") (metadata_string "payment_capture_id")
                                 (metadata_string "refund_id") (metadata_string "credit_grant_id")
                                 (metadata_string "ledger_entry_id") (metadata_string "reversal_ledger_entry_id")
                                 (metadata_string "invoice_id")))
                      end
                  end
            end
      end
  end.

Definition STRIPE_LIKE_SANDBOX_ADAPTER : string := "stripe_like_sandbox".

Definition normalize_stripe_like_sandbox_event (provider : string) (headers : list PaymentProviderHeaderValue)
    (payload : Value) (signature_verification : option PaymentProviderSignatureVerificationReadback)
    : StripeLikeSandboxAdapterReadback :=
  let provider_supported := bool_decide (provider ∈ ["stripe_like"; STRIPE_LIKE_SANDBOX_ADAPTER]) in
  let signature_parse := parse_stripe_like_signature_headers headers in
  let event_mapping := map_stripe_like_event_type (value_get payload "type" ≫= as_str) in
  let not_supported := Some "provider_not_supported_by_stripe_like_sandbox_adapter" in
  let '(provider_event_readback, normalized_event) :=
    if provider_supported && em_supported event_mapping then
      normalize_stripe_like_event_payload payload (em_normalized_event_type event_mapping)
    else
      (provider_event_readback_from_payload payload
         (if provider_supported then em_unsupported_reason event_mapping else not_supported), None) in
  let unsupported_reason :=
    if negb provider_supported then not_supported
    else
      match em_unsupported_reason event_mapping with
      | Some reason => Some reason
      | None => rb_refusal_reason provider_event_readback
      end in
  mkAdapterReadback provider provider_supported signature_parse signature_verification event_mapping
    provider_event_readback normalized_event unsupported_reason.

End payload.
End adapter.

(** ** Verification of signatures *)

(** The header that carries the signature. *)
Definition signature_header (headers : list PaymentProviderHeaderValue) : option PaymentProviderHeaderValue :=
  match header_named "stripe-signature" headers with
  | Some header => Some header
  | None => header_named "x-fubox-payment-signature" headers
  end.

(** A header in the format of the provider: a time stamp and at least one
    signature of the scheme [v1]. *)
Definition is_provider_format (header : PaymentProviderHeaderValue) : bool :=
  let value := str_trim (hv_value header) in
  bool_decide (to_ascii_lowercase (hv_name header) = "stripe-signature")
  && is_some (stripe_like_signature_timestamp value)
  && (0 <? length (stripe_like_signature_values value "v1"))%nat.

(** A header in one of the two formats of the simulator. *)
Definition is_simulated_format (header : PaymentProviderHeaderValue) : bool :=
  let value := str_trim (hv_value header) in
  starts_with (as_bytes "sha256=") (as_bytes value) || str_contains value ",sha256="
  || bool_decide (to_ascii_lowercase (hv_name header) = "x-fubox-payment-signature") && is_hex_64 (as_bytes value).

Lemma byte_to_lowercase_idemp c : byte_to_lowercase (byte_to_lowercase c) = byte_to_lowercase c.
Proof. by destruct c as [[] [] [] [] [] [] [] []]. Qed.

Lemma to_ascii_lowercase_idemp s : to_ascii_lowercase (to_ascii_lowercase s) = to_ascii_lowercase s.
Proof.
  unfold to_ascii_lowercase. rewrite as_from_bytes, <-list_fmap_compose. f_equal.
  apply list_fmap_ext. intros i c _. apply byte_to_lowercase_idemp.
Qed.

(** The look-up by the name of the header that was parsed finds that header. *)
Lemma header_named_again headers header :
  signature_header headers = Some header → header_named (to_ascii_lowercase (hv_name header)) headers = Some header.
Proof.
  assert (∀ name, header_named name headers = Some header →
    header_named (to_ascii_lowercase (hv_name header)) headers = Some header) as Hagain; [|unfold signature_header].
  - intros name Hname. rewrite <-Hname. apply find_ext. intros other _. apply eq_true_iff_eq.
    apply find_Some_elem in Hname as [_ Hname]. apply eq_ignore_ascii_case_iff in Hname.
    by rewrite !eq_ignore_ascii_case_iff, to_ascii_lowercase_idemp, Hname.
  - destruct (header_named "stripe-signature" headers) eqn:Hfirst; [intros [= <-]|]; eauto.
Qed.

Lemma parse_selected headers header :
  signature_header headers = Some header →
  let parse := parse_stripe_like_signature_headers headers in
  sp_header_name parse = Some (to_ascii_lowercase (hv_name header)) ∧
  sp_timestamp parse = stripe_like_signature_timestamp (str_trim (hv_value header)) ∧
  (sp_format parse = "stripe_like" ∧ is_provider_format header = true ∨
   is_provider_format header = false ∧ is_simulated_format header = true ∧
     (sp_format parse = "fubox_simulated_sha256" ∨ sp_format parse = "fubox_simulated_bare_hex") ∨
   is_provider_format header = false ∧ is_simulated_format header = false ∧ sp_format parse = "unsupported").
Proof.
  unfold signature_header, parse_stripe_like_signature_headers, is_provider_format, is_simulated_format. intros ->.
  set (value := str_trim (hv_value header)).
  destruct (bool_decide (to_ascii_lowercase (hv_name header) = "stripe-signature") && _ && _); [by auto|].
  destruct (starts_with _ _ || str_contains _ _); [cbn; auto 10|].
  destruct (bool_decide (to_ascii_lowercase (hv_name header) = "x-fubox-payment-signature") && _); cbn; auto 10.
Qed.

Lemma parse_missing headers :
  signature_header headers = None → sp_header_name (parse_stripe_like_signature_headers headers) = None.
Proof. unfold signature_header, parse_stripe_like_signature_headers. by intros ->. Qed.

Lemma saturating_sub_window now timestamp :
  in_i64 now → in_i64 timestamp →
  Z.abs (saturating_sub_i64 now timestamp) <= STRIPE_LIKE_SIGNATURE_TOLERANCE_SECONDS ↔
  Z.abs (now - timestamp) <= STRIPE_LIKE_SIGNATURE_TOLERANCE_SECONDS.
Proof. unfold saturating_sub_i64, STRIPE_LIKE_SIGNATURE_TOLERANCE_SECONDS. intros. width_lia. Qed.

Lemma find_map_Some {A B} (f : A → option B) l y : find_map f l = Some y → ∃ x, x ∈ l ∧ f x = Some y.
Proof.
  induction l as [|x l IH]; cbn; [done|]. destruct (f x) eqn:Hf.
  - intros [= ->]. exists x. split; [by left|done].
  - intros (z & Hz & Hfz)%IH. exists z. split; [by right|done].
Qed.

Lemma signature_timestamp_range value timestamp :
  stripe_like_signature_timestamp value = Some timestamp → in_i64 timestamp.
Proof.
  intros (part & _ & Hpart)%find_map_Some. destruct (strip_prefix _ part); [|done]. cbn in Hpart.
  unfold parse_i64 in Hpart. apply bind_Some in Hpart as (n & _ & Hn). by apply checked_Some in Hn as [-> ?].
Qed.

Section signatures.
Context {H : Sha256} {Laws : Sha256Laws H}.

(** What the signature of a header has to be, in each format. *)
Definition signature_accepted (header : PaymentProviderHeaderValue) (body : bytes) (webhook_secret : string) (now : Z)
    : Prop :=
  let value := str_trim (hv_value header) in
  let signature_of data := hex_encode (hmac_sha256 (as_bytes webhook_secret) data) in
  (is_provider_format header = true ∧
   ∃ timestamp, stripe_like_signature_timestamp value = Some timestamp ∧ Z.abs (now - timestamp) <= 300 ∧
     signature_of (display_i128 timestamp ++ as_bytes "." ++ from_utf8_lossy body)
     ∈ stripe_like_signature_values value "v1") ∨
  (is_provider_format header = false ∧ is_simulated_format header = true ∧
   normalize_simulated_signature_header value = signature_of body).

Lemma any_signature_iff expected candidates :
  List.existsb (λ candidate, constant_time_str_eq candidate expected) candidates = true ↔ expected ∈ candidates.
Proof.
  rewrite existsb_elem. setoid_rewrite constant_time_str_eq_iff. naive_solver.
Qed.

Lemma signature_verdict_iff b : (signature_verdict b).1 = "verified" ↔ b = true.
Proof. by destruct b. Qed.

Lemma verify_selected headers header body webhook_secret now :
  in_i64 now → signature_header headers = Some header → str_trim webhook_secret ≠ "" →
  sv_status (verify_stripe_like_signature_headers headers body webhook_secret now) = "verified" ↔
  signature_accepted header body webhook_secret now.
Proof.
  intros Hnow Hheader Hsecret. unfold verify_stripe_like_signature_headers, signature_accepted.
  destruct (parse_selected headers header Hheader) as (-> & -> & Hformat).
  rewrite (header_named_again _ _ Hheader), bool_decide_false by done. set (value := str_trim (hv_value header)).
  rewrite !hmac_sha256_hex_eq. destruct Hformat as [[-> Hp]|[(-> & -> & Hf)|(-> & -> & ->)]].
  - rewrite bool_decide_true, Hp by done. unfold is_provider_format in Hp. fold value in Hp.
    destruct (stripe_like_signature_timestamp value) as [timestamp|] eqn:Htime; [|by rewrite andb_false_r in Hp].
    pose proof (saturating_sub_window now timestamp Hnow (signature_timestamp_range _ _ Htime)) as Hwindow.
    rewrite hmac_sha256_hex_eq. destruct (Z.leb_spec (Z.abs (saturating_sub_i64 now timestamp)) STRIPE_LIKE_SIGNATURE_TOLERANCE_SECONDS) as [Hin|Hout].
    + cbn [negb]. set (found := List.existsb _ _). destruct (signature_verdict found) as [status reason] eqn:Hverdict.
      transitivity (found = true); [by rewrite <-signature_verdict_iff, Hverdict|]. unfold found. rewrite any_signature_iff.
      split; [|by intros [(_ & t & [= <-] & _ & ?)|[? _]]]. intros Hany. left. split; [done|]. exists timestamp. split_and!; [done|by apply Hwindow|done].
    + cbn [negb sv_status]. split; [done|]. intros [(_ & t & [= <-] & Ht & _)|[? _]]; [|done]. apply Hwindow in Ht. lia.
  - rewrite bool_decide_false by (destruct Hf as [->| ->]; done).
    replace (bool_decide _ || bool_decide _) with true by (destruct Hf as [->| ->]; done).
    set (same := constant_time_str_eq _ _). destruct (signature_verdict same) as [status reason] eqn:Hverdict.
    transitivity (same = true); [by rewrite <-signature_verdict_iff, Hverdict|]. unfold same.
    rewrite constant_time_str_eq_iff. split; [by right|]. by intros [[? _]|(_ & _ & ?)].
  - rewrite !bool_decide_false by done. cbn [orb sv_status signature_verification_refused]. split; [done|].
    by intros [[? _]|(_ & ? & _)].
Qed.

(** C2: A webhook body is taken for verified exactly when the secret is not
    blank and the header that carries the signature either has the format of the
    provider, and one of its signatures is the HMAC, under the secret, of its
    time stamp, a dot and the body read as text, in which the replacement
    character stands for each malformed sequence, with a time stamp at most 300
    seconds from the clock; or has a format of the simulator, and carries the HMAC
    of the bytes of the body alone. So two bodies that differ in malformed
    sequences only can share a signature of the provider. The HMAC is the one of
    RFC 2104. *)
Theorem webhook_signature_exact headers body webhook_secret now :
  in_i64 now →
  sv_status (verify_stripe_like_signature_headers headers body webhook_secret now) = "verified" ↔
  str_trim webhook_secret ≠ "" ∧
  ∃ header, signature_header headers = Some header ∧
    let value := str_trim (hv_value header) in
    let signature_of data := hex_encode (hmac_sha256 (as_bytes webhook_secret) data) in
    (is_provider_format header = true ∧
     ∃ timestamp, stripe_like_signature_timestamp value = Some timestamp ∧ Z.abs (now - timestamp) <= 300 ∧
       signature_of (display_i128 timestamp ++ as_bytes "." ++ from_utf8_lossy body)
       ∈ stripe_like_signature_values value "v1") ∨
    (is_provider_format header = false ∧ is_simulated_format header = true ∧
     normalize_simulated_signature_header value = signature_of body).
Proof.
  intros Hnow. destruct (signature_header headers) as [header|] eqn:Hheader.
  - destruct (decide (str_trim webhook_secret = "")) as [Hblank|Hsecret].
    + split; [|by intros [? _]]. unfold verify_stripe_like_signature_headers.
      destruct (parse_selected headers header Hheader) as (-> & _). by rewrite bool_decide_true.
    + rewrite verify_selected by done. unfold signature_accepted. naive_solver.
  - split; [|by intros (_ & ? & ? & _)]. unfold verify_stripe_like_signature_headers. by rewrite parse_missing.
Qed.

(** The header a provider sends with a body. *)
Definition signed_header (secret : string) (timestamp : Z) (body : bytes) : PaymentProviderHeaderValue :=
  mkHeaderValue "Stripe-Signature"
    (from_bytes (as_bytes "t=" ++ display_u128 timestamp ++ as_bytes ",v1="
       ++ as_bytes (hex_encode (hmac_sha256 (as_bytes secret) (stripe_like_signed_payload timestamp body))))).

Lemma hexdigit_no_comma c : is_ascii_hexdigit c = true → c ≠ ","%char.
Proof. by intros Hc ->. Qed.

Lemma signature_parts_pair a b :
  Forall solid a → Forall solid b → (","%char ∉ a) → (","%char ∉ b) →
  str_trim (from_bytes (a ++ ","%char :: b)) = from_bytes (a ++ ","%char :: b) ∧
  signature_parts (from_bytes (a ++ ","%char :: b)) = [a; b].
Proof.
  intros Ha Hb Hna Hnb. unfold str_trim, signature_parts. rewrite as_from_bytes. split.
  - rewrite trim_solid_all; [done|]. apply Forall_app. split; [done|]. by constructor.
  - rewrite split_on_app, split_on_none by done. cbn [fmap list_fmap]. by rewrite !trim_solid_all.
Qed.

Lemma hmac_sha256_text key data :
  let text := as_bytes (hex_encode (hmac_sha256 key data)) in
  Forall solid text ∧ (","%char ∉ text) ∧ is_hex_64 text = true ∧
  to_ascii_lowercase (from_bytes text) = hex_encode (hmac_sha256 key data).
Proof.
  destruct (hex_encode_spec (hmac_sha256 key data)) as [Hlen Hall].
  set (text := as_bytes (hex_encode (hmac_sha256 key data))) in *. cbn zeta. rewrite Forall_forall in Hall. split_and!.
  - apply Forall_forall. intros c [Hhex _]%Hall. by apply hexdigit_solid.
  - intros [Hhex _]%Hall. by apply hexdigit_no_comma in Hhex.
  - unfold is_hex_64. apply andb_true_iff. split; [|apply forallb_elem; by intros c [? _]%Hall].
    rewrite Hlen. unfold hmac_sha256. by rewrite sha256_length.
  - unfold to_ascii_lowercase. rewrite as_from_bytes, <-(from_as_bytes (hex_encode _)). fold text. f_equal.
    rewrite <-(list_fmap_id text) at 2. apply list_fmap_ext. by intros i c [_ ?]%list_elem_of_lookup_2%Hall.
Qed.

Lemma signed_header_read secret timestamp body :
  0 <= timestamp <= i64_max →
  let value := str_trim (hv_value (signed_header secret timestamp body)) in
  is_provider_format (signed_header secret timestamp body) = true ∧
  stripe_like_signature_timestamp value = Some timestamp ∧
  stripe_like_signature_values value "v1"
  = [hex_encode (hmac_sha256 (as_bytes secret) (stripe_like_signed_payload timestamp body))].
Proof.
  intros Htime. set (data := stripe_like_signed_payload timestamp body).
  destruct (hmac_sha256_text (as_bytes secret) data) as (Hsolid & Hcomma & Hhex & Hlower).
  set (text := as_bytes (hex_encode (hmac_sha256 (as_bytes secret) data))) in *.
  destruct (display_u128_spec timestamp) as (Hdigits & Hne & _); [lia|].
  assert (Forall solid (as_bytes "t=" ++ display_u128 timestamp) ∧ (","%char ∉ as_bytes "t=" ++ display_u128 timestamp))
    as [Ht Htc].
  { unfold all_digits in Hdigits. rewrite Forall_forall in Hdigits. split.
    - apply Forall_app. split; [by repeat constructor|]. apply Forall_forall. intros c ?%Hdigits. by apply digit_solid.
    - rewrite elem_of_app. intros [Hin|Hin%Hdigits]; [|done]. revert Hin. by apply (bool_decide_unpack _). }
  destruct (signature_parts_pair (as_bytes "t=" ++ display_u128 timestamp) (as_bytes "v1=" ++ text)) as [Htrim Hparts];
    [done|by apply Forall_app; split; [repeat constructor|]|done| |].
  { rewrite elem_of_app. intros [Hin|Hin]; [|done]. revert Hin. by apply (bool_decide_unpack _). }
  assert (hv_value (signed_header secret timestamp body)
    = from_bytes ((as_bytes "t=" ++ display_u128 timestamp) ++ ","%char :: as_bytes "v1=" ++ text)) as Hvalue.
  { cbn [hv_value signed_header]. by rewrite <-app_assoc. }
  unfold is_provider_format. cbn zeta. rewrite Hvalue, Htrim.
  unfold stripe_like_signature_timestamp, stripe_like_signature_values. rewrite Hparts.
  cbn [find_map omap list_omap]. rewrite (proj2 (strip_prefix_Some _ _ (display_u128 timestamp))) by done.
  cbn [mbind option_bind]. rewrite parse_i64_display by done.
  rewrite (proj2 (strip_prefix_None (as_bytes "v1" ++ as_bytes "=") _)) by done.
  rewrite (proj2 (strip_prefix_Some (as_bytes "v1" ++ as_bytes "=") _ text)) by done.
  cbn [fmap list_fmap List.filter]. rewrite trim_solid_all, Hhex by done. cbn [fmap list_fmap]. by rewrite Hlower.
Qed.

(** What a provider signs is accepted, and nothing else under its
    signature: a body that comes with a header made for some body, secret and
    time is verified exactly when the time is at most 300 seconds from the clock
    and the HMAC of the received body under the configured secret is the one
    that was made. *)
Theorem signed_webhook_roundtrip secret timestamp body webhook_secret received now :
  0 <= timestamp <= i64_max → in_i64 now → str_trim webhook_secret ≠ "" →
  sv_status
    (verify_stripe_like_signature_headers [signed_header secret timestamp body] received webhook_secret now) = "verified" ↔
  Z.abs (now - timestamp) <= 300 ∧
  hmac_sha256 (as_bytes webhook_secret) (stripe_like_signed_payload timestamp received)
  = hmac_sha256 (as_bytes secret) (stripe_like_signed_payload timestamp body).
Proof.
  intros Htime Hnow Hsecret. rewrite verify_selected by done. unfold signature_accepted.
  destruct (signed_header_read secret timestamp body Htime) as (-> & -> & ->).
  setoid_rewrite list_elem_of_singleton. split.
  - intros [(_ & t & [= <-] & Hwindow & Heq)|[? _]]; [|done]. split; [done|]. by apply hex_encode_inj.
  - intros [Hwindow Heq]. left. split; [done|]. exists timestamp. split_and!; [done..|]. f_equal. exact Heq.
Qed.

End signatures.

(** ** Normalized events *)

Section events.
Context {H : Sha256} {J : SerdeJson}.

(** What the readback says is present. *)
Definition all_present (readback : PaymentProviderEventReadback) : bool :=
  is_some (rb_provider_event_id_hash readback) && is_some (rb_provider_object_id_hash readback)
  && rb_amount_present readback && rb_currency_present readback && rb_tenant_id_present readback.

Lemma to_ascii_uppercase_not_empty s : s ≠ "" → to_ascii_uppercase s ≠ "".
Proof.
  intros Hs Hupper%(f_equal str_len). unfold to_ascii_uppercase in Hupper.
  rewrite from_bytes_len, length_fmap in Hupper. by apply Hs, str_len_zero.
Qed.

#[local] Ltac payload_fields :=
  cbn [rb_provider_event_id_hash rb_provider_object_id_hash rb_amount_present rb_currency_present rb_tenant_id_present
       rb_schema_valid rb_refusal_reason is_some andb negb fmap option_fmap option_map mbind option_bind
       ne_event_type ne_idempotency_key ne_amount].

Lemma non_blank_None : non_blank None = None.
Proof. done. Qed.

Lemma non_blank_Some s : non_blank (Some s) = if bool_decide (s = "") then None else Some s.
Proof. done. Qed.

#[local] Ltac payload_refused :=
  rewrite ?non_blank_None; payload_fields; split_and!; [reflexivity|reflexivity|split; discriminate|exact I].

Lemma normalize_payload_cases payload event_type :
  let '(readback, event) := normalize_stripe_like_event_payload payload (Some event_type) in
  all_present readback = is_some event ∧ rb_schema_valid readback = is_some event ∧
  (rb_refusal_reason readback = None ↔ is_some event = true) ∧
  match event with
  | Some event =>
      ne_event_type event = event_type ∧ ne_idempotency_key event = None ∧
      ∃ amount_minor, object_amount (event_object payload) = Some amount_minor ∧
        ne_amount event = format_minor_amount amount_minor
  | None => True
  end.
Proof.
  unfold normalize_stripe_like_event_payload, all_present, with_refusal_reason, provider_event_readback_from_payload.
  destruct (trimmed_string payload "id") as [event_id|]; [|payload_refused].
  rewrite ?non_blank_Some. case_bool_decide; [payload_refused|].
  destruct (trimmed_string (event_object payload) "id") as [object_id|]; [|payload_refused].
  rewrite ?non_blank_Some. case_bool_decide; [payload_refused|].
  destruct (object_amount (event_object payload)) as [amount_minor|]; [|payload_refused].
  destruct (non_blank (trimmed_string (event_object payload) "currency")) as [currency|] eqn:Hcurrency; [|payload_refused].
  cbn [fmap option_fmap option_map]. rewrite bool_decide_false.
  2: { apply to_ascii_uppercase_not_empty. destruct (trimmed_string _ _); [|done].
       rewrite non_blank_Some in Hcurrency. by case_bool_decide; simplify_eq. }
  set (metadata := value_get (event_object payload) "metadata" ≫= as_object). cbn zeta.
  destruct (metadata ≫= λ map, metadata_string map "tenant_id") as [tenant|] eqn:Htenant; [|payload_refused].
  rewrite ?Htenant. payload_fields. split_and!; [done..|split; done|done|done|eauto].
Qed.

(** The adapter hands on an event exactly when it reports no reason for
    refusing it, exactly when it reports the event as valid, and exactly when the
    provider and the event type are supported and the event id, the object id,
    the amount, the currency and the tenant are all reported as present; the
    amount it hands on is then the one in the object of the event. *)
Theorem adapter_readback_consistent provider headers payload verification :
  let readback := normalize_stripe_like_sandbox_event provider headers payload verification in
  let event := ar_normalized_event readback in
  (ar_unsupported_reason readback = None ↔ is_Some event) ∧
  (rb_schema_valid (ar_provider_event_readback readback) = true ↔ is_Some event) ∧
  (is_Some event ↔ ar_provider_supported readback = true ∧ em_supported (ar_event_mapping readback) = true ∧
     all_present (ar_provider_event_readback readback) = true) ∧
  (∀ normalized, event = Some normalized →
     em_normalized_event_type (ar_event_mapping readback) = Some (ne_event_type normalized) ∧
     ∃ amount_minor, object_amount (event_object payload) = Some amount_minor ∧
       ne_amount normalized = format_minor_amount amount_minor).
Proof.
  cbn zeta. unfold normalize_stripe_like_sandbox_event. set (event_type := value_get payload "type" ≫= as_str).
  destruct (bool_decide (provider ∈ _)).
  2: { cbn [andb ar_unsupported_reason ar_normalized_event ar_provider_event_readback ar_provider_supported negb
            provider_event_readback_from_payload rb_schema_valid is_some].
       split_and!; [split; [done|by intros []]..|done]. }
  cbn [andb negb]. destruct (em_normalized_event_type (map_stripe_like_event_type event_type)) as [type|] eqn:Htype.
  - assert (em_supported (map_stripe_like_event_type event_type) = true ∧
      em_unsupported_reason (map_stripe_like_event_type event_type) = None) as [Hsupported Hreason].
    { unfold map_stripe_like_event_type in *. cbn [em_normalized_event_type em_supported em_unsupported_reason] in *.
      rewrite Htype. by destruct event_type. }
    rewrite Hsupported, Hreason. pose proof (normalize_payload_cases payload type) as Hcases.
    destruct (normalize_stripe_like_event_payload payload (Some type)) as [readback event].
    destruct Hcases as (Hall & Hvalid & Hrefusal & Hevent).
    cbn [ar_unsupported_reason ar_normalized_event ar_provider_event_readback ar_provider_supported ar_event_mapping].
    rewrite Hrefusal, Hvalid, Hall, Hsupported. destruct event as [normalized|]; cbn [is_some].
    + split_and!; [by eauto..|]. intros ? [= <-]. rewrite Htype. destruct Hevent as (-> & _ & ?). auto.
    + split_and!; [split; [done|by intros []]..|split; [by intros []|by intros (_ & _ & ?)]|done].
  - assert (em_supported (map_stripe_like_event_type event_type) = false ∧
      is_some (em_unsupported_reason (map_stripe_like_event_type event_type)) = true) as [Hsupported Hreason].
    { unfold map_stripe_like_event_type in *. cbn [em_normalized_event_type em_supported em_unsupported_reason] in *.
      rewrite Htype. by destruct event_type. }
    rewrite Hsupported. destruct (em_unsupported_reason _) as [reason|]; [|done].
    cbn [ar_unsupported_reason ar_normalized_event ar_provider_event_readback ar_provider_supported ar_event_mapping
         provider_event_readback_from_payload rb_schema_valid is_some negb andb]. rewrite Hsupported.
    split_and!; [split; [done|by intros []]..|split; [by intros []|by intros (_ & ? & _)]|done].
Qed.

End events.

(** ** Examples *)

Section examples.
#[local] Existing Instance tail_hash.
#[local] Existing Instance tail_hash_laws.

(** A header of the simulator, without a time stamp. *)
Definition simulated_header (secret : string) (body : bytes) : PaymentProviderHeaderValue :=
  mkHeaderValue "X-Fubox-Payment-Signature" ("sha256=" +:+ hmac_sha256_hex (as_bytes secret) body).

(** A simulated signature is accepted at any time, for its own body only. *)
Lemma webhook_signature_exact_witness :
  sv_status (verify_stripe_like_signature_headers [simulated_header "whsec" (as_bytes "{}")] (as_bytes "{}") "whsec"
    i64_max) = "verified" ∧
  sv_status (verify_stripe_like_signature_headers [simulated_header "whsec" (as_bytes "{}")] (as_bytes "[]") "whsec" 0)
  ≠ "verified".
Proof.
  split.
  - apply webhook_signature_exact; [width_lia|]. split; [by vm_compute|].
    exists (simulated_header "whsec" (as_bytes "{}")). split; [reflexivity|]. right. by vm_compute.
  - intros (_ & header & [= <-] & [[Hformat _]|(_ & _ & Hsame)])%webhook_signature_exact; [| |width_lia].
    + by vm_compute in Hformat.
    + by vm_compute in Hsame.
Defined.

Lemma signed_webhook_roundtrip_witness :
  sv_status (verify_stripe_like_signature_headers [signed_header "whsec" 1700000000 (as_bytes "{}")] (as_bytes "{}")
    "whsec" 1700000300) = "verified" ∧
  sv_status (verify_stripe_like_signature_headers [signed_header "whsec" 1700000000 (as_bytes "{}")] (as_bytes "{}")
    "whsec" 1700000301) ≠ "verified".
Proof.
  split.
  - apply signed_webhook_roundtrip; [width_lia..|by vm_compute|]. split; [lia|reflexivity].
  - intros [Hwindow _]%signed_webhook_roundtrip; [lia|width_lia..|by vm_compute].
Defined.

End examples.
