(* ===== verification/PaymentTables.v ===== *)
(** The tables behind the payment webhooks of apps/control-plane/src/admin.rs:
    their columns and constraints (db/migrations/0001_init.sql and
    0013_payment_order_invoice_boundary.sql), a monad of SQL statements whose
    connection may fail, transactions, and the balance that the gateway computes
    from them. The descriptive JSON columns are left out, and the times of
    creation and update where no statement reads them. *)

From stdpp Require Import gmap.
From S2P Require Export PaymentProvider.

#[local] Open Scope string_scope.
#[local] Open Scope list_scope.
#[local] Open Scope Z_scope.

(** ** Rows *)

(** A column of type [numeric(20, 8)] is the number of its units of 10^-8. *)

Record PaymentOrder : Type := mkPaymentOrder {
  po_tenant_id : Uuid;
  po_status : string;
  po_payment_intent_id : option Uuid;
  po_payment_capture_id : option Uuid;
  po_credit_grant_id : option Uuid;
  po_ledger_entry_id : option Uuid;
}.

Record PaymentIntent : Type := mkPaymentIntent {
  pi_tenant_id : Uuid;
  pi_project_id : option Uuid;
  pi_wallet_id : Uuid;
  pi_order_id : Uuid;
  pi_currency : string;
  pi_amount : Z;
  pi_status : string;
}.

Record PaymentCapture : Type := mkPaymentCapture {
  pc_tenant_id : Uuid;
  pc_project_id : option Uuid;
  pc_wallet_id : Uuid;
  pc_order_id : Uuid;
  pc_payment_intent_id : Uuid;
  pc_provider_reference_hash : string;
  pc_provider_reference_redacted : string;
  pc_currency : string;
  pc_amount : Z;
  pc_status : string;
  pc_idempotency_key_hash : string;
  pc_credit_grant_id : option Uuid;
  pc_ledger_entry_id : option Uuid;
  pc_invoice_id : option Uuid;
}.

Record PaymentRefund : Type := mkPaymentRefund {
  pr_tenant_id : Uuid;
  pr_project_id : option Uuid;
  pr_wallet_id : Uuid;
  pr_order_id : Uuid;
  pr_payment_capture_id : Uuid;
  pr_currency : string;
  pr_amount : Z;
  pr_status : string;
  pr_reason : string;
  pr_idempotency_key_hash : string;
  pr_credit_grant_id : option Uuid;
  pr_ledger_entry_id : option Uuid;
  pr_reversal_ledger_entry_id : option Uuid;
}.

Record PaymentEvent : Type := mkPaymentEvent {
  pv_tenant_id : Uuid;
  pv_project_id : option Uuid;
  pv_wallet_id : option Uuid;
  pv_order_id : option Uuid;
  pv_payment_intent_id : option Uuid;
  pv_payment_capture_id : option Uuid;
  pv_event_type : string;
  pv_outcome : string;
  pv_idempotency_key_hash : option string;
}.

Record PaymentReconciliation : Type := mkPaymentReconciliation {
  pn_tenant_id : Uuid;
  pn_project_id : option Uuid;
  pn_wallet_id : Uuid;
  pn_order_id : Uuid;
  pn_payment_capture_id : option Uuid;
  pn_invoice_id : option Uuid;
  pn_ledger_entry_id : option Uuid;
  pn_refund_id : option Uuid;
  pn_currency : string;
  pn_payment_amount : Z;
  pn_invoice_amount : Z;
  pn_ledger_amount : Z;
  pn_status : string;
  pn_created_at : Z;
}.

Record CreditGrant : Type := mkCreditGrant {
  cg_tenant_id : Uuid;
  cg_wallet_id : Uuid;
  cg_amount : Z;
  cg_remaining_amount : Z;
  cg_currency : string;
  cg_source : string;
  cg_valid_from : Z;
  cg_valid_until : option Z;
  cg_status : string;
}.

Record LedgerEntry : Type := mkLedgerEntry {
  le_tenant_id : Uuid;
  le_project_id : option Uuid;
  le_wallet_id : option Uuid;
  le_related_ledger_entry_id : option Uuid;
  le_entry_type : string;
  le_amount : Z;
  le_currency : string;
  le_status : string;
  le_idempotency_key : string;
}.

Record Wallet : Type := mkWallet {
  wa_tenant_id : Uuid;
  wa_project_id : option Uuid;
  wa_currency : string;
  wa_status : string;
  wa_balance_floor : Z;
  wa_deleted : bool;
  wa_created_at : Z;
}.

(** The tables by their primary keys; of projects and invoices only the tenant
    matters here. *)
Record Tables : Type := mkTables {
  payment_orders : gmap Uuid PaymentOrder;
  payment_intents : gmap Uuid PaymentIntent;
  payment_captures : gmap Uuid PaymentCapture;
  payment_refunds : gmap Uuid PaymentRefund;
  payment_events : gmap Uuid PaymentEvent;
  payment_reconciliations : gmap Uuid PaymentReconciliation;
  credit_grants : gmap Uuid CreditGrant;
  ledger_entries : gmap Uuid LedgerEntry;
  wallets : gmap Uuid Wallet;
  projects : gmap Uuid Uuid;
  invoices : gmap Uuid Uuid;
}.

Definition with_payment_orders (t : Tables) (rows : gmap Uuid PaymentOrder) : Tables :=
  mkTables rows (payment_intents t) (payment_captures t) (payment_refunds t) (payment_events t)
    (payment_reconciliations t) (credit_grants t) (ledger_entries t) (wallets t) (projects t) (invoices t).
Definition with_payment_intents (t : Tables) (rows : gmap Uuid PaymentIntent) : Tables :=
  mkTables (payment_orders t) rows (payment_captures t) (payment_refunds t) (payment_events t)
    (payment_reconciliations t) (credit_grants t) (ledger_entries t) (wallets t) (projects t) (invoices t).
Definition with_payment_captures (t : Tables) (rows : gmap Uuid PaymentCapture) : Tables :=
  mkTables (payment_orders t) (payment_intents t) rows (payment_refunds t) (payment_events t)
    (payment_reconciliations t) (credit_grants t) (ledger_entries t) (wallets t) (projects t) (invoices t).
Definition with_payment_refunds (t : Tables) (rows : gmap Uuid PaymentRefund) : Tables :=
  mkTables (payment_orders t) (payment_intents t) (payment_captures t) rows (payment_events t)
    (payment_reconciliations t) (credit_grants t) (ledger_entries t) (wallets t) (projects t) (invoices t).
Definition with_payment_events (t : Tables) (rows : gmap Uuid PaymentEvent) : Tables :=
  mkTables (payment_orders t) (payment_intents t) (payment_captures t) (payment_refunds t) rows
    (payment_reconciliations t) (credit_grants t) (ledger_entries t) (wallets t) (projects t) (invoices t).
Definition with_payment_reconciliations (t : Tables) (rows : gmap Uuid PaymentReconciliation) : Tables :=
  mkTables (payment_orders t) (payment_intents t) (payment_captures t) (payment_refunds t) (payment_events t)
    rows (credit_grants t) (ledger_entries t) (wallets t) (projects t) (invoices t).
Definition with_credit_grants (t : Tables) (rows : gmap Uuid CreditGrant) : Tables :=
  mkTables (payment_orders t) (payment_intents t) (payment_captures t) (payment_refunds t) (payment_events t)
    (payment_reconciliations t) rows (ledger_entries t) (wallets t) (projects t) (invoices t).
Definition with_ledger_rows (t : Tables) (rows : gmap Uuid LedgerEntry) : Tables :=
  mkTables (payment_orders t) (payment_intents t) (payment_captures t) (payment_refunds t) (payment_events t)
    (payment_reconciliations t) (credit_grants t) rows (wallets t) (projects t) (invoices t).

(** ** Statements *)

(** The only errors of the handlers: a request that is refused, and a query that
    fails. *)
Inductive AdminError : Type := BadRequest (message : string) | QueryError.

(** The database server: how its n-th statement ends, and what
    [gen_random_uuid()] and [now()] answer in it. *)
Class PostgresServer : Type := {
  connection : nat → Connection;
  new_uuid : nat → Uuid;
  server_now : nat → Z;
}.

(** Random ids do not repeat. *)
Class PostgresServerLaws (P : PostgresServer) : Prop := new_uuid_inj m n : new_uuid m = new_uuid n → m = n.

Record Server : Type := mkServer { tables : Tables; executed : nat }.

(** Code that runs statements: an error leaves what was written before it. *)
Definition Db (E A : Type) : Type := Server → result E A * Server.

#[export] Instance db_ret {E} : MRet (Db E) := λ A a s, (Ok a, s).

#[export] Instance db_bind {E} : MBind (Db E) := λ A B k m s,
  match m s with
  | (Ok a, s) => k a s
  | (Err e, s) => (Err e, s)
  end.

(** An early return. *)
Definition throw {E A} (e : E) : Db E A := λ s, (Err e, s).

Definition lift {E A} (m : result E A) : Db E A := λ s, (m, s).

Definition map_db_err {E F A} (f : E → F) (m : Db E A) : Db F A := λ s, let '(r, s) := m s in (map_err f r, s).

Section statements.
Context {P : PostgresServer}.

(** A statement, given its number; [None] is an error of the database. *)
Definition sql {A} (statement : nat → Tables → option (A * Tables)) : Db AdminError A := λ s,
  let number := executed s in
  let failed := (Err QueryError, mkServer (tables s) (S number)) in
  match connection number with
  | NotReached => failed
  | reply =>
      match statement number (tables s) with
      | None => failed
      | Some (a, t) => (if bool_decide (reply = Answered) then Ok a else Err QueryError, mkServer t (S number))
      end
  end.

Definition query {A} (read : Tables → A) : Db AdminError A := sql (λ _ t, Some (read t, t)).

Definition execute (update : Tables → Tables) : Db AdminError () := sql (λ _ t, Some ((), update t)).

(** The ways to leave a transaction before it is committed: the handler answers
    with a reason, or an error. *)
Inductive Stop : Type := Refused (reason : string) | Failed (error : AdminError).

(** A transaction that is dropped is rolled back. The answer to the commit may be
    lost after the commit. *)
Definition transaction {A} (refused : string → A) (body : Db Stop A) : Db AdminError A := λ s,
  match query (λ _, ()) s with
  | (Err e, s) => (Err e, s)
  | (Ok _, s) =>
      let '(r, s') := body s in
      match r with
      | Err (Refused reason) => (Ok (refused reason), mkServer (tables s) (executed s'))
      | Err (Failed e) => (Err e, mkServer (tables s) (executed s'))
      | Ok a =>
          match connection (executed s') with
          | Answered => (Ok a, mkServer (tables s') (S (executed s')))
          | AnswerLost => (Err QueryError, mkServer (tables s') (S (executed s')))
          | NotReached => (Err QueryError, mkServer (tables s) (S (executed s')))
          end
      end
  end.

End statements.

(** ** Columns and constraints *)

(** [amount::text] of a [numeric(20, 8)]. *)
Definition numeric_text (units : Z) : string := fd_to_string (mkFixedDecimal units DEFAULT_MONEY_SCALE).

(** [$n::numeric], in units of 10^-8, of a text that [FixedDecimal] has printed. *)
Definition numeric_value (text : string) : option Z :=
  match fd_parse text DEFAULT_MONEY_SCALE with Ok amount => Some (units amount) | Err _ => None end.

(** The same, stored in a column: twenty digits. *)
Definition numeric_column (text : string) : option Z :=
  value ← numeric_value text; if Z.abs value <? 10 ^ 20 then Some value else None.

(** [length(btrim(text)) > 0]. *)
Definition not_blank (text : string) : bool := List.existsb (λ c, negb (bool_decide (c = " "%char))) (as_bytes text).

Definition currency_code (currency : string) : bool := is_ok (validate_currency currency).

(** A foreign key [(tenant_id, id)]; null references nothing. *)
Definition references {R : Type} (tenant_of : R → Uuid) (rows : gmap Uuid R) (tenant_id : Uuid) (id : option Uuid) : bool :=
  match id with
  | None => true
  | Some id => match rows !! id with Some row => tenant_of row =? tenant_id | None => false end
  end.

(** The row [where tenant_id = $1 and id = $2]. *)
Definition row_of {R : Type} (tenant_of : R → Uuid) (rows : gmap Uuid R) (tenant_id id : Uuid) : option R :=
  row ← rows !! id; if tenant_of row =? tenant_id then Some row else None.

(** The rows that satisfy a condition. *)
Definition select {R : Type} (condition : R → bool) (rows : gmap Uuid R) : list (Uuid * R) :=
  List.filter (λ '(_, row), condition row) (map_to_list rows).

Definition any_row {R : Type} (condition : R → bool) (rows : gmap Uuid R) : bool :=
  List.existsb (λ '(_, row), condition row) (map_to_list rows).

(** [count( * )] of the row with an id, which null never equals. *)
Definition count_row {R : Type} (condition : R → bool) (rows : gmap Uuid R) (id : option Uuid) : Z :=
  match id ≫= (rows !!.) with Some row => if condition row then 1 else 0 | None => 0 end.

(** ** Insertions

    [None] when a constraint of the table is violated. *)

Definition insert_payment_event (id : Uuid) (row : PaymentEvent) (t : Tables) : option Tables :=
  let tenant_id := pv_tenant_id row in
  if negb (is_some (payment_events t !! id))
     && references Datatypes.id (projects t) tenant_id (pv_project_id row)
     && references wa_tenant_id (wallets t) tenant_id (pv_wallet_id row)
     && references po_tenant_id (payment_orders t) tenant_id (pv_order_id row)
     && references pi_tenant_id (payment_intents t) tenant_id (pv_payment_intent_id row)
     && references pc_tenant_id (payment_captures t) tenant_id (pv_payment_capture_id row)
     && bool_decide (pv_event_type row ∈ ["order_create"; "provider_handoff"; "capture_confirm"; "refund"; "refusal";
                                            "reconciliation"])
     && bool_decide (pv_outcome row ∈ ["applied"; "replayed"; "refused"; "matched"])
     && match pv_idempotency_key_hash row with Some hash => not_blank hash | None => true end
  then Some (with_payment_events t (<[id := row]> (payment_events t)))
  else None.

Definition insert_payment_capture (id : Uuid) (row : PaymentCapture) (t : Tables) : option Tables :=
  let tenant_id := pc_tenant_id row in
  let conflicts other :=
    (pc_tenant_id other =? tenant_id)
    && (bool_decide (pc_idempotency_key_hash other = pc_idempotency_key_hash row)
        || (pc_payment_intent_id other =? pc_payment_intent_id row)
           && bool_decide (pc_provider_reference_hash other = pc_provider_reference_hash row)) in
  if negb (is_some (payment_captures t !! id)) && negb (any_row conflicts (payment_captures t))
     && references Datatypes.id (projects t) tenant_id (pc_project_id row)
     && references wa_tenant_id (wallets t) tenant_id (Some (pc_wallet_id row))
     && references po_tenant_id (payment_orders t) tenant_id (Some (pc_order_id row))
     && references pi_tenant_id (payment_intents t) tenant_id (Some (pc_payment_intent_id row))
     && references cg_tenant_id (credit_grants t) tenant_id (pc_credit_grant_id row)
     && references le_tenant_id (ledger_entries t) tenant_id (pc_ledger_entry_id row)
     && currency_code (pc_currency row) && (0 <? pc_amount row)
     && bool_decide (pc_status row ∈ ["captured"; "replayed"; "refused"])
     && not_blank (pc_provider_reference_hash row) && not_blank (pc_provider_reference_redacted row)
     && not_blank (pc_idempotency_key_hash row)
  then Some (with_payment_captures t (<[id := row]> (payment_captures t)))
  else None.

Definition insert_payment_refund (id : Uuid) (row : PaymentRefund) (t : Tables) : option Tables :=
  let tenant_id := pr_tenant_id row in
  let conflicts other :=
    (pr_tenant_id other =? tenant_id)
    && bool_decide (pr_idempotency_key_hash other = pr_idempotency_key_hash row) in
  if negb (is_some (payment_refunds t !! id)) && negb (any_row conflicts (payment_refunds t))
     && references Datatypes.id (projects t) tenant_id (pr_project_id row)
     && references wa_tenant_id (wallets t) tenant_id (Some (pr_wallet_id row))
     && references po_tenant_id (payment_orders t) tenant_id (Some (pr_order_id row))
     && references pc_tenant_id (payment_captures t) tenant_id (Some (pr_payment_capture_id row))
     && references cg_tenant_id (credit_grants t) tenant_id (pr_credit_grant_id row)
     && references le_tenant_id (ledger_entries t) tenant_id (pr_ledger_entry_id row)
     && references le_tenant_id (ledger_entries t) tenant_id (pr_reversal_ledger_entry_id row)
     && currency_code (pr_currency row) && (0 <? pr_amount row)
     && bool_decide (pr_status row ∈ ["refunded"; "replayed"; "refused"])
     && not_blank (pr_reason row) && not_blank (pr_idempotency_key_hash row)
  then Some (with_payment_refunds t (<[id := row]> (payment_refunds t)))
  else None.

Definition insert_payment_reconciliation (id : Uuid) (row : PaymentReconciliation) (t : Tables) : option Tables :=
  let tenant_id := pn_tenant_id row in
  if negb (is_some (payment_reconciliations t !! id))
     && references Datatypes.id (projects t) tenant_id (pn_project_id row)
     && references wa_tenant_id (wallets t) tenant_id (Some (pn_wallet_id row))
     && references po_tenant_id (payment_orders t) tenant_id (Some (pn_order_id row))
     && references pc_tenant_id (payment_captures t) tenant_id (pn_payment_capture_id row)
     && references Datatypes.id (invoices t) tenant_id (pn_invoice_id row)
     && references le_tenant_id (ledger_entries t) tenant_id (pn_ledger_entry_id row)
     && references pr_tenant_id (payment_refunds t) tenant_id (pn_refund_id row)
     && currency_code (pn_currency row) && bool_decide (pn_status row ∈ ["matched"; "mismatch"; "refused"])
  then Some (with_payment_reconciliations t (<[id := row]> (payment_reconciliations t)))
  else None.

Definition insert_credit_grant (id : Uuid) (row : CreditGrant) (t : Tables) : option Tables :=
  if negb (is_some (credit_grants t !! id))
     && references wa_tenant_id (wallets t) (cg_tenant_id row) (Some (cg_wallet_id row))
     && (0 <? cg_amount row) && (0 <=? cg_remaining_amount row) && (cg_remaining_amount row <=? cg_amount row)
     && currency_code (cg_currency row) && not_blank (cg_source row)
     && match cg_valid_until row with Some until => cg_valid_from row <? until | None => true end
     && bool_decide (cg_status row ∈ ["active"; "consumed"; "expired"; "voided"])
  then Some (with_credit_grants t (<[id := row]> (credit_grants t)))
  else None.

Definition same_ledger_key (tenant_id : Uuid) (key : string) (row : LedgerEntry) : bool :=
  (le_tenant_id row =? tenant_id) && bool_decide (le_idempotency_key row = key).

Definition insert_ledger_entry (id : Uuid) (row : LedgerEntry) (t : Tables) : option Tables :=
  let tenant_id := le_tenant_id row in
  if negb (is_some (ledger_entries t !! id))
     && negb (any_row (same_ledger_key tenant_id (le_idempotency_key row)) (ledger_entries t))
     && references Datatypes.id (projects t) tenant_id (le_project_id row)
     && references wa_tenant_id (wallets t) tenant_id (le_wallet_id row)
     && references le_tenant_id (ledger_entries t) tenant_id (le_related_ledger_entry_id row)
     && not_blank (le_idempotency_key row)
     && bool_decide (le_entry_type row ∈ ["reserve"; "settle"; "refund"; "adjust"; "expire"; "credit_grant";
                                            "credit_expire"])
     && negb (le_amount row =? 0) && currency_code (le_currency row)
     && bool_decide (le_status row ∈ ["pending"; "confirmed"; "reversed"])
     && (negb (bool_decide (le_entry_type row = "refund")) || is_some (le_related_ledger_entry_id row))
  then Some (with_ledger_rows t (<[id := row]> (ledger_entries t)))
  else None.

(** ** The balance of a wallet

    [PRE_AUTHORIZE_WALLET_BALANCE_SQL] of apps/gateway/src/db.rs, for the wallet
    that it selects. *)

Definition sum_rows {R : Type} (value : R → Z) (rows : gmap Uuid R) : Z :=
  map_fold (λ _ row acc, value row + acc) 0 rows.

Definition grant_counts (tenant_id wallet_id : Uuid) (currency : string) (now : Z) (row : CreditGrant) : bool :=
  (cg_wallet_id row =? wallet_id) && bool_decide (cg_currency row = currency) && (cg_tenant_id row =? tenant_id)
  && bool_decide (cg_status row = "active") && (cg_valid_from row <=? now)
  && match cg_valid_until row with None => true | Some valid_until => now <? valid_until end.

Definition entry_counts (tenant_id : Uuid) (project_id : option Uuid) (wallet_id : Uuid) (currency : string)
    (row : LedgerEntry) : bool :=
  bool_decide (le_currency row = currency)
  && (bool_decide (le_wallet_id row = Some wallet_id)
      || negb (is_some (le_wallet_id row)) && is_some project_id && bool_decide (le_project_id row = project_id))
  && (le_tenant_id row =? tenant_id) && bool_decide (le_status row ∈ ["pending"; "confirmed"]).

Definition available_balance (tenant_id : Uuid) (project_id : option Uuid) (wallet_id : Uuid) (wallet : Wallet) (now : Z)
    (t : Tables) : Z :=
  sum_rows (λ row,
      if grant_counts tenant_id wallet_id (wa_currency wallet) now row then cg_remaining_amount row else 0)
    (credit_grants t)
  + sum_rows (λ row,
      if entry_counts tenant_id project_id wallet_id (wa_currency wallet) row then le_amount row else 0)
    (ledger_entries t)
  - wa_balance_floor wallet.

(** The wallet it selects: of the project before one of the tenant, then the
    oldest, then the least id. *)
Definition wallet_eligible (tenant_id : Uuid) (project_id : option Uuid) (currency : string) (row : Wallet) : bool :=
  (wa_tenant_id row =? tenant_id)
  && (is_some project_id && bool_decide (wa_project_id row = project_id) || negb (is_some (wa_project_id row)))
  && bool_decide (wa_currency row = currency) && bool_decide (wa_status row = "active") && negb (wa_deleted row).

Definition wallet_leb (a b : Uuid * Wallet) : bool :=
  let rank (row : Uuid * Wallet) := if is_some (wa_project_id row.2) then 0 else 1 in
  (rank a <? rank b)
  || (rank a =? rank b)
     && ((wa_created_at a.2 <? wa_created_at b.2) || (wa_created_at a.2 =? wa_created_at b.2) && (a.1 <=? b.1)).

Definition PRE_AUTHORIZE_WALLET_BALANCE (tenant_id : Uuid) (project_id : option Uuid) (currency : string) (now : Z)
    (t : Tables) : option Z :=
  '(id, wallet) ← head (sort_by wallet_leb (select (wallet_eligible tenant_id project_id currency) (wallets t)));
  Some (available_balance tenant_id project_id id wallet now t).
