(* ===== verification/PaymentExecution.v ===== *)
(** The payment webhook of apps/control-plane/src/admin.rs: the request that is
    read from a normalized event, the event row, and the bounded executor that
    captures a payment in one transaction and reverses one statement by
    statement. The JSON of the answers is reduced to the facts it reports. *)

From stdpp Require Import gmap.
From S2P Require Export PaymentTables.

#[local] Open Scope string_scope.
#[local] Open Scope list_scope.
#[local] Open Scope Z_scope.

(** ** Values of a request *)

Definition DEFAULT_TENANT_ID : Uuid := 1.

Definition bad_request {A : Type} (message : string) : result AdminError A := Err (BadRequest message).

Definition non_empty (value field : string) : result AdminError string :=
  if bool_decide (str_trim value = "") then bad_request (field +:+ " must not be empty") else Ok value.

Definition looks_like_secret_value (value : string) : bool :=
  let trimmed := str_trim value in
  starts_with (as_bytes "sk-") (as_bytes trimmed)
  || starts_with (as_bytes "vk_") (as_bytes trimmed) && (16 <? str_len trimmed)%nat
  || starts_with (as_bytes "Bearer ") (as_bytes trimmed)
  || str_contains trimmed "BEGIN PRIVATE KEY".

Definition parse_billing_fixed_decimal (value : string) : result AdminError FixedDecimal :=
  map_err (λ _, BadRequest "billing amount must be a decimal string") (fd_parse value DEFAULT_MONEY_SCALE).

Definition admin_wallet_fixed_money_string (value : string) : result AdminError string :=
  amount ← parse_billing_fixed_decimal value; Ok (fd_to_string amount).

Definition normalize_local_payment_demo_amount (amount : string) : result AdminError string :=
  amount ← admin_wallet_fixed_money_string amount;
  parsed ← parse_billing_fixed_decimal amount;
  if units parsed <=? 0 then bad_request "amount must be positive" else Ok amount.

(** [validate_price_version_currency] accepts what [validate_currency] of the
    billing crate does. *)
Definition normalize_local_payment_demo_currency (currency : string) : result AdminError string :=
  currency ← non_empty currency "currency";
  _ ← map_err (λ _, BadRequest "currency must be an uppercase currency code") (validate_currency currency);
  Ok currency.

Definition normalize_payment_provider_name (provider : string) : result AdminError string :=
  provider ← non_empty provider "provider";
  let allowed c :=
    is_ascii_digit c || is_ascii_uppercase c || is_ascii_lowercase c
    || bool_decide (c ∈ ["_"%char; "-"%char; "."%char]) in
  if (64 <? str_len provider)%nat || negb (List.forallb allowed (as_bytes provider)) then
    bad_request "provider must be 1-64 ASCII letters, numbers, underscore, dash, or dot"
  else if looks_like_secret_value provider then bad_request "provider must not contain credential material"
  else Ok provider.

Definition validate_local_payment_demo_scope (tenant_id : Uuid) : result AdminError () :=
  if negb (tenant_id =? DEFAULT_TENANT_ID) then bad_request "tenant_id must match the current control-plane tenant"
  else Ok ().

Record PaymentProviderWebhookEventRequest : Type := mkWebhookEventRequest {
  wr_tenant_id : Uuid;
  wr_event_type : PaymentProviderEventType;
  wr_external_event_id : string;
  wr_amount : string;
  wr_currency : string;
  wr_idempotency_key : option string;
  wr_order_id : option Uuid;
  wr_project_id : option Uuid;
  wr_wallet_id : option Uuid;
  wr_payment_intent_id : option Uuid;
  wr_payment_capture_id : option Uuid;
  wr_refund_id : option Uuid;
  wr_credit_grant_id : option Uuid;
  wr_ledger_entry_id : option Uuid;
  wr_reversal_ledger_entry_id : option Uuid;
  wr_invoice_id : option Uuid;
}.

Section request.
Context {U : UuidParse}.

Definition adapter_required_string (value : option string) (field : string) : result AdminError string :=
  ok_or (non_blank (str_trim <$> value)) (BadRequest ("normalized " +:+ field +:+ " is missing")).

Definition must_be_uuid (field : string) : AdminError :=
  BadRequest ("normalized " +:+ field +:+ " must be a local UUID").

Definition parse_required_uuid_from_adapter_metadata (value : option string) (field : string) : result AdminError Uuid :=
  value ← adapter_required_string value field;
  ok_or (uuid_parse_str value) (must_be_uuid field).

Definition parse_optional_uuid_from_adapter_metadata (value : option string) (field : string)
    : result AdminError (option Uuid) :=
  match value with
  | None => Ok None
  | Some value =>
      if bool_decide (str_trim value = "") then Ok None
      else Some <$> ok_or (uuid_parse_str (str_trim value)) (must_be_uuid field)
  end.

(** The event goes through JSON on its way here; every field is read under its
    own name. *)
Definition payment_provider_webhook_request_from_normalized_adapter_event (normalized : PaymentProviderNormalizedEvent)
    : result AdminError PaymentProviderWebhookEventRequest :=
  let optional := parse_optional_uuid_from_adapter_metadata in
  tenant_id ← parse_required_uuid_from_adapter_metadata (ne_tenant_id normalized) "tenant_id";
  external_event_id ← adapter_required_string (Some (ne_external_event_id normalized)) "external_event_id";
  amount ← adapter_required_string (Some (ne_amount normalized)) "amount";
  currency ← adapter_required_string (Some (ne_currency normalized)) "currency";
  order_id ← optional (ne_order_id normalized) "order_id";
  project_id ← optional (ne_project_id normalized) "project_id";
  wallet_id ← optional (ne_wallet_id normalized) "wallet_id";
  payment_intent_id ← optional (ne_payment_intent_id normalized) "payment_intent_id";
  payment_capture_id ← optional (ne_payment_capture_id normalized) "payment_capture_id";
  refund_id ← optional (ne_refund_id normalized) "refund_id";
  credit_grant_id ← optional (ne_credit_grant_id normalized) "credit_grant_id";
  ledger_entry_id ← optional (ne_ledger_entry_id normalized) "ledger_entry_id";
  reversal_ledger_entry_id ← optional (ne_reversal_ledger_entry_id normalized) "reversal_ledger_entry_id";
  invoice_id ← optional (ne_invoice_id normalized) "invoice_id";
  Ok (mkWebhookEventRequest tenant_id (ne_event_type normalized) external_event_id amount currency None order_id
        project_id wallet_id payment_intent_id payment_capture_id refund_id credit_grant_id ledger_entry_id
        reversal_ledger_entry_id invoice_id).

End request.

(** ** Capture *)

(** The facts a capture reports. *)
Record CaptureExecution : Type := mkCaptureExecution {
  cx_action_result : string;
  cx_payment_capture_id : Uuid;
  cx_capture_status : string;
  cx_credit_grant_id : option Uuid;
  cx_ledger_entry_id : option Uuid;
  cx_credit_executor_status : string;
  cx_credit_executor_reason : string;
  cx_written : bool;
  cx_reconciliation_matched : bool;
  cx_source_of_truth_candidate : bool;
  cx_source_of_truth_blocked_reason : option string;
}.

(** The facts a refund or chargeback reports. *)
Record ReversalExecution : Type := mkReversalExecution {
  rx_action_result : string;
  rx_refund_id : Uuid;
  rx_refund_status : string;
  rx_reason : string;
  rx_reversal_ledger_entry_id : option Uuid;
  rx_ledger_ref_status : string;
  rx_ledger_ref_reason : string;
  rx_source_credit_grant_status : option string;
  rx_credit_reversal_status : string;
  rx_credit_reversal_reason : string;
  rx_credit_reversal_written : bool;
  rx_reconciliation_id : option Uuid;
  rx_reconciliation_status : string;
  rx_source_of_truth_candidate : bool;
  rx_source_of_truth_blocked_reason : option string;
}.

Inductive ExecutionPlan : Type :=
| NotExecuted (reason : string)
| CaptureExecuted (execution : CaptureExecution)
| ReversalExecuted (execution : ReversalExecution).

(** [provided.is_some_and(|provided| provided != actual)]. *)
Definition differs (provided : option Uuid) (actual : option Uuid) : bool :=
  match provided with Some provided => negb (bool_decide (Some provided = actual)) | None => false end.

Definition payment_provider_redacted_reference (provider external_event_id_hash : string) : string :=
  provider +:+ "_evt_" +:+ from_bytes (take 12 (as_bytes external_event_id_hash)).

(** [update ... where tenant_id = $1 and id = $2]. *)
Definition update_where {R : Type} (tenant_of : R → Uuid) (tenant_id id : Uuid) (f : R → R) (rows : gmap Uuid R) : gmap Uuid R :=
  match row_of tenant_of rows tenant_id id with Some row => <[id := f row]> rows | None => rows end.

(** What the amount, the currency and the scope of the captured payment are. *)
Record CaptureScope : Type := mkCaptureScope {
  sc_project_id : option Uuid;
  sc_wallet_id : Uuid;
  sc_order_id : Uuid;
  sc_payment_intent_id : Uuid;
}.

(** A capture row that was found or written. *)
Record CaptureState : Type := mkCaptureState {
  st_payment_capture_id : Uuid;
  st_capture_status : string;
  st_readback_status : string;
  st_credit_grant_id : option Uuid;
  st_ledger_entry_id : option Uuid;
}.

Section execution.
Context {P : PostgresServer} {H : Sha256} {U : UuidDisplay}.

Definition sha256_text (value : string) : string := sha256_hex (as_bytes value).

(** [.map_err(..)?] inside a transaction. *)
Definition failing {A} (m : Db AdminError A) : Db Stop A := map_db_err Failed m.

Section capture.
Variables (provider : string) (request : PaymentProviderWebhookEventRequest) (payment_event_id : Uuid)
  (external_event_id_hash amount currency : string) (idempotency_key_hash : option string) (source_ready : bool).

Abbreviation tenant_id := (wr_tenant_id request).

Definition capture_scope (payment_intent_id : Uuid) : Db Stop CaptureScope :=
  row ← failing (query (λ t, row_of pi_tenant_id (payment_intents t) tenant_id payment_intent_id));
  match row with
  | None => throw (Refused "payment_intent_not_found")
  | Some row =>
      intent_amount ← failing (lift (admin_wallet_fixed_money_string (numeric_text (pi_amount row))));
      if negb (bool_decide (pi_currency row = currency)) || negb (bool_decide (intent_amount = amount)) then
        throw (Refused "capture_amount_or_currency_mismatch")
      else if differs (wr_wallet_id request) (Some (pi_wallet_id row))
              || differs (wr_order_id request) (Some (pi_order_id row))
              || differs (wr_project_id request) (pi_project_id row) then
        throw (Refused "capture_ref_scope_mismatch")
      else
        wallet ← failing (query (λ t, row_of wa_tenant_id (wallets t) tenant_id (pi_wallet_id row)));
        let wallet_currency :=
          wallet ← wallet; if bool_decide (wa_status wallet = "active") then Some (wa_currency wallet) else None in
        if negb (bool_decide (wallet_currency = Some currency)) then throw (Refused "wallet_currency_mismatch")
        else mret (mkCaptureScope (pi_project_id row) (pi_wallet_id row) (pi_order_id row) payment_intent_id)
  end.

Definition capture_idempotency_hash : string :=
  default (sha256_text ("payment-provider-capture:idempotency:v1:" +:+ uuid_to_string payment_event_id))
    idempotency_key_hash.

(** The capture that has the idempotency key already. *)
Definition replay_capture (scope : CaptureScope) (id : Uuid) (row : PaymentCapture) : Db Stop CaptureState :=
  existing_amount ← failing (lift (admin_wallet_fixed_money_string (numeric_text (pc_amount row))));
  if differs (wr_payment_capture_id request) (Some id)
     || negb (pc_wallet_id row =? sc_wallet_id scope) || negb (pc_order_id row =? sc_order_id scope)
     || negb (pc_payment_intent_id row =? sc_payment_intent_id scope)
     || negb (bool_decide (pc_currency row = currency)) || negb (bool_decide (existing_amount = amount)) then
    throw (Refused "capture_idempotency_conflict")
  else mret (mkCaptureState id (pc_status row) "replayed" (pc_credit_grant_id row) (pc_ledger_entry_id row)).

Definition write_capture (scope : CaptureScope) : Db Stop CaptureState :=
  capture_id ← failing (sql (λ number t,
    let id := new_uuid number in
    value ← numeric_column amount;
    t ← insert_payment_capture id
          (mkPaymentCapture tenant_id (sc_project_id scope) (sc_wallet_id scope) (sc_order_id scope)
             (sc_payment_intent_id scope) external_event_id_hash
             (payment_provider_redacted_reference provider external_event_id_hash) currency value "captured"
             capture_idempotency_hash None None None) t;
    Some (id, t)));
  if differs (wr_payment_capture_id request) (Some capture_id) then throw (Refused "capture_ref_scope_mismatch")
  else
    _ ← failing (execute (λ t, with_payment_intents t
          (update_where pi_tenant_id tenant_id (sc_payment_intent_id scope)
             (λ row, mkPaymentIntent (pi_tenant_id row) (pi_project_id row) (pi_wallet_id row) (pi_order_id row)
                       (pi_currency row) (pi_amount row) "captured") (payment_intents t))));
    _ ← failing (execute (λ t, with_payment_orders t
          (update_where po_tenant_id tenant_id (sc_order_id scope)
             (λ row, mkPaymentOrder (po_tenant_id row) "paid"
                       (Some (default (sc_payment_intent_id scope) (po_payment_intent_id row)))
                       (Some (default capture_id (po_payment_capture_id row)))
                       (po_credit_grant_id row) (po_ledger_entry_id row)) (payment_orders t))));
    mret (mkCaptureState capture_id "captured" "written" None None).

Definition find_or_write_capture (scope : CaptureScope) : Db Stop CaptureState :=
  existing ← failing (query (λ t, head (select (λ row,
    (pc_tenant_id row =? tenant_id) && bool_decide (pc_idempotency_key_hash row = capture_idempotency_hash))
    (payment_captures t))));
  match existing with
  | Some (id, row) => replay_capture scope id row
  | None => write_capture scope
  end.

(** The credit grant and the ledger entry of a capture that has neither. *)
Definition credit_capture (scope : CaptureScope) (capture_id : Uuid) : Db Stop (Uuid * Uuid) :=
  grant_id ← failing (sql (λ number t,
    let id := new_uuid number in
    value ← numeric_column amount;
    t ← insert_credit_grant id
          (mkCreditGrant tenant_id (sc_wallet_id scope) value value currency "payment_provider_capture"
             (server_now number) None "active") t;
    Some (id, t)));
  let ledger_idempotency_key :=
    "payment-provider-capture-ledger:"
    +:+ sha256_text (capture_idempotency_hash +:+ ":" +:+ uuid_to_string capture_id +:+ ":" +:+ uuid_to_string grant_id) in
  ledger_id ← failing (sql (λ number t,
    let id := new_uuid number in
    value ← numeric_column amount;
    t ← insert_ledger_entry id
          (mkLedgerEntry tenant_id (sc_project_id scope) (Some (sc_wallet_id scope)) None "credit_grant" value currency
             "confirmed" ledger_idempotency_key) t;
    Some (id, t)));
  _ ← failing (execute (λ t, with_payment_captures t
        (update_where pc_tenant_id tenant_id capture_id
           (λ row,
              if is_some (pc_credit_grant_id row) || is_some (pc_ledger_entry_id row) then row
              else mkPaymentCapture (pc_tenant_id row) (pc_project_id row) (pc_wallet_id row) (pc_order_id row)
                     (pc_payment_intent_id row) (pc_provider_reference_hash row) (pc_provider_reference_redacted row)
                     (pc_currency row) (pc_amount row) (pc_status row) (pc_idempotency_key_hash row)
                     (Some grant_id) (Some ledger_id) (pc_invoice_id row)) (payment_captures t))));
  _ ← failing (execute (λ t, with_payment_orders t
        (update_where po_tenant_id tenant_id (sc_order_id scope)
           (λ row, mkPaymentOrder (po_tenant_id row) (po_status row) (po_payment_intent_id row)
                     (po_payment_capture_id row) (Some (default grant_id (po_credit_grant_id row)))
                     (Some (default ledger_id (po_ledger_entry_id row)))) (payment_orders t))));
  mret (grant_id, ledger_id).

(** The accounting of the capture, read back: the numbers of its grants, ledger
    entries and captures. *)
Definition capture_counts (scope : CaptureScope) (capture_id : Uuid) (grant_id ledger_id : option Uuid) (t : Tables)
    : Z * Z * Z :=
  let value := numeric_value amount in
  (count_row (λ row,
      (cg_tenant_id row =? tenant_id) && (cg_wallet_id row =? sc_wallet_id scope)
      && bool_decide (Some (cg_amount row) = value) && bool_decide (Some (cg_remaining_amount row) = value)
      && bool_decide (cg_currency row = currency) && bool_decide (cg_source row = "payment_provider_capture")
      && bool_decide (cg_status row = "active")) (credit_grants t) grant_id,
   count_row (λ row,
      (le_tenant_id row =? tenant_id) && bool_decide (le_wallet_id row = Some (sc_wallet_id scope))
      && bool_decide (le_entry_type row = "credit_grant") && bool_decide (le_status row = "confirmed")
      && bool_decide (Some (le_amount row) = value) && bool_decide (le_currency row = currency)) (ledger_entries t) ledger_id,
   count_row (λ row,
      (pc_tenant_id row =? tenant_id)
      && is_some grant_id && bool_decide (pc_credit_grant_id row = grant_id)
      && is_some ledger_id && bool_decide (pc_ledger_entry_id row = ledger_id)) (payment_captures t) (Some capture_id)).

(** The answer to a capture that was found or written, and credited when
    [credit]. *)
Definition report_capture (scope : CaptureScope) (state : CaptureState) (credit : bool) (grant_id ledger_id : option Uuid)
    : Db Stop ExecutionPlan :=
  let capture_id := st_payment_capture_id state in
  let accounted := is_some (st_credit_grant_id state) && is_some (st_ledger_entry_id state) in
  let '(status, reason) :=
    if credit then ("written", "capture_credit_grant_and_ledger_written")
    else if accounted then ("read_back", "existing_capture_wallet_accounting_read_back")
    else ("blocked", "missing_capture_accounting_refs") in
  counts ← failing (query (capture_counts scope capture_id grant_id ledger_id));
  let matched := bool_decide (counts = (1, 1, 1)) in
  let '(status, reason) :=
    if matched then
      if bool_decide (status = "blocked") then ("read_back", "capture_wallet_accounting_read_back")
      else (status, reason)
    else ("blocked", "wallet_accounting_readback_failed") in
  mret (CaptureExecuted
    (mkCaptureExecution (st_readback_status state) capture_id (st_capture_status state) grant_id ledger_id status reason
       credit matched (matched && source_ready)
       (if matched && source_ready then None
        else if negb source_ready then Some "credential_source_not_ready"
        else Some "capture_accounting_readback_mismatch"))).

Definition capture_body (payment_intent_id : Uuid) : Db Stop ExecutionPlan :=
  _ ← failing (query (λ _, ()));
  scope ← capture_scope payment_intent_id;
  state ← find_or_write_capture scope;
  let credit := negb (is_some (st_credit_grant_id state)) && negb (is_some (st_ledger_entry_id state)) in
  if credit then
    ids ← credit_capture scope (st_payment_capture_id state);
    report_capture scope state credit (Some ids.1) (Some ids.2)
  else report_capture scope state credit (st_credit_grant_id state) (st_ledger_entry_id state).

Definition execute_payment_provider_capture_plan : Db AdminError ExecutionPlan :=
  if negb (bool_decide (wr_event_type request = Capture)) then mret (NotExecuted "capture_event_type_required")
  else
    match wr_payment_intent_id request with
    | None => mret (NotExecuted "payment_intent_id_required")
    | Some payment_intent_id => transaction NotExecuted (capture_body payment_intent_id)
    end.

End capture.

(** ** Refund and chargeback *)

(** A refund row that was found or written. *)
Record RefundState : Type := mkRefundState {
  rs_refund_id : Uuid;
  rs_refund_status : string;
  rs_readback_status : string;
  rs_reversal_ledger_entry_id : option Uuid;
}.

Record CreditReversal : Type := mkCreditReversal {
  cr_source_credit_grant_status : option string;
  cr_status : string;
  cr_reason : string;
  cr_written : bool;
}.

Section reversal.
Variables (request : PaymentProviderWebhookEventRequest) (payment_event_id : Uuid) (amount currency : string)
  (idempotency_key_hash : option string) (source_ready : bool).

Abbreviation tenant_id := (wr_tenant_id request).

(** The capture that is reversed, if the request names it rightly. *)
Definition reversal_scope (payment_capture_id : Uuid) : Db Stop PaymentCapture :=
  row ← failing (query (λ t, row_of pc_tenant_id (payment_captures t) tenant_id payment_capture_id));
  match row with
  | None => throw (Refused "payment_capture_not_found")
  | Some row =>
      capture_amount ← failing (lift (admin_wallet_fixed_money_string (numeric_text (pc_amount row))));
      mismatch ← (if negb (bool_decide (pc_currency row = currency)) then mret true
                  else
                    provided ← failing (lift (parse_billing_fixed_decimal amount));
                    captured ← failing (lift (parse_billing_fixed_decimal capture_amount));
                    mret (negb (units provided =? units captured)));
      if (mismatch : bool) then throw (Refused "reversal_amount_or_currency_mismatch")
      else if differs (wr_wallet_id request) (Some (pc_wallet_id row))
              || differs (wr_order_id request) (Some (pc_order_id row))
              || differs (wr_project_id request) (pc_project_id row)
              || differs (wr_payment_intent_id request) (Some (pc_payment_intent_id row))
              || differs (wr_credit_grant_id request) (pc_credit_grant_id row)
              || differs (wr_ledger_entry_id request) (pc_ledger_entry_id row) then
        throw (Refused "reversal_ref_scope_mismatch")
      else mret row
  end.

Definition reversal_idempotency_hash : string :=
  default (sha256_text ("payment-provider-reversal:idempotency:v1:" +:+ uuid_to_string payment_event_id))
    idempotency_key_hash.

Definition reversal_reason : string :=
  match wr_event_type request with Chargeback => "provider_chargeback" | _ => "provider_refund" end.

Definition find_or_write_refund (payment_capture_id : Uuid) (capture : PaymentCapture) : Db AdminError RefundState :=
  existing ← query (λ t, head (select (λ row,
    (pr_tenant_id row =? tenant_id) && bool_decide (pr_idempotency_key_hash row = reversal_idempotency_hash))
    (payment_refunds t)));
  match existing with
  | Some (id, row) => mret (mkRefundState id (pr_status row) "replayed" (pr_reversal_ledger_entry_id row))
  | None =>
      refund_id ← sql (λ number t,
        let id := new_uuid number in
        value ← numeric_column amount;
        t ← insert_payment_refund id
              (mkPaymentRefund tenant_id (pc_project_id capture) (pc_wallet_id capture) (pc_order_id capture)
                 payment_capture_id currency value "refunded" reversal_reason reversal_idempotency_hash
                 (pc_credit_grant_id capture) (pc_ledger_entry_id capture) None) t;
        Some (id, t));
      _ ← execute (λ t, with_payment_orders t
            (update_where po_tenant_id tenant_id (pc_order_id capture)
               (λ row, mkPaymentOrder (po_tenant_id row) "refunded" (po_payment_intent_id row)
                         (po_payment_capture_id row) (po_credit_grant_id row) (po_ledger_entry_id row))
               (payment_orders t)));
      mret (mkRefundState refund_id "refunded" "written" None)
  end.

(** The conditions on the ledger entry of the capture. *)
Definition reversal_safe (capture : PaymentCapture) (source : LedgerEntry) : result AdminError bool :=
  source_amount ← admin_wallet_fixed_money_string (numeric_text (le_amount source));
  if bool_decide (le_wallet_id source = Some (pc_wallet_id capture)) && bool_decide (le_currency source = currency)
     && bool_decide (le_status source = "confirmed")
     && bool_decide (le_entry_type source ∈ ["credit_grant"; "settle"; "adjust"]) then
    provided ← parse_billing_fixed_decimal amount;
    source_amount ← parse_billing_fixed_decimal source_amount;
    Ok (units provided <=? units source_amount)
  else Ok false.

(** The ledger entry of the refund, written or found under its key. *)
Definition write_reversal_entry (capture : PaymentCapture) (refund_id source_id : Uuid) : Db AdminError (option Uuid) :=
  let ledger_idempotency_key :=
    "payment-provider-reversal-ledger:"
    +:+ sha256_text (reversal_idempotency_hash +:+ ":" +:+ uuid_to_string refund_id +:+ ":" +:+ uuid_to_string source_id) in
  inserted ← sql (λ number t,
    let id := new_uuid number in
    value ← numeric_column amount;
    if any_row (same_ledger_key tenant_id ledger_idempotency_key) (ledger_entries t) then Some (None, t)
    else
      t ← insert_ledger_entry id
            (mkLedgerEntry tenant_id (pc_project_id capture) (Some (pc_wallet_id capture)) (Some source_id) "refund" value
               currency "confirmed" ledger_idempotency_key) t;
      Some (Some id, t));
  match inserted with
  | Some id => mret (Some id)
  | None =>
      query (λ t, fst <$> head (select (same_ledger_key tenant_id ledger_idempotency_key) (ledger_entries t)))
  end.

(** The reference to the reversing entry, with its status and the reason. *)
Definition reversal_entry (capture : PaymentCapture) (refund : RefundState)
    : Db AdminError (option Uuid * string * string) :=
  match rs_reversal_ledger_entry_id refund, pc_ledger_entry_id capture with
  | Some id, _ => mret (Some id, "read_back", "existing_reversal_ledger_ref")
  | None, None => mret (None, "not_attempted", "source_capture_ledger_ref_missing")
  | None, Some source_id =>
      source ← query (λ t, row_of le_tenant_id (ledger_entries t) tenant_id source_id);
      match source with
      | None => mret (None, "refused", "source_ledger_ref_not_found")
      | Some source =>
          safe ← lift (reversal_safe capture source);
          if negb safe then mret (None, "refused", "source_ledger_ref_not_reversal_safe")
          else
            reversal_id ← write_reversal_entry capture (rs_refund_id refund) source_id;
            match reversal_id with
            | None => mret (None, "not_attempted", "source_capture_ledger_ref_missing")
            | Some id =>
                _ ← execute (λ t, with_payment_refunds t
                      (update_where pr_tenant_id tenant_id (rs_refund_id refund)
                         (λ row,
                            if is_some (pr_reversal_ledger_entry_id row) then row
                            else mkPaymentRefund (pr_tenant_id row) (pr_project_id row) (pr_wallet_id row)
                                   (pr_order_id row) (pr_payment_capture_id row) (pr_currency row) (pr_amount row)
                                   (pr_status row) (pr_reason row) (pr_idempotency_key_hash row) (pr_credit_grant_id row)
                                   (pr_ledger_entry_id row) (Some id)) (payment_refunds t)));
                mret (Some id, (if bool_decide (rs_readback_status refund = "replayed") then "read_back" else "written"),
                      "reversal_ledger_ref_written")
            end
      end
  end.

(** [update credit_grants ... returning id]: whether a row was voided. *)
Definition void_statement (wallet_id grant_id : Uuid) (t : Tables) : bool * Tables :=
  match row_of cg_tenant_id (credit_grants t) tenant_id grant_id with
  | Some row =>
      if (cg_wallet_id row =? wallet_id) && bool_decide (cg_currency row = currency)
         && bool_decide (Some (cg_amount row) = numeric_value amount)
         && bool_decide (Some (cg_remaining_amount row) = numeric_value amount)
         && bool_decide (cg_source row = "payment_provider_capture") && bool_decide (cg_status row = "active") then
        (true, with_credit_grants t (<[grant_id :=
           mkCreditGrant (cg_tenant_id row) (cg_wallet_id row) (cg_amount row) 0 (cg_currency row) (cg_source row)
             (cg_valid_from row) (cg_valid_until row) "voided"]> (credit_grants t)))
      else (false, t)
  | None => (false, t)
  end.

(** The credit grant of the capture is voided when it is untouched. *)
Definition reverse_credit_grant (capture : PaymentCapture) (reversal_id : option Uuid) : Db AdminError CreditReversal :=
  match pc_credit_grant_id capture with
  | None => mret (mkCreditReversal None "blocked" "source_credit_grant_missing" false)
  | Some grant_id =>
      grant ← query (λ t, row_of cg_tenant_id (credit_grants t) tenant_id grant_id);
      match grant with
      | None => mret (mkCreditReversal None "blocked" "source_credit_grant_not_found" false)
      | Some grant =>
          grant_amount ← lift (admin_wallet_fixed_money_string (numeric_text (cg_amount grant)));
          grant_remaining_amount ← lift (admin_wallet_fixed_money_string (numeric_text (cg_remaining_amount grant)));
          let grant_matches_capture :=
            (cg_wallet_id grant =? pc_wallet_id capture) && bool_decide (cg_currency grant = currency)
            && bool_decide (grant_amount = amount) && bool_decide (cg_source grant = "payment_provider_capture") in
          let blocked reason := mret (mkCreditReversal (Some (cg_status grant)) "blocked" reason false) in
          if negb (is_some reversal_id) then blocked "reversal_ledger_entry_missing"
          else if bool_decide (cg_status grant = "voided") && grant_matches_capture then
            mret (mkCreditReversal (Some (cg_status grant)) "read_back" "source_credit_grant_already_voided" false)
          else if bool_decide (cg_status grant = "active") && grant_matches_capture
                  && bool_decide (grant_remaining_amount = amount) then
            updated ← sql (λ _ t, Some (void_statement (pc_wallet_id capture) grant_id t));
            if (updated : bool) then
              _ ← query (λ _, ());
              mret (mkCreditReversal (Some "voided") "written" "source_credit_grant_voided" true)
            else blocked "source_credit_grant_concurrent_update"
          else if negb grant_matches_capture then
            blocked "source_credit_grant_capture_wallet_currency_amount_source_mismatch"
          else if negb (bool_decide (cg_status grant = "active")) then blocked "source_credit_grant_status_not_active"
          else blocked "source_credit_grant_remaining_amount_mismatch"
      end
  end.

(** The reconciliation row of a refund, written with it or found. *)
Definition reconcile_reversal (payment_capture_id : Uuid) (capture : PaymentCapture) (refund : RefundState)
    (reversal_id : option Uuid) : Db AdminError (option Uuid) :=
  if bool_decide (rs_readback_status refund = "written") then
    id ← sql (λ number t,
      let id := new_uuid number in
      value ← numeric_column amount;
      ledger_value ← numeric_column (if is_some reversal_id then amount else "0.00000000");
      t ← insert_payment_reconciliation id
            (mkPaymentReconciliation tenant_id (pc_project_id capture) (pc_wallet_id capture) (pc_order_id capture)
               (Some payment_capture_id) (pc_invoice_id capture) (pc_ledger_entry_id capture)
               (Some (rs_refund_id refund)) currency value value ledger_value
               (if is_some reversal_id then "matched" else "mismatch") (server_now number)) t;
      Some (id, t));
    mret (Some id)
  else
    query (λ t,
      let latest_first (a b : Uuid * PaymentReconciliation) := pn_created_at b.2 <=? pn_created_at a.2 in
      fst <$> head (sort_by latest_first (select (λ row,
        (pn_tenant_id row =? tenant_id) && bool_decide (pn_payment_capture_id row = Some payment_capture_id)
        && bool_decide (pn_refund_id row = Some (rs_refund_id refund))) (payment_reconciliations t)))).

(** The eight counts that are read back at the end. *)
Record ReversalCounts : Type := mkReversalCounts {
  rc_provider_events : Z;
  rc_captures : Z;
  rc_refunds : Z;
  rc_source_ledgers : Z;
  rc_reversal_ledgers : Z;
  rc_voided_credit_grants : Z;
  rc_matched_reconciliations : Z;
  rc_mismatch_reconciliations : Z;
}.

Definition reversal_counts (payment_capture_id : Uuid) (capture : PaymentCapture) (refund_id : Uuid)
    (reversal_id reconciliation_id : option Uuid) (t : Tables) : ReversalCounts :=
  let value := numeric_value amount in
  let entry_matches row :=
    (le_tenant_id row =? tenant_id) && bool_decide (le_wallet_id row = Some (pc_wallet_id capture))
    && bool_decide (Some (le_amount row) = value) && bool_decide (le_currency row = currency)
    && bool_decide (le_status row = "confirmed") in
  let reconciliation_has status row :=
    (pn_tenant_id row =? tenant_id) && bool_decide (pn_payment_capture_id row = Some payment_capture_id)
    && bool_decide (pn_refund_id row = Some refund_id) && bool_decide (pn_status row = status) in
  mkReversalCounts
    (count_row (λ row, pv_tenant_id row =? tenant_id) (payment_events t) (Some payment_event_id))
    (count_row (λ row,
       (pc_tenant_id row =? tenant_id) && (pc_wallet_id row =? pc_wallet_id capture)
       && (pc_order_id row =? pc_order_id capture) && (pc_payment_intent_id row =? pc_payment_intent_id capture)
       && bool_decide (Some (pc_amount row) = value) && bool_decide (pc_currency row = currency))
       (payment_captures t) (Some payment_capture_id))
    (count_row (λ row,
       (pr_tenant_id row =? tenant_id) && (pr_payment_capture_id row =? payment_capture_id)
       && is_some reversal_id && bool_decide (pr_reversal_ledger_entry_id row = reversal_id)
       && bool_decide (Some (pr_amount row) = value) && bool_decide (pr_currency row = currency))
       (payment_refunds t) (Some refund_id))
    (count_row (λ row, entry_matches row && bool_decide (le_entry_type row = "credit_grant"))
       (ledger_entries t) (pc_ledger_entry_id capture))
    (count_row (λ row,
       entry_matches row && is_some (pc_ledger_entry_id capture)
       && bool_decide (le_related_ledger_entry_id row = pc_ledger_entry_id capture)
       && bool_decide (le_entry_type row = "refund")) (ledger_entries t) reversal_id)
    (count_row (λ row,
       (cg_tenant_id row =? tenant_id) && (cg_wallet_id row =? pc_wallet_id capture)
       && bool_decide (Some (cg_amount row) = value) && (cg_remaining_amount row =? 0)
       && bool_decide (cg_currency row = currency) && bool_decide (cg_source row = "payment_provider_capture")
       && bool_decide (cg_status row = "voided")) (credit_grants t) (pc_credit_grant_id capture))
    (count_row (reconciliation_has "matched") (payment_reconciliations t) reconciliation_id)
    (count_row (reconciliation_has "mismatch") (payment_reconciliations t) reconciliation_id).

Definition reversal_matched (counts : ReversalCounts) (credit : CreditReversal) : bool :=
  (rc_provider_events counts =? 1) && (rc_captures counts =? 1) && (rc_refunds counts =? 1)
  && (rc_source_ledgers counts =? 1) && (rc_reversal_ledgers counts =? 1) && (rc_voided_credit_grants counts =? 1)
  && (rc_matched_reconciliations counts =? 1) && negb (bool_decide (cr_status credit = "blocked")).

Definition reversal_blocked_reason (counts : ReversalCounts) (credit : CreditReversal) : option string :=
  if reversal_matched counts credit then None
  else if negb (rc_provider_events counts =? 1) then Some "provider_event_readback_missing"
  else if negb (rc_captures counts =? 1) then Some "source_capture_readback_mismatch"
  else if negb (rc_refunds counts =? 1) then Some "refund_readback_mismatch"
  else if negb (rc_source_ledgers counts =? 1) then Some "source_ledger_readback_mismatch"
  else if negb (rc_reversal_ledgers counts =? 1) then Some "reversal_ledger_readback_mismatch"
  else if negb (rc_voided_credit_grants counts =? 1) then Some "source_credit_grant_not_voided"
  else if negb (rc_matched_reconciliations counts =? 1) then Some "matched_reconciliation_marker_missing"
  else Some (cr_reason credit).

Definition reversal_body (payment_capture_id : Uuid) : Db Stop ExecutionPlan :=
  capture ← reversal_scope payment_capture_id;
  refund ← failing (find_or_write_refund payment_capture_id capture);
  entry ← failing (reversal_entry capture refund);
  let '(reversal_id, ledger_ref_status, ledger_ref_reason) := entry in
  credit ← failing (reverse_credit_grant capture reversal_id);
  reconciliation_id ← failing (reconcile_reversal payment_capture_id capture refund reversal_id);
  counts ← failing (query
    (reversal_counts payment_capture_id capture (rs_refund_id refund) reversal_id reconciliation_id));
  let matched := reversal_matched counts credit in
  let reconciliation_status :=
    if matched then "matched"
    else if is_some reconciliation_id || (rc_mismatch_reconciliations counts =? 1) then "mismatch"
    else "refused" in
  mret (ReversalExecuted
    (mkReversalExecution (rs_readback_status refund) (rs_refund_id refund) (rs_refund_status refund) reversal_reason
       reversal_id ledger_ref_status ledger_ref_reason (cr_source_credit_grant_status credit) (cr_status credit)
       (cr_reason credit) (cr_written credit) reconciliation_id reconciliation_status (matched && source_ready)
       (if matched && source_ready then None
        else if negb source_ready then Some "credential_source_not_ready"
        else reversal_blocked_reason counts credit))).

(** Every statement of a reversal stands on its own. *)
Definition execute_payment_provider_reversal_plan : Db AdminError ExecutionPlan := λ s,
  match wr_payment_capture_id request with
  | None => (Ok (NotExecuted "payment_capture_id_required"), s)
  | Some payment_capture_id =>
      match reversal_body payment_capture_id s with
      | (Ok plan, s) => (Ok plan, s)
      | (Err (Refused reason), s) => (Ok (NotExecuted reason), s)
      | (Err (Failed e), s) => (Err e, s)
      end
  end.

End reversal.

(** ** The event *)

Definition payment_provider_db_event_type (event_type : PaymentProviderEventType) : string :=
  match event_type with
  | Callback => "provider_handoff"
  | Capture => "capture_confirm"
  | Refund => "refund"
  | Chargeback => "refusal"
  end.

Definition execute_verified_payment_provider_business_plan (provider : string)
    (request : PaymentProviderWebhookEventRequest) (payment_event_id : Uuid)
    (external_event_id_hash amount currency : string) (idempotency_key_hash : option string) (source_ready : bool)
    : Db AdminError ExecutionPlan :=
  match wr_event_type request with
  | Callback => mret (NotExecuted "callback_event_recorded_only")
  | Capture =>
      execute_payment_provider_capture_plan provider request payment_event_id external_event_id_hash amount currency
        idempotency_key_hash source_ready
  | Refund | Chargeback =>
      execute_payment_provider_reversal_plan request payment_event_id amount currency idempotency_key_hash source_ready
  end.

(** The event row is written and read back before its plan is executed. *)
Definition insert_verified_payment_provider_event_readback (provider : string)
    (request : PaymentProviderWebhookEventRequest) (external_event_id_hash amount currency : string)
    (idempotency_key_hash : option string) (source_ready : bool) : Db AdminError (Uuid * ExecutionPlan) :=
  let tenant_id := wr_tenant_id request in
  payment_event_id ← sql (λ number t,
    let id := new_uuid number in
    t ← insert_payment_event id
          (mkPaymentEvent tenant_id (wr_project_id request) (wr_wallet_id request) (wr_order_id request)
             (wr_payment_intent_id request) (wr_payment_capture_id request)
             (payment_provider_db_event_type (wr_event_type request)) "applied" idempotency_key_hash) t;
    Some (id, t));
  _ ← sql (λ _ t, row ← row_of pv_tenant_id (payment_events t) tenant_id payment_event_id; Some (row, t));
  plan ← execute_verified_payment_provider_business_plan provider request payment_event_id external_event_id_hash amount
           currency idempotency_key_hash source_ready;
  mret (payment_event_id, plan).

End execution.

(** ** The webhook *)

Record PaymentProviderAdapterConfigInput : Type := mkAdapterConfigInput {
  ac_adapter_enabled : bool;
  ac_merchant_account_present : bool;
  ac_credential_present : bool;
  ac_webhook_secret_present : bool;
}.

Definition payment_provider_credential_refusal_reason (input : PaymentProviderAdapterConfigInput) : option string :=
  if negb (ac_adapter_enabled input) then Some "provider_disabled"
  else if negb (ac_credential_present input) then Some "credential_missing"
  else if negb (ac_merchant_account_present input) then Some "merchant_account_missing"
  else if negb (ac_webhook_secret_present input) then Some "webhook_secret_missing"
  else None.

Definition payment_provider_webhook_provider_supported (provider : string) : bool :=
  bool_decide (provider = "stripe_like") || bool_decide (provider = STRIPE_LIKE_SANDBOX_ADAPTER).

Definition payment_provider_webhook_signature_status_from_adapter (readback : StripeLikeSandboxAdapterReadback)
    (config : PaymentProviderAdapterConfigInput) : string :=
  if negb (ac_adapter_enabled config) || negb (ac_merchant_account_present config)
     || negb (ac_credential_present config) || negb (ac_webhook_secret_present config) then "config_needed"
  else
    match ar_signature_verification_readback readback with
    | None => "signature_missing"
    | Some verification =>
        if bool_decide (sv_status verification = "verified") then "verified_stripe_like"
        else
          let reason := default "signature_mismatch" (sv_mismatch_reason verification) in
          if bool_decide (reason = "signature_header_missing") then "signature_missing" else reason
    end.

(** The first value of each of the two headers, when it is visible ASCII text. *)
Definition payment_provider_signature_header_values (headers : string → option string)
    : list PaymentProviderHeaderValue :=
  omap (λ name, mkHeaderValue name <$> non_blank (str_trim <$> headers name))
    ["stripe-signature"; "x-fubox-payment-signature"].

(** [serde_json::from_slice] and [Value::Null]. *)
Class SerdeJsonSlice (J : SerdeJson) : Type := { json_from_slice : bytes → option Value; json_null : Value }.

(** What the process reads besides the request: the configuration and the secret
    of the environment, the clock, and the credentials stored for a tenant and
    provider, with whether they are ready. *)
Record WebhookEnv : Type := mkWebhookEnv {
  we_config : PaymentProviderAdapterConfigInput;
  we_webhook_secret : string;
  we_unix_timestamp : result AdminError Z;
  we_credential_source : Uuid → string → result AdminError (PaymentProviderAdapterConfigInput * bool);
}.

(** What is answered: a status and a reason, or the event that was written with
    the plan that was executed. *)
Inductive WebhookAnswer : Type :=
| WebhookRefused (status : Z) (reason : string)
| WebhookAccepted (payment_event_id : Uuid) (plan : ExecutionPlan).

Section webhook.
Context {P : PostgresServer} {H : Sha256} {U : UuidDisplay} {UP : UuidParse} {J : SerdeJson} {JS : SerdeJsonSlice J}.

Definition payment_provider_adapter_readback_value (env : WebhookEnv) (provider : string)
    (headers : string → option string) (body : bytes) : result AdminError StripeLikeSandboxAdapterReadback :=
  let payload := default json_null (json_from_slice body) in
  let signature_headers := payment_provider_signature_header_values headers in
  signature_verification ←
    (if bool_decide (we_webhook_secret env = "") then Ok None
     else
       now ← we_unix_timestamp env;
       Ok (Some (verify_stripe_like_signature_headers signature_headers body (we_webhook_secret env) now)));
  Ok (normalize_stripe_like_sandbox_event provider signature_headers payload signature_verification).

Definition external_event_hash (provider external_event_id : string) : string :=
  sha256_text ("payment-provider-webhook:event:v1:" +:+ provider +:+ ":" +:+ external_event_id).

(** The event is refused before anything is written, or handed to the executor. *)
Definition webhook_request (env : WebhookEnv) (provider : string) (headers : string → option string) (body : bytes)
    : result AdminError (Z * string + string * PaymentProviderWebhookEventRequest * bool) :=
  provider ← normalize_payment_provider_name provider;
  readback ← payment_provider_adapter_readback_value env provider headers body;
  let signature_verification := payment_provider_webhook_signature_status_from_adapter readback (we_config env) in
  let unsupported default_reason := (400, default default_reason (ar_unsupported_reason readback)) in
  if negb (bool_decide (signature_verification = "verified_stripe_like")) then
    Ok (inl
      (if bool_decide (signature_verification
                       ∈ ["signature_missing"; "config_needed"; "signature_replay_window_refused"]) then 400 else 401,
       signature_verification))
  else if negb (payment_provider_webhook_provider_supported provider) then
    Ok (inl (unsupported "provider_not_supported_by_stripe_like_sandbox_adapter"))
  else
    match ar_normalized_event readback with
    | None => Ok (inl (unsupported "unsupported_payment_provider_event"))
    | Some normalized =>
        request ← payment_provider_webhook_request_from_normalized_adapter_event normalized;
        _ ← validate_local_payment_demo_scope (wr_tenant_id request);
        source ← we_credential_source env (wr_tenant_id request) provider;
        match payment_provider_credential_refusal_reason source.1 with
        | Some reason => Ok (inl (400, reason))
        | None => Ok (inr (provider, request, source.2))
        end
    end.

Definition receive_payment_provider_webhook (env : WebhookEnv) (provider : string) (headers : string → option string)
    (body : bytes) : Db AdminError WebhookAnswer :=
  outcome ← lift (webhook_request env provider headers body);
  match outcome with
  | inl (status, reason) => mret (WebhookRefused status reason)
  | inr (provider, request, source_ready) =>
      external_event_id ← lift (non_empty (wr_external_event_id request) "external_event_id");
      if looks_like_secret_value external_event_id then
        throw (BadRequest "external_event_id must not contain credential material")
      else
        amount ← lift (normalize_local_payment_demo_amount (wr_amount request));
        currency ← lift (normalize_local_payment_demo_currency (wr_currency request));
        idempotency_key_hash ← lift
          (match wr_idempotency_key request with
           | None => Ok None
           | Some key =>
               key ← non_empty key "idempotency_key";
               if looks_like_secret_value key then bad_request "idempotency_key must not contain credential material"
               else Ok (Some (sha256_text ("payment-provider-webhook:idempotency:v1:" +:+ key)))
           end);
        written ← insert_verified_payment_provider_event_readback provider request
                    (external_event_hash provider external_event_id) amount currency idempotency_key_hash source_ready;
        mret (WebhookAccepted written.1 written.2)
  end.

End webhook.
