(* ===== verification/PaymentAccounting.v ===== *)
(** What the payment webhooks do to the accounts: every captured payment has
    exactly one credit grant and one ledger entry, an event is credited at most
    once whatever the connection to the database does, and what a capture and
    its reversal do to the balance that the gateway reads. *)

From stdpp Require Import gmap.
From S2P Require Export PaymentExecution.

#[local] Open Scope string_scope.
#[local] Open Scope list_scope.
#[local] Open Scope Z_scope.

(** ** Amounts *)

Lemma numeric_text_parse u :
  i128_min < u <= i128_max → fd_parse (numeric_text u) DEFAULT_MONEY_SCALE = Ok (mkFixedDecimal u DEFAULT_MONEY_SCALE).
Proof.
  intros Hu. apply (fd_parse_printed (mkFixedDecimal u DEFAULT_MONEY_SCALE)); [|cbn; lia].
  split; cbn; [width_lia|done].
Qed.

(** The amounts that come out of the handlers' normalization. *)
Lemma money_string_canonical text amount :
  admin_wallet_fixed_money_string text = Ok amount →
  ∃ u, i128_min < u <= i128_max ∧ amount = numeric_text u ∧
    fd_parse text DEFAULT_MONEY_SCALE = Ok (mkFixedDecimal u DEFAULT_MONEY_SCALE).
Proof.
  unfold admin_wallet_fixed_money_string, parse_billing_fixed_decimal. intros (parsed & Hparse & [= <-])%bind_Ok.
  apply map_err_Ok in Hparse. destruct (fd_parse_range text DEFAULT_MONEY_SCALE parsed ltac:(done) Hparse) as [Hscale Hrange].
  destruct parsed as [u sc]. cbn in *. subst sc. eauto.
Qed.

Lemma numeric_text_value u : i128_min < u <= i128_max → numeric_value (numeric_text u) = Some u.
Proof. intros Hu. unfold numeric_value. by rewrite numeric_text_parse. Qed.

Lemma money_string_text u :
  i128_min < u <= i128_max → admin_wallet_fixed_money_string (numeric_text u) = Ok (numeric_text u).
Proof.
  intros Hu. unfold admin_wallet_fixed_money_string, parse_billing_fixed_decimal. by rewrite numeric_text_parse.
Qed.

Lemma numeric_text_inj u v :
  i128_min < u <= i128_max → i128_min < v <= i128_max → numeric_text u = numeric_text v → u = v.
Proof. intros Hu Hv Heq%(f_equal numeric_value). rewrite !numeric_text_value in Heq by done. by injection Heq. Qed.

(** The text of an amount in minor units is the one of the same amount in units of
    10^-8. *)
Lemma format_minor_amount_eq a :
  in_i64 a → a ≠ i64_min → format_minor_amount a = numeric_text (a * 1000000).
Proof.
  intros Ha Hmin. unfold format_minor_amount, numeric_text, fd_to_string, fd_fmt. cbn [scale units].
  assert (abs_i64 a = Z.abs a) as ->.
  { unfold abs_i64, wrap_i64. rewrite Z.mod_small by width_lia. lia. }
  change (pow10 DEFAULT_MONEY_SCALE) with (Some (100000000)). cbn [Z.eqb DEFAULT_MONEY_SCALE mbind option_bind default from_option id].
  rewrite Z.quot_div_nonneg, Z.rem_mod_nonneg by lia.
  replace (Z.abs (a * 1000000) / 100000000) with (Z.abs a / 100).
  2: { rewrite Z.abs_mul. change 100000000 with (100 * 1000000). by rewrite Z.div_mul_cancel_r. }
  replace (Z.abs (a * 1000000) mod 100000000) with (Z.abs a mod 100 * 1000000).
  2: { rewrite Z.abs_mul. change 100000000 with (100 * 1000000). by rewrite Z.mul_mod_distr_r. }
  pose proof (Z.mod_pos_bound (Z.abs a) 100 ltac:(lia)). pose proof (Z.div_pos (Z.abs a) 100 ltac:(lia) ltac:(lia)).
  unfold display_i128, display_padded_08. rewrite (proj2 (Z.ltb_ge (Z.abs a / 100) 0)), (proj2 (Z.ltb_ge (Z.abs a mod 100 * 1000000) 0)) by lia.
  replace (a * 1000000 <? 0) with (a <? 0) by lia.
  match goal with |- ?text = _ => rewrite <-(from_as_bytes text) end.
  f_equal. rewrite !as_bytes_app, !as_from_bytes. by destruct (a <? 0).
Qed.

(** The amount of an event, an integer in minor units, reaches the tables
    exactly: the text it is written as is accepted if and only if it is positive,
    and then stands for that many hundredths; zero and negative amounts are
    refused, the least one included. *)
Theorem webhook_amount_exact amount_minor :
  in_i64 amount_minor →
  match normalize_local_payment_demo_amount (format_minor_amount amount_minor) with
  | Ok amount => 0 < amount_minor ∧ numeric_value amount = Some (amount_minor * 1000000)
  | Err _ => amount_minor <= 0
  end.
Proof.
  intros Ha. destruct (decide (amount_minor = i64_min)) as [->|Hmin]; [by vm_compute|].
  rewrite format_minor_amount_eq by done. unfold normalize_local_payment_demo_amount, parse_billing_fixed_decimal.
  rewrite money_string_text by width_lia. cbn [mbind result_bind]. rewrite numeric_text_parse by width_lia.
  cbn [map_err mbind result_bind units]. destruct (Z.leb_spec (amount_minor * 1000000) 0); cbn; [lia|].
  split; [lia|]. apply numeric_text_value. width_lia.
Qed.

(** ** Statements that succeed *)

Lemma db_bind_Ok {E A B} (m : Db E A) (k : A → Db E B) s b s2 :
  (m ≫= k) s = (Ok b, s2) ↔ ∃ a s1, m s = (Ok a, s1) ∧ k a s1 = (Ok b, s2).
Proof. unfold mbind, db_bind. destruct (m s) as [[a|e] s1]; [naive_solver|]. split; [done|]. by intros (? & ? & ? & _). Qed.

Lemma db_ret_Ok {E A} (a b : A) s s1 : (mret a : Db E A) s = (Ok b, s1) ↔ a = b ∧ s = s1.
Proof. unfold mret, db_ret. naive_solver. Qed.

Lemma throw_Ok {E A} (e : E) (b : A) s s1 : throw e s = (Ok b, s1) ↔ False.
Proof. unfold throw. naive_solver. Qed.

Lemma lift_Ok {E A} (m : result E A) b s s1 : lift m s = (Ok b, s1) ↔ m = Ok b ∧ s = s1.
Proof. unfold lift. naive_solver. Qed.

Section statements.
Context {P : PostgresServer}.

Lemma failing_Ok {A} (m : Db AdminError A) b s s1 : failing m s = (Ok b, s1) ↔ m s = (Ok b, s1).
Proof. unfold failing, map_db_err. destruct (m s) as [[a|e] s']; cbn; naive_solver. Qed.

Lemma sql_Ok {A} (statement : nat → Tables → option (A * Tables)) s a s1 :
  sql statement s = (Ok a, s1) ↔
  connection (executed s) = Answered ∧
  ∃ t, statement (executed s) (tables s) = Some (a, t) ∧ s1 = mkServer t (S (executed s)).
Proof.
  unfold sql. destruct (connection (executed s)); [|destruct (statement _ _) as [[? ?]|]; naive_solver..|naive_solver].
  destruct (statement _ _) as [[b t]|]; [|naive_solver]. rewrite bool_decide_true by done. naive_solver.
Qed.

Lemma query_Ok {A} (read : Tables → A) s a s1 :
  query read s = (Ok a, s1) ↔
  connection (executed s) = Answered ∧ a = read (tables s) ∧ s1 = mkServer (tables s) (S (executed s)).
Proof. unfold query. rewrite sql_Ok. naive_solver. Qed.

Lemma execute_Ok (update : Tables → Tables) s a s1 :
  execute update s = (Ok a, s1) ↔
  connection (executed s) = Answered ∧ s1 = mkServer (update (tables s)) (S (executed s)).
Proof. unfold execute. rewrite sql_Ok. destruct a. naive_solver. Qed.

(** How a transaction may end. *)
Lemma transaction_cases {A} (refused : string → A) (body : Db Stop A) s r s' :
  transaction refused body s = (r, s') →
  tables s' = tables s ∧ (∀ a, r = Ok a → ∃ reason, a = refused reason) ∨
  ∃ a s1 s2, tables s1 = tables s ∧ body s1 = (Ok a, s2) ∧ tables s' = tables s2 ∧ (r = Ok a ∨ r = Err QueryError).
Proof.
  unfold transaction. destruct (query (λ _, ()) s) as [[u|e] s1] eqn:Hbegin.
  - apply query_Ok in Hbegin as (_ & _ & ->). destruct (body _) as [[a|[reason|e]] s2] eqn:Hbody; cbn.
    + destruct (connection (executed s2)); intros [= <- <-].
      1, 2: right; eexists _, _, _; split_and!; [..|exact Hbody| |]; cbn; auto.
      left. cbn. naive_solver.
    + intros [= <- <-]. left. naive_solver.
    + intros [= <- <-]. left. naive_solver.
  - intros [= <- <-]. left. split; [|done]. unfold query, sql in Hbegin.
    destruct (connection _); [rewrite bool_decide_true in Hbegin by done|rewrite bool_decide_false in Hbegin by done|]; naive_solver.
Qed.

End statements.

(** Breaks a run that ended well into its statements. *)
Ltac inv_db :=
  repeat match goal with
    | Hrun : (_ ≫= _) _ = (Ok _, _) |- _ => apply db_bind_Ok in Hrun as (? & ? & ? & Hrun)
    | Hrun : failing _ _ = (Ok _, _) |- _ => apply failing_Ok in Hrun
    | Hrun : lift _ _ = (Ok _, _) |- _ => apply lift_Ok in Hrun as [? ?]
    | Hrun : throw _ _ = (Ok _, _) |- _ => apply throw_Ok in Hrun; destruct Hrun
    | Hrun : query _ _ = (Ok _, _) |- _ => apply query_Ok in Hrun as (_ & ? & ?)
    | Hrun : execute _ _ = (Ok _, _) |- _ => apply execute_Ok in Hrun as (_ & ?)
    | Hrun : sql _ _ = (Ok _, _) |- _ => apply sql_Ok in Hrun as (_ & ? & ? & ?)
    | Hrun : mret _ _ = (Ok _, _) |- _ => apply db_ret_Ok in Hrun as [? ?]
    end; subst.

(** ** Insertions that succeed *)

Lemma negb_is_some {A} (o : option A) : negb (is_some o) = true ↔ o = None.
Proof. by destruct o. Qed.

(** The conflict that the unique constraints of a capture forbid. *)
Definition capture_conflict (row other : PaymentCapture) : bool :=
  (pc_tenant_id other =? pc_tenant_id row)
  && (bool_decide (pc_idempotency_key_hash other = pc_idempotency_key_hash row)
      || (pc_payment_intent_id other =? pc_payment_intent_id row)
         && bool_decide (pc_provider_reference_hash other = pc_provider_reference_hash row)).

Lemma insert_payment_capture_Some id row t t' :
  insert_payment_capture id row t = Some t' →
  payment_captures t !! id = None ∧ any_row (capture_conflict row) (payment_captures t) = false ∧
  t' = with_payment_captures t (<[id := row]> (payment_captures t)).
Proof.
  unfold insert_payment_capture. destruct (_ && _) eqn:Hguard; [|done]. intros [= <-].
  rewrite !andb_true_iff, negb_is_some, negb_true_iff in Hguard. naive_solver.
Qed.

Lemma insert_credit_grant_Some id row t t' :
  insert_credit_grant id row t = Some t' →
  credit_grants t !! id = None ∧ 0 < cg_amount row ∧ t' = with_credit_grants t (<[id := row]> (credit_grants t)).
Proof.
  unfold insert_credit_grant. destruct (_ && _) eqn:Hguard; [|done]. intros [= <-].
  rewrite !andb_true_iff, negb_is_some, Z.ltb_lt in Hguard. naive_solver.
Qed.

Lemma insert_ledger_entry_Some id row t t' :
  insert_ledger_entry id row t = Some t' →
  ledger_entries t !! id = None ∧ t' = with_ledger_rows t (<[id := row]> (ledger_entries t)).
Proof.
  unfold insert_ledger_entry. destruct (_ && _) eqn:Hguard; [|done]. intros [= <-].
  rewrite !andb_true_iff, negb_is_some in Hguard. naive_solver.
Qed.

Lemma insert_payment_refund_Some id row t t' :
  insert_payment_refund id row t = Some t' →
  payment_refunds t !! id = None ∧ t' = with_payment_refunds t (<[id := row]> (payment_refunds t)).
Proof.
  unfold insert_payment_refund. destruct (_ && _) eqn:Hguard; [|done]. intros [= <-].
  rewrite !andb_true_iff, negb_is_some in Hguard. naive_solver.
Qed.

Lemma insert_payment_reconciliation_Some id row t t' :
  insert_payment_reconciliation id row t = Some t' →
  t' = with_payment_reconciliations t (<[id := row]> (payment_reconciliations t)).
Proof. unfold insert_payment_reconciliation. destruct (_ && _); [|done]. by intros [= <-]. Qed.

Lemma insert_payment_event_Some id row t t' :
  insert_payment_event id row t = Some t' → t' = with_payment_events t (<[id := row]> (payment_events t)).
Proof. unfold insert_payment_event. destruct (_ && _); [|done]. by intros [= <-]. Qed.

Lemma numeric_column_Some text value : numeric_column text = Some value → numeric_value text = Some value.
Proof. unfold numeric_column. intros (v & -> & Hv)%bind_Some. destruct (_ <? _); naive_solver. Qed.

Lemma any_row_false {R} (condition : R → bool) (rows : gmap Uuid R) :
  any_row condition rows = false ↔ ∀ id row, rows !! id = Some row → condition row = false.
Proof.
  unfold any_row. rewrite existsb_elem_false. split.
  - intros Hall id row Hrow. apply (Hall (id, row)). by apply elem_of_map_to_list.
  - intros Hall [id row] Hin%elem_of_map_to_list. eauto.
Qed.

Lemma head_select {R} (condition : R → bool) (rows : gmap Uuid R) id row :
  head (select condition rows) = Some (id, row) → rows !! id = Some row ∧ condition row = true.
Proof.
  unfold select. intros Hhead. assert ((id, row) ∈ List.filter (λ '(_, row), condition row) (map_to_list rows)) as Hin.
  { destruct (List.filter _ _); [done|]. injection Hhead as ->. by left. }
  apply elem_of_filter_b in Hin as [? Hin]. by apply elem_of_map_to_list in Hin.
Qed.

Lemma update_where_Some {R} (tenant_of : R → Uuid) tenant_id id f rows row :
  rows !! id = Some row → tenant_of row = tenant_id → update_where tenant_of tenant_id id f rows = <[id := f row]> rows.
Proof. intros Hrow <-. unfold update_where, row_of. rewrite Hrow. cbn. by rewrite Z.eqb_refl. Qed.

Lemma row_of_Some {R} (tenant_of : R → Uuid) rows tenant_id id row :
  row_of tenant_of rows tenant_id id = Some row ↔ rows !! id = Some row ∧ tenant_of row = tenant_id.
Proof.
  unfold row_of. destruct (rows !! id) as [other|]; cbn; [|naive_solver].
  destruct (Z.eqb_spec (tenant_of other) tenant_id); naive_solver.
Qed.

(** ** Captures *)

Section captures.
Context {P : PostgresServer} {H : Sha256} {U : UuidDisplay}.
Variables (provider : string) (request : PaymentProviderWebhookEventRequest) (payment_event_id : Uuid)
  (external_event_id_hash amount currency : string) (idempotency_key_hash : option string) (source_ready : bool).

Abbreviation tenant_id := (wr_tenant_id request).
Abbreviation idempotency_hash := (capture_idempotency_hash payment_event_id idempotency_key_hash).

(** The row that is written for a capture. *)
Definition new_capture (scope : CaptureScope) (value : Z) (grant_id ledger_id : option Uuid) : PaymentCapture :=
  mkPaymentCapture tenant_id (sc_project_id scope) (sc_wallet_id scope) (sc_order_id scope) (sc_payment_intent_id scope)
    external_event_id_hash (payment_provider_redacted_reference provider external_event_id_hash) currency value
    "captured" idempotency_hash grant_id ledger_id None.

Definition mark_captured (row : PaymentIntent) : PaymentIntent :=
  mkPaymentIntent (pi_tenant_id row) (pi_project_id row) (pi_wallet_id row) (pi_order_id row) (pi_currency row)
    (pi_amount row) "captured".

Lemma write_capture_Ok scope s state s' :
  write_capture provider request payment_event_id external_event_id_hash amount currency idempotency_key_hash scope s
  = (Ok state, s') →
  ∃ id value orders,
    numeric_value amount = Some value ∧ payment_captures (tables s) !! id = None ∧
    any_row (capture_conflict (new_capture scope value None None)) (payment_captures (tables s)) = false ∧
    state = mkCaptureState id "captured" "written" None None ∧
    tables s' = with_payment_orders (with_payment_intents
      (with_payment_captures (tables s) (<[id := new_capture scope value None None]> (payment_captures (tables s))))
      (update_where pi_tenant_id tenant_id (sc_payment_intent_id scope) mark_captured (payment_intents (tables s)))) orders.
Proof.
  unfold write_capture. intros Hrun. inv_db.
  match goal with Hstatement : (_ ≫= _) = Some _ |- _ =>
    apply bind_Some in Hstatement as (value & Hvalue%numeric_column_Some & Hstatement);
    apply bind_Some in Hstatement as (t & Hinsert & [= <- <-]) end.
  apply insert_payment_capture_Some in Hinsert as (Hfresh & Hconflict & ->).
  destruct (differs _ _); inv_db. cbn [tables executed] in *. eauto 10.
Qed.

Lemma credit_capture_Ok scope capture_id s ids s' capture :
  credit_capture request payment_event_id amount currency idempotency_key_hash scope capture_id s = (Ok ids, s') →
  payment_captures (tables s) !! capture_id = Some capture → pc_tenant_id capture = tenant_id →
  pc_credit_grant_id capture = None → pc_ledger_entry_id capture = None →
  ∃ grant_id ledger_id value number key orders,
    ids = (grant_id, ledger_id) ∧ numeric_value amount = Some value ∧ 0 < value ∧
    credit_grants (tables s) !! grant_id = None ∧ ledger_entries (tables s) !! ledger_id = None ∧
    tables s' = with_payment_orders (with_payment_captures (with_ledger_rows (with_credit_grants (tables s)
      (<[grant_id := mkCreditGrant tenant_id (sc_wallet_id scope) value value currency "payment_provider_capture"
           (server_now number) None "active"]> (credit_grants (tables s))))
      (<[ledger_id := mkLedgerEntry tenant_id (sc_project_id scope) (Some (sc_wallet_id scope)) None "credit_grant" value
           currency "confirmed" key]> (ledger_entries (tables s))))
      (<[capture_id := mkPaymentCapture (pc_tenant_id capture) (pc_project_id capture) (pc_wallet_id capture)
           (pc_order_id capture) (pc_payment_intent_id capture) (pc_provider_reference_hash capture)
           (pc_provider_reference_redacted capture) (pc_currency capture) (pc_amount capture) (pc_status capture)
           (pc_idempotency_key_hash capture) (Some grant_id) (Some ledger_id) (pc_invoice_id capture)]>
         (payment_captures (tables s)))) orders.
Proof.
  unfold credit_capture. intros Hrun Hcapture Htenant Hgrant Hledger. inv_db.
  repeat match goal with Hstatement : (_ ≫= _) = Some _ |- _ =>
    apply bind_Some in Hstatement as (? & ?%numeric_column_Some & Hstatement);
    apply bind_Some in Hstatement as (? & ? & [= <- <-]) end. cbn [tables executed] in *. simplify_eq.
  match goal with Hinsert : insert_credit_grant _ _ _ = _ |- _ => apply insert_credit_grant_Some in Hinsert as (? & ? & ->) end.
  match goal with Hinsert : insert_ledger_entry _ _ _ = _ |- _ => apply insert_ledger_entry_Some in Hinsert as (? & ->) end.
  cbn [cg_amount ledger_entries with_credit_grants payment_captures with_ledger_rows] in *.
  erewrite update_where_Some by done. rewrite Hgrant, Hledger. cbn [is_some orb]. eauto 15.
Qed.

(** What a capture has checked of the intent and the wallet. *)
Record scope_checked (t : Tables) (payment_intent_id : Uuid) (scope : CaptureScope) (intent : PaymentIntent)
    (wallet : Wallet) : Prop := {
  sk_intent : payment_intents t !! payment_intent_id = Some intent;
  sk_tenant : pi_tenant_id intent = tenant_id;
  sk_currency : pi_currency intent = currency;
  sk_amount : admin_wallet_fixed_money_string (numeric_text (pi_amount intent)) = Ok amount;
  sk_scope : scope = mkCaptureScope (pi_project_id intent) (pi_wallet_id intent) (pi_order_id intent) payment_intent_id;
  sk_wallet : wallets t !! pi_wallet_id intent = Some wallet;
  sk_wallet_tenant : wa_tenant_id wallet = tenant_id;
  sk_wallet_active : wa_status wallet = "active";
  sk_wallet_currency : wa_currency wallet = currency;
}.

Lemma capture_scope_Ok payment_intent_id s scope s' :
  capture_scope request amount currency payment_intent_id s = (Ok scope, s') →
  tables s' = tables s ∧ ∃ intent wallet, scope_checked (tables s) payment_intent_id scope intent wallet.
Proof.
  unfold capture_scope. intros Hrun. inv_db. cbn [tables] in *.
  destruct (row_of pi_tenant_id _ _ _) as [intent|] eqn:Hintent; inv_db. apply row_of_Some in Hintent as [Hintent Htenant].
  destruct (_ || _) eqn:Hmismatch; inv_db. apply orb_false_iff in Hmismatch as [Hc Ha].
  rewrite negb_false_iff, bool_decide_eq_true in Hc, Ha. subst.
  destruct (_ || _ || _); inv_db.
  destruct (negb _) eqn:Hwallet; inv_db. rewrite negb_false_iff, bool_decide_eq_true in Hwallet. cbn [tables] in *.
  apply bind_Some in Hwallet as (wallet & [Hrow Hwt]%row_of_Some & Hactive).
  destruct (bool_decide (wa_status wallet = "active")) eqn:Hstatus; [|done]. injection Hactive as Hactive.
  apply bool_decide_eq_true in Hstatus. split; [done|]. exists intent, wallet. by constructor.
Qed.

(** What a capture that is written does to the tables. *)
Record captured (t t' : Tables) (scope : CaptureScope) (value : Z) (capture_id grant_id ledger_id : Uuid) : Prop := {
  cd_value : numeric_value amount = Some value;
  cd_positive : 0 < value;
  cd_new_capture : payment_captures t !! capture_id = None;
  cd_new_grant : credit_grants t !! grant_id = None;
  cd_new_entry : ledger_entries t !! ledger_id = None;
  cd_no_conflict : any_row (capture_conflict (new_capture scope value None None)) (payment_captures t) = false;
  cd_captures : payment_captures t'
    = <[capture_id := new_capture scope value (Some grant_id) (Some ledger_id)]> (payment_captures t);
  cd_grants : ∃ number, credit_grants t'
    = <[grant_id := mkCreditGrant tenant_id (sc_wallet_id scope) value value currency "payment_provider_capture"
          (server_now number) None "active"]> (credit_grants t);
  cd_entries : ∃ key, ledger_entries t'
    = <[ledger_id := mkLedgerEntry tenant_id (sc_project_id scope) (Some (sc_wallet_id scope)) None "credit_grant" value
          currency "confirmed" key]> (ledger_entries t);
  cd_intents : payment_intents t'
    = update_where pi_tenant_id tenant_id (sc_payment_intent_id scope) mark_captured (payment_intents t);
  cd_rest : payment_refunds t' = payment_refunds t ∧ payment_events t' = payment_events t ∧
    payment_reconciliations t' = payment_reconciliations t ∧ wallets t' = wallets t;
}.

Lemma write_and_credit scope s state s1 ids s2 :
  write_capture provider request payment_event_id external_event_id_hash amount currency idempotency_key_hash scope s
  = (Ok state, s1) →
  credit_capture request payment_event_id amount currency idempotency_key_hash scope (st_payment_capture_id state) s1
  = (Ok ids, s2) →
  ∃ value, captured (tables s) (tables s2) scope value (st_payment_capture_id state) ids.1 ids.2.
Proof.
  intros Hwrite Hcredit. apply write_capture_Ok in Hwrite as (id & value & orders & Hvalue & Hfresh & Hconflict & -> & Ht1).
  cbn [st_payment_capture_id] in *. eapply credit_capture_Ok in Hcredit.
  2: { rewrite Ht1. cbn [payment_captures with_payment_orders with_payment_intents with_payment_captures].
       by rewrite lookup_insert_eq. }
  2-4: done.
  destruct Hcredit as (grant_id & ledger_id & value' & now & key & orders' & -> & Hvalue' & Hpos & Hgrant & Hledger & Ht2).
  rewrite Hvalue in Hvalue'. injection Hvalue' as <-. exists value. rewrite Ht1 in *.
  cbn [fst snd credit_grants ledger_entries with_payment_orders with_payment_intents with_payment_captures] in *.
  constructor; rewrite ?Ht2; cbn; [done..| | | |done|done].
  - by rewrite insert_insert_eq.
  - eauto.
  - eauto.
Qed.

(** A capture that was just written is read back in full. *)
Lemma captured_counts t t' scope value capture_id grant_id ledger_id :
  captured t t' scope value capture_id grant_id ledger_id →
  capture_counts request amount currency scope capture_id (Some grant_id) (Some ledger_id) t' = (1, 1, 1).
Proof.
  intros [Hvalue _ _ _ _ _ Hcaptures [now Hgrants] [key Hentries] _ _]. unfold capture_counts, count_row.
  rewrite Hvalue, Hcaptures, Hgrants, Hentries. cbn [mbind option_bind]. rewrite !lookup_insert_eq.
  cbn [cg_tenant_id cg_wallet_id cg_amount cg_remaining_amount cg_currency cg_source cg_status le_tenant_id le_wallet_id
       le_entry_type le_status le_amount le_currency pc_tenant_id new_capture pc_credit_grant_id pc_ledger_entry_id is_some].
  rewrite !Z.eqb_refl, !bool_decide_true by done. done.
Qed.

Lemma replay_capture_Ok scope id row s state s' :
  replay_capture request amount currency scope id row s = (Ok state, s') →
  tables s' = tables s ∧
  state = mkCaptureState id (pc_status row) "replayed" (pc_credit_grant_id row) (pc_ledger_entry_id row).
Proof. unfold replay_capture. intros Hrun. inv_db. destruct (_ || _); inv_db. done. Qed.

Lemma report_capture_Ok scope state credit grant_id ledger_id s plan s' :
  report_capture request amount currency source_ready scope state credit grant_id ledger_id s = (Ok plan, s') →
  tables s' = tables s ∧
  ∃ execution, plan = CaptureExecuted execution ∧
    cx_action_result execution = st_readback_status state ∧ cx_payment_capture_id execution = st_payment_capture_id state ∧
    cx_credit_grant_id execution = grant_id ∧ cx_ledger_entry_id execution = ledger_id ∧
    (credit = true →
     capture_counts request amount currency scope (st_payment_capture_id state) grant_id ledger_id (tables s) = (1, 1, 1) →
     cx_credit_executor_status execution = "written" ∧ cx_reconciliation_matched execution = true).
Proof.
  unfold report_capture. destruct (if credit then _ else _) as [status reason] eqn:Hstatus. intros Hrun. inv_db.
  cbn [tables]. set (counts := capture_counts _ _ _ _ _ _ _ _) in *.
  destruct (if bool_decide (counts = (1, 1, 1)) then _ else _) as [status' reason'] eqn:Hstatus'. inv_db.
  split; [done|]. eexists. split; [done|]. cbn. split_and!; [done..|]. intros -> Hcounts.
  rewrite bool_decide_true in Hstatus' |- * by done. injection Hstatus as <- <-. by injection Hstatus' as <- <-.
Qed.

(** A capture that is not refused either finds the capture that has its
    idempotency key, or writes one. *)
Lemma capture_body_Ok payment_intent_id s plan s' :
  capture_body provider request payment_event_id external_event_id_hash amount currency idempotency_key_hash source_ready
    payment_intent_id s = (Ok plan, s') →
  ∃ execution scope intent wallet,
    plan = CaptureExecuted execution ∧ scope_checked (tables s) payment_intent_id scope intent wallet ∧
    let id := cx_payment_capture_id execution in
    (cx_action_result execution = "replayed" ∧
     ∃ row, payment_captures (tables s) !! id = Some row ∧ pc_idempotency_key_hash row = idempotency_hash ∧
       (is_Some (pc_credit_grant_id row) ∨ is_Some (pc_ledger_entry_id row) → tables s' = tables s)) ∨
    (cx_action_result execution = "written" ∧ cx_credit_executor_status execution = "written" ∧
     cx_reconciliation_matched execution = true ∧
     ∃ value grant_id ledger_id,
       cx_credit_grant_id execution = Some grant_id ∧ cx_ledger_entry_id execution = Some ledger_id ∧
       captured (tables s) (tables s') scope value id grant_id ledger_id).
Proof.
  unfold capture_body. intros Hrun. inv_db.
  match goal with Hfound : capture_scope _ _ _ _ _ = (Ok ?found, _) |- _ =>
    apply capture_scope_Ok in Hfound as (Htables & intent & wallet & Hscope); rename found into scope end.
  match goal with Hfound : find_or_write_capture _ _ _ _ _ _ _ _ _ = (Ok ?found, _) |- _ =>
    unfold find_or_write_capture in Hfound; rename Hfound into Hfind, found into state end.
  inv_db. cbn [tables] in *. rewrite Htables in *.
  destruct (head (select _ _)) as [[id row]|] eqn:Hexisting.
  - apply head_select in Hexisting as [Hrow Hkey]. rewrite andb_true_iff, bool_decide_eq_true in Hkey.
    apply replay_capture_Ok in Hfind as [Hsame ->]. cbn [tables st_credit_grant_id st_ledger_entry_id] in *.
    destruct (negb _ && negb _) eqn:Hcredit; inv_db.
    all: match goal with Hreport : report_capture _ _ _ _ _ _ _ _ _ _ = _ |- _ =>
      apply report_capture_Ok in Hreport as (Hlast & execution & -> & Haction & Hid & _) end.
    all: exists execution, scope, intent, wallet; split_and!; [done..|]; left; cbn in Haction, Hid; rewrite Hid.
    all: split; [done|]; exists row; split_and!; [done|apply Hkey|]; intros Hrefs.
    + exfalso. rewrite andb_true_iff, !negb_is_some in Hcredit. destruct Hcredit as [Hg Hl]. rewrite Hg, Hl in Hrefs.
      by destruct Hrefs as [[]|[]].
    + rewrite Hlast, Hsame. done.
  - assert (st_readback_status state = "written" ∧ st_credit_grant_id state = None ∧ st_ledger_entry_id state = None) as
      (Hwritten & Hg & Hl) by (apply write_capture_Ok in Hfind as (? & ? & ? & _ & _ & _ & -> & _); done).
    rewrite Hg, Hl in *. cbn [is_some negb andb] in Hrun. inv_db.
    match goal with Hreport : report_capture _ _ _ _ _ _ _ _ _ _ = _ |- _ =>
      apply report_capture_Ok in Hreport as (Hlast & execution & -> & Haction & Hid & Hgrant & Hledger & Hmatched) end.
    match goal with Hcredit : credit_capture _ _ _ _ _ _ _ _ = (Ok ?ids, _) |- _ =>
      destruct (write_and_credit _ _ _ _ _ _ Hfind Hcredit) as [value Hcaptured] end. cbn [tables] in Hcaptured.
    pose proof (captured_counts _ _ _ _ _ _ _ Hcaptured) as Hcounts.
    exists execution, scope, intent, wallet. split_and!; [done..|]. right. rewrite Haction, Hid, Hlast.
    destruct Hmatched as [? ?]; [done..|]. eauto 10.
Qed.

Lemma capture_plan_cases s r s' :
  execute_payment_provider_capture_plan provider request payment_event_id external_event_id_hash amount currency
    idempotency_key_hash source_ready s = (r, s') →
  (tables s' = tables s ∧ ∀ execution, r = Ok (CaptureExecuted execution) → cx_action_result execution = "replayed") ∨
  (∃ id row, payment_captures (tables s) !! id = Some row ∧ pc_credit_grant_id row = None ∧ pc_ledger_entry_id row = None) ∨
  (∃ payment_intent_id scope intent wallet value capture_id grant_id ledger_id,
     wr_payment_intent_id request = Some payment_intent_id ∧
     scope_checked (tables s) payment_intent_id scope intent wallet ∧
     captured (tables s) (tables s') scope value capture_id grant_id ledger_id ∧
     ∀ plan, r = Ok plan → ∃ execution,
       plan = CaptureExecuted execution ∧ cx_action_result execution = "written" ∧
       cx_payment_capture_id execution = capture_id ∧ cx_credit_grant_id execution = Some grant_id ∧
       cx_ledger_entry_id execution = Some ledger_id ∧ cx_credit_executor_status execution = "written" ∧
       cx_reconciliation_matched execution = true).
Proof.
  unfold execute_payment_provider_capture_plan. destruct (negb _); [intros [= <- <-]; left; naive_solver|].
  destruct (wr_payment_intent_id request) as [payment_intent_id|]; [|intros [= <- <-]; left; naive_solver].
  intros [[Hsame Hrefused]|(plan & s1 & s2 & Hbegin & Hbody & Hend & Hr)]%transaction_cases.
  { left. split; [done|]. intros execution Hok. by destruct (Hrefused _ Hok). }
  apply capture_body_Ok in Hbody as (execution & scope & intent & wallet & -> & Hscope & Hcases).
  rewrite Hbegin in *. cbn zeta in Hcases.
  destruct Hcases as [(Haction & row & Hrow & Hkey & Hsame)|(Haction & Hstatus & Hmatched & value & grant_id & ledger_id & Hg & Hl & Hcap)].
  - destruct (pc_credit_grant_id row) eqn:Hgrant, (pc_ledger_entry_id row) eqn:Hledger.
    4: by right; left; eauto.
    all: left; split; [rewrite Hend; apply Hsame; eauto|]; intros other ->; by destruct Hr as [[= ->]|].
  - right; right. rewrite <-Hend in Hcap. exists payment_intent_id, scope, intent, wallet, value.
    eexists _, _, _. split_and!; [done|exact Hscope|exact Hcap|]. intros plan ->. destruct Hr as [[= ->]|]; [|done].
    exists execution. auto 10.
Qed.

End captures.

(** ** The accounts of captured payments *)

(** The credit grant of a capture: untouched, or voided by a reversal. *)
Record grant_of_capture (capture : PaymentCapture) (grant : CreditGrant) : Prop := {
  gc_tenant : cg_tenant_id grant = pc_tenant_id capture;
  gc_wallet : cg_wallet_id grant = pc_wallet_id capture;
  gc_amount : cg_amount grant = pc_amount capture;
  gc_currency : cg_currency grant = pc_currency capture;
  gc_source : cg_source grant = "payment_provider_capture";
  gc_unlimited : cg_valid_until grant = None;
  gc_state : cg_status grant = "active" ∧ cg_remaining_amount grant = cg_amount grant ∨
    cg_status grant = "voided" ∧ cg_remaining_amount grant = 0;
}.

Record entry_of_capture (capture : PaymentCapture) (entry : LedgerEntry) : Prop := {
  ec_tenant : le_tenant_id entry = pc_tenant_id capture;
  ec_wallet : le_wallet_id entry = Some (pc_wallet_id capture);
  ec_type : le_entry_type entry = "credit_grant";
  ec_amount : le_amount entry = pc_amount capture;
  ec_currency : le_currency entry = pc_currency capture;
  ec_status : le_status entry = "confirmed";
}.

Record intent_of_capture (capture : PaymentCapture) (intent : PaymentIntent) : Prop := {
  ic_tenant : pi_tenant_id intent = pc_tenant_id capture;
  ic_wallet : pi_wallet_id intent = pc_wallet_id capture;
  ic_amount : pi_amount intent = pc_amount capture;
  ic_currency : pi_currency intent = pc_currency capture;
}.

(** Every capture is one a webhook wrote and has one credit grant and one ledger
    entry of its own, over the amount of its intent, and no event is captured twice
    for an intent. The captures of the local demo of the administration interface,
    whose grant has another source and whose entry another type, are not of this
    form. *)
Record accounted (t : Tables) : Prop := {
  ac_refs id capture : payment_captures t !! id = Some capture →
    ∃ grant_id ledger_id grant entry intent,
      pc_credit_grant_id capture = Some grant_id ∧ pc_ledger_entry_id capture = Some ledger_id ∧
      credit_grants t !! grant_id = Some grant ∧ grant_of_capture capture grant ∧
      ledger_entries t !! ledger_id = Some entry ∧ entry_of_capture capture entry ∧
      payment_intents t !! pc_payment_intent_id capture = Some intent ∧ intent_of_capture capture intent;
  ac_own id capture id' capture' :
    payment_captures t !! id = Some capture → payment_captures t !! id' = Some capture' →
    pc_credit_grant_id capture = pc_credit_grant_id capture' ∨ pc_ledger_entry_id capture = pc_ledger_entry_id capture' →
    id = id';
  ac_once id capture id' capture' :
    payment_captures t !! id = Some capture → payment_captures t !! id' = Some capture' →
    capture_conflict capture capture' = true → id = id';
  ac_amounts id intent : payment_intents t !! id = Some intent → 0 < pi_amount intent < 10 ^ 20;
}.

Lemma capture_conflict_sym a b : capture_conflict a b = capture_conflict b a.
Proof.
  unfold capture_conflict. rewrite (Z.eqb_sym (pc_tenant_id b)), (Z.eqb_sym (pc_payment_intent_id b)).
  f_equal. f_equal; [|f_equal]; apply bool_decide_ext; naive_solver.
Qed.

Section preservation.
Context {P : PostgresServer} {H : Sha256} {U : UuidDisplay}.
Variables (provider : string) (request : PaymentProviderWebhookEventRequest) (payment_event_id : Uuid)
  (external_event_id_hash amount currency : string) (idempotency_key_hash : option string) (source_ready : bool).

Abbreviation checked_scope := (scope_checked request amount currency).
Abbreviation captured_into :=
  (captured provider request payment_event_id external_event_id_hash amount currency idempotency_key_hash).

(** A capture is over the amount of its intent. *)
Lemma captured_amount t t' payment_intent_id scope intent wallet value capture_id grant_id ledger_id :
  accounted t → checked_scope t payment_intent_id scope intent wallet →
  captured_into t t' scope value capture_id grant_id ledger_id →
  value = pi_amount intent ∧ amount = numeric_text value.
Proof.
  intros Hacc Hscope Hcap. pose proof (ac_amounts _ Hacc _ _ (sk_intent _ _ _ _ _ _ _ _ Hscope)) as Hrange.
  pose proof (sk_amount _ _ _ _ _ _ _ _ Hscope) as Hamount. rewrite money_string_text in Hamount by width_lia.
  injection Hamount as Hamount. pose proof (cd_value _ _ _ _ _ _ _ _ _ _ _ _ _ _ Hcap) as Hvalue.
  rewrite <-Hamount, numeric_text_value in Hvalue by width_lia. by injection Hvalue as <-.
Qed.

(** The intents after a capture differ in their status alone. *)
Lemma captured_intents rows tenant_id id other intent :
  rows !! other = Some intent →
  ∃ intent', update_where pi_tenant_id tenant_id id mark_captured rows !! other = Some intent' ∧
    pi_tenant_id intent' = pi_tenant_id intent ∧ pi_wallet_id intent' = pi_wallet_id intent ∧
    pi_amount intent' = pi_amount intent ∧ pi_currency intent' = pi_currency intent.
Proof.
  intros Hother. unfold update_where. destruct (row_of _ _ _ _) as [row|] eqn:Hrow; [|eauto 10].
  apply row_of_Some in Hrow as [Hrow _]. destruct (decide (other = id)) as [->|Hne].
  - rewrite lookup_insert_eq. simplify_eq. eexists. split; [done|]. done.
  - rewrite lookup_insert_ne by done. eauto 10.
Qed.

Lemma captured_intents_inv rows tenant_id id other intent' :
  update_where pi_tenant_id tenant_id id mark_captured rows !! other = Some intent' →
  ∃ intent, rows !! other = Some intent ∧ pi_amount intent' = pi_amount intent.
Proof.
  unfold update_where. destruct (row_of _ _ _ _) as [row|] eqn:Hrow; [|eauto].
  apply row_of_Some in Hrow as [Hrow _]. rewrite lookup_insert. case_decide; naive_solver.
Qed.

Lemma captured_accounted t t' payment_intent_id scope intent wallet value capture_id grant_id ledger_id :
  accounted t → checked_scope t payment_intent_id scope intent wallet →
  captured_into t t' scope value capture_id grant_id ledger_id → accounted t'.
Proof.
  intros Hacc Hscope Hcap. destruct (captured_amount _ _ _ _ _ _ _ _ _ _ Hacc Hscope Hcap) as [Hvalue Htext].
  destruct Hcap as [_ Hpos Hfresh Hfreshg Hfreshl Hconflict Hcaptures [now Hgrants] [key Hentries] Hintents _].
  destruct Hscope as [Hintent Htenant Hcurrency _ -> _ _ _ _]. constructor.
  - intros id capture. rewrite Hcaptures, lookup_insert, Hgrants, Hentries, Hintents. case_decide as Hid.
    + intros [= <-]. exists grant_id, ledger_id. rewrite !lookup_insert_eq.
      destruct (captured_intents (payment_intents t) (wr_tenant_id request) payment_intent_id _ _ Hintent)
        as (intent' & Hintent' & Ht & Hw & Ha & Hc).
      eexists _, _, intent'. cbn. split_and!; [done|done|done| |done| |exact Hintent'|]; constructor; cbn; try done.
      * by left.
      * congruence.
      * congruence.
      * congruence.
    + intros Hcapture. destruct (ac_refs _ Hacc _ _ Hcapture) as (g & l & grant & entry & i & ? & ? & Hg & ? & Hl & ? & Hi & Hic).
      destruct (captured_intents (payment_intents t) (wr_tenant_id request) payment_intent_id _ _ Hi)
        as (i' & Hi' & Ht & Hw & Ha & Hc).
      exists g, l, grant, entry, i'. rewrite !lookup_insert_ne by congruence. split_and!; try done.
      destruct Hic. constructor; congruence.
  - intros id capture id' capture'. rewrite Hcaptures, !lookup_insert. case_decide; case_decide; [congruence|..].
    + intros [= <-] Hcapture' Hrefs. destruct (ac_refs _ Hacc _ _ Hcapture') as (g & l & ? & ? & ? & Hg & Hl & ? & _ & ? & _).
      cbn in Hrefs. rewrite Hg, Hl in Hrefs. destruct Hrefs; simplify_eq.
    + intros Hcapture [= <-] Hrefs. destruct (ac_refs _ Hacc _ _ Hcapture) as (g & l & ? & ? & ? & Hg & Hl & ? & _ & ? & _).
      cbn in Hrefs. rewrite Hg, Hl in Hrefs. destruct Hrefs; simplify_eq.
    + by apply (ac_own _ Hacc).
  - rewrite any_row_false in Hconflict. intros id capture id' capture'. rewrite Hcaptures, !lookup_insert.
    case_decide; case_decide; [congruence|..].
    + intros [= <-] Hcapture' Hc. discriminate (eq_trans (eq_sym (Hconflict _ _ Hcapture')) Hc).
    + intros Hcapture [= <-] Hc. rewrite capture_conflict_sym in Hc.
      discriminate (eq_trans (eq_sym (Hconflict _ _ Hcapture)) Hc).
    + by apply (ac_once _ Hacc).
  - intros id other. rewrite Hintents. intros (i & Hi & ->)%captured_intents_inv. by apply (ac_amounts _ Hacc id).
Qed.

Lemma capture_plan_accounted s r s' :
  execute_payment_provider_capture_plan provider request payment_event_id external_event_id_hash amount currency
    idempotency_key_hash source_ready s = (r, s') →
  accounted (tables s) → accounted (tables s').
Proof.
  intros [[-> _]|[(id & row & Hrow & Hgrant & _)|(intent_id & scope & intent & wallet & value & cid & gid & lid & _ & Hscope & Hcap & _)]]%capture_plan_cases Hacc.
  - done.
  - destruct (ac_refs _ Hacc _ _ Hrow) as (? & ? & ? & ? & ? & Hsome & _). congruence.
  - by eapply captured_accounted.
Qed.

End preservation.

(** *** Statement by statement *)

Definition preserves {E A} (I : Tables → Prop) (m : Db E A) : Prop :=
  ∀ s r s', m s = (r, s') → I (tables s) → I (tables s').

Lemma preserves_ret {E A} I (a : A) : preserves I (mret a : Db E A).
Proof. by intros s r s' [= <- <-]. Qed.

Lemma preserves_throw {E A} I (e : E) : preserves I (throw e : Db E A).
Proof. by intros s r s' [= <- <-]. Qed.

Lemma preserves_lift {E A} I (m : result E A) : preserves I (lift m).
Proof. by intros s r s' [= <- <-]. Qed.

Lemma preserves_bind {E A B} I (m : Db E A) (k : A → Db E B) :
  preserves I m → (∀ a, preserves I (k a)) → preserves I (m ≫= k).
Proof.
  intros Hm Hk s r s'. unfold mbind, db_bind. destruct (m s) as [[a|e] s1] eqn:Hrun.
  - intros Hrest Hs. eapply Hk; [exact Hrest|]. by eapply Hm.
  - intros [= <- <-]. by eapply Hm.
Qed.

Lemma preserves_failing {A} I (m : Db AdminError A) : preserves I m → preserves I (failing m).
Proof.
  intros Hm s r s'. unfold failing, map_db_err. destruct (m s) as [r1 s1] eqn:Hrun. intros [= <- <-]. by eapply Hm.
Qed.

Section preserving.
Context {P : PostgresServer}.

Lemma preserves_sql {A} I (statement : nat → Tables → option (A * Tables)) :
  (∀ n t a t', statement n t = Some (a, t') → I t → I t') → preserves I (sql statement).
Proof.
  intros Hstatement s r s'. unfold sql. destruct (connection (executed s)); [..|by intros [= <- <-]].
  all: destruct (statement (executed s) (tables s)) as [[a t]|] eqn:Hrun; [|by intros [= <- <-]].
  all: intros [= <- <-]; cbn; by eapply Hstatement.
Qed.

Lemma preserves_query {A} I (read : Tables → A) : preserves I (query read).
Proof. apply preserves_sql. by intros n t a t' [= <- <-]. Qed.

Lemma preserves_execute I (update : Tables → Tables) : (∀ t, I t → I (update t)) → preserves I (execute update).
Proof. intros Hupdate. apply preserves_sql. intros n t a t' [= <- <-]. apply Hupdate. Qed.

End preserving.

Create HintDb preserving.
#[export] Hint Resolve preserves_ret preserves_throw preserves_lift preserves_query preserves_failing : preserving.
#[export] Hint Extern 2 (preserves _ (_ ≫= _)) => apply preserves_bind; [|intros ?] : preserving.

(** The accounts depend on four tables. *)
Lemma accounted_ext t t' :
  payment_captures t' = payment_captures t → credit_grants t' = credit_grants t → ledger_entries t' = ledger_entries t →
  payment_intents t' = payment_intents t → accounted t → accounted t'.
Proof. intros Hc Hg Hl Hi []. constructor; rewrite ?Hc, ?Hg, ?Hl, ?Hi; done. Qed.

Lemma accounted_new_entry t id entry :
  ledger_entries t !! id = None → accounted t → accounted (with_ledger_rows t (<[id := entry]> (ledger_entries t))).
Proof.
  intros Hfresh [Hrefs Hown Honce Hamounts]. constructor; cbn; [|done..].
  intros cid capture Hcapture. destruct (Hrefs _ _ Hcapture) as (g & l & grant & e & i & ? & ? & ? & ? & He & ? & ? & ?).
  exists g, l, grant, e, i. rewrite lookup_insert_ne by congruence. done.
Qed.

Lemma accounted_void t id grant :
  credit_grants t !! id = Some grant → cg_status grant = "active" → cg_amount grant = cg_remaining_amount grant →
  accounted t →
  accounted (with_credit_grants t (<[id := mkCreditGrant (cg_tenant_id grant) (cg_wallet_id grant) (cg_amount grant) 0
    (cg_currency grant) (cg_source grant) (cg_valid_from grant) (cg_valid_until grant) "voided"]> (credit_grants t))).
Proof.
  intros Hgrant Hactive Hfull [Hrefs Hown Honce Hamounts]. constructor; cbn; [|done..].
  intros cid capture Hcapture. destruct (Hrefs _ _ Hcapture) as (g & l & grant' & e & i & ? & ? & Hg & Hgc & ? & ? & ? & ?).
  exists g, l. rewrite lookup_insert. case_decide as Hid; [|by exists grant', e, i]. subst g. simplify_eq.
  eexists _, e, i. split_and!; try done. destruct Hgc. constructor; cbn; auto.
Qed.

Section reversals.
Context {P : PostgresServer} {H : Sha256} {U : UuidDisplay}.
Variables (request : PaymentProviderWebhookEventRequest) (payment_event_id : Uuid) (amount currency : string)
  (idempotency_key_hash : option string) (source_ready : bool).

Lemma void_statement_cases wallet_id grant_id t b t' :
  void_statement request amount currency wallet_id grant_id t = (b, t') →
  b = false ∧ t' = t ∨
  ∃ grant, b = true ∧ credit_grants t !! grant_id = Some grant ∧ cg_tenant_id grant = wr_tenant_id request ∧
    cg_wallet_id grant = wallet_id ∧ cg_currency grant = currency ∧ cg_status grant = "active" ∧
    Some (cg_amount grant) = numeric_value amount ∧ Some (cg_remaining_amount grant) = numeric_value amount ∧
    t' = with_credit_grants t (<[grant_id := mkCreditGrant (cg_tenant_id grant) (cg_wallet_id grant) (cg_amount grant) 0
           (cg_currency grant) (cg_source grant) (cg_valid_from grant) (cg_valid_until grant) "voided"]> (credit_grants t)).
Proof.
  unfold void_statement. destruct (row_of _ _ _ _) as [grant|] eqn:Hrow; [|by intros [= <- <-]; left].
  apply row_of_Some in Hrow as [Hrow Htenant].
  destruct (_ && _) eqn:Hguard; [|by intros [= <- <-]; left]. intros [= <- <-].
  rewrite !andb_true_iff, !bool_decide_eq_true, Z.eqb_eq in Hguard. right. exists grant. naive_solver.
Qed.

Lemma void_preserves wallet_id grant_id n t b t' :
  (λ (_ : nat) t, Some (void_statement request amount currency wallet_id grant_id t)) n t = Some (b, t') →
  accounted t → accounted t'.
Proof.
  intros [= [[_ ->]|(grant & _ & Hgrant & _ & _ & _ & Hactive & Ha & Hr & ->)]%void_statement_cases]; [done|].
  apply accounted_void; [done..|]. congruence.
Qed.

Lemma refund_preserves payment_capture_id capture :
  preserves accounted
    (find_or_write_refund request payment_event_id amount currency idempotency_key_hash payment_capture_id capture).
Proof.
  apply preserves_bind; [auto with preserving|]. intros [[id row]|]; [auto with preserving|].
  apply preserves_bind; [|intros id; apply preserves_bind; [|auto with preserving]].
  - apply preserves_sql. intros n t a t' (value & _ & Hinsert)%bind_Some.
    apply bind_Some in Hinsert as (t1 & [_ ->]%insert_payment_refund_Some & [= _ <-]). by apply accounted_ext.
  - apply preserves_execute. intros t. by apply accounted_ext.
Qed.

Lemma reversal_entry_preserves capture refund :
  preserves accounted
    (reversal_entry request payment_event_id amount currency idempotency_key_hash capture refund).
Proof.
  unfold reversal_entry. destruct (rs_reversal_ledger_entry_id refund); [auto with preserving|].
  destruct (pc_ledger_entry_id capture) as [source_id|]; [|auto with preserving].
  apply preserves_bind; [auto with preserving|]. intros [source|]; [|auto with preserving].
  apply preserves_bind; [auto with preserving|]. intros safe. destruct (negb safe); [auto with preserving|].
  apply preserves_bind.
  - unfold write_reversal_entry. apply preserves_bind; [|intros []; auto with preserving].
    apply preserves_sql. intros n t a t' (value & _ & Hrest)%bind_Some.
    destruct (any_row _ _); [by injection Hrest as _ <-|].
    apply bind_Some in Hrest as (t1 & [Hfresh ->]%insert_ledger_entry_Some & [= _ <-]). by apply accounted_new_entry.
  - intros [id|]; [|auto with preserving]. apply preserves_bind; [|auto with preserving].
    apply preserves_execute. intros t. by apply accounted_ext.
Qed.

Lemma grant_preserves capture reversal_id :
  preserves accounted (reverse_credit_grant request amount currency capture reversal_id).
Proof.
  unfold reverse_credit_grant. destruct (pc_credit_grant_id capture) as [grant_id|]; [|auto with preserving].
  apply preserves_bind; [auto with preserving|]. intros [grant|]; [|auto with preserving].
  do 2 (apply preserves_bind; [auto with preserving|]; intros ?).
  repeat (destruct (negb _ || _) || destruct (_ && _) || destruct (negb _)); try (auto with preserving).
  all: apply preserves_bind; [apply preserves_sql, void_preserves|]; intros []; auto with preserving.
Qed.

Lemma reconciliation_preserves payment_capture_id capture refund reversal_id :
  preserves accounted (reconcile_reversal request amount currency payment_capture_id capture refund reversal_id).
Proof.
  unfold reconcile_reversal. case_bool_decide; [|auto with preserving].
  apply preserves_bind; [|auto with preserving]. apply preserves_sql. intros n t a t' (value & _ & Hrest)%bind_Some.
  apply bind_Some in Hrest as (ledger_value & _ & Hrest).
  apply bind_Some in Hrest as (t1 & ->%insert_payment_reconciliation_Some & [= _ <-]). by apply accounted_ext.
Qed.

Lemma reversal_plan_preserves :
  preserves accounted
    (execute_payment_provider_reversal_plan request payment_event_id amount currency idempotency_key_hash source_ready).
Proof.
  assert (∀ id, preserves accounted
    (reversal_body request payment_event_id amount currency idempotency_key_hash source_ready id)) as Hbody.
  { intros id. unfold reversal_body. apply preserves_bind.
    - unfold reversal_scope. apply preserves_bind; [auto with preserving|]. intros [row|]; [|auto with preserving].
      do 2 (apply preserves_bind; [|intros ?]; [solve [auto with preserving|destruct (negb _); auto 10 with preserving]|]).
      destruct (_ : bool); [auto with preserving|]. destruct (_ || _); auto with preserving.
    - intros capture. apply preserves_bind; [apply preserves_failing, refund_preserves|]. intros refund.
      apply preserves_bind; [apply preserves_failing, reversal_entry_preserves|]. intros [[reversal_id st] reason].
      apply preserves_bind; [apply preserves_failing, grant_preserves|]. intros credit.
      apply preserves_bind; [apply preserves_failing, reconciliation_preserves|]. intros reconciliation_id.
      apply preserves_bind; auto with preserving. }
  intros s r s'. unfold execute_payment_provider_reversal_plan.
  destruct (wr_payment_capture_id request) as [id|]; [|by intros [= <- <-]].
  destruct (reversal_body _ _ _ _ _ _ id s) as [r1 s1] eqn:Hrun. intros Hend Hacc. assert (s1 = s') as <-.
  { by destruct r1 as [|[]]; simplify_eq. }
  by eapply Hbody.
Qed.

End reversals.

(** ** Reversals *)

(** Two states of the tables with the same money. *)
Record same_money (t t' : Tables) : Prop := {
  sm_captures : payment_captures t' = payment_captures t;
  sm_grants : credit_grants t' = credit_grants t;
  sm_entries : ledger_entries t' = ledger_entries t;
  sm_wallets : wallets t' = wallets t;
}.

#[export] Instance same_money_preorder : PreOrder same_money.
Proof. split; [by constructor|]. intros t1 t2 t3 [] []. constructor; congruence. Qed.

Section reversal_effects.
Context {P : PostgresServer} {H : Sha256} {U : UuidDisplay}.
Variables (request : PaymentProviderWebhookEventRequest) (payment_event_id : Uuid) (amount currency : string)
  (idempotency_key_hash : option string) (source_ready : bool).

Lemma reversal_scope_Ok payment_capture_id s capture s' :
  reversal_scope request amount currency payment_capture_id s = (Ok capture, s') →
  tables s' = tables s ∧ payment_captures (tables s) !! payment_capture_id = Some capture ∧
  pc_tenant_id capture = wr_tenant_id request ∧ pc_currency capture = currency ∧
  (0 < pc_amount capture < 10 ^ 20 → numeric_value amount = Some (pc_amount capture)).
Proof.
  unfold reversal_scope. intros Hrun. inv_db. destruct (row_of _ _ _ _) as [row|] eqn:Hrow; inv_db.
  apply row_of_Some in Hrow as [Hrow Htenant]. cbn [tables] in *.
  case_bool_decide as Hcurrency; cbn [negb] in *; inv_db; [|done].
  destruct (negb _) eqn:Hunits; inv_db. rewrite negb_false_iff, Z.eqb_eq in Hunits.
  destruct (_ || _); inv_db. split_and!; [done..|]. intros Hrange.
  match goal with Hmoney : admin_wallet_fixed_money_string _ = Ok _ |- _ =>
    rewrite money_string_text in Hmoney by width_lia; injection Hmoney as <- end.
  unfold parse_billing_fixed_decimal in *. rewrite numeric_text_parse in * by width_lia.
  match goal with Hparse : map_err _ (fd_parse amount _) = Ok _ |- _ => apply map_err_Ok in Hparse; rename Hparse into Hamount end.
  unfold numeric_value. rewrite Hamount. cbn [map_err] in *. simplify_eq. by rewrite Hunits.
Qed.

Lemma refund_same_money payment_capture_id capture t0 :
  preserves (same_money t0)
    (find_or_write_refund request payment_event_id amount currency idempotency_key_hash payment_capture_id capture).
Proof.
  apply preserves_bind; [auto with preserving|]. intros [[id row]|]; [auto with preserving|].
  apply preserves_bind; [|intros id; apply preserves_bind; [|auto with preserving]].
  - apply preserves_sql. intros n t a t' (value & _ & Hinsert)%bind_Some Hsame.
    apply bind_Some in Hinsert as (t1 & [_ ->]%insert_payment_refund_Some & [= _ <-]). by etrans.
  - apply preserves_execute. intros t Hsame. by etrans.
Qed.

Lemma reconciliation_same_money payment_capture_id capture refund reversal_id t0 :
  preserves (same_money t0) (reconcile_reversal request amount currency payment_capture_id capture refund reversal_id).
Proof.
  unfold reconcile_reversal. case_bool_decide; [|auto with preserving].
  apply preserves_bind; [|auto with preserving]. apply preserves_sql. intros n t a t' (value & _ & Hrest)%bind_Some Hsame.
  apply bind_Some in Hrest as (ledger_value & _ & Hrest).
  apply bind_Some in Hrest as (t1 & ->%insert_payment_reconciliation_Some & [= _ <-]). by etrans.
Qed.

(** The reversing entry is a credit over the amount of the capture. *)
Lemma reversal_entry_Ok capture refund s id status reason s' :
  reversal_entry request payment_event_id amount currency idempotency_key_hash capture refund s
  = (Ok (Some id, status, reason), s') →
  ledger_entries (tables s) !! id = None → status = "written" →
  payment_captures (tables s') = payment_captures (tables s) ∧ credit_grants (tables s') = credit_grants (tables s) ∧
  wallets (tables s') = wallets (tables s) ∧
  ∃ value entry, numeric_value amount = Some value ∧
    ledger_entries (tables s') = <[id := entry]> (ledger_entries (tables s)) ∧ le_tenant_id entry = wr_tenant_id request ∧
    le_wallet_id entry = Some (pc_wallet_id capture) ∧ le_currency entry = currency ∧ le_status entry = "confirmed" ∧
    le_amount entry = value.
Proof.
  unfold reversal_entry. intros Hrun Hnew ->.
  destruct (rs_reversal_ledger_entry_id refund); [by inv_db|].
  destruct (pc_ledger_entry_id capture) as [source_id|]; [|by inv_db]. inv_db.
  destruct (row_of _ _ _ _) as [source|]; inv_db; [|done]. destruct (negb _); [by inv_db|]. inv_db.
  match goal with Hwrite : write_reversal_entry _ _ _ _ _ _ _ _ _ = (Ok ?found, _) |- _ =>
    unfold write_reversal_entry in Hwrite; destruct found as [found|]; [|by inv_db] end.
  inv_db. cbn [tables] in *.
  match goal with Hstatement : (_ ≫= _) = Some _ |- _ =>
    apply bind_Some in Hstatement as (value & Hvalue%numeric_column_Some & Hstatement); rename Hstatement into Hinserted end.
  destruct (any_row _ _).
  - simplify_eq. inv_db. cbn [tables] in *.
    match goal with Hfound : Some _ = fst <$> head (select _ _) |- _ =>
      destruct (head (select _ _)) as [[other row]|] eqn:Hhead; [|done]; injection Hfound as -> end.
    apply head_select in Hhead as [Hrow _]. simplify_eq.
  - apply bind_Some in Hinserted as (t1 & [Hfresh ->]%insert_ledger_entry_Some & [= <- <-]). inv_db. cbn [tables] in *.
    simplify_eq. split_and!; [done..|]. eauto 10.
Qed.

(** The credit grant of a capture is voided, or left alone. *)
Lemma reverse_credit_grant_Ok capture reversal_id s credit s' :
  reverse_credit_grant request amount currency capture reversal_id s = (Ok credit, s') →
  if cr_written credit then
    payment_captures (tables s') = payment_captures (tables s) ∧ ledger_entries (tables s') = ledger_entries (tables s) ∧
    wallets (tables s') = wallets (tables s) ∧
    ∃ grant_id grant grant', pc_credit_grant_id capture = Some grant_id ∧ credit_grants (tables s) !! grant_id = Some grant ∧
      cg_tenant_id grant = wr_tenant_id request ∧ cg_wallet_id grant = pc_wallet_id capture ∧
      cg_currency grant = currency ∧ cg_status grant = "active" ∧ Some (cg_remaining_amount grant) = numeric_value amount ∧
      cg_status grant' = "voided" ∧
      credit_grants (tables s') = <[grant_id := grant']> (credit_grants (tables s))
  else same_money (tables s) (tables s').
Proof.
  unfold reverse_credit_grant. intros Hrun. destruct (pc_credit_grant_id capture) as [grant_id|]; [|by inv_db].
  inv_db. destruct (row_of _ _ _ _) as [row|]; inv_db; [|done]. cbn [tables] in *.
  do 2 match type of Hrun with (if ?b then _ else _) _ = _ => destruct b; [by inv_db|] end.
  match type of Hrun with (if ?b then _ else _) _ = _ => destruct b end.
  2: by repeat match type of Hrun with (if ?b then _ else _) _ = _ => destruct b end; inv_db.
  inv_db. cbn [tables] in *.
  match goal with Hvoid : Some (void_statement _ _ _ _ _ _) = Some _ |- _ =>
    injection Hvoid as [[-> ->]|(grant & -> & Hgrant & Ht & Hw & Hc & Hst & _ & Hr & ->)]%void_statement_cases end.
  - by inv_db.
  - inv_db. cbn. split_and!; [done..|]. eexists _, grant, _. split_and!; [done..| |reflexivity]. done.
Qed.

(** The effect of a reversal that writes a new reversing entry. *)
Lemma reversal_effect payment_capture_id s execution s' id :
  reversal_body request payment_event_id amount currency idempotency_key_hash source_ready payment_capture_id s
  = (Ok (ReversalExecuted execution), s') →
  rx_reversal_ledger_entry_id execution = Some id → rx_ledger_ref_status execution = "written" →
  ledger_entries (tables s) !! id = None →
  ∃ capture value entry t1 t2,
    payment_captures (tables s) !! payment_capture_id = Some capture ∧ pc_tenant_id capture = wr_tenant_id request ∧
    pc_currency capture = currency ∧ numeric_value amount = Some value ∧
    (0 < pc_amount capture < 10 ^ 20 → value = pc_amount capture) ∧
    same_money (with_ledger_rows (tables s) (<[id := entry]> (ledger_entries (tables s)))) t1 ∧
    le_tenant_id entry = wr_tenant_id request ∧ le_wallet_id entry = Some (pc_wallet_id capture) ∧
    le_currency entry = currency ∧ le_status entry = "confirmed" ∧ le_amount entry = value ∧
    same_money t2 (tables s') ∧
    if rx_credit_reversal_written execution then
      ledger_entries t2 = ledger_entries t1 ∧ wallets t2 = wallets t1 ∧
      ∃ grant_id grant grant', pc_credit_grant_id capture = Some grant_id ∧ credit_grants t1 !! grant_id = Some grant ∧
        cg_tenant_id grant = wr_tenant_id request ∧ cg_wallet_id grant = pc_wallet_id capture ∧
        cg_currency grant = currency ∧ cg_status grant = "active" ∧ cg_remaining_amount grant = value ∧
        cg_status grant' = "voided" ∧ credit_grants t2 = <[grant_id := grant']> (credit_grants t1)
    else same_money t1 t2.
Proof.
  unfold reversal_body. intros Hrun Hid Hstatus Hnew. apply db_bind_Ok in Hrun as (capture & s1 & Hscope & Hrun).
  apply reversal_scope_Ok in Hscope as (Hs1 & Hcapture & Htenant & Hcurrency & Hvalue).
  apply db_bind_Ok in Hrun as (refund & s2 & Hrefund%failing_Ok & Hrun).
  apply db_bind_Ok in Hrun as ([[rid status] reason] & s3 & Hentry%failing_Ok & Hrun).
  apply db_bind_Ok in Hrun as (credit & s4 & Hcredit%failing_Ok & Hrun).
  apply db_bind_Ok in Hrun as (reconciliation & s5 & Hrec%failing_Ok & Hrun).
  apply db_bind_Ok in Hrun as (counts & s6 & (_ & _ & ->)%failing_Ok%query_Ok & [[= <-] <-]%db_ret_Ok).
  cbn in Hid, Hstatus |- *. subst rid status.
  pose proof (refund_same_money _ _ (tables s1) _ _ _ Hrefund ltac:(done)) as [Hrc Hrg Hrl Hrw].
  pose proof (reconciliation_same_money _ _ _ _ (tables s4) _ _ _ Hrec ltac:(done)) as Hlast.
  rewrite Hs1 in *.
  eapply reversal_entry_Ok in Hentry as (Hec & Heg & Hew & value & entry & Hv & Hel & ? & ? & ? & ? & <-); [|by rewrite Hrl|done].
  exists capture, (le_amount entry), entry, (tables s3), (tables s4). split_and!; try done.
  - intros Hrange. specialize (Hvalue Hrange). congruence.
  - constructor; cbn; congruence.
  - apply reverse_credit_grant_Ok in Hcredit. destruct (cr_written credit); [|done].
    destruct Hcredit as (_ & ? & ? & gid & grant & grant' & ? & ? & ? & ? & ? & ? & Hr & ? & ?).
    split_and!; [done..|]. exists gid, grant, grant'. split_and!; try done. congruence.
Qed.

End reversal_effects.

(** ** Deliveries of webhooks *)

(** Two states of the tables that differ at most in the events. *)
Record same_accounts (t t' : Tables) : Prop := {
  sa_orders : payment_orders t' = payment_orders t;
  sa_intents : payment_intents t' = payment_intents t;
  sa_captures : payment_captures t' = payment_captures t;
  sa_refunds : payment_refunds t' = payment_refunds t;
  sa_reconciliations : payment_reconciliations t' = payment_reconciliations t;
  sa_grants : credit_grants t' = credit_grants t;
  sa_entries : ledger_entries t' = ledger_entries t;
  sa_wallets : wallets t' = wallets t;
}.

#[export] Instance same_accounts_preorder : PreOrder same_accounts.
Proof. split; [by constructor|]. intros t1 t2 t3 [] []. constructor; congruence. Qed.

Section deliveries.
Context {P : PostgresServer} {H : Sha256} {U : UuidDisplay} {UP : UuidParse} {J : SerdeJson} {JS : SerdeJsonSlice J}.

(** The event is recorded before its plan runs. *)
Lemma event_then_plan provider request hash amount currency key source_ready s r s' :
  insert_verified_payment_provider_event_readback provider request hash amount currency key source_ready s = (r, s') →
  same_accounts (tables s) (tables s') ∧ (∀ a, r ≠ Ok a) ∨
  ∃ id s1 r1, same_accounts (tables s) (tables s1) ∧
    execute_verified_payment_provider_business_plan provider request id hash amount currency key source_ready s1
    = (r1, s') ∧ r = (plan ← r1; Ok (id, plan)).
Proof.
  assert (preserves (same_accounts (tables s)) (sql (λ number t,
    t ← insert_payment_event (new_uuid number)
          (mkPaymentEvent (wr_tenant_id request) (wr_project_id request) (wr_wallet_id request) (wr_order_id request)
             (wr_payment_intent_id request) (wr_payment_capture_id request)
             (payment_provider_db_event_type (wr_event_type request)) "applied" key) t;
    Some (new_uuid number, t)))) as Hinsert.
  { apply preserves_sql. intros n t a t' (t1 & ->%insert_payment_event_Some & [= _ <-])%bind_Some Hsame.
    etrans; [exact Hsame|]. by constructor. }
  unfold insert_verified_payment_provider_event_readback. cbn zeta. unfold mbind at 1, db_bind at 1.
  destruct (sql _ s) as [[id|e] s1] eqn:Hevent; specialize (Hinsert _ _ _ Hevent ltac:(done)).
  2: { intros [= <- <-]. left. split; [done|]. by intros a. }
  unfold mbind at 1, db_bind at 1. destruct (sql _ s1) as [[row|e] s2] eqn:Hread.
  all: assert (same_accounts (tables s) (tables s2)) as Hs2
    by (revert Hread Hinsert; apply (preserves_sql (same_accounts (tables s))); intros n t a t' (? & _ & [= _ <-])%bind_Some; done).
  2: { intros [= <- <-]. left. split; [done|]. by intros a. }
  unfold mbind at 1, db_bind at 1. destruct (execute_verified_payment_provider_business_plan _ _ _ _ _ _ _ _ s2) as [r1 s3] eqn:Hplan.
  destruct r1 as [plan|e]; intros [= <- <-]; right; exists id, s2; eauto.
Qed.

Lemma webhook_request_key env provider headers body provider' request source_ready :
  webhook_request env provider headers body = Ok (inr (provider', request, source_ready)) →
  wr_idempotency_key request = None.
Proof.
  unfold webhook_request. intros (name & _ & Hrest)%bind_Ok. apply bind_Ok in Hrest as (readback & _ & Hrest).
  destruct (negb _); [done|]. destruct (negb _); [done|]. destruct (ar_normalized_event readback); [|done].
  apply bind_Ok in Hrest as (req & Hreq & Hrest). apply bind_Ok in Hrest as (_ & _ & Hrest).
  apply bind_Ok in Hrest as (source & _ & Hrest). destruct (payment_provider_credential_refusal_reason _); [done|].
  injection Hrest as <- <- <-. unfold payment_provider_webhook_request_from_normalized_adapter_event in Hreq.
  repeat apply bind_Ok in Hreq as (? & _ & Hreq). by injection Hreq as <-.
Qed.

(** A webhook is answered without a trace, or handed to the executor. *)
Lemma receive_cases env provider headers body s r s' :
  receive_payment_provider_webhook env provider headers body s = (r, s') →
  s' = s ∧ (∀ id plan, r ≠ Ok (WebhookAccepted id plan)) ∨
  ∃ provider' request source_ready amount r1,
    webhook_request env provider headers body = Ok (inr (provider', request, source_ready)) ∧
    normalize_local_payment_demo_amount (wr_amount request) = Ok amount ∧
    insert_verified_payment_provider_event_readback provider' request
      (external_event_hash provider' (wr_external_event_id request)) amount (wr_currency request) None source_ready s
    = (r1, s') ∧ r = (written ← r1; Ok (WebhookAccepted written.1 written.2)).
Proof.
  unfold receive_payment_provider_webhook. unfold mbind at 1, db_bind at 1, lift at 1.
  destruct (webhook_request env provider headers body) as [[[status reason]|[[provider' request] ready]]|e] eqn:Hrequest.
  1, 3: intros [= <- <-]; by left.
  unfold mbind at 1, db_bind at 1, lift at 1, non_empty. case_bool_decide; [intros [= <- <-]; by left|].
  destruct (looks_like_secret_value _); [intros [= <- <-]; by left|].
  unfold mbind at 1, db_bind at 1, lift at 1.
  destruct (normalize_local_payment_demo_amount _) as [amount|] eqn:Hamount; [|intros [= <- <-]; by left].
  unfold mbind at 1, db_bind at 1, lift at 1. unfold normalize_local_payment_demo_currency, non_empty.
  case_bool_decide; [intros [= <- <-]; by left|]. cbn [mbind result_bind].
  destruct (validate_currency _); [|intros [= <- <-]; by left]. cbn [map_err mbind result_bind].
  rewrite (webhook_request_key _ _ _ _ _ _ _ Hrequest). unfold mbind at 1, db_bind at 1, lift at 1.
  unfold mbind at 1, db_bind at 1.
  destruct (insert_verified_payment_provider_event_readback _ _ _ _ _ _ _ s) as [r1 s1] eqn:Hwritten.
  destruct r1; intros [= <- <-]; right; eauto 10.
Qed.

Lemma same_accounted t t' : same_accounts t t' → accounted t → accounted t'.
Proof. intros []. by apply accounted_ext. Qed.

Lemma receive_preserves env provider headers body :
  preserves accounted (receive_payment_provider_webhook env provider headers body).
Proof.
  intros s r s' [[-> _]|(provider' & request & ready & amount & r1 & _ & _ & Hinsert & _)]%receive_cases Hacc; [done|].
  apply event_then_plan in Hinsert as [[Hsame _]|(id & s1 & r2 & Hsame & Hplan & _)]; [by eapply same_accounted|].
  apply (same_accounted _ _ Hsame) in Hacc. unfold execute_verified_payment_provider_business_plan in Hplan.
  destruct (wr_event_type request).
  - by injection Hplan as _ <-.
  - by eapply capture_plan_accounted.
  - by eapply reversal_plan_preserves.
  - by eapply reversal_plan_preserves.
Qed.

Record Delivery : Type := mkDelivery {
  dl_env : WebhookEnv;
  dl_provider : string;
  dl_headers : string → option string;
  dl_body : bytes;
}.

Definition deliver (s : Server) (delivery : Delivery) : result AdminError WebhookAnswer * Server :=
  receive_payment_provider_webhook (dl_env delivery) (dl_provider delivery) (dl_headers delivery) (dl_body delivery) s.

Definition deliver_all (s : Server) (deliveries : list Delivery) : Server := foldl (λ s d, (deliver s d).2) s deliveries.

(** C1: Whatever webhooks arrive, signed or not, in any order and number, and
    whichever of their statements fail or lose their answer: if the captures were
    accounted before, then so they are afterwards. That is: each capture has a
    confirmed ledger entry of type credit_grant and a credit grant of source
    payment_provider_capture without end, active and untouched or voided, both its
    own, and these, the capture and its intent agree on tenant, wallet, amount and
    currency; no event is captured twice for an intent; and the amount of every
    intent is positive and below 10^20 units. *)
Theorem payments_stay_accounted s deliveries :
  accounted (tables s) → accounted (tables (deliver_all s deliveries)).
Proof.
  revert s. induction deliveries as [|delivery deliveries IH]; intros s Hacc; [done|]. cbn. apply IH.
  destruct (deliver s delivery) as [r s'] eqn:Hdeliver. by eapply receive_preserves.
Qed.

(** A webhook with a capture event, up to the event it records. *)
Lemma capture_webhook_cases env provider headers body s r s' provider' request source_ready :
  accounted (tables s) →
  webhook_request env provider headers body = Ok (inr (provider', request, source_ready)) →
  wr_event_type request = Capture →
  receive_payment_provider_webhook env provider headers body s = (r, s') →
  let event_hash := external_event_hash provider' (wr_external_event_id request) in
  (same_accounts (tables s) (tables s') ∧
   ∀ id execution, r = Ok (WebhookAccepted id (CaptureExecuted execution)) → cx_action_result execution = "replayed") ∨
  ∃ s1 event_id amount payment_intent_id scope intent wallet capture_id grant_id ledger_id,
    same_accounts (tables s) (tables s1) ∧ wr_payment_intent_id request = Some payment_intent_id ∧
    scope_checked request amount (wr_currency request) (tables s1) payment_intent_id scope intent wallet ∧
    captured provider' request event_id event_hash amount (wr_currency request) None (tables s1) (tables s') scope
      (pi_amount intent) capture_id grant_id ledger_id ∧
    (∀ answer, r = Ok answer → ∃ id execution, answer = WebhookAccepted id (CaptureExecuted execution) ∧
       cx_action_result execution = "written").
Proof.
  intros Hacc Hrequest Hcapture Hreceive event_hash.
  apply receive_cases in Hreceive as [[-> Hanswer]|(p & q & ready & amount & r1 & Hq & _ & Hinsert & ->)].
  { left. split; [done|]. intros id execution Hr. by destruct (Hanswer _ _ Hr). }
  rewrite Hrequest in Hq. injection Hq as <- <- <-. fold event_hash in Hinsert.
  apply event_then_plan in Hinsert as [[Hsame Hfailed]|(event_id & s1 & r2 & Hsame & Hplan & ->)].
  { left. split; [done|]. destruct r1; [by destruct (Hfailed a)|done]. }
  apply (same_accounted _ _ Hsame) in Hacc. unfold execute_verified_payment_provider_business_plan in Hplan.
  rewrite Hcapture in Hplan. apply capture_plan_cases in Hplan as [[Hs' Hreplayed]|[(id & row & Hrow & Hgrant & _)|
    (intent_id & scope & intent & wallet & value & cid & gid & lid & Hintent & Hscope & Hcap & Hwritten)]].
  - left. rewrite Hs'. split; [done|]. intros id execution Hr. destruct r2 as [plan|]; [|done].
    injection Hr as <- ->. by apply Hreplayed.
  - destruct (ac_refs _ Hacc _ _ Hrow) as (? & ? & ? & ? & ? & Hsome & _). congruence.
  - right. assert (value = pi_amount intent) as -> by (eapply captured_amount; [exact Hacc|exact Hscope|exact Hcap]).
    exists s1, event_id, amount, intent_id, scope, intent, wallet, cid, gid, lid. split_and!; [done..|].
    intros answer. destruct r2 as [plan|]; [|done]. cbn. intros [= <-].
    destruct (Hwritten plan eq_refl) as (execution & -> & Haction & _). eauto.
Qed.

(** The captures of an event for an intent. *)
Definition captures_event (tenant_id payment_intent_id : Uuid) (event_hash : string) (capture : PaymentCapture) : Prop :=
  pc_tenant_id capture = tenant_id ∧ pc_payment_intent_id capture = payment_intent_id ∧
  pc_provider_reference_hash capture = event_hash.

(** C3: A capture event credits its payment once. On tables whose captures are
    accounted (as the webhooks leave them), a webhook with a capture event either changes nothing but the list of events, or it adds one capture, one
    active credit grant and one confirmed ledger entry, each over the amount of
    the intent and for the wallet of the intent, for an event that had no capture
    for that intent before. It says that it has written them only in the second
    case. *)
Theorem capture_webhook_exact env provider headers body s r s' provider' request source_ready :
  accounted (tables s) →
  webhook_request env provider headers body = Ok (inr (provider', request, source_ready)) →
  wr_event_type request = Capture →
  receive_payment_provider_webhook env provider headers body s = (r, s') →
  let event_hash := external_event_hash provider' (wr_external_event_id request) in
  (same_accounts (tables s) (tables s') ∧
   ∀ id execution, r = Ok (WebhookAccepted id (CaptureExecuted execution)) → cx_action_result execution = "replayed") ∨
  ∃ payment_intent_id intent capture_id grant_id ledger_id capture grant entry,
    wr_payment_intent_id request = Some payment_intent_id ∧
    payment_intents (tables s) !! payment_intent_id = Some intent ∧
    (∀ id other, payment_captures (tables s) !! id = Some other →
       ¬ captures_event (wr_tenant_id request) payment_intent_id event_hash other) ∧
    captures_event (wr_tenant_id request) payment_intent_id event_hash capture ∧ pc_amount capture = pi_amount intent ∧
    pc_wallet_id capture = pi_wallet_id intent ∧ pc_credit_grant_id capture = Some grant_id ∧
    pc_ledger_entry_id capture = Some ledger_id ∧ grant_of_capture capture grant ∧ cg_status grant = "active" ∧
    entry_of_capture capture entry ∧
    payment_captures (tables s) !! capture_id = None ∧ credit_grants (tables s) !! grant_id = None ∧
    ledger_entries (tables s) !! ledger_id = None ∧
    payment_captures (tables s') = <[capture_id := capture]> (payment_captures (tables s)) ∧
    credit_grants (tables s') = <[grant_id := grant]> (credit_grants (tables s)) ∧
    ledger_entries (tables s') = <[ledger_id := entry]> (ledger_entries (tables s)) ∧
    (∀ answer, r = Ok answer → ∃ id execution, answer = WebhookAccepted id (CaptureExecuted execution) ∧
       cx_action_result execution = "written").
Proof.
  intros Hacc Hrequest Hcapture Hreceive event_hash.
  destruct (capture_webhook_cases _ _ _ _ _ _ _ _ _ _ Hacc Hrequest Hcapture Hreceive)
    as [?|(s1 & event_id & amount & intent_id & scope & intent & wallet & cid & gid & lid & Hsame & Hintent & Hscope & Hcap & Hanswer)];
    [by left|right]. fold event_hash in Hcap.
  destruct Hcap as [_ _ Hc Hg Hl Hconflict Hcaptures [now Hgrants] [key Hentries] _ _].
  destruct Hscope as [Hrow Htenant Hcurrency _ -> _ _ _ _]. destruct Hsame as [_ Hi Hsc _ _ Hsg Hsl _].
  rewrite Hsc, Hsg, Hsl, Hi in *.
  exists intent_id, intent, cid, gid, lid. eexists _, _, _.
  split_and!; [done|done| | | | | | | | | |done..]; try done.
  - rewrite any_row_false in Hconflict. intros id other Hother (Ht & Hin & Hh). specialize (Hconflict _ _ Hother).
    unfold capture_conflict in Hconflict. cbn in Hconflict.
    rewrite Ht, Hin, Hh, !Z.eqb_refl, (bool_decide_true (event_hash = event_hash)), orb_true_r in Hconflict by done. done.
  - constructor; cbn; auto.
Qed.

End deliveries.

(** ** Balances *)

Lemma sum_rows_insert {R} (value : R → Z) (rows : gmap Uuid R) id row :
  rows !! id = None → sum_rows value (<[id := row]> rows) = value row + sum_rows value rows.
Proof. intros Hfresh. unfold sum_rows. rewrite (map_fold_insert_L _ _ id row rows); [done| |done]. intros. lia. Qed.

Lemma sum_rows_update {R} (value : R → Z) (rows : gmap Uuid R) id old new :
  rows !! id = Some old → sum_rows value (<[id := new]> rows) = sum_rows value rows - value old + value new.
Proof.
  intros Hold. rewrite <-(insert_delete_id rows id old Hold) at 2. rewrite <-insert_delete_eq.
  rewrite !sum_rows_insert by apply lookup_delete_eq. lia.
Qed.

(** What a row adds to the balance of a wallet. *)
Definition grant_value (tenant_id wallet_id : Uuid) (currency : string) (now : Z) (row : CreditGrant) : Z :=
  if grant_counts tenant_id wallet_id currency now row then cg_remaining_amount row else 0.

Definition entry_value (tenant_id : Uuid) (project_id : option Uuid) (wallet_id : Uuid) (currency : string)
    (row : LedgerEntry) : Z :=
  if entry_counts tenant_id project_id wallet_id currency row then le_amount row else 0.

Lemma available_balance_eq tenant_id project_id wallet_id wallet now t :
  available_balance tenant_id project_id wallet_id wallet now t
  = sum_rows (grant_value tenant_id wallet_id (wa_currency wallet) now) (credit_grants t)
    + sum_rows (entry_value tenant_id project_id wallet_id (wa_currency wallet)) (ledger_entries t)
    - wa_balance_floor wallet.
Proof. done. Qed.

Lemma active_grant_value tenant_id wallet_id currency now row :
  cg_tenant_id row = tenant_id → cg_wallet_id row = wallet_id → cg_currency row = currency → cg_status row = "active" →
  cg_valid_from row <= now → cg_valid_until row = None →
  grant_value tenant_id wallet_id currency now row = cg_remaining_amount row.
Proof.
  intros <- <- <- Hstatus Hfrom Huntil. unfold grant_value, grant_counts.
  rewrite Hstatus, Huntil, !Z.eqb_refl, (proj2 (Z.leb_le _ _)), !bool_decide_true by done. done.
Qed.

Lemma confirmed_entry_value tenant_id project_id wallet_id currency row :
  le_tenant_id row = tenant_id → le_wallet_id row = Some wallet_id → le_currency row = currency →
  le_status row = "confirmed" → entry_value tenant_id project_id wallet_id currency row = le_amount row.
Proof.
  intros <- Hwallet <- Hstatus. unfold entry_value, entry_counts. rewrite Hwallet, Hstatus, Z.eqb_refl.
  rewrite !(bool_decide_true (_ = _)) by done. done.
Qed.

Section balances.
Context {P : PostgresServer} {H : Sha256} {U : UuidDisplay} {UP : UuidParse} {J : SerdeJson} {JS : SerdeJsonSlice J}.

(** C4: A captured payment is counted twice by the gateway: when a webhook has
    written the capture of a payment, on tables whose captures are accounted, the
    balance of its wallet that requests are authorized against is higher by twice
    the amount of the payment, once for the credit grant and once for the ledger
    entry. The balance is asked for at a time no reading of the clock of the server
    is later than. *)
Theorem capture_counts_twice env provider headers body s id execution s' provider' request source_ready
    payment_intent_id intent wallet project_id now :
  accounted (tables s) →
  webhook_request env provider headers body = Ok (inr (provider', request, source_ready)) →
  wr_event_type request = Capture →
  receive_payment_provider_webhook env provider headers body s = (Ok (WebhookAccepted id (CaptureExecuted execution)), s') →
  cx_action_result execution = "written" →
  wr_payment_intent_id request = Some payment_intent_id →
  payment_intents (tables s) !! payment_intent_id = Some intent →
  wallets (tables s) !! pi_wallet_id intent = Some wallet →
  (∀ n, server_now n <= now) →
  available_balance (wr_tenant_id request) project_id (pi_wallet_id intent) wallet now (tables s')
  = available_balance (wr_tenant_id request) project_id (pi_wallet_id intent) wallet now (tables s)
    + 2 * pi_amount intent.
Proof.
  intros Hacc Hrequest Hcapture Hreceive Hwritten Hid Hrow Hwallet Hnow.
  destruct (capture_webhook_cases _ _ _ _ _ _ _ _ _ _ Hacc Hrequest Hcapture Hreceive)
    as [[_ Hreplayed]|(s1 & event_id & amount & intent_id & scope & other & w & cid & gid & lid & Hsame & Hintent & Hscope & Hcap & _)].
  { specialize (Hreplayed _ _ eq_refl). congruence. }
  destruct Hcap as [_ _ _ Hg Hl _ _ [t Hgrants] [key Hentries] _ _].
  destruct Hscope as [Hi Htenant Hcurrency _ -> Hw _ _ Hwc]. destruct Hsame as [_ Hsi _ _ _ Hsg Hsl Hsw].
  rewrite Hsi, Hsg, Hsl, Hsw in *. simplify_eq.
  rewrite !available_balance_eq, Hgrants, Hentries, !sum_rows_insert by done.
  rewrite active_grant_value, confirmed_entry_value by (done || apply Hnow). cbn. lia.
Qed.

Lemma voided_grant_value tenant_id wallet_id currency now row :
  cg_status row = "voided" → grant_value tenant_id wallet_id currency now row = 0.
Proof.
  intros Hstatus. unfold grant_value, grant_counts. rewrite Hstatus, (bool_decide_false ("voided" = "active")) by done.
  by rewrite andb_false_r.
Qed.

(** C5: A refund or chargeback does not take the payment back. On tables whose
    captures are accounted, when a webhook reports that it has written the entry
    that reverses a capture, and that entry is a new row, the balance of the wallet
    is what it was before if the credit grant of the capture was voided by it, and
    is higher by the amount of the capture if it was not. The wallet has the
    currency of the capture, and the balance is asked for when every credit grant
    has begun to be valid. *)
Theorem refund_keeps_balance env provider headers body s event_id execution s' provider' request source_ready
    payment_capture_id capture wallet reversal_id project_id now :
  accounted (tables s) →
  webhook_request env provider headers body = Ok (inr (provider', request, source_ready)) →
  wr_event_type request ∈ [Refund; Chargeback] →
  receive_payment_provider_webhook env provider headers body s
  = (Ok (WebhookAccepted event_id (ReversalExecuted execution)), s') →
  wr_payment_capture_id request = Some payment_capture_id →
  payment_captures (tables s) !! payment_capture_id = Some capture →
  wa_currency wallet = pc_currency capture →
  rx_reversal_ledger_entry_id execution = Some reversal_id → rx_ledger_ref_status execution = "written" →
  ledger_entries (tables s) !! reversal_id = None →
  (∀ id grant, credit_grants (tables s) !! id = Some grant → cg_valid_from grant <= now) →
  available_balance (wr_tenant_id request) project_id (pc_wallet_id capture) wallet now (tables s')
  = available_balance (wr_tenant_id request) project_id (pc_wallet_id capture) wallet now (tables s)
    + (if rx_credit_reversal_written execution then 0 else pc_amount capture).
Proof.
  intros Hacc Hrequest Htype Hreceive Hcid Hcapture Hwc Hrid Hstatus Hnew Hfrom.
  apply receive_cases in Hreceive as [[-> Hanswer]|(p & q & ready & amount & r1 & Hq & _ & Hinsert & Hr)].
  { by destruct (Hanswer _ _ eq_refl). }
  rewrite Hrequest in Hq. injection Hq as <- <- <-. destruct r1 as [[ev plan]|]; [|done]. injection Hr as -> <-.
  apply event_then_plan in Hinsert as [[_ Hfailed]|(eid & s1 & r2 & Hsame & Hplan & Hr)]; [by destruct (Hfailed _ eq_refl)|].
  destruct r2 as [plan|]; [|done]. injection Hr as _ <-.
  assert (execute_payment_provider_reversal_plan request eid amount (wr_currency request) None source_ready s1
    = (Ok (ReversalExecuted execution), s')) as Hreversal.
  { unfold execute_verified_payment_provider_business_plan in Hplan.
    rewrite !elem_of_cons, elem_of_nil in Htype. destruct Htype as [Ht|[Ht|[]]]; rewrite Ht in Hplan; exact Hplan. }
  clear Hplan. unfold execute_payment_provider_reversal_plan in Hreversal. rewrite Hcid in Hreversal.
  destruct (reversal_body _ _ _ _ _ _ _ s1) as [[plan|[reason|e]] s2] eqn:Hbody; [|done..]. injection Hreversal as -> <-.
  pose proof (same_accounted _ _ Hsame Hacc) as Hacc1. destruct Hsame as [_ _ Hsc _ _ Hsg Hsl Hsw].
  rewrite <-Hsc in Hcapture. rewrite <-Hsl in Hnew. rewrite <-Hsg in Hfrom.
  destruct (reversal_effect _ _ _ _ _ _ _ _ _ _ _ Hbody Hrid Hstatus Hnew)
    as (other & value & entry & t1 & t2 & Hother & Ht & Hc & Hv & Hvalue & Ht1 & Het & Hew & Hec & Hes & Hea & Ht2 & Hgrant).
  assert (other = capture) as -> by congruence. clear Hother.
  destruct (ac_refs _ Hacc1 _ _ Hcapture) as (gid & lid & grant & le & intent & Hgid & _ & Hg & Hgc & _ & _ & Hi & Hic).
  specialize (ac_amounts _ Hacc1 _ _ Hi) as Hrange. rewrite (ic_amount _ _ Hic) in Hrange. specialize (Hvalue Hrange) as ->.
  destruct Ht2 as [_ Hg2 Hl2 Hw2]. destruct Ht1 as [_ Hg1 Hl1 Hw1]. cbn in Hg1, Hl1, Hw1.
  rewrite !available_balance_eq, Hg2, Hl2, <-Hsg, <-Hsl, Hwc. destruct (rx_credit_reversal_written execution).
  - destruct Hgrant as (Hl12 & _ & gid' & grant' & voided & Hgid' & Hg' & Htn & Hwl & Hcu & Hactive & Hremaining & Hvoided & Hg12).
    assert (gid' = gid) as -> by congruence. rewrite Hg1 in Hg'. assert (grant' = grant) as -> by congruence.
    rewrite Hg12, Hl12, Hg1, Hl1, (sum_rows_update _ _ _ _ _ Hg), sum_rows_insert by done.
    rewrite (voided_grant_value _ _ _ _ voided) by done.
    rewrite active_grant_value, confirmed_entry_value; try congruence; [lia|by apply (Hfrom gid)|apply (gc_unlimited _ _ Hgc)].
  - destruct Hgrant as [_ Hg12 Hl12 _]. rewrite Hg12, Hl12, Hg1, Hl1, sum_rows_insert by done.
    rewrite confirmed_entry_value by congruence. lia.
Qed.

End balances.

(** ** Examples *)

Section examples.
#[local] Existing Instance tail_hash.
#[local] Existing Instance json_model.
#[local] Existing Instance uuid_display_model.

#[local] Instance sample_uuid_parse : UuidParse := parse_i64.

#[local] Instance sample_postgres : PostgresServer :=
  {| connection := λ _, Answered; new_uuid := λ number, 1000 + Z.of_nat number; server_now := λ _, 5 |}.

(** A webhook about 12.50 USD, with one more reference in its metadata. *)
Definition sample_event (id event_type ref_name ref_value : string) : JValue :=
  JField "id" (JStr id) (JField "type" (JStr event_type) (JField "data" (JField "object"
    (JField "id" (JStr "obj_1") (JField "amount" (JNum 1250) (JField "currency" (JStr "usd") (JField "metadata"
      (JField "tenant_id" (JStr "1") (JField ref_name (JStr ref_value) JObj)) JObj)))) JObj) JObj)).

Definition capture_body_text : string := "capture".
Definition refund_body_text : string := "refund".

#[local] Instance sample_slice : SerdeJsonSlice json_model := {|
  json_from_slice body :=
    if bool_decide (body = as_bytes capture_body_text)
    then Some (sample_event "evt_1" "payment_intent.succeeded" "payment_intent_id" "20")
    else if bool_decide (body = as_bytes refund_body_text)
    then Some (sample_event "evt_2" "charge.refunded" "payment_capture_id" "1007")
    else None;
  json_null := JNull |}.

Definition sample_tables : Tables :=
  mkTables {[30 := mkPaymentOrder 1 "pending" None None None None]}
    {[20 := mkPaymentIntent 1 None 40 30 "USD" 1250000000 "provider_handoff"]}
    ∅ ∅ ∅ ∅ ∅ ∅ {[40 := mkWallet 1 None "USD" "active" 0 false 0]} ∅ ∅.

Definition sample_server : Server := mkServer sample_tables 0.

Definition sample_env : WebhookEnv :=
  let config := mkAdapterConfigInput true true true true in
  mkWebhookEnv config "whsec" (Ok 1000) (λ _ _, Ok (config, true)).

Definition sample_headers (body name : string) : option string :=
  if bool_decide (name = "stripe-signature") then Some (hv_value (signed_header "whsec" 990 (as_bytes body))) else None.

Definition sample_delivery (body : string) : Delivery :=
  mkDelivery sample_env "stripe_like" (sample_headers body) (as_bytes body).

Lemma sample_accounted : accounted sample_tables.
Proof.
  split; cbn; [by intros * ?%lookup_empty_Some..|].
  intros id intent [_ <-]%lookup_singleton_Some. cbn. lia.
Qed.

Definition captured_server : Server := (deliver sample_server (sample_delivery capture_body_text)).2.

Definition refunded_server : Server := (deliver captured_server (sample_delivery refund_body_text)).2.

Lemma captured_server_accounted : accounted (tables captured_server).
Proof.
  unfold captured_server. destruct (deliver sample_server _) as [r s'] eqn:Hdeliver.
  exact (receive_preserves _ _ _ _ _ _ _ Hdeliver sample_accounted).
Qed.

Definition sample_balance (now : Z) (s : Server) : Z :=
  available_balance 1 None 40 (mkWallet 1 None "USD" "active" 0 false 0) now (tables s).

Lemma webhook_amount_exact_witness :
  in_i64 1250 ∧ normalize_local_payment_demo_amount (format_minor_amount 1250) = Ok "12.50000000" ∧
  numeric_value "12.50000000" = Some 1250000000.
Proof.
  assert (in_i64 1250) as Hrange by width_lia. pose proof (webhook_amount_exact 1250 Hrange) as Hexact.
  destruct (normalize_local_payment_demo_amount (format_minor_amount 1250)) as [amount|] eqn:Hamount; [|lia].
  vm_compute in Hamount. injection Hamount as <-. split_and!; [done..|]. apply Hexact.
Defined.

(** The payment is delivered twice, then refunded. *)
Lemma payments_stay_accounted_witness :
  accounted sample_tables ∧
  let s := deliver_all sample_server (sample_delivery <$> [capture_body_text; capture_body_text; refund_body_text]) in
  accounted (tables s) ∧ size (payment_captures (tables s)) = 1%nat ∧ size (payment_refunds (tables s)) = 1%nat.
Proof.
  split; [apply sample_accounted|]. split; [|by vm_compute].
  exact (payments_stay_accounted sample_server _ sample_accounted).
Defined.

Definition capture_request : PaymentProviderWebhookEventRequest :=
  mkWebhookEventRequest 1 Capture "evt_1" "12.50000000" "USD" None None None None (Some 20) None None None None None None.

Lemma capture_request_read :
  webhook_request sample_env "stripe_like" (sample_headers capture_body_text) (as_bytes capture_body_text)
  = Ok (inr ("stripe_like", capture_request, true)).
Proof. by vm_compute. Qed.

Definition capture_execution : CaptureExecution :=
  mkCaptureExecution "written" 1007 "captured" (Some 1010) (Some 1011) "written" "capture_credit_grant_and_ledger_written"
    true true true None.

Lemma capture_received :
  receive_payment_provider_webhook sample_env "stripe_like" (sample_headers capture_body_text) (as_bytes capture_body_text)
    sample_server
  = (Ok (WebhookAccepted 1000 (CaptureExecuted capture_execution)), captured_server).
Proof. by vm_compute. Qed.

Lemma capture_webhook_exact_witness :
  accounted (tables sample_server) ∧
  ∃ id capture, payment_captures (tables captured_server) = {[id := capture]} ∧ pc_amount capture = 1250000000.
Proof.
  split; [apply sample_accounted|].
  destruct (capture_webhook_exact _ _ _ _ sample_server _ captured_server _ _ _ sample_accounted capture_request_read
    eq_refl capture_received) as [[_ Hreplayed]|Hnew].
  - by specialize (Hreplayed _ _ eq_refl).
  - destruct Hnew as (pid & intent & cid & gid & lid & capture & grant & entry & [= <-] & Hintent & _ & _ & Hamount & _
      & _ & _ & _ & _ & _ & _ & _ & _ & Hcaptures & _).
    injection Hintent as <-. exists cid, capture. split; [exact Hcaptures|exact Hamount].
Defined.

Lemma capture_counts_twice_witness :
  accounted (tables sample_server) ∧
  sample_balance 5 captured_server = sample_balance 5 sample_server + 2 * 1250000000.
Proof.
  split; [apply sample_accounted|].
  exact (capture_counts_twice _ _ _ _ sample_server _ _ captured_server _ _ _ 20
    (mkPaymentIntent 1 None 40 30 "USD" 1250000000 "provider_handoff") (mkWallet 1 None "USD" "active" 0 false 0) None 5
    sample_accounted capture_request_read eq_refl capture_received eq_refl eq_refl eq_refl eq_refl (λ _, Z.le_refl 5)).
Defined.

Definition refund_request : PaymentProviderWebhookEventRequest :=
  mkWebhookEventRequest 1 Refund "evt_2" "12.50000000" "USD" None None None None None (Some 1007) None None None None None.

Lemma refund_request_read :
  webhook_request sample_env "stripe_like" (sample_headers refund_body_text) (as_bytes refund_body_text)
  = Ok (inr ("stripe_like", refund_request, true)).
Proof. by vm_compute. Qed.

Definition refund_execution : ReversalExecution :=
  mkReversalExecution "written" 1020 "refunded" "provider_refund" (Some 1023) "written" "reversal_ledger_ref_written"
    (Some "voided") "written" "source_credit_grant_voided" true (Some 1028) "matched" true None.

Lemma refund_received :
  receive_payment_provider_webhook sample_env "stripe_like" (sample_headers refund_body_text) (as_bytes refund_body_text)
    captured_server
  = (Ok (WebhookAccepted 1016 (ReversalExecuted refund_execution)), refunded_server).
Proof. by vm_compute. Qed.

Lemma captured_grants_valid id grant :
  credit_grants (tables captured_server) !! id = Some grant → cg_valid_from grant <= 5.
Proof.
  assert (map_Forall (λ _ grant, cg_valid_from grant <= 5) (credit_grants (tables captured_server))) as Hvalid
    by (apply (bool_decide_unpack _); by vm_compute).
  apply Hvalid.
Qed.

(** The payment is on the balance twice before it is refunded, and afterwards. *)
Lemma refund_keeps_balance_witness :
  accounted (tables captured_server) ∧ sample_balance 5 refunded_server = sample_balance 5 captured_server + 0.
Proof.
  split; [apply captured_server_accounted|].
  destruct (payment_captures (tables captured_server) !! 1007) as [capture|] eqn:Hcapture; [|by vm_compute in Hcapture].
  assert (pc_wallet_id capture = 40 ∧ pc_currency capture = "USD") as [Hwallet Hcurrency]
    by (vm_compute in Hcapture; injection Hcapture as <-; done).
  pose proof (refund_keeps_balance _ _ _ _ captured_server _ _ refunded_server _ _ _ 1007 capture
    (mkWallet 1 None "USD" "active" 0 false 0) 1023 None 5 captured_server_accounted refund_request_read
    (list_elem_of_here _ _) refund_received eq_refl Hcapture (eq_sym Hcurrency) eq_refl eq_refl eq_refl
    captured_grants_valid) as Hbalance.
  rewrite Hwallet in Hbalance. exact Hbalance.
Defined.

End examples.
